(* ===== verification/_CoqProject ===== *)
-Q . S2P
Prelude.v
Base32.v
Text.v
TextFacts.v
External.v
Identity.v
Event.v
Log.v
Bolt.v
Store.v
StoreFacts.v
Dump.v
StoreFollow.v
StoreFollowFacts.v
GenDb.v
GenDbFacts.v
GenDbRuns.v
StoreQuery.v
StoreQueryFacts.v
Wire.v
Session.v
SessionFacts.v
SessionRuns.v
SessionMeet.v
SessionInv.v
SessionCursor.v
SessionLoops.v
PullRace.v
Crawler.v
CrawlerFacts.v
Bootstrap.v
Daemon.v
DaemonOps.v
DaemonFacts.v
DaemonMachine.v
FeedRace.v
AppendRace.v
FollowRace.v
DaemonNet.v
Shutdown.v
ShutdownFacts.v
DaemonNetFacts.v
Lifecycle.v
LifecycleFacts.v
Net.v
Server.v
ServerFacts.v
Cli.v
CliFacts.v
CliFeed.v
CliFiles.v
Request.v
Tui.v
TuiFacts.v
Feed.v
TuiModel.v
TuiModelFacts.v
TuiMirror.v
TuiView.v
TuiRun.v
TuiScenario.v
Scenario.v
CliScenario.v
CoreProps.v
StoreProps.v
QueryProps.v
SyncProps.v
CrawlProps.v
BootstrapProps.v
DaemonProps.v
NetProps.v
ServerProps.v
CliProps.v
RaceProps.v
PullProps.v
ShutdownProps.v
TuiProps.v
ViewProps.v
RunProps.v
GenDbProps.v
