(* ===== verification/Prelude.v ===== *)
(** * Driftnode: a verification development

    Driftnode is a serverless social network: every user keeps signed,
    append-only logs (profile, detail, posts) in a local store, follows other
    identities, and exchanges logs with the zens (nodes) of the identities
    followed. A daemon owns the store, talks to other zens and serves a
    control API; the user interface and the command line are clients of that
    API, and the command line opens the store itself when no daemon runs.

    ** Parts, and the files that model them

    - [internal/core]: identities and keys ([Identity.v], with the text
      encoding in [Base32.v]), events with signing, verification and IDs
      ([Event.v]), the projections of a log: profile, detail, follow set,
      tombstones, posts ([Log.v]), times as text ([Text.v], with what else the
      program takes from Go's text packages: decimals, trimming, base64).
    - [internal/store]: [Store.v] (identity and key records, own logs, crawl
      cache, media, routing, cursors, transport key), [StoreFollow.v] (the
      follow-state cache, pins, verified set, backup; [Follow], [Unfollow]),
      [StoreQuery.v] (followers, timelines, interaction counts, likes). The
      store is a record of buckets; an operation is a state transformer
      [stM store A := store → result A * store], and a transaction that fails
      restores the state it began with.
    - [internal/sync]: [Wire.v] (messages, frames, a connection whose two
      halves are separate), [Session.v] (the server's answers, the client's
      fetches, the handshake and both roles of a session), [PullRace.v] (the
      transactions of pulls that run at once, as the steps of a machine).
    - [internal/crawler]: [Crawler.v]. [internal/bootstrap]: [Bootstrap.v].
    - [internal/daemon]: [Daemon.v] (the state in memory: subscribers, known
      zens, caches, feed pages), [DaemonOps.v] (requests and sessions),
      [DaemonNet.v] (transport key, sync rounds, crawls, bootstrap),
      [Lifecycle.v] (the settings before [Start], and [syncLoop]), [Server.v]
      (the control API of [server_grpc.go]; lemmas in [ServerFacts.v]). Four
      machines interleave the steps a handler is made of: [FeedRace.v] the
      accesses that posts and subscribers make to the shared state,
      [AppendRace.v] the transactions of concurrent [SignAndAppend]s,
      [FollowRace.v] those of concurrent [Follow]s and [Unfollow]s,
      [Shutdown.v] the channels that [Stop], [broadcast] and the streams of
      [Subscribe] share (lemmas in [ShutdownFacts.v]).
    - [internal/net]: [Net.v], listener and dialer over the tailcat library.
    - [internal/cli]: [Cli.v]. A command transforms a host: the database file,
      the daemon that may have it open, the other files, what was printed. It
      calls the control API of [Server.v] or the operations of the store, as
      [root.go] does; [CliFacts.v], [CliFeed.v] and [CliFiles.v] hold its lemmas.
    - [Request.v]: [SendRequest] of [daemon.go], requests by method name over
      the same control API.
    - [internal/tui]: [Tui.v] (lists, and the feed read as a list), [Feed.v]
      (the feed panel of [feed.go] with its map and its order, shown to be that
      list), [TuiModel.v] (the update function), [TuiView.v] (what is drawn,
      over the class [Lipgloss]), [TuiRun.v] (what the commands of [api.go] do
      to the daemon, and the messages they answer with), [TuiMirror.v]
      (conversions, and the machine of the daemon, its Subscribe stream and
      the interface).

    - [scripts/gentestdb.go]: [GenDb.v], the generator of test stores, which
      writes the crawl cache past the operations of the store; its invariant
      and its runs are in [GenDbFacts.v] and [GenDbRuns.v].
      [scripts/dumpdb.go] and [dumpmeta.go], which print one: [Dump.v].

    Definitions keep the names of the source; a prefix ([Store_], [Log_],
    [rpc_]) tells apart two of the same name. The files ending in [Facts],
    with [SessionRuns], [SessionMeet], [SessionInv], [SessionCursor],
    [SessionLoops] and [DaemonMachine], hold lemmas; the files ending in [Props] hold the
    properties, with instances at concrete inputs from the worlds of
    [Scenario.v], [CliScenario.v] and [TuiScenario.v].

    ** Code outside the repository

    [External.v] and [Bolt.v] state what is used of other packages, as type
    classes of operations with classes of laws: BLAKE3 (only that it is a
    function into 32 bytes; where distinct events must get distinct IDs the
    theorem says so of the events at hand), Ed25519, argon2id and AES-GCM,
    CBOR (deterministic, and decoding inverts encoding), bbolt buckets
    (sorted keys, limits on keys and values), and the order of [range] over a
    map, which is arbitrary. Modules [Toy] and [ToyBolt] are instances of all
    of them. Clocks, nonces and random seeds are arguments. The daemon takes
    the transport as parameters, what a listener starts with and what a dial
    gives; [Net.v] builds both from the class [Tailcat], whose laws say that a
    serialized key reads back and that a server listens at the address of its
    key. The YAML codec, the text input and the measures of terminal styles
    are parameters likewise; a command finds paths, clock, random bytes and
    terminal in a record [env].

    ** How code is represented

    A Go string or byte slice is a list of bytes. An error is a value of
    [error]: text, a wrapped error, or a panic, so that a nil dereference or
    an index out of range is an outcome the theorems can rule out. Machine
    integers are Z with their wrap-around written out ([wrap_u64],
    [wrap_i64], [wrap_i32]) where it matters. A handler that takes a lock for
    each step runs as one step, except in [FeedRace.v], where posting and
    subscribing are cut at every lock they take, in [AppendRace.v] and
    [FollowRace.v], where signing and following are cut between their
    transactions, and in [Shutdown.v], where pushing and stopping are cut at
    every select and close; where an order is left open (map
    iteration, the arrival of answers) it is a parameter. The dials of a
    sync round run one after the other, except that in [PullRace.v] the pulls of
    several sessions interleave event by event. A connection is the whole of what the
    peer will send, so a session is a function of the peer's bytes, and a peer
    that never stops sending is not modelled;
    [SessionMeet.v] puts two sessions face to face.

    ** Fuel

    [read_loop] and the loops built on it take the number of bytes left to
    read plus one: every iteration but the last consumes a frame of at least
    five bytes, so the fuel is never used up ([read_loop_total] in
    [SessionFacts.v]); [SyncProps.sync_loops_end] says where each loop ends. The crawl runs [maxDepth] rounds, the loop bound of the
    code. [TrimSpace] cuts at least one byte per step, so the length of the
    text is enough. The pages that [feed] asks the daemon for are counted by
    fuel: a page has at most 200 posts, so fuel above a two-hundredth of the
    timeline is enough ([CliProps.feed_modes]). [syncLoop] runs over the list
    of its wakes. The loop of the generator that draws a
    liker has no bound of its own, and takes fuel; [GenDbProps.draw_ends] says
    how much. Everything else is structural.

    ** What is proved

    - Core: verification accepts exactly the events signed by their author
      over a valid event; signing round trips; keys at rest; the follow set is
      last-writer-wins; two spellings of one identity; a time printed names
      its second.
    - Store: appending refines insertion into a set of events; crawled caches
      converge whatever the order of arrival; the follow-state cache agrees
      with the signed log after every operation; pins lie on follows; backups
      restore; writers that sign at once lose nothing of each other's, though
      their sequence numbers may meet, and follows of different targets at once
      leave the cache in step.
    - Sync: frames round trip; a handshake proves the peer signed our nonce;
      two honest sessions end with each holding what the other served; what a
      peer sends, whatever it is, adds only verified events of the right
      author; loops end; a cursor stays five minutes behind an event received,
      also when pulls run at once.
    - Crawler: the crawl is breadth-first search to the depth set, and what it
      stores is verified.
    - Daemon: pages are slices of the sorted posts, likes are counted per
      item, the feed cache is fresh after a post or like, the maps in memory
      stay consistent, queues are bounded, signing needs a key within its idle
      lock, a follow by token writes the identity that proved itself; the
      background loop, however rounds and crawls alternate, only adds verified
      events whatever the peers send; no post falls between the snapshot of a
      subscriber and its pushes, however they interleave; a node keeps its
      address over restarts; a shutdown under load completes.
    - Control API and user interface: no request signs without a key; what is
      pushed for a new post; panels stay well formed and drawing them never
      panics and stays in the window; a click falls on the tab that is drawn
      there; the feed does not depend on the order of arrival; once the pushes
      queued are drained, the follows panel shows the daemon's follow set; a
      post typed is signed by the daemon and shown, or refused with a notice.
    - Command line: every write of the user does the same through the daemon
      and without it; both modes of [feed] print the timeline; a key and a
      backup written to a file are restored from it, up to what the commands
      leave out; the bootstrap commands fit together, text formats included.
    - Test stores: what the generator leaves satisfies the invariants of a store
      that a daemon filled; it ends when someone can be drawn to like a post.

    Some theorems show a behaviour the code documents otherwise: a
    reflected handshake, an identity with several spellings, followers taken
    from an unauthenticated zen, a transport key lost by a failed rotation, a
    reply pushed without its prefix, a feed that an unfollow leaves stale, a
    key lost to a wrong passphrase, a backup that does not restore its key, a
    limit applied before a filter, a name cached after it changed, one sequence
    number signed twice, a channel closed twice, a
    follow cache at odds with its log.

    ** Not modelled

    The program entry; of the command line the parsing of flags, the reading
    of a passphrase, the default log path and the wait for an old daemon's socket to go ([Cli.v] takes the
    flags parsed and the passphrase typed); generated messages and gRPC itself;
    files and sockets ([Open], the control socket, [acceptLoop], tickers,
    timeouts); logging; the terminal library and the event loop of the
    interface, whose measures and commands are modelled, and the age of a post
    in words, which rounds floats. Interleavings inside other handlers than
    those of [FeedRace.v], [AppendRace.v], [FollowRace.v], [PullRace.v] and
    [Shutdown.v], and a second process that writes the store, are not modelled. *)

From Stdlib Require Export ZArith Lia.
From Stdlib Require Import Strings.Byte Strings.String.
From stdpp Require Export sorting.
From stdpp Require Export base gmap strings option list.

(** ** Bytes

    A Go [string] and a Go [[]byte] are both a list of bytes. *)

Abbreviation byte := Corelib.Init.Byte.byte.
Abbreviation bytes := (list Corelib.Init.Byte.byte).

#[export] Instance byte_eq_dec : EqDecision byte := Byte.byte_eq_dec.

#[export] Program Instance byte_countable : Countable byte :=
  inj_countable Byte.to_N Byte.of_N _.
Next Obligation. intros b. apply Byte.of_to_N. Qed.

Declare Scope go_scope.
Delimit Scope go_scope with go.
#[local] Open Scope go_scope.

(** A Go string literal: [#"driftnode:"]. *)
Definition lit (s : string) : bytes := list_byte_of_string s.
Notation "# s" := (lit s%string) (at level 5, format "# s") : go_scope.

(** The byte of a number, taken modulo 256 as Go's [byte(x)] does. *)
Definition byte_of (n : N) : byte := default Byte.x00 (Byte.of_N (n mod 256)).

Lemma to_N_lt (b : byte) : (Byte.to_N b < 256)%N.
Proof. pose proof (Byte.to_N_bounded b). lia. Qed.

Lemma byte_of_to_N (b : byte) : byte_of (Byte.to_N b) = b.
Proof.
  unfold byte_of. rewrite N.mod_small by apply to_N_lt. by rewrite Byte.of_to_N.
Qed.

Lemma to_N_byte_of (n : N) : Byte.to_N (byte_of n) = (n mod 256)%N.
Proof.
  unfold byte_of. destruct (Byte.of_N (n mod 256)) as [b|] eqn:E; simpl.
  - by apply Byte.to_of_N.
  - apply Byte.of_N_None_iff in E.
    pose proof (N.mod_lt n 256 ltac:(lia)). lia.
Qed.

Lemma to_N_byte_of_small (n : N) : (n < 256)%N → Byte.to_N (byte_of n) = n.
Proof. intros H. rewrite to_N_byte_of. by apply N.mod_small. Qed.

Lemma byte_of_mod (m n : N) : (m mod 256)%N = (n mod 256)%N → byte_of m = byte_of n.
Proof. unfold byte_of. by intros ->. Qed.

(** ** Machine integers *)

Definition wrap_u64 (z : Z) : Z := (z mod 2 ^ 64)%Z.
Definition wrap_i64 (z : Z) : Z := ((z + 2 ^ 63) mod 2 ^ 64 - 2 ^ 63)%Z.
Definition in_i64 (z : Z) : Prop := (- 2 ^ 63 <= z < 2 ^ 63)%Z.
Definition in_u64 (z : Z) : Prop := (0 <= z < 2 ^ 64)%Z.

Lemma wrap_i64_id (z : Z) : in_i64 z → wrap_i64 z = z.
Proof. unfold wrap_i64, in_i64. intros H. rewrite Z.mod_small; lia. Qed.

Lemma wrap_u64_id (z : Z) : in_u64 z → wrap_u64 z = z.
Proof. unfold wrap_u64, in_u64. intros H. by apply Z.mod_small. Qed.

Lemma wrap_i64_range (z : Z) : in_i64 (wrap_i64 z).
Proof. unfold wrap_i64, in_i64. pose proof (Z.mod_pos_bound (z + 2^63) (2^64)). lia. Qed.

Lemma wrap_i64_u64 (z : Z) : in_i64 z → wrap_i64 (wrap_u64 z) = z.
Proof.
  unfold wrap_i64, wrap_u64, in_i64. intros H.
  rewrite Zplus_mod_idemp_l, Z.mod_small; lia.
Qed.

(** ** Errors and results

    A Go error value. [Wrap m e] is [fmt.Errorf("m: %w", e)]; the formatted
    arguments of a message are left out. *)

Inductive error : Type :=
  | E (msg : string)
  | Wrap (msg : string) (e : error)
  | EOF
  | ErrUnexpectedEOF
  | ErrStop
  | Panic (msg : string).

(** [errors.Is]. *)
Fixpoint error_is (e target : error) : bool :=
  match e, target with
  | EOF, EOF | ErrUnexpectedEOF, ErrUnexpectedEOF | ErrStop, ErrStop => true
  | Wrap _ e', _ => error_is e' target
  | _, _ => false
  end.

Inductive result (A : Type) : Type :=
  | Ok (a : A)
  | Err (e : error).
Arguments Ok {A} a.
Arguments Err {A} e.

#[export] Instance result_ret : MRet result := @Ok.
#[export] Instance result_bind : MBind result := λ A B f r,
  match r with Ok a => f a | Err e => Err e end.
#[export] Instance result_fmap : FMap result := λ A B f r,
  match r with Ok a => Ok (f a) | Err e => Err e end.

(** [if err != nil { return fmt.Errorf("m: %w", err) }]; a panic is not an
    error value and passes through. *)
Definition wrap {A} (m : string) (r : result A) : result A :=
  match r with
  | Ok a => Ok a
  | Err (Panic p) => Err (Panic p)
  | Err e => Err (Wrap m e)
  end.

Definition is_ok {A} (r : result A) : bool := match r with Ok _ => true | Err _ => false end.
Definition is_panic {A} (r : result A) : bool :=
  match r with Err (Panic _) => true | _ => false end.
Definition is_Ok {A} (r : result A) : Prop := ∃ a, r = Ok a.

#[export] Instance error_eq_dec : EqDecision error.
Proof. solve_decision. Defined.
#[export] Instance result_eq_dec `{EqDecision A} : EqDecision (result A).
Proof. solve_decision. Defined.

Lemma bind_Ok {A B} (r : result A) (f : A → result B) b :
  r ≫= f = Ok b ↔ ∃ a, r = Ok a ∧ f a = Ok b.
Proof. destruct r; simpl; naive_solver. Qed.

Lemma wrap_Ok {A} m (r : result A) a : wrap m r = Ok a ↔ r = Ok a.
Proof. destruct r as [|[]]; simpl; naive_solver. Qed.

Lemma is_panic_wrap {A} m (r : result A) : is_panic (wrap m r) = is_panic r.
Proof. by destruct r as [|[]]. Qed.

Lemma is_panic_bind {A B} (r : result A) (f : A → result B) :
  is_panic r = false → (∀ a, r = Ok a → is_panic (f a) = false) → is_panic (r ≫= f) = false.
Proof. destruct r as [a|]; cbn; auto. Qed.

Lemma is_ok_true {A} (r : result A) : is_ok r = true ↔ is_Ok r.
Proof. unfold is_Ok. destruct r; simpl; naive_solver. Qed.

(** ** State with errors

    A method that mutates a shared object and returns [(value, error)]: an
    early error keeps what was written before it, as in Go. *)

Definition stM (S A : Type) : Type := S → result A * S.

#[export] Instance stM_ret S : MRet (stM S) := λ A a s, (Ok a, s).
#[export] Instance stM_bind S : MBind (stM S) := λ A B f m s,
  match m s with
  | (Ok a, s') => f a s'
  | (Err e, s') => (Err e, s')
  end.

Definition lift {S A} (r : result A) : stM S A := λ s, (r, s).
Definition get {S} : stM S S := λ s, (Ok s, s).
Definition modify {S} (f : S → S) : stM S unit := λ s, (Ok tt, f s).
Definition read {S A} (f : S → result A) : stM S A := λ s, (f s, s).
Definition wrapM {S A} (m : string) (x : stM S A) : stM S A := λ s,
  let '(r, s') := x s in (wrap m r, s').

(** [for _, x := range l { if err := f(x); err != nil { return err } }]. *)
Fixpoint forM_ {S A} (l : list A) (f : A → stM S unit) : stM S unit :=
  match l with
  | [] => mret tt
  | x :: l => f x ≫= λ _, forM_ l f
  end.

Lemma stM_bind_Ok {S A B} (m : stM S A) (f : A → stM S B) s b s' :
  (m ≫= f) s = (Ok b, s') ↔ ∃ a s1, m s = (Ok a, s1) ∧ f a s1 = (Ok b, s').
Proof.
  unfold mbind, stM_bind. destruct (m s) as [[a|e] s1]; split; naive_solver.
Qed.

(** ** Stable sorting

    [sort.SliceStable(l, less)]: the sorted permutation that keeps the
    relative order of equal elements. The insertion below is one algorithm
    for it; [stable_sort_unique] shows that the three properties
    [sort.SliceStable] documents determine the result. *)

(** A strict weak order, as [sort] requires of [less]. *)
Class StrictWeak {A : Type} (less : A → A → bool) : Prop := {
  less_irrefl x : less x x = false;
  less_trans x y z : less x y = true → less y z = true → less x z = true;
  less_incomp_trans x y z : less x y = false → less y z = false → less x z = false;
}.

Section stable_sort.
Context {A : Type} (less : A → A → bool).

Fixpoint insert_before (x : A) (l : list A) : list A :=
  match l with
  | [] => [x]
  | y :: l' => if less y x then y :: insert_before x l' else x :: l
  end.

Definition stable_sort (l : list A) : list A := foldr insert_before [] l.

Lemma insert_before_perm x l : insert_before x l ≡ₚ x :: l.
Proof.
  induction l as [|y l IH]; simpl; [done|].
  destruct (less y x); [|done]. rewrite IH. apply Permutation_swap.
Qed.

Lemma stable_sort_perm l : stable_sort l ≡ₚ l.
Proof. induction l as [|x l IH]; simpl; [done|]. by rewrite insert_before_perm, IH. Qed.

Context `{!StrictWeak less}.

Definition not_after (x y : A) : Prop := less y x = false.
Definition equiv_keys (x y : A) : bool := negb (less x y) && negb (less y x).

Lemma less_asym x y : less x y = true → less y x = false.
Proof.
  intros Hxy. destruct (less y x) eqn:Hyx; [|done].
  pose proof (less_trans _ _ _ Hxy Hyx). pose proof (less_irrefl x). congruence.
Qed.

Lemma not_after_trans x y z : not_after x y → not_after y z → not_after x z.
Proof. unfold not_after. intros H1 H2. by eapply less_incomp_trans. Qed.

Lemma insert_before_sorted x l :
  StronglySorted not_after l → StronglySorted not_after (insert_before x l).
Proof.
  induction 1 as [|y l Hl IH Hy]; simpl; [repeat constructor|].
  destruct (less y x) eqn:E.
  - constructor; [done|]. rewrite insert_before_perm.
    constructor; [by apply less_asym | done].
  - constructor; [by constructor|]. constructor; [done|].
    apply (Forall_impl _ _ _ Hy). intros z Hz.
    eapply not_after_trans; [exact E | exact Hz].
Qed.

Lemma stable_sort_sorted l : StronglySorted not_after (stable_sort l).
Proof.
  induction l as [|x l IH]; simpl; [constructor|]. by apply insert_before_sorted.
Qed.

Lemma equiv_keys_less x y z :
  equiv_keys x y = true → less z x = less z y.
Proof.
  unfold equiv_keys. intros [Hxy Hyx]%andb_prop.
  apply negb_true_iff in Hxy, Hyx.
  destruct (less z x) eqn:E1, (less z y) eqn:E2; try done.
  - pose proof (less_incomp_trans _ _ _ E2 Hyx). congruence.
  - pose proof (less_incomp_trans _ _ _ E1 Hxy). congruence.
Qed.

Lemma insert_before_filter k x l :
  filter (λ y, equiv_keys k y = true) (insert_before x l) =
  filter (λ y, equiv_keys k y = true) (x :: l).
Proof.
  induction l as [|y l IH]; [done|]. cbn [insert_before].
  destruct (less y x) eqn:E; [|done].
  rewrite filter_cons, IH, !filter_cons.
  destruct (decide (equiv_keys k y = true)) as [Hy|Hy]; [|done].
  destruct (decide (equiv_keys k x = true)) as [Hx|Hx]; [|done].
  exfalso. rewrite <-(equiv_keys_less _ _ y Hx) in E.
  unfold equiv_keys in Hy. rewrite E in Hy. by rewrite andb_false_r in Hy.
Qed.

(** Elements with equal keys keep their relative order. *)
Lemma stable_sort_stable k l :
  filter (λ y, equiv_keys k y = true) (stable_sort l) =
  filter (λ y, equiv_keys k y = true) l.
Proof.
  induction l as [|x l IH]; [done|].
  cbn [stable_sort foldr]. rewrite insert_before_filter, !filter_cons.
  fold (stable_sort l). by rewrite IH.
Qed.

(** Sorting and leaving elements out commute. *)
Lemma insert_before_head x l :
  (∀ y, y ∈ l → not_after x y) → insert_before x l = x :: l.
Proof.
  intros Hx. destruct l as [|y l]; [done|]. cbn. specialize (Hx y ltac:(by left)). unfold not_after in Hx.
  by rewrite Hx.
Qed.

Lemma filter_insert_before (P : A → Prop) `{!∀ x, Decision (P x)} x l :
  StronglySorted not_after l →
  filter P (insert_before x l) = if decide (P x) then insert_before x (filter P l) else filter P l.
Proof.
  induction 1 as [|y l Hl IH Hy]; cbn [insert_before]; [by rewrite filter_cons|].
  destruct (less y x) eqn:Hyx.
  - rewrite !filter_cons, IH. repeat case_decide; try done. cbn [insert_before]. by rewrite Hyx.
  - rewrite (filter_cons P x). case_decide as Hx; [|done]. symmetry. apply insert_before_head.
    intros z [_ Hz]%list_elem_of_filter. apply elem_of_cons in Hz as [->|Hz]; [done|].
    eapply not_after_trans; [exact Hyx|]. rewrite Forall_forall in Hy. by apply Hy.
Qed.

Lemma stable_sort_filter (P : A → Prop) `{!∀ x, Decision (P x)} l :
  filter P (stable_sort l) = stable_sort (filter P l).
Proof.
  induction l as [|x l IH]; [done|]. cbn [stable_sort foldr]. fold (stable_sort l).
  rewrite (filter_insert_before P) by apply stable_sort_sorted. rewrite filter_cons, IH.
  by case_decide.
Qed.

(** When distinct positions hold distinct keys the order of the input does
    not matter. *)
Lemma stable_sort_perm_eq l1 l2 :
  l1 ≡ₚ l2 →
  (∀ x y, x ∈ l1 → y ∈ l1 → equiv_keys x y = true → x = y) →
  stable_sort l1 = stable_sort l2.
Proof.
  intros Hp Hinj.
  apply (StronglySorted_unique_strong not_after); [|apply stable_sort_sorted..|].
  - intros x y Hx Hy H1 H2. rewrite stable_sort_perm in Hx, Hy. rewrite <-Hp in Hy.
    apply Hinj; [done|done|]. unfold equiv_keys. by rewrite H1, H2.
  - by rewrite !stable_sort_perm.
Qed.
End stable_sort.

(** Sorting by an integer key, then by a second one. *)
Definition lex2_lt (a b : Z * Z) : bool :=
  if decide (a.1 = b.1) then (a.2 <? b.2)%Z else (a.1 <? b.1)%Z.

Lemma lex2_lt_strict_weak {A} (key : A → Z * Z) :
  StrictWeak (λ x y, lex2_lt (key x) (key y)).
Proof.
  split; unfold lex2_lt; intros *;
    repeat case_decide; rewrite ?Z.ltb_lt, ?Z.ltb_ge; lia.
Qed.

Lemma stable_sort_ext {A} (f g : A → A → bool) l :
  (∀ x y, f x y = g x y) → stable_sort f l = stable_sort g l.
Proof.
  intros H. induction l as [|x l IH]; simpl; [done|]. rewrite IH.
  generalize (stable_sort g l) as l'. induction l' as [|y l' IH']; simpl; [done|].
  by rewrite H, IH'.
Qed.

(** ** Byte-lexicographic order

    The order of [bytes.Compare], in which bbolt iterates a bucket. *)

Fixpoint bytes_ltb (a b : bytes) : bool :=
  match a, b with
  | _, [] => false
  | [], _ :: _ => true
  | x :: a', y :: b' =>
      if decide (x = y) then bytes_ltb a' b' else (Byte.to_N x <? Byte.to_N y)%N
  end.

Definition bytes_lt (a b : bytes) : Prop := bytes_ltb a b = true.

Lemma to_N_inj (x y : byte) : Byte.to_N x = Byte.to_N y → x = y.
Proof. intros H. rewrite <-(byte_of_to_N x), <-(byte_of_to_N y). by rewrite H. Qed.

Lemma bytes_lt_irrefl a : ¬ bytes_lt a a.
Proof.
  unfold bytes_lt. induction a as [|x a IH]; simpl; [done|].
  by rewrite decide_True by done.
Qed.

Lemma bytes_lt_trans a b c : bytes_lt a b → bytes_lt b c → bytes_lt a c.
Proof.
  unfold bytes_lt. revert b c.
  induction a as [|x a IH]; intros [|y b] [|z c]; simpl; try done.
  destruct (decide (x = y)), (decide (y = z)), (decide (x = z)); subst; rewrite ?N.ltb_lt; intros; try done; try lia.
  by eapply IH.
Qed.

Lemma bytes_lt_total a b : bytes_lt a b ∨ a = b ∨ bytes_lt b a.
Proof.
  unfold bytes_lt. revert b.
  induction a as [|x a IH]; intros [|y b]; simpl; auto.
  destruct (decide (x = y)) as [->|Hne].
  - rewrite decide_True by done. destruct (IH b) as [?|[->|?]]; auto.
  - rewrite decide_False by done. rewrite !N.ltb_lt.
    assert (Byte.to_N x ≠ Byte.to_N y) by (intros ?%to_N_inj; done). lia.
Qed.

#[export] Instance bytes_lt_trans' : Transitive bytes_lt := bytes_lt_trans.
#[export] Instance bytes_lt_dec a b : Decision (bytes_lt a b) := decide (_ = true).

(** A list of bindings with strictly increasing keys is determined by its
    elements. *)
Definition key_lt {V} (p q : bytes * V) : Prop := bytes_lt p.1 q.1.

Lemma key_sorted_unique {V} (l1 l2 : list (bytes * V)) :
  StronglySorted key_lt l1 → StronglySorted key_lt l2 →
  (∀ x, x ∈ l1 ↔ x ∈ l2) → l1 = l2.
Proof.
  intros H1 H2 Hel.
  assert (∀ l : list (bytes * V), StronglySorted key_lt l → NoDup l) as Hnd.
  { induction 1 as [|x l Hl IH Hx]; constructor; [|done].
    intros Hin. rewrite Forall_forall in Hx. exact (bytes_lt_irrefl _ (Hx _ Hin)). }
  apply (StronglySorted_unique_strong key_lt); [|done|done|].
  - intros x y _ _ Hxy Hyx. destruct (bytes_lt_irrefl x.1). by etrans.
  - apply NoDup_Permutation; [by apply Hnd|by apply Hnd|done].
Qed.

(** ** Lists *)

(** Decidability along an equivalence. *)
Definition dec_iff {P Q : Prop} (HPQ : P ↔ Q) `{Decision P} : Decision Q :=
  match decide P with
  | left HP => left (proj1 HPQ HP)
  | right HP => right (λ HQ, HP (proj2 HPQ HQ))
  end.

Lemma StronglySorted_impl {A} (R S : A → A → Prop) l :
  (∀ a b, R a b → S a b) → StronglySorted R l → StronglySorted S l.
Proof.
  intros HRS. induction 1 as [|x l Hl IH Hx]; constructor; [done|].
  eapply Forall_impl; [exact Hx|]. intros y. apply HRS.
Qed.

Lemma StronglySorted_filter {A} (R : A → A → Prop) (P : A → Prop) `{∀ x, Decision (P x)} l :
  StronglySorted R l → StronglySorted R (filter P l).
Proof.
  induction 1 as [|x l Hl IH Hx]; [constructor|]. rewrite filter_cons. case_decide; [|done].
  constructor; [done|]. rewrite Forall_forall in Hx |- *. intros y.
  rewrite list_elem_of_filter. intros [_ Hy]. by apply Hx.
Qed.

Lemma StronglySorted_app_skip {A} (R : A → A → Prop) l1 x l2 :
  StronglySorted R (l1 ++ x :: l2) → StronglySorted R (l1 ++ l2).
Proof.
  induction l1 as [|y l1 IH]; cbn.
  - by inversion 1.
  - inversion 1 as [|? ? Hs Hy]; subst. constructor; [by apply IH|].
    rewrite Forall_app, Forall_cons in Hy. rewrite Forall_app. naive_solver.
Qed.

Lemma filter_ext_in {A} (P Q : A → Prop) `{∀ x, Decision (P x), ∀ x, Decision (Q x)} (l : list A) :
  (∀ x, x ∈ l → P x ↔ Q x) → filter P l = filter Q l.
Proof.
  induction l as [|x l IH]; intros HPQ; [done|]. rewrite !filter_cons.
  rewrite IH by (intros; apply HPQ; by right).
  destruct (HPQ x ltac:(left)). repeat case_decide; naive_solver.
Qed.

(** [s[i:j]] of a slice whose bounds are in range. *)
Definition slice {A} (i j : nat) (l : list A) : list A := take (j - i) (drop i l).

(** Case analysis on the conditions of a handler, one after the other. *)
Ltac case_go :=
  repeat match goal with
  | H : context [ match ?x with _ => _ end ] |- _ =>
      lazymatch x with
      | context [ match _ with _ => _ end ] => fail
      | _ => let E := fresh "E" in destruct x eqn:E; simplify_eq/=
      end
  end.

(** Linear arithmetic with division and remainder by constants. *)
Ltac divmod_lia := zify; Z.to_euclidean_division_equations; lia.

Create HintDb driftnode.
Create Rewrite HintDb driftnode.
#[export] Hint Resolve to_N_lt wrap_i64_range bytes_lt_irrefl : driftnode.
#[export] Hint Rewrite byte_of_to_N @bind_Ok @wrap_Ok : driftnode.
