(* ===== verification/Base32.v ===== *)
(** * Text encoding of hashes and keys

    Models the text half of [internal/core/encoding.go]: [base32NoPadLower],
    [PubkeyFromBase32], [ParseEventID], with the part of Go's
    [encoding/base32] and [strings] packages they use. *)

From S2P Require Import Prelude.
#[local] Open Scope go_scope.
#[local] Open Scope N_scope.

(** ** Go's [base32.StdEncoding.WithPadding(base32.NoPadding)] *)

Definition encodeStd : bytes := # "ABCDEFGHIJKLMNOPQRSTUVWXYZ234567".

Definition enc_char (q : N) : byte := default Byte.x00 (encodeStd !! N.to_nat q).

(** The decoding map of the alphabet; [None] is the 0xFF entry. *)
Definition dec_char (c : byte) : option N :=
  let n := Byte.to_N c in
  if (65 <=? n) && (n <=? 90) then Some (n - 65)
  else if (50 <=? n) && (n <=? 55) then Some (n - 24)
  else None.

(** The eight 5-bit groups of five bytes. *)
Definition quintets (b0 b1 b2 b3 b4 : N) : list N :=
  [ b0 / 8;
    (b0 mod 8) * 4 + b1 / 64;
    (b1 / 2) mod 32;
    (b1 mod 2) * 16 + b2 / 16;
    (b2 mod 16) * 2 + b3 / 128;
    (b3 / 4) mod 32;
    (b3 mod 4) * 8 + b4 / 32;
    b4 mod 32 ].

(** [EncodeToString] on values 0..31: five bytes to eight, the last group of
    1..4 bytes to 2, 4, 5 or 7. *)
Fixpoint enc_quints (l : bytes) : list N :=
  let n := Byte.to_N in
  match l with
  | [] => []
  | [a] => take 2 (quintets (n a) 0 0 0 0)
  | [a; b] => take 4 (quintets (n a) (n b) 0 0 0)
  | [a; b; c] => take 5 (quintets (n a) (n b) (n c) 0 0)
  | [a; b; c; d] => take 7 (quintets (n a) (n b) (n c) (n d) 0)
  | a :: b :: c :: d :: e :: l' => quintets (n a) (n b) (n c) (n d) (n e) ++ enc_quints l'
  end.

Definition base32_encode (l : bytes) : bytes := enc_char <$> enc_quints l.

(** The five bytes of eight 5-bit groups. *)
Definition octets (q0 q1 q2 q3 q4 q5 q6 q7 : N) : bytes :=
  [ byte_of (q0 * 8 + q1 / 4);
    byte_of (q1 * 64 + q2 * 2 + q3 / 16);
    byte_of (q3 * 16 + q4 / 2);
    byte_of (q4 * 128 + q5 * 4 + q6 / 8);
    byte_of (q6 * 32 + q7) ].

(** How many bytes a group of [n] characters yields: the [switch dlen] of the
    decoder has cases 8, 7, 5, 4 and 2 only. *)
Definition group_bytes (n : nat) : nat :=
  match n with 8 => 5 | 7 => 4 | 5 => 3 | 4 => 2 | 2 => 1 | _ => 0 end%nat.

Definition dec_group (l : list N) : bytes :=
  let q i := default 0 (l !! i) in
  take (group_bytes (length l))
    (octets (q 0%nat) (q 1%nat) (q 2%nat) (q 3%nat) (q 4%nat) (q 5%nat) (q 6%nat) (q 7%nat)).

Fixpoint dec_groups (l : list N) : bytes :=
  match l with
  | q0 :: q1 :: q2 :: q3 :: q4 :: q5 :: q6 :: q7 :: l' =>
      dec_group [q0; q1; q2; q3; q4; q5; q6; q7] ++ dec_groups l'
  | _ => dec_group l
  end.

(** [stripNewlines]. *)
Definition is_newline (c : byte) : bool :=
  bool_decide (c = Byte.x0a) || bool_decide (c = Byte.x0d).
Definition strip_newlines (s : bytes) : bytes := filter (λ c, is_newline c = false) s.

(** [DecodeString]: newlines are dropped, any other character outside the
    alphabet is a [CorruptInputError]. *)
Definition base32_decode (s : bytes) : result bytes :=
  match mapM dec_char (strip_newlines s) with
  | Some qs => Ok (dec_groups qs)
  | None => Err (E "illegal base32 data")
  end.

(** ** [strings.ToUpper] and [strings.ToLower]

    Exact on ASCII. Outside ASCII only two runes have an ASCII upper case,
    U+0131 ([c4 b1], to [I]) and U+017F ([c5 bf], to [S]); every other rune
    stays outside ASCII, which the decoder rejects whatever its bytes, so the
    bytes are left as they are. *)

Definition upper_byte (c : byte) : byte :=
  let n := Byte.to_N c in
  if (97 <=? n) && (n <=? 122) then byte_of (n - 32) else c.
Definition lower_byte (c : byte) : byte :=
  let n := Byte.to_N c in
  if (65 <=? n) && (n <=? 90) then byte_of (n + 32) else c.

Definition rune_upper (c d : byte) : option byte :=
  if decide (c = Byte.xc4 ∧ d = Byte.xb1) then Some Byte.x49
  else if decide (c = Byte.xc5 ∧ d = Byte.xbf) then Some Byte.x53
  else None.

Fixpoint to_upper (s : bytes) : bytes :=
  match s with
  | [] => []
  | c :: s' =>
      match s' with
      | [] => [upper_byte c]
      | d :: s'' =>
          match rune_upper c d with
          | Some u => u :: to_upper s''
          | None => upper_byte c :: to_upper s'
          end
      end
  end.
Definition to_lower (s : bytes) : bytes := lower_byte <$> s.

(** ** [internal/core/encoding.go] *)

Definition HashSize : nat := 32.
Definition PublicKeySize : nat := 32.

Definition base32NoPadLower (b : bytes) : bytes := to_lower (base32_encode b).

Definition PubkeyFromBase32 (s : bytes) : result bytes :=
  b ← wrap "base32 decode" (base32_decode (to_upper s));
  if negb (length b =? PublicKeySize)%nat then Err (E "pubkey: want 32 bytes")
  else Ok b.

(** An [EventID] or [ContentHash] is 32 bytes. *)
Definition EventID_String (id : bytes) : bytes := base32NoPadLower id.
Definition ContentHash_String (h : bytes) : bytes := base32NoPadLower h.

Definition zero_hash : bytes := replicate HashSize Byte.x00.
Definition EventID_IsZero (id : bytes) : bool := bool_decide (id = zero_hash).
Definition ContentHash_IsZero (h : bytes) : bool := bool_decide (h = zero_hash).

Definition ParseEventID (s : bytes) : result bytes :=
  b ← wrap "base32 decode" (base32_decode (to_upper s));
  if negb (length b =? HashSize)%nat then Err (E "event id: want 32 bytes")
  else Ok b.

(** ** The round trip *)

Lemma quintets_lt b0 b1 b2 b3 b4 :
  b0 < 256 → b1 < 256 → b2 < 256 → b3 < 256 → b4 < 256 →
  Forall (λ q, q < 32) (quintets b0 b1 b2 b3 b4).
Proof.
  intros. unfold quintets. repeat (apply Forall_cons_2; [divmod_lia|]). constructor.
Qed.

Lemma octets_quintets b0 b1 b2 b3 b4 :
  b0 < 256 → b1 < 256 → b2 < 256 → b3 < 256 → b4 < 256 →
  match quintets b0 b1 b2 b3 b4 with
  | [q0; q1; q2; q3; q4; q5; q6; q7] => octets q0 q1 q2 q3 q4 q5 q6 q7
  | _ => []
  end = [byte_of b0; byte_of b1; byte_of b2; byte_of b3; byte_of b4].
Proof.
  intros. unfold quintets, octets.
  repeat (apply f_equal2; [apply byte_of_mod; divmod_lia|]). done.
Qed.

Lemma take_quintets_group n b0 b1 b2 b3 b4 :
  b0 < 256 → b1 < 256 → b2 < 256 → b3 < 256 → b4 < 256 →
  match n with
  | 2%nat => b1 = 0 ∧ b2 = 0 ∧ b3 = 0 ∧ b4 = 0
  | 4%nat => b2 = 0 ∧ b3 = 0 ∧ b4 = 0
  | 5%nat => b3 = 0 ∧ b4 = 0
  | 7%nat => b4 = 0
  | 8%nat => True
  | _ => False
  end →
  dec_group (take n (quintets b0 b1 b2 b3 b4)) =
  take (group_bytes n) [byte_of b0; byte_of b1; byte_of b2; byte_of b3; byte_of b4].
Proof.
  intros ????? Hn. rewrite <-octets_quintets by done.
  unfold dec_group, quintets.
  do 9 (destruct n as [|n]; [try (by destruct Hn); destruct_and?; subst; reflexivity|]).
  by destruct Hn.
Qed.

Lemma bytes_ind5 (P : bytes → Prop) :
  P [] → (∀ a, P [a]) → (∀ a b, P [a; b]) → (∀ a b c, P [a; b; c]) →
  (∀ a b c d, P [a; b; c; d]) →
  (∀ a b c d e l, P l → P (a :: b :: c :: d :: e :: l)) → ∀ l, P l.
Proof.
  intros H0 H1 H2 H3 H4 H5. fix IH 1.
  intros [|a [|b [|c [|d [|e l]]]]];
    [exact H0|exact (H1 a)|exact (H2 a b)|exact (H3 a b c)|exact (H4 a b c d)|].
  exact (H5 a b c d e l (IH l)).
Qed.

Ltac group_solve := rewrite take_quintets_group by (auto with driftnode; lia);
  cbn -[byte_of]; rewrite ?byte_of_to_N; try done.

Lemma dec_groups_short l : (length l < 8)%nat → dec_groups l = dec_group l.
Proof. by destruct l as [|? [|? [|? [|? [|? [|? [|? [|? ?]]]]]]]]; simpl; intros; try lia. Qed.

Lemma dec_groups_full b0 b1 b2 b3 b4 l :
  dec_groups (quintets b0 b1 b2 b3 b4 ++ l) =
  dec_group (take 8 (quintets b0 b1 b2 b3 b4)) ++ dec_groups l.
Proof. done. Qed.

Lemma dec_enc_quints l : dec_groups (enc_quints l) = l.
Proof.
  induction l as [| | | | |a b c d e l IH] using bytes_ind5; [done|..].
  1-4: cbn [enc_quints]; rewrite dec_groups_short by (simpl; lia); by group_solve.
  cbn [enc_quints]. rewrite dec_groups_full, IH. by group_solve.
Qed.

Lemma enc_quints_lt l : Forall (λ q, q < 32) (enc_quints l).
Proof.
  induction l as [| | | | |a b c d e l IH] using bytes_ind5; [constructor|..].
  1-4: apply Forall_take, quintets_lt; auto with driftnode; lia.
  apply Forall_app; split; [|done]. apply quintets_lt; auto with driftnode.
Qed.

(** What the encoder writes is read back whatever the case. *)
Definition good_char (q : N) : bool :=
  let c := lower_byte (enc_char q) in
  (Byte.to_N c <? 128) && negb (is_newline (upper_byte c)) &&
  bool_decide (dec_char (upper_byte c) = Some q) &&
  bool_decide (dec_char (upper_byte (enc_char q)) = Some q) &&
  negb (is_newline (upper_byte (enc_char q))) && (Byte.to_N (enc_char q) <? 128).

Lemma good_chars q : q < 32 → good_char q = true.
Proof.
  intros Hq.
  assert (forallb (λ n, good_char (N.of_nat n)) (seq 0 32) = true) as Hall
    by (vm_compute; reflexivity).
  rewrite forallb_forall in Hall. rewrite <-(N2Nat.id q). apply Hall.
  apply in_seq. lia.
Qed.

Definition is_ascii (s : bytes) : Prop := Forall (λ c, Byte.to_N c < 128) s.

Lemma rune_upper_ascii c d : Byte.to_N c < 128 → rune_upper c d = None.
Proof. intros H. unfold rune_upper. repeat case_decide; destruct_and?; by subst. Qed.

Lemma to_upper_ascii_app s1 s2 : is_ascii s1 → to_upper (s1 ++ s2) = (upper_byte <$> s1) ++ to_upper s2.
Proof.
  induction 1 as [|c s Hc Hs IH]; [done|].
  cbn [app to_upper fmap list_fmap]. destruct (s ++ s2) as [|d t] eqn:E.
  - apply app_eq_nil in E as [-> ->]. done.
  - rewrite rune_upper_ascii by done. cbn. f_equal. by rewrite <-IH.
Qed.

Lemma to_upper_ascii s : is_ascii s → to_upper s = upper_byte <$> s.
Proof. intros H. pose proof (to_upper_ascii_app s [] H) as E. by rewrite !app_nil_r in E. Qed.

Lemma mapM_dec_chars qs :
  Forall (λ q, q < 32) qs →
  mapM dec_char (strip_newlines (upper_byte <$> to_lower (enc_char <$> qs))) = Some qs ∧
  mapM dec_char (strip_newlines (upper_byte <$> (enc_char <$> qs))) = Some qs ∧
  is_ascii (to_lower (enc_char <$> qs)) ∧ is_ascii (enc_char <$> qs).
Proof.
  unfold strip_newlines, to_lower, is_ascii.
  induction 1 as [|q qs Hq Hqs (IH1 & IH2 & IH3 & IH4)]; [done|].
  pose proof (good_chars q Hq) as Hg. unfold good_char in Hg.
  repeat (apply andb_prop in Hg as [Hg ?]).
  rewrite !negb_true_iff, !bool_decide_eq_true, !N.ltb_lt in *.
  rewrite !fmap_cons, !filter_cons, !decide_True by done. cbn.
  simplify_option_eq. repeat split; try done; by constructor.
Qed.

Lemma base32NoPadLower_ascii b : is_ascii (base32NoPadLower b).
Proof. apply mapM_dec_chars, enc_quints_lt. Qed.

Lemma decode_lower b : base32_decode (to_upper (base32NoPadLower b)) = Ok b.
Proof.
  rewrite to_upper_ascii by apply base32NoPadLower_ascii.
  destruct (mapM_dec_chars (enc_quints b) (enc_quints_lt b)) as (E & _).
  unfold base32_decode, base32NoPadLower, base32_encode. by rewrite E, dec_enc_quints.
Qed.

Lemma decode_upper b : base32_decode (to_upper (base32_encode b)) = Ok b.
Proof.
  destruct (mapM_dec_chars (enc_quints b) (enc_quints_lt b)) as (_ & E & _ & Ha).
  rewrite to_upper_ascii by done.
  unfold base32_decode, base32_encode. by rewrite E, dec_enc_quints.
Qed.

(** A trailing newline is invisible to the decoder. *)
Lemma decode_newline s :
  is_ascii s → base32_decode (to_upper (s ++ [Byte.x0a])) = base32_decode (to_upper s).
Proof.
  intros Hs. rewrite to_upper_ascii_app, (to_upper_ascii s) by done.
  unfold base32_decode, strip_newlines. rewrite filter_app. cbn.
  by rewrite app_nil_r.
Qed.

#[export] Instance base32NoPadLower_inj : Inj (=) (=) base32NoPadLower.
Proof.
  intros a b E. pose proof (decode_lower a) as Ha. rewrite E, decode_lower in Ha.
  by simplify_eq.
Qed.

Lemma PubkeyFromBase32_Ok s b :
  PubkeyFromBase32 s = Ok b ↔
  base32_decode (to_upper s) = Ok b ∧ length b = PublicKeySize.
Proof.
  unfold PubkeyFromBase32. rewrite bind_Ok.
  setoid_rewrite wrap_Ok. split.
  - intros (a & Ha & H). destruct (Nat.eqb_spec (length a) PublicKeySize); cbn in H; by simplify_eq.
  - intros [Hb El]. exists b. split; [done|]. by rewrite El.
Qed.

Lemma PubkeyFromBase32_no_panic s : is_panic (PubkeyFromBase32 s) = false.
Proof.
  unfold PubkeyFromBase32. apply is_panic_bind.
  - rewrite is_panic_wrap. unfold base32_decode. by repeat case_match.
  - intros a _. by destruct (negb _).
Qed.

Lemma ParseEventID_Ok s b :
  ParseEventID s = Ok b ↔ base32_decode (to_upper s) = Ok b ∧ length b = HashSize.
Proof.
  rewrite <-PubkeyFromBase32_Ok. unfold ParseEventID, PubkeyFromBase32.
  destruct (base32_decode _) as [a|[]]; cbn; try done.
  change HashSize with PublicKeySize. by destruct (length a =? PublicKeySize)%nat.
Qed.

Lemma PubkeyFromBase32_NoPadLower b :
  length b = PublicKeySize → PubkeyFromBase32 (base32NoPadLower b) = Ok b.
Proof. intros H. apply PubkeyFromBase32_Ok. split; [apply decode_lower | done]. Qed.

Lemma ParseEventID_String b : length b = HashSize → ParseEventID (EventID_String b) = Ok b.
Proof. intros H. apply ParseEventID_Ok. split; [apply decode_lower | done]. Qed.

#[export] Hint Resolve base32NoPadLower_ascii decode_lower PubkeyFromBase32_NoPadLower : driftnode.

Lemma enc_quints_length l : (length (enc_quints l) ≤ 8 * length l)%nat.
Proof.
  induction l as [| | | | |a b c d e l IH] using bytes_ind5; [cbn; lia..|].
  cbn [enc_quints]. rewrite length_app. cbn [length quintets]. lia.
Qed.

Lemma base32NoPadLower_length b : (length (base32NoPadLower b) ≤ 8 * length b)%nat.
Proof.
  unfold base32NoPadLower, to_lower, base32_encode. rewrite !length_fmap. apply enc_quints_length.
Qed.

(** Every character written belongs to the alphabet. *)
Lemma base32NoPadLower_chars b c :
  c ∈ base32NoPadLower b → is_Some (dec_char (upper_byte c)).
Proof.
  unfold base32NoPadLower, to_lower, base32_encode. rewrite <-list_fmap_compose.
  intros (q & -> & Hq)%list_elem_of_fmap.
  pose proof (proj1 (Forall_forall _ _) (enc_quints_lt b) _ Hq) as Hlt.
  pose proof (good_chars q Hlt) as Hg. unfold good_char in Hg.
  rewrite !andb_true_iff, !bool_decide_eq_true in Hg. destruct Hg as (((((_ & _) & Hd) & _) & _) & _).
  by exists q.
Qed.
