(* ===== verification/Text.v ===== *)
(** * Text

    What the program takes from Go's [fmt], [strings], [time] and
    [encoding/base64]: decimals, joining and trimming, the RFC 3339 time of
    [core.FormatTime], and base64. *)

From Stdlib Require Import Strings.Byte.
From S2P Require Import Prelude Base32.
#[local] Open Scope go_scope.

(** ** Decimals *)

Definition digit (n : N) : byte := byte_of (48 + n mod 10).

(** The last [w] digits of [n]. *)
Fixpoint digits (w : nat) (n : N) : bytes :=
  match w with
  | O => []
  | S w => digits w (n / 10) ++ [digit n]
  end.

(** How many digits [n] has. *)
Fixpoint width_go (fuel : nat) (n : N) : nat :=
  match fuel with
  | O => 1
  | S fuel => if (n <? 10)%N then 1 else S (width_go fuel (n / 10))
  end.
Definition width (n : N) : nat := width_go (N.to_nat (N.log2 n)) n.

(** [%d], and [appendInt] of [time], which pads with zeros to [w]. *)
Definition decimal (n : N) : bytes := digits (width n) n.
Definition padded (w : nat) (n : N) : bytes := digits (Nat.max w (width n)) n.
Definition show_Z (z : Z) : bytes :=
  (if (z <? 0)%Z then [Byte.x2d] else []) ++ decimal (Z.to_N (Z.abs z)).

(** [%v] of a bool, and [strings.Join]. *)
Definition bool_text (b : bool) : bytes := if b then # "true" else # "false".
Fixpoint join (sep : bytes) (l : list bytes) : bytes :=
  match l with
  | [] => []
  | [a] => a
  | a :: l => a ++ sep ++ join sep l
  end.

(** ** [strings.TrimSpace]

    The encodings of the runes that [unicode.IsSpace] accepts. *)
Definition encodings (l : list (list N)) : list bytes := List.map (List.map byte_of) l.
Definition spaces : list bytes :=
  encodings
    ([[9]; [10]; [11]; [12]; [13]; [32]; [0xc2; 0x85]; [0xc2; 0xa0]; [0xe1; 0x9a; 0x80];
      [0xe2; 0x80; 0xa8]; [0xe2; 0x80; 0xa9]; [0xe2; 0x80; 0xaf]; [0xe2; 0x81; 0x9f];
      [0xe3; 0x80; 0x80]]%N ++
     List.map (λ n, [0xe2; 0x80; 0x80 + n]%N) [0; 1; 2; 3; 4; 5; 6; 7; 8; 9; 10]%N).

Definition strip_prefix (p s : bytes) : option bytes :=
  if decide (take (length p) s = p) then Some (drop (length p) s) else None.

Fixpoint trim_left (fuel : nat) (sp : list bytes) (s : bytes) : bytes :=
  match fuel, omap (λ p, strip_prefix p s) sp with
  | S fuel, s' :: _ => trim_left fuel sp s'
  | _, _ => s
  end.
Definition TrimSpace (s : bytes) : bytes :=
  let s := trim_left (length s) spaces s in
  reverse (trim_left (length s) (reverse <$> spaces) (reverse s)).

(** ** [core.FormatTime]

    [time.Unix(0, ts).UTC().Format(time.RFC3339)]. The date of a day number is
    counted in eras of 400 years that start on 1 March of the year 0. *)

Definition leap_days (y : Z) : Z := (y / 4 - y / 100 + y / 400)%Z.

(** Days from the start of an era year to the first of a month, from March. *)
Definition month_start (m : Z) : Z := ((153 * m + 2) / 5)%Z.

(** The date (year, month, day) of a day of an era, with years from March. *)
Definition era_date (doe : Z) : Z * Z * Z :=
  let yoe := ((doe - doe / 1460 + doe / 36524 - doe / 146096) / 365)%Z in
  let doy := (doe - (365 * yoe + yoe / 4 - yoe / 100))%Z in
  let m := ((5 * doy + 2) / 153)%Z in
  (yoe, m, (doy - month_start m + 1)%Z).

(** [secs]: seconds since 1970. *)
Definition civil_date (days : Z) : Z * Z * Z :=
  let z := (days + 719468)%Z in
  let '(yoe, m, d) := era_date (z mod 146097) in
  let month := (if m <? 10 then m + 3 else m - 9)%Z in
  ((yoe + 400 * (z / 146097) + (if month <=? 2 then 1 else 0))%Z, month, d).

Definition FormatTime (ts : Z) : bytes :=
  let secs := (ts / 1000000000)%Z in
  let '(y, m, d) := civil_date (secs / 86400) in
  let s := (secs mod 86400)%Z in
  let p w z := padded w (Z.to_N z) in
  p 4 y ++ # "-" ++ p 2 m ++ # "-" ++ p 2 d ++ # "T" ++
  p 2 (s / 3600)%Z ++ # ":" ++ p 2 (s / 60 mod 60)%Z ++ # ":" ++ p 2 (s mod 60)%Z ++ # "Z".

(** The second an RFC 3339 time in UTC names. *)
Definition days_of (y m d : Z) : Z :=
  let y := (if m <=? 2 then y - 1 else y)%Z in
  let m := (if 3 <=? m then m - 3 else m + 9)%Z in
  (365 * y + leap_days y + month_start m + (d - 1) - 719468)%Z.

Definition digit_value (c : byte) : Z := (Z.of_N (Byte.to_N c) - 48)%Z.
Definition number (s : bytes) : Z := foldl (λ n c, (10 * n + digit_value c)%Z) 0%Z s.
Definition field_at (i j : nat) (s : bytes) : Z := number (slice i j s).
Definition ParseTime (s : bytes) : Z :=
  (days_of (field_at 0 4 s) (field_at 5 7 s) (field_at 8 10 s) * 86400 +
   field_at 11 13 s * 3600 + field_at 14 16 s * 60 + field_at 17 19 s)%Z.

(** ** Go's [base64.StdEncoding] *)

Section base64.
Local Open Scope N_scope.

Definition b64_alphabet : bytes :=
  # "ABCDEFGHIJKLMNOPQRSTUVWXYZabcdefghijklmnopqrstuvwxyz0123456789+/".
Definition b64_char (q : N) : byte := nth (N.to_nat q) b64_alphabet Byte.x00.
Definition b64_pad : byte := Byte.x3d.

Definition b64_val (c : byte) : option N :=
  let n := Byte.to_N c in
  if (65 <=? n) && (n <=? 90) then Some (n - 65)
  else if (97 <=? n) && (n <=? 122) then Some (n - 71)
  else if (48 <=? n) && (n <=? 57) then Some (n + 4)
  else if n =? 43 then Some 62
  else if n =? 47 then Some 63
  else None.

Fixpoint b64_encode (l : bytes) : bytes :=
  let n := Byte.to_N in
  match l with
  | [] => []
  | [a] => [b64_char (n a / 4); b64_char ((n a mod 4) * 16); b64_pad; b64_pad]
  | [a; b] =>
      [b64_char (n a / 4); b64_char ((n a mod 4) * 16 + n b / 16); b64_char ((n b mod 16) * 4); b64_pad]
  | a :: b :: c :: l =>
      b64_char (n a / 4) :: b64_char ((n a mod 4) * 16 + n b / 16) ::
      b64_char ((n b mod 16) * 4 + n c / 64) :: b64_char (n c mod 64) :: b64_encode l
  end.

(** The quanta of [Decode]: padding only at the end; the bits a padded group
    leaves over are ignored. *)
Fixpoint b64_quanta (l : bytes) : option bytes :=
  match l with
  | [] => Some []
  | a :: b :: c :: d :: l =>
      p ← b64_val a;
      q ← b64_val b;
      let x := byte_of (p * 4 + q / 16) in
      if decide (c = b64_pad) then
        if decide (d = b64_pad ∧ l = []) then Some [x] else None
      else
        r ← b64_val c;
        let y := byte_of ((q mod 16) * 16 + r / 4) in
        if decide (d = b64_pad) then if decide (l = []) then Some [x; y] else None
        else
          s ← b64_val d;
          rest ← b64_quanta l;
          Some (x :: y :: byte_of ((r mod 4) * 64 + s) :: rest)
  | _ => None
  end.

(** [DecodeString]: line breaks are skipped. *)
Definition b64_decode (s : bytes) : result bytes :=
  match b64_quanta (strip_newlines s) with
  | Some b => Ok b
  | None => Err (E "illegal base64 data")
  end.
End base64.
