(* ===== verification/TextFacts.v ===== *)
(** * Text: lemmas

    Decimals are read back, a printed time names its second, and base64 is
    decoded to what was encoded. *)

From Stdlib Require Import Strings.Byte.
From S2P Require Import Prelude Base32 Text.
#[local] Open Scope go_scope.

(** ** Decimals *)

Lemma digits_length w n : length (digits w n) = w.
Proof. revert n. induction w as [|w IH]; intros n; [done|]. cbn [digits]. rewrite length_app, IH. cbn. lia. Qed.

Lemma digit_value_digit n : digit_value (digit n) = Z.of_N (n mod 10).
Proof. unfold digit_value, digit. rewrite to_N_byte_of_small by divmod_lia. lia. Qed.

Lemma number_snoc s c : number (s ++ [c]) = (10 * number s + digit_value c)%Z.
Proof. unfold number. by rewrite foldl_app. Qed.

Lemma number_digits w n : number (digits w n) = Z.of_N (n mod 10 ^ N.of_nat w).
Proof.
  revert n. induction w as [|w IH]; intros n; [by rewrite N.mod_1_r|].
  cbn [digits]. rewrite number_snoc, IH, digit_value_digit.
  rewrite Nat2N.inj_succ, N.pow_succ_r', N.Div0.mod_mul_r. lia.
Qed.

Lemma width_go_le fuel n w : (n < 10 ^ N.of_nat (S w))%N → width_go fuel n ≤ S w.
Proof.
  revert n w. induction fuel as [|fuel IH]; intros n w Hn; [cbn; lia|]. cbn [width_go].
  destruct (N.ltb_spec n 10); [lia|]. destruct w as [|w]; [cbn in Hn; lia|].
  apply le_n_S, IH. rewrite Nat2N.inj_succ, N.pow_succ_r' in Hn. divmod_lia.
Qed.

Lemma width_go_enough fuel n : (n < 10 * 2 ^ N.of_nat fuel)%N → (n < 10 ^ N.of_nat (width_go fuel n))%N.
Proof.
  revert n. induction fuel as [|fuel IH]; intros n Hn; [cbn in *; lia|]. cbn [width_go].
  destruct (N.ltb_spec n 10); [cbn; lia|]. rewrite Nat2N.inj_succ, N.pow_succ_r'.
  rewrite Nat2N.inj_succ, N.pow_succ_r' in Hn.
  assert (n / 10 < 10 ^ N.of_nat (width_go fuel (n / 10)))%N; [|divmod_lia]. apply IH. divmod_lia.
Qed.

Lemma number_decimal n : number (decimal n) = Z.of_N n.
Proof.
  unfold decimal. rewrite number_digits, N.mod_small; [done|]. apply width_go_enough.
  rewrite N2Nat.id. destruct (N.eq_dec n 0%N) as [->|Hn]; [done|].
  pose proof (N.log2_spec n ltac:(lia)) as [_ H]. rewrite N.pow_succ_r' in H. lia.
Qed.

Lemma padded_small w n : (n < 10 ^ N.of_nat (S w))%N → padded (S w) n = digits (S w) n.
Proof. intros Hn. unfold padded. rewrite Nat.max_l; [done|]. by apply width_go_le. Qed.

(** ** Dates *)

Definition era_ok (doe : Z) : bool :=
  let '(yoe, m, d) := era_date doe in
  (0 <=? yoe)%Z && (yoe <? 400)%Z && (0 <=? m)%Z && (m <? 12)%Z && (1 <=? d)%Z && (d <? 32)%Z &&
  (365 * yoe + yoe / 4 - yoe / 100 + month_start m + (d - 1) =? doe)%Z.

(** The year of a day never goes back, and is right on the first and the last
    day of every year. *)
Definition era_year (doe : Z) : Z := ((doe - doe / 1460 + doe / 36524 - doe / 146096) / 365)%Z.
Definition year_start (y : Z) : Z := (365 * y + y / 4 - y / 100 + y / 400)%Z.

Lemma era_year_step doe : (0 ≤ doe)%Z → (doe < 146096)%Z → (era_year doe ≤ era_year (doe + 1))%Z.
Proof. intros H0 H1. unfold era_year. apply Z.div_le_mono; [lia|]. divmod_lia. Qed.

Lemma era_year_mono d n : (0 ≤ d)%Z → (d + Z.of_nat n < 146097)%Z → (era_year d ≤ era_year (d + Z.of_nat n))%Z.
Proof.
  intros Hd. induction n as [|n IH]; intros Hn; [by rewrite Z.add_0_r|].
  etrans; [apply IH; lia|]. rewrite Nat2Z.inj_succ, <-Z.add_1_r, Z.add_assoc.
  apply era_year_step; lia.
Qed.

Lemma year_ends y : (0 ≤ y < 400)%Z →
  era_year (year_start y) = y ∧ era_year (year_start (y + 1) - 1) = y.
Proof.
  intros Hy.
  assert (Hall : forallb (λ n, let y := Z.of_nat n in
    (era_year (year_start y) =? y)%Z && (era_year (year_start (y + 1) - 1) =? y)%Z) (seq 0 400) = true)
    by (vm_compute; reflexivity).
  rewrite forallb_forall in Hall. specialize (Hall (Z.to_nat y)). rewrite Z2Nat.id in Hall by lia.
  cbn zeta in Hall. rewrite andb_true_iff, !Z.eqb_eq in Hall. apply Hall, in_seq. lia.
Qed.

Lemma era_year_ok doe : (0 ≤ doe < 146097)%Z →
  (0 ≤ era_year doe < 400 ∧ year_start (era_year doe) ≤ doe < year_start (era_year doe + 1))%Z.
Proof.
  intros Hd. assert (Hb : (0 ≤ era_year doe < 400)%Z) by (unfold era_year; divmod_lia).
  split; [done|]. set (y := era_year doe) in *.
  assert (Hs : ∀ z, (0 ≤ z ≤ 400)%Z → (0 ≤ year_start z ≤ 146097)%Z)
    by (intros z Hz; unfold year_start; divmod_lia).
  pose proof (Hs y ltac:(lia)) as Hsy. pose proof (Hs (y + 1)%Z ltac:(lia)) as Hsy'.
  split.
  - destruct (Z.le_gt_cases (year_start y) doe) as [|Hlt]; [done|]. exfalso.
    assert (0 < y)%Z as Hy. { destruct (Z.eq_dec y 0%Z) as [Hy0|]; [|lia]. rewrite Hy0 in Hlt. change (year_start 0) with 0%Z in Hlt. lia. }
    pose proof (era_year_mono doe (Z.to_nat (year_start y - 1 - doe)%Z) ltac:(lia) ltac:(lia)) as Hm.
    rewrite Z2Nat.id in Hm by lia.
    replace (doe + (year_start y - 1 - doe))%Z with (year_start (y - 1 + 1) - 1)%Z in Hm
      by (rewrite Z.sub_add; lia).
    rewrite (proj2 (year_ends (y - 1)%Z ltac:(lia))) in Hm. fold y in Hm. lia.
  - destruct (Z.lt_ge_cases doe (year_start (y + 1))) as [|Hge]; [done|]. exfalso.
    assert (y + 1 < 400)%Z as Hy.
    { destruct (Z.eq_dec (y + 1)%Z 400%Z) as [Hy0|]; [|lia]. rewrite Hy0 in Hge. change (year_start 400) with 146097%Z in Hge. lia. }
    pose proof (era_year_mono (year_start (y + 1)%Z) (Z.to_nat (doe - year_start (y + 1))%Z)
      ltac:(lia) ltac:(lia)) as Hm.
    rewrite Z2Nat.id, Zplus_minus in Hm by lia.
    rewrite (proj1 (year_ends (y + 1)%Z ltac:(lia))) in Hm. fold y in Hm. lia.
Qed.

Lemma month_ok doy : (0 ≤ doy < 366)%Z →
  let m := ((5 * doy + 2) / 153)%Z in (0 ≤ m < 12 ∧ 1 ≤ doy - month_start m + 1 < 32)%Z.
Proof. intros Hd. unfold month_start. cbn zeta. divmod_lia. Qed.

Lemma era_date_ok doe : (0 ≤ doe < 146097)%Z → era_ok doe = true.
Proof.
  intros Hd. destruct (era_year_ok doe Hd) as [Hy Hs]. unfold era_ok, era_date.
  fold (era_year doe). set (y := era_year doe) in *.
  assert (Hdoy : (0 ≤ doe - (365 * y + y / 4 - y / 100) < 366)%Z).
  { unfold year_start in Hs. divmod_lia. }
  pose proof (month_ok _ Hdoy) as [Hm Hday]. cbn zeta in *.
  rewrite !andb_true_iff, Z.eqb_eq, !Z.leb_le, !Z.ltb_lt. lia.
Qed.

Lemma leap_days_era y e : (0 ≤ y < 400)%Z →
  leap_days (y + 400 * e) = (y / 4 - y / 100 + 97 * e)%Z.
Proof. intros Hy. unfold leap_days. divmod_lia. Qed.

(** The date of a day is a date of the calendar, and names that day. *)
Lemma civil_date_ok days :
  let '(y, m, d) := civil_date days in
  (1 ≤ m ≤ 12 ∧ 1 ≤ d ≤ 31)%Z ∧ days_of y m d = days ∧
  (400 * ((days + 719468) / 146097) ≤ y ≤ 400 * ((days + 719468) / 146097) + 400)%Z.
Proof.
  unfold civil_date. pose proof (Z.mod_pos_bound (days + 719468) 146097 ltac:(lia)) as Hb.
  pose proof (Z.div_mod (days + 719468) 146097 ltac:(lia)) as Hd.
  set (e := ((days + 719468) / 146097)%Z) in *. set (doe := ((days + 719468) mod 146097)%Z) in *.
  pose proof (era_date_ok doe Hb) as Hok. unfold era_ok in Hok.
  destruct (era_date doe) as [[yoe m] d]. rewrite !andb_true_iff, Z.eqb_eq, !Z.leb_le, !Z.ltb_lt in Hok.
  destruct Hok as [[[[[[? Hy] ?] ?] ?] ?] Heq].
  assert (Hmonth : (let month := if m <? 10 then m + 3 else m - 9 in
    1 ≤ month ≤ 12 ∧ (if 3 <=? month then month - 3 else month + 9) = m)%Z).
  { cbn zeta. destruct (Z.ltb_spec m 10).
    - destruct (Z.leb_spec 3 (m + 3)); lia.
    - destruct (Z.leb_spec 3 (m - 9)); lia. }
  cbn zeta in *. set (month := (if m <? 10 then m + 3 else m - 9)%Z) in *.
  destruct Hmonth as [Hm1 Hm2]. split; [lia|]. split; [|destruct (month <=? 2)%Z; lia].
  unfold days_of. rewrite Hm2.
  replace (if (month <=? 2)%Z then (yoe + 400 * e + (if (month <=? 2)%Z then 1 else 0) - 1)%Z
           else (yoe + 400 * e + (if (month <=? 2)%Z then 1 else 0))%Z) with (yoe + 400 * e)%Z
    by (destruct (month <=? 2)%Z; lia).
  rewrite leap_days_era by lia. lia.
Qed.

(** A printed time names its second. *)
Lemma ParseTime_FormatTime ts :
  in_i64 ts → ParseTime (FormatTime ts) = (ts / 1000000000)%Z ∧ length (FormatTime ts) = 20.
Proof.
  unfold in_i64. intros Hts. unfold FormatTime.
  assert (Hsecs : (-9223372037 <= ts / 1000000000 <= 9223372036)%Z) by divmod_lia.
  set (secs := (ts / 1000000000)%Z) in *.
  pose proof (civil_date_ok (secs / 86400)) as Hc.
  assert (Hera : (4 <= (secs / 86400 + 719468) / 146097 <= 5)%Z) by divmod_lia.
  destruct (civil_date (secs / 86400)) as [[y m] d]. destruct Hc as ([Hm Hd] & Hdays & Hy).
  pose proof (Z.mod_pos_bound secs 86400 ltac:(lia)) as Hs. set (s := (secs mod 86400)%Z) in *.
  assert (Hh : (0 <= s / 3600 < 24)%Z) by divmod_lia.
  assert (Hmin : (0 <= s / 60 mod 60 < 60)%Z) by divmod_lia.
  assert (Hsec : (0 <= s mod 60 < 60)%Z) by divmod_lia.
  rewrite !padded_small by (cbn; lia). split; [|by cbn].
  set (P := _ ++ _).
  assert (Hf : ∀ i j w z, slice i j P = digits w (Z.to_N z) → (0 ≤ z < 10 ^ Z.of_nat w)%Z →
    field_at i j P = z).
  { intros i j w z Hsl Hz. unfold field_at. rewrite Hsl, number_digits, N.mod_small; [lia|].
    apply N2Z.inj_lt. rewrite N2Z.inj_pow, nat_N_Z, Z2N.id by lia. lia. }
  unfold ParseTime.
  rewrite (Hf _ _ 4 y), (Hf _ _ 2 m), (Hf _ _ 2 d), (Hf _ _ 2 (s / 3600)%Z),
    (Hf _ _ 2 (s / 60 mod 60)%Z), (Hf _ _ 2 (s mod 60)%Z); try reflexivity; try (cbn; lia).
  rewrite Hdays. subst s. clear -Hs. divmod_lia.
Qed.

(** ** Base64 *)

Section base64.
Local Open Scope N_scope.

Lemma b64_chars q : q < 64 → b64_val (b64_char q) = Some q ∧ b64_char q ≠ b64_pad ∧
  is_newline (b64_char q) = false.
Proof.
  intros Hq.
  assert (Hall : forallb (λ n, let c := b64_char (N.of_nat n) in
    bool_decide (b64_val c = Some (N.of_nat n)) && negb (bool_decide (c = b64_pad)) &&
    negb (is_newline c)) (seq 0 64) = true) by (vm_compute; reflexivity).
  rewrite forallb_forall in Hall. specialize (Hall (N.to_nat q)). rewrite N2Nat.id in Hall.
  cbn zeta in Hall. rewrite !andb_true_iff, !negb_true_iff, bool_decide_eq_true, bool_decide_eq_false in Hall.
  destruct Hall as [[? ?] ?]; [apply in_seq; lia|done].
Qed.

Lemma bytes_ind3 (P : bytes → Prop) :
  P [] → (∀ a, P [a]) → (∀ a b, P [a; b]) → (∀ a b c l, P l → P (a :: b :: c :: l)) → ∀ l, P l.
Proof.
  intros H0 H1 H2 H3. fix IH 1. intros [|a [|b [|c l]]]; [exact H0|exact (H1 a)|exact (H2 a b)|].
  exact (H3 a b c l (IH l)).
Qed.

Lemma b64_no_newline b : strip_newlines (b64_encode b) = b64_encode b.
Proof.
  assert (Hall : Forall (λ c, is_newline c = false) (b64_encode b)).
  { induction b as [|a|a b|a b c l IH] using bytes_ind3; [constructor|..]; cbn [b64_encode];
      repeat (apply Forall_cons_2; [first [reflexivity|apply b64_chars;
        pose proof (to_N_lt a); try pose proof (to_N_lt b); try pose proof (to_N_lt c); divmod_lia]|]);
      [constructor..|done]. }
  unfold strip_newlines. induction Hall as [|c l Hc Hl IH]; [done|].
  rewrite filter_cons_True by done. by rewrite IH.
Qed.

Lemma byte_of_eq n a : n mod 256 = Byte.to_N a → byte_of n = a.
Proof.
  intros H. rewrite <-(byte_of_to_N a). apply byte_of_mod. rewrite H.
  by rewrite N.mod_small by apply to_N_lt.
Qed.

Ltac b64_quantum :=
  repeat match goal with
  | |- context [b64_val (b64_char ?q)] =>
      let H := fresh in assert (H : q < 64) by divmod_lia;
      rewrite (proj1 (b64_chars q H)); clear H; cbn [mbind option_bind]
  | |- context [decide (b64_char ?q = b64_pad)] =>
      let H := fresh in assert (H : q < 64) by divmod_lia;
      rewrite (decide_False (P := b64_char q = b64_pad)) by (apply b64_chars; exact H); clear H
  | |- context [decide (b64_pad = b64_pad)] => rewrite (decide_True (P := b64_pad = b64_pad)) by done
  end.

Lemma b64_quanta_encode b : b64_quanta (b64_encode b) = Some b.
Proof.
  induction b as [|a|a b|a b c l IH] using bytes_ind3; [done|..]; cbn [b64_encode b64_quanta];
    pose proof (to_N_lt a); try pose proof (to_N_lt b); try pose proof (to_N_lt c); b64_quantum.
  - rewrite decide_True by done. do 2 f_equal. apply byte_of_eq. divmod_lia.
  - rewrite decide_True by done. do 2 f_equal; [|f_equal]; apply byte_of_eq; divmod_lia.
  - rewrite IH. cbn [mbind option_bind]. do 2 f_equal; [|f_equal; [|f_equal]];
      apply byte_of_eq; divmod_lia.
Qed.

Lemma b64_decode_encode b : b64_decode (b64_encode b) = Ok b.
Proof. unfold b64_decode. by rewrite b64_no_newline, b64_quanta_encode. Qed.

(** Characters of an encoding are no spaces. *)
Lemma b64_encode_chars b :
  Forall (λ c, c = b64_pad ∨ ∃ q, q < 64 ∧ c = b64_char q) (b64_encode b).
Proof.
  induction b as [|a|a b|a b c l IH] using bytes_ind3; [constructor|..]; cbn [b64_encode];
    repeat (apply Forall_cons_2; [first [by left|right; eexists; split; [|reflexivity];
      pose proof (to_N_lt a); try pose proof (to_N_lt b); try pose proof (to_N_lt c); divmod_lia]|]);
    [constructor..|done].
Qed.
End base64.

(** ** Trimming a line *)

Lemma trim_left_stop fuel sp c s :
  Forall (λ p, ∃ a t, p = a :: t ∧ a ≠ c) sp → trim_left fuel sp (c :: s) = c :: s.
Proof.
  intros Hsp. destruct fuel as [|fuel]; [done|]. cbn [trim_left].
  assert (omap (λ p, strip_prefix p (c :: s)) sp = []) as ->; [|done].
  induction Hsp as [|p sp (a & t & -> & Ha) _ IH]; [done|]. cbn [omap list_omap].
  unfold strip_prefix at 1. rewrite decide_False; [exact IH|]. cbn. congruence.
Qed.

(** A byte that no encoding of a space begins or ends with. *)
Definition solid (c : byte) : bool :=
  forallb (λ p, match p with a :: _ => negb (bool_decide (a = c)) | [] => false end)
    (spaces ++ (reverse <$> spaces)).

Lemma solid_spec c sp : solid c = true → sp ⊆ spaces ++ (reverse <$> spaces) →
  Forall (λ p, ∃ a t, p = a :: t ∧ a ≠ c) sp.
Proof.
  unfold solid. rewrite forallb_forall. intros Hc Hsp. apply Forall_forall. intros p Hp.
  specialize (Hc p (proj1 (list_elem_of_In _ _) (Hsp p Hp))). destruct p as [|a t]; [done|].
  exists a, t. split; [done|]. by case_bool_decide.
Qed.

Lemma TrimSpace_line s :
  s ≠ [] → Forall (λ c, solid c = true) s → TrimSpace (s ++ [Byte.x0a]) = s.
Proof.
  intros Hne Hs. unfold TrimSpace.
  assert (trim_left (length (s ++ [Byte.x0a])) spaces (s ++ [Byte.x0a]) = s ++ [Byte.x0a]) as ->.
  { destruct Hs as [|c s Hc Hs]; [done|]. apply trim_left_stop, solid_spec; [done|].
    intros p Hp. apply elem_of_app. by left. }
  rewrite reverse_snoc, length_app, Nat.add_1_r. cbn [trim_left].
  assert (omap (λ p, strip_prefix p (Byte.x0a :: reverse s)) (reverse <$> spaces) = [reverse s]) as ->.
  { generalize (reverse s). intros r. vm_compute. reflexivity. }
  assert (Hr : trim_left (length s) (reverse <$> spaces) (reverse s) = reverse s); [|by rewrite Hr, reverse_involutive].
  assert (Forall (λ c, solid c = true) (reverse s)) as Hrev by by apply Forall_reverse.
  destruct (reverse s) as [|c r] eqn:Hrs.
  { by destruct (length s). }
  apply Forall_cons in Hrev as [Hc _]. apply trim_left_stop, solid_spec; [done|].
  intros p Hp. apply elem_of_app. by right.
Qed.

Lemma b64_line_trim l : l ≠ [] → TrimSpace (b64_encode l ++ [Byte.x0a]) = b64_encode l.
Proof.
  intros Hl. apply TrimSpace_line.
  - by destruct l as [|a [|b [|c l]]].
  - eapply Forall_impl; [apply b64_encode_chars|]. intros c [-> | (q & Hq & ->)].
    + vm_compute. reflexivity.
    + assert (forallb (λ q, solid (b64_char (N.of_nat q))) (seq 0 64) = true) as Hall by (vm_compute; reflexivity).
      rewrite forallb_forall in Hall. rewrite <-(N2Nat.id q). apply Hall, list_elem_of_In, elem_of_seq. lia.
Qed.
