(* ===== verification/External.v ===== *)
(** * Code outside the repository

    What driftnode takes from other packages, as parameters with the
    behaviour their documentation states: BLAKE3, Ed25519, argon2id with
    AES-256-GCM, CBOR. Module [Toy] holds concrete functions that satisfy
    every stated law, so that hypotheses about the parameters can be
    discharged at concrete inputs. *)

From S2P Require Import Prelude Base32.
#[local] Open Scope go_scope.

(** ** [lukechampine.com/blake3] *)

Class Blake3 := { Sum256 : bytes → bytes }.
Class Blake3Laws `{Blake3} : Prop := {
  Sum256_length b : length (Sum256 b) = HashSize;
}.

(** ** [crypto/ed25519]

    A private key is the 32-byte seed followed by the 32-byte public key;
    [ed_newkey] is [NewKeyFromSeed]. [Sign] and [Verify] panic on a key of
    the wrong length. *)

Definition PrivateKeySize : nat := 64.
Definition SignatureSize : nat := 64.

Class Ed25519 := {
  ed_newkey : bytes → bytes;
  ed_sign : bytes → bytes → bytes;
  ed_verify : bytes → bytes → bytes → bool;
}.

(** [priv.Public()]: [copy(publicKey, priv[32:])]. *)
Definition ed_public (priv : bytes) : bytes := take PublicKeySize (drop 32 priv).

Class Ed25519Laws `{Ed25519} : Prop := {
  ed_newkey_length seed : length seed = 32 → length (ed_newkey seed) = PrivateKeySize;
  ed_sign_length priv m : length priv = PrivateKeySize → length (ed_sign priv m) = SignatureSize;
  ed_verify_sign seed m : length seed = 32 →
    ed_verify (ed_public (ed_newkey seed)) m (ed_sign (ed_newkey seed) m) = true;
}.

Definition ed25519_Sign `{Ed25519} (priv m : bytes) : result bytes :=
  if decide (length priv = PrivateKeySize) then Ok (ed_sign priv m)
  else Err (Panic "ed25519: bad private key length").
Definition ed25519_Verify `{Ed25519} (pub m sig : bytes) : result bool :=
  if decide (length pub = PublicKeySize) then Ok (ed_verify pub m sig)
  else Err (Panic "ed25519: bad public key length").

(** ** argon2id and AES-256-GCM *)

Definition NonceSize : nat := 12.

Class Aead := {
  argon2_IDKey : bytes → bytes → Z → Z → Z → result bytes;
  gcm_Seal : bytes → bytes → bytes → bytes;
  gcm_Open : bytes → bytes → bytes → option bytes;
}.
Class AeadLaws `{Aead} : Prop := {
  (* deriveKey panics below one round or one thread, and on nothing else *)
  argon2_ok pass salt t m p :
    (1 ≤ t)%Z → (1 ≤ p)%Z → ∃ k, argon2_IDKey pass salt t m p = Ok k;
  gcm_Open_Seal k nonce plain : gcm_Open k nonce (gcm_Seal k nonce plain) = Some plain;
}.

(** ** Iteration over a Go map

    [for k := range m] visits every key once, in an order the language leaves
    open. An instance is one choice of orders. *)

Class GoRange := { range_set : gset bytes → list bytes }.
Class GoRangeLaws `{GoRange} : Prop := {
  range_set_elements s : range_set s ≡ₚ elements s;
}.

Lemma elem_of_range_set `{GoRangeLaws} x s : x ∈ range_set s ↔ x ∈ s.
Proof. by rewrite range_set_elements, elem_of_elements. Qed.

(** ** [github.com/fxamacker/cbor/v2], core deterministic encoding

    [cbor_text] is the set of text strings the decoder accepts (valid UTF-8,
    its default); [wf x] says that a value lies within its Go type and that
    its text strings are accepted. *)

Class CborText := { cbor_text : bytes → bool }.
Class CborTextLaws `{CborText} : Prop := {
  cbor_text_ascii s : is_ascii s → cbor_text s = true;
}.

Class WellFormed (A : Type) := wf : A → bool.
#[export] Hint Mode WellFormed ! : typeclass_instances.

Class CborType (A : Type) := {
  cbor_Marshal : A → result bytes;
  cbor_Unmarshal : bytes → result A;
}.
#[export] Hint Mode CborType ! : typeclass_instances.

Class CborLaws (A : Type) `{!WellFormed A, !CborType A} : Prop := {
  cbor_marshal_ok (x : A) : wf x = true → ∃ b, cbor_Marshal x = Ok b ∧ b ≠ [];
  cbor_roundtrip (x : A) b : wf x = true → cbor_Marshal x = Ok b → cbor_Unmarshal b = Ok x;
  cbor_unmarshal_wf (x : A) b : cbor_Unmarshal b = Ok x → wf x = true;
}.

(** [internal/core/encoding.go]: [CanonicalEncode] and [CanonicalDecode]. *)
Definition CanonicalEncode {A} `{!CborType A} (v : A) : result bytes := cbor_Marshal v.
Definition CanonicalDecode {A} `{!CborType A} (b : bytes) : result A := cbor_Unmarshal b.

(** [EventIDOf] and [ContentHashOf]. *)
Definition EventIDOf `{Blake3} (canon : bytes) : bytes := Sum256 canon.
Definition ContentHashOf `{Blake3} (b : bytes) : bytes := Sum256 b.

Section codec.
Context {A : Type} `{!WellFormed A, !CborType A, !CborLaws A}.

Lemma CanonicalEncode_ok (x : A) : wf x = true → ∃ b, CanonicalEncode x = Ok b ∧ b ≠ [].
Proof. apply cbor_marshal_ok. Qed.

Lemma CanonicalDecode_Encode (x : A) b :
  wf x = true → CanonicalEncode x = Ok b → CanonicalDecode b = Ok x.
Proof. apply cbor_roundtrip. Qed.

Lemma CanonicalDecode_wf (x : A) b : CanonicalDecode b = Ok x → wf x = true.
Proof. apply cbor_unmarshal_wf. Qed.

(** Encoding is injective, so equal canonical bytes are equal values. *)
Lemma CanonicalEncode_inj (x y : A) b :
  wf x = true → wf y = true →
  CanonicalEncode x = Ok b → CanonicalEncode y = Ok b → x = y.
Proof.
  intros Hx Hy Ex Ey. apply CanonicalDecode_Encode in Ex, Ey; [|done..]. congruence.
Qed.
End codec.

(** ** Concrete instances *)

Module Toy.
(** Little-endian base-256 digits. *)
Fixpoint le_bytes (n : nat) (v : N) : bytes :=
  match n with O => [] | S n => byte_of v :: le_bytes n (v / 256)%N end.
Fixpoint le_value (l : bytes) : N :=
  match l with [] => 0%N | b :: l => (Byte.to_N b + 256 * le_value l)%N end.

Definition hash (b : bytes) : bytes :=
  le_bytes 32 (foldl (λ acc c, (acc * 263 + Byte.to_N c + 1) mod 2 ^ 256)%N 7%N b).

Lemma le_bytes_length n v : length (le_bytes n v) = n.
Proof. revert v. induction n as [|n IH]; intros v; simpl; [done|]. by rewrite IH. Qed.

Definition blake3 : Blake3 := {| Sum256 := hash |}.
Definition blake3_laws : @Blake3Laws blake3.
Proof. split. intros b. apply le_bytes_length. Qed.

Definition mac (pub m : bytes) : bytes := hash (pub ++ m) ++ replicate 32 Byte.x01.
Definition ed25519 : Ed25519 := {|
  ed_newkey := λ seed, seed ++ hash seed;
  ed_sign := λ priv m, mac (ed_public priv) m;
  ed_verify := λ pub m sig, bool_decide (sig = mac pub m);
|}.
Definition ed25519_laws : @Ed25519Laws ed25519.
Proof.
  split; cbv [ed_newkey ed_sign ed_verify ed25519].
  - intros seed H. rewrite length_app, H. unfold hash. by rewrite le_bytes_length.
  - intros priv m _. unfold mac. rewrite length_app. unfold hash.
    by rewrite le_bytes_length, length_replicate.
  - intros seed m _. by apply bool_decide_eq_true.
Qed.

Definition aead : Aead := {|
  argon2_IDKey := λ pass salt t m p,
    if (t <? 1)%Z then Err (Panic "argon2: number of rounds too small")
    else if (p <? 1)%Z then Err (Panic "argon2: parallelism degree too low")
    else Ok (hash (pass ++ salt));
  gcm_Seal := λ k nonce plain, hash (k ++ nonce) ++ plain;
  gcm_Open := λ k nonce c,
    if decide (take 32 c = hash (k ++ nonce)) then Some (drop 32 c) else None;
|}.
Definition aead_laws : @AeadLaws aead.
Proof.
  split; cbv [argon2_IDKey gcm_Open gcm_Seal aead].
  - intros pass salt t m p Ht Hp.
    destruct (Z.ltb_spec t 1), (Z.ltb_spec p 1); try lia. by eexists.
  - intros k nonce plain.
    rewrite take_app_length', drop_app_length' by (symmetry; apply le_bytes_length).
    by rewrite decide_True.
Qed.

Definition go_range : GoRange := {| range_set := elements |}.
Definition go_range_laws : @GoRangeLaws go_range.
Proof. split. done. Qed.

Definition cbor_text : CborText := {| cbor_text := λ s, forallb (λ c, Byte.to_N c <? 128)%N s |}.
Definition cbor_text_laws : @CborTextLaws cbor_text.
Proof.
  split. intros s Hs. apply forallb_forall. intros c Hc. apply N.ltb_lt.
  revert c Hc. by apply List.Forall_forall.
Qed.

(** *** A serializer

    [ser x] is self-delimiting: [deser] reads it back in front of any
    bytes. *)
Class Ser (A : Type) := {
  ser : A → bytes;
  deser : bytes → option (A * bytes);
  deser_ser x rest : deser (ser x ++ rest) = Some (x, rest);
}.
#[export] Hint Mode Ser ! : typeclass_instances.

#[export] Program Instance ser_byte : Ser byte := {|
  ser b := [b];
  deser s := match s with [] => None | b :: s => Some (b, s) end;
|}.
Next Obligation. done. Qed.

Definition deser_option `{Ser A} (s : bytes) : option (option A * bytes) :=
  match s with
  | Byte.x01 :: s => '(x, s) ← deser s; Some (Some x, s)
  | Byte.x00 :: s => Some (None, s)
  | _ => None
  end.
#[export] Program Instance ser_option `{Ser A} : Ser (option A) := {|
  ser o := match o with Some x => Byte.x01 :: ser x | None => [Byte.x00] end;
  deser := deser_option;
|}.
Next Obligation. intros A ? [x|] rest; cbn; [by rewrite deser_ser|done]. Qed.

Definition deser_prod `{Ser A, Ser B} (s : bytes) : option ((A * B) * bytes) :=
  '(x, s) ← deser s; '(y, s) ← deser s; Some ((x, y), s).
#[export] Program Instance ser_prod `{Ser A, Ser B} : Ser (A * B) := {|
  ser p := ser p.1 ++ ser p.2;
  deser := deser_prod;
|}.
Next Obligation.
  intros A ? B ? [x y] rest. unfold deser_prod. cbn.
  rewrite <-(assoc_L (++)), deser_ser. cbn. by rewrite deser_ser.
Qed.

Section ser_list.
Context `{Ser A}.
Fixpoint ser_items (l : list A) : bytes :=
  match l with [] => [Byte.x00] | x :: l => Byte.x01 :: ser x ++ ser_items l end.
Fixpoint deser_items (fuel : nat) (s : bytes) : option (list A * bytes) :=
  match fuel, s with
  | S n, Byte.x01 :: s => '(x, s) ← deser s; '(l, s) ← deser_items n s; Some (x :: l, s)
  | S n, Byte.x00 :: s => Some ([], s)
  | _, _ => None
  end.
Lemma deser_items_ser fuel l rest :
  (length (ser_items l) ≤ fuel)%nat → deser_items fuel (ser_items l ++ rest) = Some (l, rest).
Proof.
  revert fuel. induction l as [|x l IH]; intros [|n] Hn; cbn in *; try lia; [done|].
  rewrite length_app in Hn. rewrite <-(assoc_L (++)), deser_ser. cbn. by rewrite IH by lia.
Qed.
End ser_list.
#[export] Program Instance ser_list `{Ser A} : Ser (list A) := {|
  ser := ser_items; deser s := deser_items (length s) s;
|}.
Next Obligation. intros A ? l rest. apply deser_items_ser. rewrite length_app. lia. Qed.

(** Along a partial inverse. *)
Definition deser_via {A B} `{Ser B} (g : B → option A) (s : bytes) : option (A * bytes) :=
  '(y, s) ← deser s; x ← g y; Some (x, s).
#[program] Definition ser_via {A B} `{Ser B} (f : A → B) (g : B → option A)
    (Hgf : ∀ x, g (f x) = Some x) : Ser A := {|
  ser x := ser (f x);
  deser := deser_via g;
|}.
Next Obligation. intros A B ? f g Hgf x rest. unfold deser_via. rewrite deser_ser. cbn. by rewrite Hgf. Qed.

Fixpoint pos_bytes (n : nat) (v : N) : bytes :=
  match n with
  | O => []
  | S n => if (v =? 0)%N then [] else byte_of v :: pos_bytes n (v / 256)%N
  end.

Lemma le_value_pos_bytes n v : (v < 256 ^ N.of_nat n)%N → le_value (pos_bytes n v) = v.
Proof.
  revert v. induction n as [|n IH]; intros v Hv.
  - change (256 ^ N.of_nat 0)%N with 1%N in Hv. simpl. lia.
  - simpl. destruct (N.eqb_spec v 0) as [->|Hne]; [done|]. simpl.
    rewrite Nat2N.inj_succ, N.pow_succ_r' in Hv.
    rewrite IH by (apply N.Div0.div_lt_upper_bound; lia).
    rewrite to_N_byte_of. pose proof (N.div_mod v 256). lia.
Qed.

Lemma size_bound (v : N) : (v < 256 ^ N.of_nat (N.size_nat v))%N.
Proof.
  destruct v as [|p]; [done|]. cbn [N.size_nat].
  induction p as [p IH|p IH|]; simpl Pos.size_nat;
    rewrite ?Nat2N.inj_succ, ?N.pow_succ_r'; [lia..|done].
Qed.

#[export] Instance ser_N : Ser N :=
  ser_via (λ v, pos_bytes (N.size_nat v) v) (λ b, Some (le_value b))
    (λ v, f_equal Some (le_value_pos_bytes _ _ (size_bound v))).

Definition Z_parts (z : Z) : option byte * N :=
  (if (z <? 0)%Z then Some Byte.x00 else None, Z.to_N (Z.abs z)).
Definition parts_Z (p : option byte * N) : option Z :=
  Some (match p.1 with Some _ => (- Z.of_N p.2)%Z | None => Z.of_N p.2 end).
Lemma parts_Z_parts z : parts_Z (Z_parts z) = Some z.
Proof. unfold parts_Z, Z_parts. destruct (Z.ltb_spec z 0); cbn; f_equal; lia. Qed.
#[export] Instance ser_Z : Ser Z := ser_via Z_parts parts_Z parts_Z_parts.

Section cbor.
Context {A : Type} `{Ser A, !WellFormed A}.

Definition marshal (x : A) : result bytes := Ok (Byte.x01 :: ser x).
Definition unmarshal (b : bytes) : result A :=
  match b with
  | _ :: s =>
      match deser s with
      | Some (x, []) => if wf x then Ok x else Err (E "cbor: invalid UTF-8 string")
      | _ => Err (E "cbor: unexpected EOF")
      end
  | [] => Err (E "cbor: unexpected EOF")
  end.

Definition cbor : CborType A := {| cbor_Marshal := marshal; cbor_Unmarshal := unmarshal |}.
Lemma cbor_laws : @CborLaws A _ cbor.
Proof.
  split; cbn; unfold marshal, unmarshal.
  - intros x _. by eexists.
  - intros x b Hx [= <-]. pose proof (deser_ser x []) as Hd. rewrite app_nil_r in Hd.
    by rewrite Hd, Hx.
  - intros x [|c b]; [done|]. destruct (deser b) as [[y [|]]|]; [|done..].
    destruct (wf y) eqn:E; [|done]. intros. by simplify_eq.
Qed.
End cbor.
End Toy.
