(* ===== verification/Identity.v ===== *)
(** * Identities and keys

    Models [internal/core/identity.go]: identity strings, keypairs, and the
    passphrase encryption of private keys. Randomness ([rand.Reader]) is an
    argument: the seed of a new key, the salt and the nonce. *)

From S2P Require Import Prelude Base32 External.
#[local] Open Scope go_scope.

(** ** Identity strings *)

Definition IdentityPrefix : bytes := # "driftnode:".

(** [strings.HasPrefix] and [s[len(prefix):]]. *)
Definition HasPrefix (s p : bytes) : bool := bool_decide (take (length p) s = p).

Definition PubkeyBytes (i : bytes) : result bytes :=
  if negb (HasPrefix i IdentityPrefix) then Err (E "identity missing driftnode: prefix")
  else PubkeyFromBase32 (drop (length IdentityPrefix) i).

Definition IdentityFromPubkey (pub : bytes) : bytes := IdentityPrefix ++ base32NoPadLower pub.

#[global] Arguments IdentityFromPubkey : simpl never.

Definition ParseIdentity (s : bytes) : result bytes :=
  if negb (HasPrefix s IdentityPrefix) then Err (E "identity missing prefix")
  else match PubkeyBytes s with
       | Err e => Err e
       | Ok _ => Ok s
       end.

Definition ResolvePubkey (arg : bytes) : result bytes :=
  match ParseIdentity arg with
  | Ok id => PubkeyBytes id
  | Err _ => wrap "invalid pubkey" (PubkeyFromBase32 arg)
  end.

Lemma HasPrefix_app p s : HasPrefix (p ++ s) p = true.
Proof. unfold HasPrefix. by rewrite take_app_length, bool_decide_true. Qed.

Lemma PubkeyBytes_prefix s : PubkeyBytes (IdentityPrefix ++ s) = PubkeyFromBase32 s.
Proof. unfold PubkeyBytes. by rewrite HasPrefix_app, drop_app_length. Qed.

Lemma PubkeyBytes_FromPubkey pub :
  length pub = PublicKeySize → PubkeyBytes (IdentityFromPubkey pub) = Ok pub.
Proof. intros H. unfold IdentityFromPubkey. rewrite PubkeyBytes_prefix. auto with driftnode. Qed.

Lemma PubkeyBytes_length i pub : PubkeyBytes i = Ok pub → length pub = PublicKeySize.
Proof.
  unfold PubkeyBytes. destruct (negb _); [done|]. by intros [_ H]%PubkeyFromBase32_Ok.
Qed.

Lemma PubkeyBytes_no_panic i : is_panic (PubkeyBytes i) = false.
Proof.
  unfold PubkeyBytes. destruct (negb _); [done|]. apply PubkeyFromBase32_no_panic.
Qed.

Lemma ParseIdentity_Ok s id : ParseIdentity s = Ok id ↔ id = s ∧ is_Ok (PubkeyBytes s).
Proof.
  unfold ParseIdentity, is_Ok. destruct (negb _) eqn:E.
  - unfold PubkeyBytes. rewrite E. naive_solver.
  - destruct (PubkeyBytes s); naive_solver.
Qed.

Lemma ParseIdentity_FromPubkey pub :
  length pub = PublicKeySize → ParseIdentity (IdentityFromPubkey pub) = Ok (IdentityFromPubkey pub).
Proof.
  intros H. apply ParseIdentity_Ok. split; [done|]. eexists. by apply PubkeyBytes_FromPubkey.
Qed.

(** A bare base32 key has no colon, so it is never taken for an identity. *)
Lemma base32_no_prefix pub : HasPrefix (base32NoPadLower pub) IdentityPrefix = false.
Proof.
  unfold HasPrefix. apply bool_decide_eq_false. intros Heq.
  assert (Byte.x3a ∈ base32NoPadLower pub) as Hin.
  { apply (subseteq_take (length IdentityPrefix)).
    rewrite Heq. vm_compute. repeat constructor. }
  apply base32NoPadLower_chars in Hin as [q Hq]. by vm_compute in Hq.
Qed.

Lemma ResolvePubkey_base32 pub :
  length pub = PublicKeySize → ResolvePubkey (base32NoPadLower pub) = Ok pub.
Proof.
  intros H. unfold ResolvePubkey, ParseIdentity. rewrite base32_no_prefix. cbn.
  by rewrite PubkeyFromBase32_NoPadLower.
Qed.

#[export] Instance IdentityFromPubkey_inj : Inj (=) (=) IdentityFromPubkey.
Proof. intros a b E. by apply (inj base32NoPadLower), (app_inv_head IdentityPrefix). Qed.

Lemma IdentityFromPubkey_ascii pub : is_ascii (IdentityFromPubkey pub).
Proof.
  unfold IdentityFromPubkey, is_ascii. apply Forall_app; split; [|apply base32NoPadLower_ascii].
  vm_compute. repeat constructor.
Qed.

#[export] Hint Resolve PubkeyBytes_FromPubkey IdentityFromPubkey_ascii : driftnode.

(** A second spelling of an identity: the same string with a newline after
    it. *)
Definition newline_alias (id : bytes) : bytes := id ++ [Byte.x0a].

Lemma newline_alias_ne id : newline_alias id ≠ id.
Proof. unfold newline_alias. intros H%(f_equal length). rewrite length_app in H. simpl in H. lia. Qed.

Lemma PubkeyBytes_newline_alias pub :
  length pub = PublicKeySize → PubkeyBytes (newline_alias (IdentityFromPubkey pub)) = Ok pub.
Proof.
  intros H. unfold newline_alias, IdentityFromPubkey.
  rewrite <-(assoc_L (++)), PubkeyBytes_prefix.
  apply PubkeyFromBase32_Ok. split; [|done].
  rewrite decode_newline; auto with driftnode.
Qed.

(** ** Keypairs *)

Record KeyPair := mkKeyPair { kp_Public : bytes; kp_Private : bytes }.

Section keys.
Context `{Ed25519}.

(** [ed25519.GenerateKey] on the 32 random bytes [seed]. *)
Definition NewKeyPair (seed : bytes) : KeyPair :=
  mkKeyPair (ed_public (ed_newkey seed)) (ed_newkey seed).

Definition KeyPairFromBytes (priv : bytes) : result KeyPair :=
  if negb (length priv =? PrivateKeySize) then Err (E "private key: want 64 bytes")
  else Ok (mkKeyPair (ed_public priv) priv).

Definition Identity (k : KeyPair) : bytes := IdentityFromPubkey (kp_Public k).

(** The keypairs [GenerateKey] returns. *)
Definition valid_key (k : KeyPair) : Prop :=
  ∃ seed, length seed = 32 ∧ k = NewKeyPair seed.

Context `{!Ed25519Laws}.

Lemma valid_key_private k : valid_key k → length (kp_Private k) = PrivateKeySize.
Proof. intros (seed & Hs & ->). by apply ed_newkey_length. Qed.

Lemma valid_key_public k : valid_key k → length (kp_Public k) = PublicKeySize.
Proof.
  intros (seed & Hs & ->). simpl. unfold ed_public.
  by rewrite length_take, length_drop, (ed_newkey_length seed Hs).
Qed.

Lemma valid_key_from_bytes k : valid_key k → KeyPairFromBytes (kp_Private k) = Ok k.
Proof.
  intros Hk. unfold KeyPairFromBytes. rewrite valid_key_private by done.
  destruct Hk as (seed & Hs & ->). done.
Qed.

Lemma valid_key_sign k m : valid_key k →
  ∃ sig, ed25519_Sign (kp_Private k) m = Ok sig ∧ length sig = SignatureSize ∧
         ed_verify (kp_Public k) m sig = true.
Proof.
  intros Hk. unfold ed25519_Sign. rewrite decide_True by by apply valid_key_private.
  eexists; split; [done|]. split; [by apply ed_sign_length, valid_key_private|].
  destruct Hk as (seed & Hs & ->). by apply ed_verify_sign.
Qed.

Lemma valid_key_identity k : valid_key k → PubkeyBytes (Identity k) = Ok (kp_Public k).
Proof. intros Hk. by apply PubkeyBytes_FromPubkey, valid_key_public. Qed.
End keys.
#[export] Hint Resolve valid_key_private valid_key_public valid_key_identity : driftnode.

(** ** Keys at rest *)

Record EncryptedKey := mkEncryptedKey {
  ek_Salt : bytes;
  ek_Nonce : bytes;
  ek_Cipher : bytes;
  ek_Time : Z;
  ek_Memory : Z;
  ek_Threads : Z;
}.

Record KeyEncryption := mkKeyEncryption { ke_time : Z; ke_memory : Z; ke_threads : Z }.

Definition DefaultKeyEncryption : KeyEncryption := mkKeyEncryption 3 (32 * 1024) 4.

#[export] Instance EncryptedKey_wf : WellFormed EncryptedKey := λ ek,
  bool_decide (0 ≤ ek_Time ek < 2 ^ 32)%Z && bool_decide (0 ≤ ek_Memory ek < 2 ^ 32)%Z
  && bool_decide (0 ≤ ek_Threads ek < 2 ^ 8)%Z.

Section encryption.
Context `{Aead}.

Definition EncryptBytes (k : KeyEncryption) (salt nonce plain passphrase : bytes)
    : result EncryptedKey :=
  if length passphrase =? 0 then Err (E "passphrase required")
  else
    dk ← argon2_IDKey passphrase salt (ke_time k) (ke_memory k) (ke_threads k);
    Ok (mkEncryptedKey salt nonce (gcm_Seal dk nonce plain)
          (ke_time k) (ke_memory k) (ke_threads k)).

Definition DecryptBytes (ek : EncryptedKey) (passphrase : bytes) : result bytes :=
  dk ← argon2_IDKey passphrase (ek_Salt ek) (ek_Time ek) (ek_Memory ek) (ek_Threads ek);
  if negb (length (ek_Nonce ek) =? NonceSize) then Err (E "nonce size mismatch")
  else match gcm_Open dk (ek_Nonce ek) (ek_Cipher ek) with
       | None => Err (E "decrypt (wrong passphrase?)")
       | Some plain => Ok plain
       end.

Definition Encrypt (k : KeyEncryption) (salt nonce private passphrase : bytes)
    : result EncryptedKey :=
  if length passphrase =? 0 then Err (E "passphrase required")
  else
    dk ← argon2_IDKey passphrase salt (ke_time k) (ke_memory k) (ke_threads k);
    Ok (mkEncryptedKey salt nonce (gcm_Seal dk nonce private)
          (ke_time k) (ke_memory k) (ke_threads k)).

Definition Decrypt (ek : EncryptedKey) (passphrase : bytes) : result bytes :=
  dk ← argon2_IDKey passphrase (ek_Salt ek) (ek_Time ek) (ek_Memory ek) (ek_Threads ek);
  if negb (length (ek_Nonce ek) =? NonceSize) then Err (E "nonce size mismatch")
  else match gcm_Open dk (ek_Nonce ek) (ek_Cipher ek) with
       | None => Err (E "decrypt (wrong passphrase?)")
       | Some priv =>
           if negb (length priv =? PrivateKeySize) then Err (E "private key: want 64 bytes")
           else Ok priv
       end.

Context `{!AeadLaws}.

Lemma Encrypt_Ok k salt nonce plain pass :
  pass ≠ [] → (1 ≤ ke_time k)%Z → (1 ≤ ke_threads k)%Z → length nonce = NonceSize →
  ∃ ek, EncryptBytes k salt nonce plain pass = Ok ek ∧
        Encrypt k salt nonce plain pass = Ok ek ∧
        DecryptBytes ek pass = Ok plain.
Proof.
  intros Hp Ht Hth Hn. unfold EncryptBytes, Encrypt, DecryptBytes.
  destruct (argon2_ok pass salt (ke_time k) (ke_memory k) (ke_threads k) Ht Hth) as [dk E].
  destruct pass as [|c pass]; [done|]. cbn [length Nat.eqb]. rewrite E. cbn.
  eexists. split_and!; [done|done|]. cbn. rewrite E. cbn. rewrite Hn. cbn.
  by rewrite gcm_Open_Seal.
Qed.

Lemma Decrypt_DecryptBytes ek pass :
  Decrypt ek pass =
    priv ← DecryptBytes ek pass;
    if negb (length priv =? PrivateKeySize) then Err (E "private key: want 64 bytes")
    else Ok priv.
Proof.
  unfold Decrypt, DecryptBytes. destruct (argon2_IDKey _ _ _ _ _); [|done]. cbn.
  destruct (negb _); [done|]. by destruct (gcm_Open _ _ _).
Qed.
End encryption.
