(* ===== verification/Event.v ===== *)
(** * Events

    Models [internal/core/event.go]: the event record and its payloads,
    signing, verification, event IDs and the kind/log consistency check. *)

From S2P Require Import Prelude Base32 External Identity.
#[local] Open Scope go_scope.

(** ** Data *)

Definition ProfileLog : bytes := # "profile".
Definition DetailLog : bytes := # "detail".
Definition PostLog : bytes := # "post".

(** [Kind] is a [uint8]; values outside the constants can be received. *)
Definition KindProfile : Z := 1.
Definition KindFollow : Z := 2.
Definition KindUnfollow : Z := 3.
Definition KindPost : Z := 4.
Definition KindLike : Z := 5.
Definition KindDelete : Z := 6.
Definition KindDetail : Z := 7.

Record Profile := mkProfile { DisplayName : bytes; AvatarHash : option bytes }.
Record Detail := mkDetail { Bio : bytes; FirstName : bytes; LastName : bytes; Location : bytes }.
Record Follow := mkFollow { TargetPubkey : bytes }.
Record Post := mkPost { Text : bytes; MediaHashes : list bytes; ParentID : bytes }.
Record Like := mkLike { like_TargetID : bytes }.
Record Delete := mkDelete { delete_TargetID : bytes }.

Record Event := mkEvent {
  e_Kind : Z;
  e_Log : bytes;
  e_Timestamp : Z;
  e_Sequence : Z;
  e_Profile : option Profile;
  e_Follow : option Follow;
  e_Post : option Post;
  e_Like : option Like;
  e_Delete : option Delete;
  e_Detail : option Detail;
}.

Record SignedEvent := mkSignedEvent {
  se_Event : Event;
  se_Author : bytes;
  se_Signature : bytes;
}.

#[export] Instance Profile_eq_dec : EqDecision Profile. Proof. solve_decision. Defined.
#[export] Instance Detail_eq_dec : EqDecision Detail. Proof. solve_decision. Defined.
#[export] Instance Follow_eq_dec : EqDecision Follow. Proof. solve_decision. Defined.
#[export] Instance Post_eq_dec : EqDecision Post. Proof. solve_decision. Defined.
#[export] Instance Like_eq_dec : EqDecision Like. Proof. solve_decision. Defined.
#[export] Instance Delete_eq_dec : EqDecision Delete. Proof. solve_decision. Defined.
#[export] Instance Event_eq_dec : EqDecision Event. Proof. solve_decision. Defined.
#[export] Instance SignedEvent_eq_dec : EqDecision SignedEvent. Proof. solve_decision. Defined.

(** An event of the given kind with no payload set. *)
Definition blank_event (kind : Z) : Event :=
  mkEvent kind [] 0 0 None None None None None None.
Definition set_stamp (ev : Event) (log : bytes) (ts seq : Z) : Event :=
  mkEvent (e_Kind ev) log ts seq (e_Profile ev) (e_Follow ev) (e_Post ev) (e_Like ev)
    (e_Delete ev) (e_Detail ev).

(** ** The values of the Go types *)

Definition is_hash (h : bytes) : bool := bool_decide (length h = HashSize).
Definition opt_all {A} (f : A → bool) (o : option A) : bool :=
  match o with Some a => f a | None => true end.

#[export] Instance Event_wf `{CborText} : WellFormed Event := λ e,
  bool_decide (0 ≤ e_Kind e < 256)%Z && cbor_text (e_Log e)
  && bool_decide (- 2 ^ 63 ≤ e_Timestamp e < 2 ^ 63)%Z
  && bool_decide (0 ≤ e_Sequence e < 2 ^ 64)%Z
  && opt_all (λ p, cbor_text (DisplayName p) && opt_all is_hash (AvatarHash p)) (e_Profile e)
  && opt_all (λ f, is_hash (TargetPubkey f)) (e_Follow e)
  && opt_all (λ p, cbor_text (Text p) && forallb is_hash (MediaHashes p)
                   && is_hash (ParentID p)) (e_Post e)
  && opt_all (λ l, is_hash (like_TargetID l)) (e_Like e)
  && opt_all (λ d, is_hash (delete_TargetID d)) (e_Delete e)
  && opt_all (λ d, cbor_text (Bio d) && cbor_text (FirstName d) && cbor_text (LastName d)
                   && cbor_text (Location d)) (e_Detail e).

#[export] Instance SignedEvent_wf `{CborText} : WellFormed SignedEvent := λ se,
  wf (se_Event se) && cbor_text (se_Author se).

(** ** [validateEvent] *)

Definition kind_valid_for_log (log : bytes) (kind : Z) : bool :=
  if decide (log = ProfileLog) then
    bool_decide (kind ∈ [KindProfile; KindFollow; KindUnfollow; KindDelete])
  else if decide (log = DetailLog) then
    bool_decide (kind ∈ [KindDetail; KindDelete])
  else if decide (log = PostLog) then
    bool_decide (kind ∈ [KindPost; KindLike; KindDelete])
  else false.

Definition validateEvent (ev : Event) : result unit :=
  if (e_Kind ev =? 0)%Z then Err (E "event kind must be set")
  else if (e_Timestamp ev =? 0)%Z then Err (E "event timestamp must be set")
  else if kind_valid_for_log (e_Log ev) (e_Kind ev) then Ok tt
  else Err (E "event kind not valid for log").

Lemma validateEvent_Ok ev :
  validateEvent ev = Ok tt ↔
  e_Timestamp ev ≠ 0%Z ∧ kind_valid_for_log (e_Log ev) (e_Kind ev) = true.
Proof.
  unfold validateEvent.
  destruct (Z.eqb_spec (e_Kind ev) 0) as [->|Hk].
  - split; [done|]. intros [_ H]. revert H. unfold kind_valid_for_log.
    destruct (decide (e_Log ev = ProfileLog)), (decide (e_Log ev = DetailLog)),
      (decide (e_Log ev = PostLog)); intros Hf; vm_compute in Hf; done.
  - destruct (Z.eqb_spec (e_Timestamp ev) 0); [naive_solver|].
    destruct (kind_valid_for_log _ _); naive_solver.
Qed.

(** ** Signing and verification *)

Section sign.
Context `{Blake3, Ed25519, CborText, !CborType Event}.

Definition Sign (k : KeyPair) (ev : Event) : result SignedEvent :=
  _ ← validateEvent ev;
  canon ← wrap "canonical encode" (CanonicalEncode ev);
  sig ← ed25519_Sign (kp_Private k) canon;
  Ok (mkSignedEvent ev (Identity k) sig).

Definition Verify (e : SignedEvent) : result unit :=
  pub ← wrap "author" (PubkeyBytes (se_Author e));
  if negb (length (se_Signature e) =? SignatureSize) then Err (E "signature: want 64 bytes")
  else
    canon ← wrap "canonical encode" (CanonicalEncode (se_Event e));
    ok ← ed25519_Verify pub canon (se_Signature e);
    if negb ok then Err (E "signature does not verify")
    else validateEvent (se_Event e).

(** [ID] of the embedded event: the author is not part of the bytes. *)
Definition ID (e : SignedEvent) : result bytes :=
  canon ← wrap "canonical encode" (CanonicalEncode (se_Event e));
  Ok (EventIDOf canon).

Lemma Verify_Ok e :
  Verify e = Ok tt ↔
  ∃ pub canon,
    PubkeyBytes (se_Author e) = Ok pub ∧ length (se_Signature e) = SignatureSize ∧
    CanonicalEncode (se_Event e) = Ok canon ∧
    ed_verify pub canon (se_Signature e) = true ∧ validateEvent (se_Event e) = Ok tt.
Proof.
  unfold Verify. rewrite bind_Ok. setoid_rewrite wrap_Ok. split.
  - intros (pub & Hpub & Hv).
    destruct (Nat.eqb_spec (length (se_Signature e)) SignatureSize) as [Hl|]; [|done].
    cbn [negb] in Hv. rewrite bind_Ok in Hv. destruct Hv as (canon & Hc & Hv).
    rewrite wrap_Ok in Hc. rewrite bind_Ok in Hv. destruct Hv as (ok & Hok & Hv).
    unfold ed25519_Verify in Hok. case_decide; simplify_eq.
    destruct (ed_verify _ _ _) eqn:Hs; [|done]. naive_solver.
  - intros (pub & canon & Hpub & Hl & Hc & Hs & Hv). exists pub. split; [done|].
    rewrite Hl, Hc. cbn. unfold ed25519_Verify.
    rewrite decide_True by by eapply PubkeyBytes_length. cbn. by rewrite Hs.
Qed.

Lemma ID_Ok e id : ID e = Ok id ↔
  ∃ canon, CanonicalEncode (se_Event e) = Ok canon ∧ id = EventIDOf canon.
Proof. unfold ID. rewrite bind_Ok. setoid_rewrite wrap_Ok. naive_solver. Qed.

Lemma Verify_no_panic e :
  is_panic (CanonicalEncode (se_Event e)) = false → is_panic (Verify e) = false.
Proof.
  intros Henc. unfold Verify.
  apply is_panic_bind; [rewrite is_panic_wrap; apply PubkeyBytes_no_panic|].
  intros pub Hpub%wrap_Ok. destruct (negb _); [done|].
  apply is_panic_bind; [by rewrite is_panic_wrap|]. intros canon _.
  unfold ed25519_Verify. rewrite decide_True by by eapply PubkeyBytes_length. cbn.
  destruct (negb _); [done|]. unfold validateEvent. by repeat case_match.
Qed.

Context `{!Ed25519Laws, !CborTextLaws, !CborLaws Event}.

Lemma Sign_Ok k ev :
  valid_key k → wf ev = true → validateEvent ev = Ok tt →
  ∃ se, Sign k ev = Ok se ∧ se_Event se = ev ∧ se_Author se = Identity k ∧
        Verify se = Ok tt ∧ is_Ok (ID se) ∧ wf se = true.
Proof.
  intros Hk Hwf Hv. unfold Sign. rewrite Hv. cbn.
  destruct (CanonicalEncode_ok ev Hwf) as (canon & Hc & _). rewrite Hc. cbn.
  destruct (valid_key_sign k canon Hk) as (sig & Hsig & Hl & Hver). rewrite Hsig. cbn.
  eexists. split_and!; [done..| | |].
  - apply Verify_Ok. exists (kp_Public k), canon. split_and!; try done. by apply valid_key_identity.
  - eexists. apply ID_Ok. eauto.
  - unfold wf, SignedEvent_wf. cbn. rewrite Hwf. cbn.
    apply cbor_text_ascii, IdentityFromPubkey_ascii.
Qed.

Lemma Sign_invalid k ev e : validateEvent ev = Err e → Sign k ev = Err e.
Proof. unfold Sign. by intros ->. Qed.

Lemma Sign_inv k ev se : Sign k ev = Ok se →
  se_Event se = ev ∧ se_Author se = Identity k ∧ validateEvent ev = Ok tt.
Proof.
  unfold Sign. rewrite bind_Ok. intros ([] & Hv & Hs).
  rewrite bind_Ok in Hs. destruct Hs as (canon & _ & Hs).
  rewrite bind_Ok in Hs. destruct Hs as (sig & _ & Hs). by simplify_eq.
Qed.

(** The same event under another spelling of its author verifies too. *)
Lemma Verify_respell e a pub :
  Verify e = Ok tt → PubkeyBytes (se_Author e) = Ok pub → PubkeyBytes a = Ok pub →
  Verify (mkSignedEvent (se_Event e) a (se_Signature e)) = Ok tt.
Proof.
  rewrite !Verify_Ok. cbn. intros (pub' & canon & Hp & Hl & Hc & Hs & Hv) Hpub Ha.
  exists pub, canon. rewrite Hpub in Hp. by simplify_eq.
Qed.
End sign.

(** ** Serializers of the toy codec *)

Module ToyEvent.
Import Toy.
Definition via {A B} `{Toy.Ser B} (f : A → B) (g : B → A) (H : ∀ x, g (f x) = x) : Toy.Ser A :=
  Toy.ser_via f (λ y, Some (g y)) (λ x, f_equal Some (H x)).

#[export] Instance ser_Profile : Toy.Ser Profile :=
  via (λ p, (DisplayName p, AvatarHash p)) (λ '(d, a), mkProfile d a) ltac:(by intros []).
#[export] Instance ser_Detail : Toy.Ser Detail :=
  via (λ d, (Bio d, FirstName d, LastName d, Location d))
    (λ '(b, f, l, o), mkDetail b f l o) ltac:(by intros []).
#[export] Instance ser_Follow : Toy.Ser Follow :=
  via TargetPubkey mkFollow ltac:(by intros []).
#[export] Instance ser_Post : Toy.Ser Post :=
  via (λ p, (Text p, MediaHashes p, ParentID p)) (λ '(t, m, r), mkPost t m r)
    ltac:(by intros []).
#[export] Instance ser_Like : Toy.Ser Like := via like_TargetID mkLike ltac:(by intros []).
#[export] Instance ser_Delete : Toy.Ser Delete := via delete_TargetID mkDelete ltac:(by intros []).
#[export] Instance ser_Event : Toy.Ser Event :=
  via (λ e, (e_Kind e, e_Log e, e_Timestamp e, e_Sequence e, e_Profile e,
             e_Follow e, e_Post e, e_Like e, e_Delete e, e_Detail e))
    (λ '(k, l, t, s, p, f, P, L, D, x), mkEvent k l t s p f P L D x) ltac:(by intros []).
#[export] Instance ser_SignedEvent : Toy.Ser SignedEvent :=
  via (λ e, (se_Event e, se_Author e, se_Signature e))
    (λ '(e, a, s), mkSignedEvent e a s) ltac:(by intros []).
#[export] Instance ser_EncryptedKey : Toy.Ser EncryptedKey :=
  via (λ k, (ek_Salt k, ek_Nonce k, ek_Cipher k, ek_Time k, ek_Memory k, ek_Threads k))
    (λ '(s, n, c, t, m, p), mkEncryptedKey s n c t m p) ltac:(by intros []).
End ToyEvent.
