(* ===== verification/Log.v ===== *)
(** * Projections of a log

    Models [internal/core/log.go]: the orders and projections computed from a
    set of signed events (profile, detail, follow set, tombstones, posts). *)

From S2P Require Import Prelude Base32 External Identity Event.
#[local] Open Scope go_scope.

(** ** [SortedByTime] *)

Definition time_key (se : SignedEvent) : Z * Z :=
  (e_Timestamp (se_Event se), e_Sequence (se_Event se)).
Definition time_less (a b : SignedEvent) : bool := lex2_lt (time_key a) (time_key b).

Definition SortedByTime (l : list SignedEvent) : list SignedEvent := stable_sort time_less l.

#[export] Instance time_less_strict_weak : StrictWeak time_less := lex2_lt_strict_weak time_key.

Lemma SortedByTime_perm l : SortedByTime l ≡ₚ l.
Proof. apply stable_sort_perm. Qed.

Lemma SortedByTime_sorted l : StronglySorted (not_after time_less) (SortedByTime l).
Proof. apply stable_sort_sorted, _. Qed.

Lemma time_equiv_keys a b : equiv_keys time_less a b = true → time_key a = time_key b.
Proof.
  unfold equiv_keys, time_less, lex2_lt. destruct (time_key a) as [t1 s1], (time_key b) as [t2 s2].
  cbn. rewrite andb_true_iff, !negb_true_iff. repeat case_decide; subst; try done;
    rewrite !Z.ltb_ge; intros []; f_equal; lia.
Qed.

(** No two events of the list share timestamp and sequence. *)
Definition distinct_times (l : list SignedEvent) : Prop :=
  ∀ a b, a ∈ l → b ∈ l → time_key a = time_key b → a = b.

Lemma SortedByTime_perm_eq l1 l2 :
  distinct_times l1 → l1 ≡ₚ l2 → SortedByTime l1 = SortedByTime l2.
Proof.
  intros Hd Hp. apply stable_sort_perm_eq; [apply _|done|].
  intros x y Hx Hy E. apply Hd; [done|done|]. by apply time_equiv_keys.
Qed.

(** ** Last-write-wins projections *)

Section latest.
Context {A : Type} (payload : SignedEvent → option A).

(** The loop of [Profile] and [Detail]: [latest] and [latestTS]. *)
Definition latest_step (acc : option A * Z) (se : SignedEvent) : option A * Z :=
  match payload se with
  | None => acc
  | Some p =>
      let ts := e_Timestamp (se_Event se) in
      if (acc.2 <=? ts)%Z then (Some p, ts) else acc
  end.

Definition latest_by (l : list SignedEvent) : option A := (foldl latest_step (None, 0%Z) l).1.

(** [se] is the winner of [l]: nothing before it is newer, everything after
    it is strictly older. *)
Definition wins (l : list SignedEvent) (p : A) (ts : Z) : Prop :=
  ∃ l1 se l2, l = l1 ++ se :: l2 ∧ payload se = Some p ∧ e_Timestamp (se_Event se) = ts ∧
    (0 ≤ ts)%Z ∧
    (∀ se', se' ∈ l1 → is_Some (payload se') → (e_Timestamp (se_Event se') ≤ ts)%Z) ∧
    (∀ se', se' ∈ l2 → is_Some (payload se') → (e_Timestamp (se_Event se') < ts)%Z).

Lemma latest_invariant l :
  match foldl latest_step (None, 0%Z) l with
  | (Some p, ts) => wins l p ts
  | (None, ts) => ts = 0%Z ∧
      ∀ se, se ∈ l → is_Some (payload se) → (e_Timestamp (se_Event se) < 0)%Z
  end.
Proof.
  induction l as [|se l IH] using rev_ind; [split; [done|]; intros ? []%not_elem_of_nil|].
  rewrite foldl_app. cbn [foldl]. destruct (foldl latest_step _ l) as [[p|] ts] eqn:Ef;
    unfold latest_step at 1; destruct (payload se) as [q|] eqn:Eq; cbn [snd].
  - destruct IH as (l1 & w & l2 & -> & Hw & Hts & H0 & H1 & H2).
    destruct (Z.leb_spec ts (e_Timestamp (se_Event se))) as [Hle|Hlt].
    + exists (l1 ++ w :: l2), se, []. split_and!; try done; [lia| |by intros ? []%not_elem_of_nil].
      intros se' [?| [->|?]%elem_of_cons]%elem_of_app Hs;
        [specialize (H1 se')|subst|specialize (H2 se')]; naive_solver lia.
    + exists l1, w, (l2 ++ [se]). rewrite <-(assoc_L (++)). split_and!; try done.
      intros se' [?| ->%list_elem_of_singleton]%elem_of_app Hs; [by apply H2|done].
  - destruct IH as (l1 & w & l2 & -> & Hw & Hts & H0 & H1 & H2).
    exists l1, w, (l2 ++ [se]). rewrite <-(assoc_L (++)). split_and!; try done.
    intros se' [?| ->%list_elem_of_singleton]%elem_of_app Hs; [by apply H2|].
    rewrite Eq in Hs. by destruct Hs.
  - destruct IH as [-> IH].
    destruct (Z.leb_spec 0 (e_Timestamp (se_Event se))) as [Hle|Hlt].
    + exists l, se, []. split_and!; try done; [|by intros ? []%not_elem_of_nil].
      intros se' Hin Hs. specialize (IH se' Hin Hs). lia.
    + split; [done|]. intros se' [?| ->%list_elem_of_singleton]%elem_of_app Hs; [by apply IH|done].
  - destruct IH as [-> IH]. split; [done|].
    intros se' [?| ->%list_elem_of_singleton]%elem_of_app Hs; [by apply IH|].
    rewrite Eq in Hs. by destruct Hs.
Qed.

Lemma latest_by_Some l p : latest_by l = Some p → ∃ ts, wins l p ts.
Proof.
  unfold latest_by. pose proof (latest_invariant l) as H.
  destruct (foldl _ _ l) as [[q|] ts]; cbn in *; [|done]. intros [= ->]. by eexists.
Qed.

Lemma latest_by_None l :
  latest_by l = None ↔ ∀ se, se ∈ l → is_Some (payload se) → (e_Timestamp (se_Event se) < 0)%Z.
Proof.
  unfold latest_by. pose proof (latest_invariant l) as H.
  destruct (foldl _ _ l) as [[q|] ts]; cbn in *; [|naive_solver].
  split; [done|]. intros Hall. destruct H as (l1 & w & l2 & -> & Hw & Hts & H0 & _).
  specialize (Hall w ltac:(set_solver) ltac:(by eexists)). lia.
Qed.
End latest.

Definition profile_payload (se : SignedEvent) : option Profile :=
  if decide (e_Kind (se_Event se) = KindProfile) then e_Profile (se_Event se) else None.
Definition detail_payload (se : SignedEvent) : option Detail :=
  if decide (e_Kind (se_Event se) = KindDetail) then e_Detail (se_Event se) else None.

Definition Log_Profile (l : list SignedEvent) : option Profile := latest_by profile_payload l.
Definition Log_Detail (l : list SignedEvent) : option Detail := latest_by detail_payload l.

(** ** The follow set *)

(** [FollowSet.Apply]: the map holds only [true], so it is a set. *)
Definition FollowSet_Apply (f : gset bytes) (se : SignedEvent) : gset bytes :=
  let ev := se_Event se in
  if decide (e_Kind ev = KindFollow) then
    match e_Follow ev with Some fl => {[TargetPubkey fl]} ∪ f | None => f end
  else if decide (e_Kind ev = KindUnfollow) then
    match e_Follow ev with Some fl => f ∖ {[TargetPubkey fl]} | None => f end
  else f.

Definition FollowSet (l : list SignedEvent) : gset bytes :=
  foldl FollowSet_Apply ∅ (SortedByTime l).

Definition FollowSet_Contains (f : gset bytes) (target : bytes) : bool := bool_decide (target ∈ f).
Definition FollowSet_Len (f : gset bytes) : nat := size f.

(** What one event says about following [t]. *)
Definition follow_action (t : bytes) (se : SignedEvent) : option bool :=
  match e_Follow (se_Event se) with
  | Some fl =>
      if decide (TargetPubkey fl = t) then
        if decide (e_Kind (se_Event se) = KindFollow) then Some true
        else if decide (e_Kind (se_Event se) = KindUnfollow) then Some false
        else None
      else None
  | None => None
  end.

(** The specification: the latest statement about [t] decides. *)
Definition follows (t : bytes) (l : list SignedEvent) : Prop :=
  last (omap (follow_action t) l) = Some true.

Lemma FollowSet_Apply_spec t f se :
  t ∈ FollowSet_Apply f se ↔
  match follow_action t se with Some b => b = true | None => t ∈ f end.
Proof.
  unfold FollowSet_Apply, follow_action.
  destruct (e_Follow (se_Event se)) as [fl|]; repeat case_decide; subst; set_solver.
Qed.

Lemma foldl_follows t l f :
  t ∈ foldl FollowSet_Apply f l ↔
  match last (omap (follow_action t) l) with Some b => b = true | None => t ∈ f end.
Proof.
  induction l as [|se l IH] using rev_ind; [done|].
  rewrite foldl_app. cbn. rewrite FollowSet_Apply_spec, omap_app. cbn.
  destruct (follow_action t se) as [b|]; [by rewrite last_snoc|]. by rewrite app_nil_r.
Qed.

Lemma FollowSet_follows t l : t ∈ FollowSet l ↔ follows t (SortedByTime l).
Proof.
  unfold FollowSet, follows. rewrite foldl_follows.
  destruct (last _) as [[]|]; set_solver.
Qed.

Lemma FollowSet_perm l1 l2 : distinct_times l1 → l1 ≡ₚ l2 → FollowSet l1 = FollowSet l2.
Proof. intros Hd Hp. unfold FollowSet. by rewrite (SortedByTime_perm_eq _ _ Hd Hp). Qed.

(** An event newer than the whole log is applied last, wherever it is in the
    list. *)
Lemma insert_before_last l se :
  (∀ e, e ∈ l → time_less e se = true) → insert_before time_less se l = l ++ [se].
Proof.
  induction l as [|e l IH]; intros Hnew; [done|]. cbn.
  rewrite (Hnew e ltac:(left)). by rewrite IH by (intros; apply Hnew; by right).
Qed.

Lemma insert_before_snoc l e se :
  time_less e se = true → insert_before time_less e (l ++ [se]) = insert_before time_less e l ++ [se].
Proof.
  intros He. induction l as [|y l IH]; cbn; [by rewrite (less_asym _ _ _ He)|].
  destruct (time_less y e); [|done]. cbn. by rewrite IH.
Qed.

Lemma SortedByTime_insert l1 l2 se :
  (∀ e, e ∈ l1 ++ l2 → time_less e se = true) →
  SortedByTime (l1 ++ se :: l2) = SortedByTime (l1 ++ l2) ++ [se].
Proof.
  induction l1 as [|e l1 IH]; intros Hnew; cbn.
  - apply insert_before_last. intros e He. apply Hnew. cbn. by rewrite <-(SortedByTime_perm l2).
  - fold (stable_sort time_less (l1 ++ se :: l2)) (stable_sort time_less (l1 ++ l2)).
    fold (SortedByTime (l1 ++ se :: l2)) (SortedByTime (l1 ++ l2)).
    rewrite IH by (intros; apply Hnew; by right).
    apply insert_before_snoc, Hnew. left.
Qed.

Lemma FollowSet_insert l1 l2 se :
  (∀ e, e ∈ l1 ++ l2 → time_less e se = true) →
  FollowSet (l1 ++ se :: l2) = FollowSet_Apply (FollowSet (l1 ++ l2)) se.
Proof. intros H. unfold FollowSet. by rewrite SortedByTime_insert, foldl_app. Qed.

(** ** Tombstones and posts *)

Definition Tombstoned_step (out : gset bytes) (se : SignedEvent) : gset bytes :=
  if decide (e_Kind (se_Event se) = KindDelete) then
    match e_Delete (se_Event se) with
    | Some d => {[delete_TargetID d]} ∪ out
    | None => out
    end
  else out.

Definition Tombstoned (l : list SignedEvent) : gset bytes := foldl Tombstoned_step ∅ l.

Definition deletes (id : bytes) (se : SignedEvent) : Prop :=
  e_Kind (se_Event se) = KindDelete ∧ delete_TargetID <$> e_Delete (se_Event se) = Some id.

Lemma elem_of_Tombstoned_step id out se :
  id ∈ Tombstoned_step out se ↔ deletes id se ∨ id ∈ out.
Proof.
  unfold Tombstoned_step, deletes.
  case_decide; [|naive_solver]. destruct (e_Delete (se_Event se)) as [d|]; cbn; set_solver.
Qed.

Lemma elem_of_Tombstoned id l : id ∈ Tombstoned l ↔ ∃ se, se ∈ l ∧ deletes id se.
Proof.
  unfold Tombstoned. induction l as [|se l IH] using rev_ind; [set_solver|].
  rewrite foldl_app. cbn. rewrite elem_of_Tombstoned_step, IH.
  setoid_rewrite elem_of_app. setoid_rewrite list_elem_of_singleton. naive_solver.
Qed.

Definition newer (a b : SignedEvent) : bool :=
  (e_Timestamp (se_Event b) <? e_Timestamp (se_Event a))%Z.

#[export] Instance newer_strict_weak : StrictWeak newer.
Proof. unfold newer. split; intros *; rewrite ?Z.ltb_lt, ?Z.ltb_ge; lia. Qed.

Section posts.
Context `{Blake3, !CborType Event}.

Definition live_post (tomb : gset bytes) (se : SignedEvent) : bool :=
  if decide (e_Kind (se_Event se) = KindPost) then
    match ID se with
    | Err _ => false
    | Ok id => bool_decide (id ∉ tomb)
    end
  else false.

Definition NonTombstonedPosts (l : list SignedEvent) : list SignedEvent :=
  filter (λ se, live_post (Tombstoned l) se = true) (SortedByTime l).

Definition Posts (l : list SignedEvent) : list SignedEvent :=
  stable_sort newer (NonTombstonedPosts l).

Lemma elem_of_Posts se l :
  se ∈ Posts l ↔
  se ∈ l ∧ e_Kind (se_Event se) = KindPost ∧
  ∃ id, ID se = Ok id ∧ ∀ d, d ∈ l → ¬ deletes id d.
Proof.
  unfold Posts, NonTombstonedPosts.
  rewrite stable_sort_perm, list_elem_of_filter, SortedByTime_perm. unfold live_post.
  case_decide as Hk; [|naive_solver].
  destruct (ID se) as [id|] eqn:Hid; [|naive_solver].
  rewrite bool_decide_eq_true, elem_of_Tombstoned. naive_solver.
Qed.

Lemma Posts_sorted l :
  StronglySorted (λ a b, (e_Timestamp (se_Event b) ≤ e_Timestamp (se_Event a))%Z) (Posts l).
Proof.
  eapply StronglySorted_impl; [|apply stable_sort_sorted, _].
  intros a b. unfold not_after, newer. by rewrite Z.ltb_ge.
Qed.

Lemma Posts_perm l :
  Posts l ≡ₚ filter (λ se, live_post (Tombstoned l) se = true) l.
Proof. unfold Posts, NonTombstonedPosts. by rewrite stable_sort_perm, SortedByTime_perm. Qed.
End posts.
