(* ===== verification/Bolt.v ===== *)
(** * The database interface

    [go.etcd.io/bbolt] as the store uses it: buckets of byte-string keys,
    each holding values ([bucket bytes]) or sub-buckets
    ([bucket (bucket bytes)]). The operations are parameters, with the
    behaviour bbolt documents as laws; module [ToyBolt] is an instance. *)

From S2P Require Import Prelude Base32.
#[local] Open Scope go_scope.

Class Bolt := {
  bucket : Type → Type;
  bk_new {V} : bucket V;
  bk_get {V} : bucket V → bytes → option V;
  bk_set {V} : bytes → V → bucket V → bucket V;
  bk_del {V} : bytes → bucket V → bucket V;
  (* the pairs in the order ForEach visits them *)
  bk_foreach {V} : bucket V → list (bytes * V);
  (* b.ForEach(func(k, v) error { return b.Delete(k) }) *)
  bk_foreach_delete {V} : bucket V → bucket V;
  (* b.Stats().KeyN *)
  bk_KeyN {V} : bucket V → nat;
  (* the keys and values Put accepts *)
  bk_key_ok : bytes → bool;
  bk_value_ok : bytes → bool;
}.

Class BoltLaws `{Bolt} : Prop := {
  bk_get_new {V} k : bk_get (bk_new : bucket V) k = None;
  bk_get_set {V} k k' (v : V) b :
    bk_get (bk_set k v b) k' = if decide (k = k') then Some v else bk_get b k';
  bk_get_del {V} k k' (b : bucket V) :
    bk_get (bk_del k b) k' = if decide (k = k') then None else bk_get b k';
  bk_foreach_sorted {V} (b : bucket V) : StronglySorted key_lt (bk_foreach b);
  bk_foreach_get {V} (b : bucket V) k v : (k, v) ∈ bk_foreach b ↔ bk_get b k = Some v;
  bk_KeyN_foreach {V} (b : bucket V) : bk_KeyN b = length (bk_foreach b);
  bk_key_blank : bk_key_ok [] = false;
  (* MaxKeySize and MaxValueSize *)
  bk_key_fits k : k ≠ [] → length k ≤ 1024 → bk_key_ok k = true;
  bk_value_fits v : (Z.of_nat (length v) ≤ 2 ^ 31 - 2)%Z → bk_value_ok v = true;
}.

(** Deleting every visited key leaves the bucket empty. bbolt documents
    modification during [ForEach] as undefined, so this is a hypothesis of
    its own, made only where the store relies on it. *)
Class ForEachDelete `{Bolt} : Prop := {
  bk_foreach_delete_get {V} (b : bucket V) k : bk_get (bk_foreach_delete b) k = None;
}.

(** ** The calls the store makes *)

Section calls.
Context `{Bolt}.

Definition bk_Put (k v : bytes) (b : bucket bytes) : result (bucket bytes) :=
  if negb (bk_key_ok k) then Err (E "key required or too large")
  else if negb (bk_value_ok v) then Err (E "value too large")
  else Ok (bk_set k v b).

(** [CreateBucketIfNotExists], returning the child. *)
Definition bk_CreateBucketIfNotExists (k : bytes) (p : bucket (bucket bytes))
    : result (bucket bytes * bucket (bucket bytes)) :=
  if negb (bk_key_ok k) then Err (E "bucket name required")
  else match bk_get p k with
       | Some b => Ok (b, p)
       | None => Ok (bk_new, bk_set k bk_new p)
       end.
End calls.

Section laws.
Context `{BoltLaws}.

Lemma bk_get_set_eq {V} k (v : V) b : bk_get (bk_set k v b) k = Some v.
Proof. rewrite bk_get_set. by rewrite decide_True. Qed.

Lemma bk_get_set_ne {V} k k' (v : V) b : k ≠ k' → bk_get (bk_set k v b) k' = bk_get b k'.
Proof. intros ?. rewrite bk_get_set. by rewrite decide_False. Qed.

(** The order in which [ForEach] visits a bucket depends on its contents
    only. *)
Lemma bk_foreach_ext {V} (b1 b2 : bucket V) :
  (∀ k, bk_get b1 k = bk_get b2 k) → bk_foreach b1 = bk_foreach b2.
Proof.
  intros Heq. apply key_sorted_unique; [apply bk_foreach_sorted..|].
  intros [k v]. by rewrite !bk_foreach_get, Heq.
Qed.

Lemma bk_foreach_new {V} : bk_foreach (bk_new : bucket V) = [].
Proof.
  destruct (bk_foreach (bk_new : bucket V)) as [|[k v] l] eqn:E; [done|].
  assert ((k, v) ∈ bk_foreach (bk_new : bucket V)) as Hin by (rewrite E; left).
  by rewrite bk_foreach_get, bk_get_new in Hin.
Qed.

Lemma bk_foreach_NoDup {V} (b : bucket V) : NoDup (bk_foreach b).*1.
Proof.
  pose proof (bk_foreach_sorted b) as Hs.
  induction Hs as [|[k v] l Hl IH Hx]; [constructor|]. cbn. constructor; [|done].
  intros ([k' v'] & -> & Hin)%list_elem_of_fmap. rewrite Forall_forall in Hx.
  exact (bytes_lt_irrefl _ (Hx _ Hin)).
Qed.

(** Adding a fresh key adds one pair. *)
Lemma bk_foreach_set_fresh {V} k (v : V) b :
  bk_get b k = None → bk_foreach (bk_set k v b) ≡ₚ (k, v) :: bk_foreach b.
Proof.
  intros Hk. apply NoDup_Permutation.
  - eapply NoDup_fmap_1, bk_foreach_NoDup.
  - constructor; [by rewrite bk_foreach_get, Hk|]. eapply NoDup_fmap_1, bk_foreach_NoDup.
  - intros [k' v']. rewrite elem_of_cons, !bk_foreach_get, bk_get_set.
    case_decide; naive_solver.
Qed.

Lemma bk_key_fits_32 k : length k = 32 → bk_key_ok k = true.
Proof. intros Hk. apply bk_key_fits; [by destruct k | lia]. Qed.

Lemma bk_Put_Ok k v b b' :
  bk_Put k v b = Ok b' ↔ bk_key_ok k = true ∧ bk_value_ok v = true ∧ b' = bk_set k v b.
Proof.
  unfold bk_Put. destruct (bk_key_ok k), (bk_value_ok v); cbn; naive_solver.
Qed.

Lemma bk_Create_Ok k p b p' :
  bk_CreateBucketIfNotExists k p = Ok (b, p') ↔
  bk_key_ok k = true ∧ b = default bk_new (bk_get p k) ∧
  (∀ k', bk_get p' k' = if decide (k = k') then Some b else bk_get p k') ∧
  p' = match bk_get p k with Some _ => p | None => bk_set k bk_new p end.
Proof.
  unfold bk_CreateBucketIfNotExists. destruct (bk_key_ok k); cbn; [|naive_solver].
  destruct (bk_get p k) as [c|] eqn:Hc; cbn; split.
  - intros [= <- <-]. split_and!; try done. intros k'. case_decide; by subst.
  - intros (_ & -> & _ & ->). done.
  - intros [= <- <-]. split_and!; try done. intros k'. by rewrite bk_get_set.
  - intros (_ & -> & _ & ->). done.
Qed.
End laws.

(** ** An instance *)

Module ToyBolt.
Definition by_key {V} (p q : bytes * V) : bool := bytes_ltb p.1 q.1.

#[export] Instance by_key_strict_weak {V} : StrictWeak (@by_key V).
Proof.
  unfold by_key. split; intros *.
  - apply not_true_is_false, bytes_lt_irrefl.
  - apply bytes_lt_trans.
  - rewrite <-!not_true_iff_false. intros H1 H2 H3.
    destruct (bytes_lt_total x.1 y.1) as [?|[Hxy|?]]; [done|by rewrite Hxy in H3|].
    destruct (bytes_lt_total y.1 z.1) as [?|[Hyz|?]]; [done|by rewrite Hyz in *|].
    apply H1. eapply bytes_lt_trans; [exact H3|done].
Qed.

Definition bolt : Bolt := {|
  bucket V := gmap bytes V;
  bk_new V := ∅;
  bk_get V b k := b !! k;
  bk_set V k v b := <[k := v]> b;
  bk_del V k b := delete k b;
  bk_foreach V b := stable_sort by_key (map_to_list b);
  bk_foreach_delete V b := ∅;
  bk_KeyN V b := length (map_to_list b);
  bk_key_ok k := negb (bool_decide (k = [])) && (length k <=? 1024);
  bk_value_ok v := true;
|}.

Definition bolt_laws : @BoltLaws bolt.
Proof.
  split; cbv [bucket bk_new bk_get bk_set bk_del bk_foreach bk_KeyN bk_key_ok bk_value_ok bolt].
  - intros V k. apply lookup_empty.
  - intros V k k' v b. by rewrite lookup_insert.
  - intros V k k' b. by rewrite lookup_delete.
  - intros V b.
    pose proof (stable_sort_sorted by_key (map_to_list b)) as Hs.
    assert (NoDup (stable_sort by_key (map_to_list b)).*1) as Hnd.
    { rewrite stable_sort_perm. apply NoDup_fst_map_to_list. }
    induction Hs as [|p l Hl IH Hx]; [constructor|].
    apply NoDup_cons in Hnd as [Hp Hnd]. constructor; [by apply IH|].
    rewrite Forall_forall in *. intros q Hq. specialize (Hx q Hq).
    unfold not_after, by_key in Hx. unfold key_lt.
    destruct (bytes_lt_total p.1 q.1) as [?|[Heq|Hlt]]; [done| |].
    + destruct Hp. apply list_elem_of_fmap. by exists q.
    + unfold bytes_lt in Hlt. congruence.
  - intros V b k v. rewrite stable_sort_perm. apply elem_of_map_to_list.
  - intros V b. by rewrite stable_sort_perm.
  - done.
  - intros k Hk Hl. rewrite bool_decide_false by done. by apply Nat.leb_le.
  - done.
Qed.

Definition bolt_foreach_delete : @ForEachDelete bolt.
Proof. split. intros V b k. apply lookup_empty. Qed.
End ToyBolt.
