(* ===== verification/Store.v ===== *)
(** * The local store: state, keys, logs

    Models the first half of [internal/store/store.go] and
    [internal/store/events.go]: the buckets, transactions, the identity and
    key records, the user's own logs, the crawl cache, media, routing,
    cursors and the transport key. *)

From S2P Require Import Prelude Base32 External Identity Event Log Bolt.
#[local] Open Scope go_scope.

(** ** State

    One field per top-level bucket. *)

Section state.
Context `{Bolt}.

Record store := mkStore {
  bucketMeta : bucket bytes;
  bucketKey : bucket bytes;
  bucketOwn : bucket (bucket bytes);
  bucketCrawl : bucket (bucket bytes);
  bucketMedia : bucket bytes;
  bucketRouting : bucket bytes;
  bucketVerified : bucket bytes;
  bucketFollowState : bucket bytes;
  bucketTransport : bucket bytes;
  bucketCursor : bucket bytes;
}.

(** [initBuckets] on a new file. *)
Definition empty_store : store :=
  mkStore bk_new bk_new bk_new bk_new bk_new bk_new bk_new bk_new bk_new bk_new.

Definition set_meta b s := mkStore b (bucketKey s) (bucketOwn s) (bucketCrawl s) (bucketMedia s)
  (bucketRouting s) (bucketVerified s) (bucketFollowState s) (bucketTransport s) (bucketCursor s).
Definition set_key b s := mkStore (bucketMeta s) b (bucketOwn s) (bucketCrawl s) (bucketMedia s)
  (bucketRouting s) (bucketVerified s) (bucketFollowState s) (bucketTransport s) (bucketCursor s).
Definition set_own b s := mkStore (bucketMeta s) (bucketKey s) b (bucketCrawl s) (bucketMedia s)
  (bucketRouting s) (bucketVerified s) (bucketFollowState s) (bucketTransport s) (bucketCursor s).
Definition set_crawl b s := mkStore (bucketMeta s) (bucketKey s) (bucketOwn s) b (bucketMedia s)
  (bucketRouting s) (bucketVerified s) (bucketFollowState s) (bucketTransport s) (bucketCursor s).
Definition set_media b s := mkStore (bucketMeta s) (bucketKey s) (bucketOwn s) (bucketCrawl s) b
  (bucketRouting s) (bucketVerified s) (bucketFollowState s) (bucketTransport s) (bucketCursor s).
Definition set_routing b s := mkStore (bucketMeta s) (bucketKey s) (bucketOwn s) (bucketCrawl s)
  (bucketMedia s) b (bucketVerified s) (bucketFollowState s) (bucketTransport s) (bucketCursor s).
Definition set_verified b s := mkStore (bucketMeta s) (bucketKey s) (bucketOwn s) (bucketCrawl s)
  (bucketMedia s) (bucketRouting s) b (bucketFollowState s) (bucketTransport s) (bucketCursor s).
Definition set_follow b s := mkStore (bucketMeta s) (bucketKey s) (bucketOwn s) (bucketCrawl s)
  (bucketMedia s) (bucketRouting s) (bucketVerified s) b (bucketTransport s) (bucketCursor s).
Definition set_transport b s := mkStore (bucketMeta s) (bucketKey s) (bucketOwn s) (bucketCrawl s)
  (bucketMedia s) (bucketRouting s) (bucketVerified s) (bucketFollowState s) b (bucketCursor s).
Definition set_cursor b s := mkStore (bucketMeta s) (bucketKey s) (bucketOwn s) (bucketCrawl s)
  (bucketMedia s) (bucketRouting s) (bucketVerified s) (bucketFollowState s) (bucketTransport s) b.

(** [db.Update(fn)]: a read-write transaction, rolled back when [fn]
    returns an error. [db.View(fn)] is plain reading. *)
Definition Update {A} (fn : stM store A) : stM store A := λ s,
  match fn s with
  | (Ok a, s') => (Ok a, s')
  | (Err e, _) => (Err e, s)
  end.

(** [tx.Bucket(b).Put(k, v)] and [Delete(k)] on a top-level bucket. *)
Definition put_in (get : store → bucket bytes) (set : bucket bytes → store → store)
    (k v : bytes) : stM store unit := λ s,
  match bk_Put k v (get s) with
  | Ok b => (Ok tt, set b s)
  | Err e => (Err e, s)
  end.
Definition delete_in (get : store → bucket bytes) (set : bucket bytes → store → store)
    (k : bytes) : stM store unit := modify (λ s, set (bk_del k (get s)) s).
End state.
Arguments store {_}.

(** ** Identity and keys *)

Section keys.
Context `{Bolt, Ed25519, !CborType EncryptedKey}.

Definition metaKeyIdentity : bytes := # "identity".
Definition keyName : bytes := # "key".

Definition put_meta := put_in bucketMeta set_meta.
Definition put_key := put_in bucketKey set_key.

Definition InitIdentity (kp : KeyPair) (enc : EncryptedKey) : stM store unit :=
  Update (λ s,
    match bk_get (bucketKey s) keyName with
    | Some _ => (Err (E "identity already initialized; use `key import` to replace"), s)
    | None =>
        (encBytes ← wrapM "encode key" (lift (CanonicalEncode enc));
         _ ← wrapM "put key" (put_key keyName encBytes);
         put_meta metaKeyIdentity (Identity kp)) s
    end).

Definition Store_Identity (s : store) : option bytes := bk_get (bucketMeta s) metaKeyIdentity.

Definition Store_EncryptedKey (s : store) : result EncryptedKey :=
  match bk_get (bucketKey s) keyName with
  | None => Err (E "no keypair stored; run `driftnode init`")
  | Some raw => wrap "decode key" (CanonicalDecode raw)
  end.

Definition PutKey (kp : KeyPair) (enc : EncryptedKey) : stM store unit :=
  Update (encBytes ← wrapM "encode key" (lift (CanonicalEncode enc));
          _ ← put_key keyName encBytes;
          put_meta metaKeyIdentity (Identity kp)).

Definition PutEncryptedKey (enc : EncryptedKey) : stM store unit :=
  encBytes ← wrapM "encode key" (lift (CanonicalEncode enc));
  Update (_ ← put_key keyName encBytes;
          delete_in bucketMeta set_meta metaKeyIdentity).

Definition SetIdentity (id : bytes) : stM store unit := Update (put_meta metaKeyIdentity id).
End keys.

(** ** Logs *)

(** [copy(id[:], k)] into a [[32]byte]. *)
Definition array32 (k : bytes) : bytes := take 32 (k ++ zero_hash).

Lemma array32_id k : length k = 32 → array32 k = k.
Proof. intros H. unfold array32. by rewrite take_app_length' by done. Qed.

(** [kind == KindLike && Like != nil && Author == author && TargetID == target]. *)
Definition is_like_of (author target : bytes) (se : SignedEvent) : bool :=
  bool_decide (e_Kind (se_Event se) = KindLike) &&
  match e_Like (se_Event se) with
  | Some lk => bool_decide (se_Author se = author) && bool_decide (like_TargetID lk = target)
  | None => false
  end.

(** The like an event is: author and target of a [KindLike] event. *)
Definition like_of (se : SignedEvent) : option (bytes * bytes) :=
  if decide (e_Kind (se_Event se) = KindLike) then
    match e_Like (se_Event se) with
    | Some lk => Some (se_Author se, like_TargetID lk)
    | None => None
    end
  else None.

Lemma is_like_of_spec a t se : is_like_of a t se = true ↔ like_of se = Some (a, t).
Proof.
  unfold is_like_of, like_of. case_decide as Hk.
  - rewrite bool_decide_true by done. destruct (e_Like (se_Event se)); cbn; [|done].
    rewrite andb_true_iff, !bool_decide_eq_true. naive_solver.
  - by rewrite bool_decide_false.
Qed.

Section logs.
Context `{Bolt, Blake3, !CborType Event, !CborType SignedEvent}.

Definition decode_event (v : bytes) : result SignedEvent := CanonicalDecode v.

(** The loop of [existingLikeID]. *)
Fixpoint find_like (author target : bytes) (l : list (bytes * bytes)) : option bytes :=
  match l with
  | [] => None
  | (k, v) :: l =>
      match decode_event v with
      | Err _ => find_like author target l
      | Ok se =>
          if is_like_of author target se then Some (array32 k) else find_like author target l
      end
  end.

Definition existingLikeID (author target : bytes) (b : bucket bytes) : option bytes :=
  find_like author target (bk_foreach b).

(** The like branch [AppendOwnEvent] and [PutCrawledEvent] share: the bucket
    already holds a like by this author of this target. *)
Definition like_dup (se : SignedEvent) (b : bucket bytes) : bool :=
  if decide (e_Kind (se_Event se) = KindLike) then
    match e_Like (se_Event se) with
    | Some lk =>
        match existingLikeID (se_Author se) (like_TargetID lk) b with
        | Some _ => true
        | None => false
        end
    | None => false
    end
  else false.

Definition AppendOwnEvent (log : bytes) (se : SignedEvent) : stM store unit :=
  id ← wrapM "event id" (lift (ID se));
  eventBytes ← wrapM "encode event" (lift (CanonicalEncode se));
  Update (λ s,
    match bk_CreateBucketIfNotExists log (bucketOwn s) with
    | Err e => (Err (Wrap "create log bucket" e), s)
    | Ok (logBucket, own) =>
        let s := set_own own s in
        match bk_get logBucket id with
        | Some _ => (Ok tt, s)
        | None =>
            if like_dup se logBucket then (Ok tt, s)
            else match bk_Put id eventBytes logBucket with
                 | Err e => (Err e, s)
                 | Ok logBucket => (Ok tt, set_own (bk_set log logBucket own) s)
                 end
        end
    end).

(** Readers that stop at a value that does not decode, with the error message
    of the caller. *)
Fixpoint decode_all (m : string) (l : list (bytes * bytes)) : result (list SignedEvent) :=
  match l with
  | [] => Ok []
  | (_, v) :: l =>
      se ← wrap m (decode_event v);
      out ← decode_all m l;
      Ok (se :: out)
  end.

Definition decode_events : list (bytes * bytes) → result (list SignedEvent) :=
  decode_all "decode event".

(** Readers that skip what does not decode. *)
Definition decodable (b : bucket bytes) : list (bytes * SignedEvent) :=
  omap (λ '(k, v), match decode_event v with Ok se => Some (k, se) | Err _ => None end)
    (bk_foreach b).

Definition log_events (p : bucket (bucket bytes)) (name : bytes) : result (list SignedEvent) :=
  match bk_get p name with
  | None => Ok []
  | Some b => decode_events (bk_foreach b)
  end.

Definition OwnEvents (log : bytes) (s : store) : result (list SignedEvent) :=
  log_events (bucketOwn s) log.

Definition AllOwnEvents (s : store) : result (list SignedEvent) :=
  prof ← OwnEvents ProfileLog s;
  detail ← OwnEvents DetailLog s;
  posts ← OwnEvents PostLog s;
  Ok ((prof ++ detail) ++ posts).

Definition OwnEventCount (log : bytes) (s : store) : Z :=
  match bk_get (bucketOwn s) log with
  | None => 0
  | Some b => wrap_u64 (Z.of_nat (bk_KeyN b))
  end.

(** Returns [inserted] and the error together: [inserted] is set before the
    [Put] that can fail. *)
Definition PutCrawledEvent (se : SignedEvent) (s : store) : (bool * result unit) * store :=
  match ID se with
  | Err e => ((false, Err (Wrap "event id" e)), s)
  | Ok id =>
      match CanonicalEncode se with
      | Err e => ((false, Err (Wrap "encode event" e)), s)
      | Ok eventBytes =>
          match bk_CreateBucketIfNotExists (se_Author se) (bucketCrawl s) with
          | Err e => ((false, Err (Wrap "create author bucket" e)), s)
          | Ok (authorBucket, crawl) =>
              match bk_get authorBucket id with
              | Some _ => ((false, Ok tt), set_crawl crawl s)
              | None =>
                  if like_dup se authorBucket then ((false, Ok tt), set_crawl crawl s)
                  else match bk_Put id eventBytes authorBucket with
                       | Err e => ((true, Err e), s)
                       | Ok authorBucket =>
                           ((true, Ok tt), set_crawl (bk_set (se_Author se) authorBucket crawl) s)
                       end
              end
          end
      end
  end.

Definition CrawledEvents (author : bytes) (s : store) : result (list SignedEvent) :=
  log_events (bucketCrawl s) author.

Definition PutCrawledProfile (author : bytes) (se : SignedEvent) : stM store unit :=
  id ← wrapM "event id" (lift (ID se));
  eventBytes ← wrapM "encode" (lift (CanonicalEncode se));
  Update (λ s,
    match bk_CreateBucketIfNotExists author (bucketCrawl s) with
    | Err e => (Err e, s)
    | Ok (authorBucket, crawl) =>
        match bk_Put id eventBytes authorBucket with
        | Err e => (Err e, s)
        | Ok authorBucket => (Ok tt, set_crawl (bk_set author authorBucket crawl) s)
        end
    end).

Definition CrawledProfiles (author : bytes) (s : store) : list SignedEvent :=
  match bk_get (bucketCrawl s) author with
  | None => []
  | Some b => filter (λ se, e_Log (se_Event se) = ProfileLog) (decodable b).*2
  end.

Definition CrawledIdentities (s : store) : list bytes := (bk_foreach (bucketCrawl s)).*1.

Definition Store_DisplayName (id : bytes) (s : store) : result bytes :=
  let '(ownID, ok) := match Store_Identity s with
                      | Some i => (i, true) | None => ([], false) end in
  events ← (if ok && bool_decide (id = ownID) then OwnEvents ProfileLog s
            else Ok (CrawledProfiles id s));
  match Log_Profile events with
  | Some prof => Ok (DisplayName prof)
  | None => Ok []
  end.

(** ** [events.go]: creating own events

    [now] is [core.Now64()]. *)
Context `{Ed25519}.

Definition SignAndAppend (kp : KeyPair) (log : bytes) (ev : Event) (now : Z)
    : stM store (option SignedEvent * bytes) := λ s,
  let existing :=
    if decide (e_Kind ev = KindLike) then
      match e_Like ev with
      | Some lk =>
          match bk_get (bucketOwn s) PostLog with
          | Some b => existingLikeID (Identity kp) (like_TargetID lk) b
          | None => None
          end
      | None => None
      end
    else None in
  match existing with
  | Some id => (Ok (None, id), s)
  | None =>
      let seq := OwnEventCount log s in
      let ev := set_stamp ev log now (wrap_u64 (seq + 1)) in
      (se ← wrapM "sign" (lift (Sign kp ev));
       _ ← wrapM "append" (AppendOwnEvent log se);
       id ← wrapM "event id" (lift (ID se));
       mret (Some se, id)) s
  end.
End logs.

(** ** Media, routing, cursors, transport key *)

Section records.
Context `{Bolt}.

Definition PutMedia (hash data : bytes) : stM store unit :=
  Update (put_in bucketMedia set_media hash data).
Definition GetMedia (hash : bytes) (s : store) : result bytes :=
  match bk_get (bucketMedia s) hash with
  | None => Err (E "media not found")
  | Some out => Ok out
  end.

Definition PutRouting (id token : bytes) : stM store unit :=
  Update (put_in bucketRouting set_routing id token).
Definition Routing (id : bytes) (s : store) : option bytes := bk_get (bucketRouting s) id.
Definition DeleteRouting (id : bytes) : stM store unit :=
  Update (delete_in bucketRouting set_routing id).

(** The scan keeps the last match; an empty identity reads as not found. *)
Definition RoutingByToken (token : bytes) (s : store) : option bytes :=
  let found := foldl (λ found '(k, v), if decide (v = token) then k else found) []
                 (bk_foreach (bucketRouting s)) in
  if decide (found = []) then None else Some found.

Definition AllRouting (s : store) : list (bytes * bytes) := bk_foreach (bucketRouting s).

Definition cursorKey (author log : bytes) : bytes := author ++ log.

(** [binary.BigEndian.PutUint64] and [Uint64]. *)
Definition be64 (v : Z) : bytes :=
  (λ i, byte_of (Z.to_N (Z.shiftr v (8 * Z.of_nat i) mod 256))) <$> [7; 6; 5; 4; 3; 2; 1; 0].
Definition from_be (b : bytes) : Z :=
  foldl (λ acc c, (acc * 256 + Z.of_N (Byte.to_N c))%Z) 0%Z b.

(** [binary.BigEndian.Uint64] panics on a value shorter than 8 bytes. *)
Definition SyncCursor (author log : bytes) (s : store) : result Z :=
  match bk_get (bucketCursor s) (cursorKey author log) with
  | None => Ok 0%Z
  | Some raw =>
      if length raw <? 8 then Err (Panic "index out of range")
      else Ok (wrap_i64 (from_be (take 8 raw)))
  end.
Definition PutSyncCursor (author log : bytes) (ts : Z) : stM store unit :=
  Update (put_in bucketCursor set_cursor (cursorKey author log) (be64 (wrap_u64 ts))).

Definition transportName : bytes := # "tailcat".
Definition PutTransportKey (keyBytes : bytes) : stM store unit :=
  Update (put_in bucketTransport set_transport transportName keyBytes).
Definition TransportKey (s : store) : option bytes := bk_get (bucketTransport s) transportName.
Definition DeleteTransportKey : stM store unit :=
  Update (delete_in bucketTransport set_transport transportName).
End records.
