(* ===== verification/StoreFacts.v ===== *)
(** * The store as a set union of events

    The abstract specification of a log is a finite map from event ID to
    event; [log_add] is the specification of an insertion. This file relates
    the buckets of [Store.v] to it: [view] and [subview] are the abstraction
    functions, [bucket_ok] the invariant under which readers succeed. *)

From S2P Require Import Prelude Base32 External Identity Event Log Bolt Store.
#[local] Open Scope go_scope.

(** ** The specification *)

Abbreviation elog := (gmap bytes SignedEvent).

Definition has_like (p : bytes * bytes) (m : elog) : Prop :=
  ∃ k se, m !! k = Some se ∧ like_of se = Some p.

Lemma has_like_Exists p m :
  Exists (λ kv, like_of kv.2 = Some p) (map_to_list m) ↔ has_like p m.
Proof.
  rewrite Exists_exists. unfold has_like. split.
  - intros ([k se] & Hin%elem_of_map_to_list & Hl). by exists k, se.
  - intros (k & se & Hk & Hl). exists (k, se). by rewrite elem_of_map_to_list.
Qed.

#[export] Instance has_like_dec p m : Decision (has_like p m) :=
  dec_iff (has_like_Exists p m).

(** The event is dropped when its ID, or a like by the same author of the same
    target, is already there. *)
Definition skips (id : bytes) (se : SignedEvent) (m : elog) : Prop :=
  is_Some (m !! id) ∨ ∃ p, like_of se = Some p ∧ has_like p m.

#[export] Instance skips_dec id se m : Decision (skips id se m).
Proof.
  unfold skips. apply or_dec; [apply _|].
  destruct (like_of se) as [p|]; [|right; naive_solver].
  destruct (decide (has_like p m)); [left|right]; naive_solver.
Defined.

Definition log_add (id : bytes) (se : SignedEvent) (m : elog) : elog :=
  if decide (skips id se m) then m else <[id := se]> m.

(** One like per author and target. *)
Definition one_like (m : elog) : Prop :=
  ∀ k1 k2 e1 e2 p, m !! k1 = Some e1 → m !! k2 = Some e2 →
    like_of e1 = Some p → like_of e2 = Some p → k1 = k2.

Lemma one_like_empty : one_like ∅.
Proof. intros k1 k2 e1 e2 p Hk. by rewrite lookup_empty in Hk. Qed.

Lemma log_add_one_like id se m : one_like m → one_like (log_add id se m).
Proof.
  intros Hm. unfold log_add. case_decide as Hs; [done|].
  intros k1 k2 e1 e2 p. rewrite !lookup_insert.
  repeat case_decide; subst; intros; simplify_eq; [done| | |by eapply Hm].
  - destruct Hs. right. exists p. split; [done|]. by exists k2, e2.
  - destruct Hs. right. exists p. split; [done|]. by exists k1, e1.
Qed.

Lemma log_add_mono id se m : m ⊆ log_add id se m.
Proof.
  unfold log_add. case_decide as Hs; [done|]. apply insert_subseteq.
  destruct (m !! id) eqn:E; [|done]. destruct Hs. by left.
Qed.

Lemma log_add_idemp id se m : log_add id se (log_add id se m) = log_add id se m.
Proof.
  unfold log_add at 2 3. case_decide as Hs; unfold log_add; [by rewrite decide_True|].
  rewrite decide_True; [done|]. left. by rewrite lookup_insert_eq.
Qed.

Lemma log_add_plain id se m :
  like_of se = None → log_add id se m = m ∪ {[id := se]}.
Proof.
  intros Hl. unfold log_add, skips. apply map_eq. intros k. rewrite lookup_union.
  case_decide as Hs.
  - destruct Hs as [[e He]|(p & Hp & _)]; [|congruence].
    destruct (decide (k = id)) as [->|Hne].
    + by rewrite He, lookup_singleton_eq.
    + rewrite lookup_singleton_ne by done. by destruct (m !! k).
  - destruct (decide (k = id)) as [->|Hne].
    + rewrite lookup_insert_eq, lookup_singleton_eq. destruct (m !! id); [|done].
      destruct Hs. by left.
    + rewrite lookup_insert_ne, lookup_singleton_ne by done. by destruct (m !! k).
Qed.

(** *** Adding many events

    [U] is the universe the events are drawn from: an ID has one meaning. *)

Definition log_adds (l : list (bytes * SignedEvent)) (m : elog) : elog :=
  foldl (λ m p, log_add p.1 p.2 m) m l.

(** [m'] holds what [m] and [l] hold together, a like counting as its author
    and target. *)
Definition merges (l : list (bytes * SignedEvent)) (m m' : elog) : Prop :=
  (∀ k se, like_of se = None → m' !! k = Some se ↔ m !! k = Some se ∨ (k, se) ∈ l) ∧
  (∀ p, has_like p m' ↔ has_like p m ∨ ∃ k se, (k, se) ∈ l ∧ like_of se = Some p).

Section universe.
Context (U : elog).

Lemma log_add_universe id se m : m ⊆ U → U !! id = Some se → log_add id se m ⊆ U.
Proof.
  intros Hm HU. unfold log_add. case_decide; [done|]. by apply insert_subseteq_l.
Qed.

Lemma log_add_lookup id se m k e :
  m ⊆ U → U !! id = Some se → like_of e = None →
  log_add id se m !! k = Some e ↔ m !! k = Some e ∨ (k, e) = (id, se).
Proof.
  intros Hm HU He. unfold log_add. case_decide as Hs.
  - split; [by left|]. intros [?|[= -> ->]]; [done|].
    destruct Hs as [[e' He']|(p & Hp & _)]; [|congruence].
    pose proof (lookup_weaken _ _ _ _ He' Hm). congruence.
  - destruct (decide (k = id)) as [->|Hne].
    + rewrite lookup_insert_eq. split; [intros [= ->]; by right|].
      intros [Hk|[= ->]]; [|done]. destruct Hs. left. by eexists.
    + rewrite lookup_insert_ne by done. split; [by left|]. intros [?|[= -> ->]]; done.
Qed.

Lemma log_add_has_like id se m p :
  m ⊆ U → U !! id = Some se →
  has_like p (log_add id se m) ↔ has_like p m ∨ like_of se = Some p.
Proof.
  intros Hm HU. unfold log_add. case_decide as Hs.
  - split; [by left|]. intros [?|Hp]; [done|].
    destruct Hs as [[e He]|(q & Hq & Hl)]; [|congruence].
    pose proof (lookup_weaken _ _ _ _ He Hm). exists id, e. split; [done|]. congruence.
  - unfold has_like. split.
    + intros (k & e & Hk & He). rewrite lookup_insert in Hk. case_decide; simplify_eq; eauto.
    + intros [(k & e & Hk & He)|Hp]; [|exists id, se; by rewrite lookup_insert_eq].
      exists k, e. split; [|done]. rewrite lookup_insert_ne; [done|].
      intros ->. destruct Hs. left. by eexists.
Qed.

Lemma log_adds_merges l m :
  m ⊆ U → (∀ k se, (k, se) ∈ l → U !! k = Some se) →
  log_adds l m ⊆ U ∧ merges l m (log_adds l m).
Proof.
  unfold log_adds, merges. revert m. induction l as [|[id se] l IH]; intros m Hm Hl.
  { set_solver. }
  assert (U !! id = Some se) as Hid by (apply Hl; left).
  destruct (IH (log_add id se m)) as (HU & Hp & Hk);
    [by apply log_add_universe|intros; apply Hl; by right|].
  cbn. split_and!; [done| |].
  - intros k e He. rewrite Hp, log_add_lookup, elem_of_cons by done. tauto.
  - intros p. rewrite Hk, log_add_has_like by done. setoid_rewrite elem_of_cons. naive_solver.
Qed.

Lemma log_adds_one_like l m : one_like m → one_like (log_adds l m).
Proof.
  unfold log_adds. revert m. induction l as [|[id se] l IH]; intros m Hm; [done|].
  cbn. by apply IH, log_add_one_like.
Qed.
End universe.

(** Once the events are in, adding them again changes nothing. *)
Lemma log_adds_mono l m : m ⊆ log_adds l m.
Proof.
  unfold log_adds. revert m. induction l as [|p l IH]; intros m; [done|]. cbn.
  etrans; [apply log_add_mono|apply IH].
Qed.

Lemma skips_mono id se m1 m2 : m1 ⊆ m2 → skips id se m1 → skips id se m2.
Proof.
  intros Hm [[e He]|(p & Hp & k & e & Hk & He)].
  - left. exists e. by eapply lookup_weaken.
  - right. exists p. split; [done|]. exists k, e. split; [by eapply lookup_weaken|done].
Qed.

Lemma log_adds_skips l m k se : (k, se) ∈ l → skips k se (log_adds l m).
Proof.
  revert m. induction l as [|[k' se'] l IH]; intros m; [set_solver|].
  intros [[= -> ->]|Hin]%elem_of_cons; [|by apply (IH (log_add k' se' m))].
  apply (skips_mono k' se' (log_add k' se' m)); [apply (log_adds_mono l)|].
  unfold log_add. case_decide; [done|].
  left. by rewrite lookup_insert_eq.
Qed.

Lemma log_adds_all_skip l m : (∀ k se, (k, se) ∈ l → skips k se m) → log_adds l m = m.
Proof.
  intros Hl. induction l as [|[k se] l IH]; [done|]. unfold log_adds in *. cbn.
  unfold log_add at 2. rewrite decide_True by (apply Hl; left).
  apply IH. intros. apply Hl. by right.
Qed.

Lemma log_adds_idemp l m : log_adds l (log_adds l m) = log_adds l m.
Proof. apply log_adds_all_skip. intros. by apply log_adds_skips. Qed.

(** The events of a log, added to an empty one in any order, give the log. *)
Lemma log_adds_rebuild l m M :
  one_like M → m ⊆ M → NoDup l.*1 →
  (∀ k se, (k, se) ∈ l → M !! k = Some se ∧ m !! k = None) →
  log_adds l m = list_to_map l ∪ m.
Proof.
  intros HM. revert m. induction l as [|[k se] l IH]; intros m Hm Hnd Hl; cbn.
  { by rewrite map_empty_union. }
  apply NoDup_cons in Hnd as [Hk Hnd]. destruct (Hl k se ltac:(left)) as [HMk Hmk].
  unfold log_add. rewrite decide_False.
  2:{ intros [[e He]|(p & Hp & k' & e & Hk' & He)]; [congruence|].
      assert (k' = k) as -> by (eapply HM; [by eapply lookup_weaken|done|done|done]). congruence. }
  change (foldl _ _ l) with (log_adds l (<[k := se]> m)). rewrite IH; [| |done|].
  - rewrite <-insert_union_l, insert_union_r; [done|]. by apply not_elem_of_list_to_map_1.
  - by apply insert_subseteq_l.
  - intros k' e' Hin. destruct (Hl k' e' ltac:(by right)) as [? ?]. split; [done|].
    rewrite lookup_insert_ne; [done|]. intros ->. by apply (list_elem_of_fmap_2 fst) in Hin.
Qed.

(** Two logs that agree on everything but which of several equal likes is
    kept. *)
#[export] Instance elog_equiv : Equiv elog := λ m1 m2,
  (∀ k se, like_of se = None → m1 !! k = Some se ↔ m2 !! k = Some se) ∧
  (∀ p, has_like p m1 ↔ has_like p m2).

#[export] Instance elog_equivalence : Equivalence (≡@{elog}).
Proof.
  split.
  - done.
  - intros m1 m2 [H1 H2]. split; [intros k se Hse; by rewrite H1|intros p; by rewrite H2].
  - intros m1 m2 m3 [H1 H2] [H3 H4].
    split; [intros k se Hse; by rewrite H1, H3|intros p; by rewrite H2, H4].
Qed.

(** The order and the repetitions of the insertions do not matter. *)
Lemma merges_equiv l1 l2 m m1 m2 :
  (∀ x, x ∈ l1 ↔ x ∈ l2) → merges l1 m m1 → merges l2 m m2 → m1 ≡ m2.
Proof.
  intros Hl [H1 H2] [H3 H4]. split.
  - intros k se Hse. by rewrite H1, H3, Hl.
  - intros p. rewrite H2, H4. by setoid_rewrite Hl.
Qed.

(** ** Abstraction of buckets *)

Section views.
Context `{BoltLaws, Blake3, !Blake3Laws, !CborType Event, !CborType SignedEvent}.

Definition to_option {A} (r : result A) : option A :=
  match r with Ok a => Some a | Err _ => None end.

Definition view (b : bucket bytes) : elog := list_to_map (decodable b).
Definition subview (p : bucket (bucket bytes)) (name : bytes) : elog :=
  from_option view ∅ (bk_get p name).

Definition bucket_ok (b : bucket bytes) : Prop :=
  ∀ k v, bk_get b k = Some v → ∃ se, decode_event v = Ok se ∧ ID se = Ok k.
Definition subs_ok (p : bucket (bucket bytes)) : Prop :=
  ∀ name b, bk_get p name = Some b → bucket_ok b.

Lemma elem_of_decodable b k se :
  (k, se) ∈ decodable b ↔ ∃ v, bk_get b k = Some v ∧ decode_event v = Ok se.
Proof.
  unfold decodable. rewrite list_elem_of_omap. split.
  - intros ([k' v] & Hin & Hd). rewrite bk_foreach_get in Hin.
    destruct (decode_event v) as [se'|] eqn:Ed; [|done].
    injection Hd as -> ->. by exists v.
  - intros (v & Hg & Hd). exists (k, v). rewrite bk_foreach_get. by rewrite Hd.
Qed.

Lemma decodable_NoDup b : NoDup (decodable b).*1.
Proof.
  pose proof (bk_foreach_NoDup b) as Hnd. unfold decodable.
  induction (bk_foreach b) as [|[k v] l IH]; [constructor|]. cbn in *.
  apply NoDup_cons in Hnd as [Hk Hnd]. specialize (IH Hnd).
  destruct (decode_event v); cbn; [|done]. constructor; [|done].
  intros ([k' se] & -> & Hin)%list_elem_of_fmap. destruct Hk.
  apply list_elem_of_omap in Hin as ([k2 v2] & Hin & Hd).
  apply list_elem_of_fmap. exists (k2, v2). split; [|done].
  destruct (decode_event v2); naive_solver.
Qed.

Lemma lookup_view b k : view b !! k = v ← bk_get b k; to_option (decode_event v).
Proof.
  apply option_eq. intros se. unfold view.
  rewrite <-elem_of_list_to_map by apply decodable_NoDup.
  rewrite elem_of_decodable. destruct (bk_get b k) as [v|]; cbn.
  - destruct (decode_event v) eqn:Ed; cbn; split.
    + intros (v' & [= <-] & Hv). congruence.
    + intros [= ->]. by exists v.
    + intros (v' & [= <-] & Hv). congruence.
    + done.
  - split; [by intros (v' & ? & _)|done].
Qed.

Lemma view_new : view bk_new = ∅.
Proof. apply map_eq. intros k. by rewrite lookup_view, bk_get_new, lookup_empty. Qed.

Lemma bucket_ok_new : bucket_ok bk_new.
Proof. intros k v. by rewrite bk_get_new. Qed.

Lemma view_is_Some b k : bucket_ok b → is_Some (view b !! k) ↔ is_Some (bk_get b k).
Proof.
  intros Hok. rewrite lookup_view. destruct (bk_get b k) as [v|] eqn:E; cbn; [|done].
  destruct (Hok _ _ E) as (se & -> & _). split; by eexists.
Qed.

Lemma view_ID b k se : bucket_ok b → view b !! k = Some se → ID se = Ok k.
Proof.
  intros Hok. rewrite lookup_view. destruct (bk_get b k) as [v|] eqn:E; cbn; [|done].
  destruct (Hok _ _ E) as (se' & -> & HID). cbn. by intros [= <-].
Qed.

Lemma ID_length se id : ID se = Ok id → length id = 32.
Proof. intros (canon & _ & ->)%ID_Ok. apply Sum256_length. Qed.

Lemma view_set b k v se : decode_event v = Ok se → view (bk_set k v b) = <[k := se]> (view b).
Proof.
  intros Hd. apply map_eq. intros k'. rewrite lookup_view, bk_get_set, lookup_insert.
  case_decide; cbn; [by rewrite Hd|]. by rewrite lookup_view.
Qed.

Lemma bucket_ok_set b k v se :
  bucket_ok b → decode_event v = Ok se → ID se = Ok k → bucket_ok (bk_set k v b).
Proof.
  intros Hok Hd HID k' v'. rewrite bk_get_set. case_decide; [|apply Hok].
  intros; simplify_eq. eauto.
Qed.

(** The strict reader succeeds on a well-formed bucket and returns the
    events in key order. *)
Lemma decode_all_ok m b :
  bucket_ok b → decode_all m (bk_foreach b) = Ok (decodable b).*2.
Proof.
  intros Hok. unfold decodable.
  assert (∀ k v, (k, v) ∈ bk_foreach b → is_Ok (decode_event v)) as Hd.
  { intros k v Hin%bk_foreach_get. destruct (Hok _ _ Hin) as (se & -> & _). by eexists. }
  induction (bk_foreach b) as [|[k v] l IH]; [done|]. cbn.
  destruct (Hd k v ltac:(left)) as [se ->]. cbn.
  rewrite IH; [done|]. intros. eapply Hd. by right.
Qed.

Lemma decode_events_ok b : bucket_ok b → decode_events (bk_foreach b) = Ok (decodable b).*2.
Proof. apply decode_all_ok. Qed.

Lemma elem_of_decodable_2 b se :
  se ∈ (decodable b).*2 ↔ ∃ k, view b !! k = Some se.
Proof.
  rewrite list_elem_of_fmap. split.
  - intros ([k se'] & -> & Hin). exists k. unfold view.
    by rewrite <-elem_of_list_to_map by apply decodable_NoDup.
  - intros [k Hk]. exists (k, se). split; [done|].
    unfold view in Hk. by rewrite <-elem_of_list_to_map in Hk by apply decodable_NoDup.
Qed.

Lemma decodable_view b : decodable b ≡ₚ map_to_list (view b).
Proof. unfold view. symmetry. apply map_to_list_to_map, decodable_NoDup. Qed.

Lemma log_events_ok p name :
  subs_ok p → ∃ evs, log_events p name = Ok evs ∧ evs ≡ₚ (map_to_list (subview p name)).*2.
Proof.
  intros Hok. unfold log_events, subview. destruct (bk_get p name) as [b|] eqn:E; cbn.
  - rewrite decode_events_ok by by eapply Hok. eexists; split; [done|].
    by rewrite decodable_view.
  - exists []. rewrite map_to_list_empty. done.
Qed.

(** ** Likes *)

Lemma find_like_spec b a t l :
  bucket_ok b → (∀ k v, (k, v) ∈ l → bk_get b k = Some v) →
  match find_like a t l with
  | Some id => ∃ se, view b !! id = Some se ∧ like_of se = Some (a, t)
  | None => ∀ k v se, (k, v) ∈ l → decode_event v = Ok se → like_of se ≠ Some (a, t)
  end.
Proof.
  intros Hok. induction l as [|[k v] l IH]; intros Hin; [set_solver|]. cbn.
  specialize (IH (λ k v H, Hin k v (proj2 (elem_of_cons _ _ _) (or_intror H)))).
  destruct (Hok k v (Hin k v ltac:(left))) as (se & Hd & HID). rewrite Hd.
  destruct (is_like_of a t se) eqn:El.
  - apply is_like_of_spec in El. exists se. split; [|done].
    rewrite array32_id by by eapply ID_length.
    rewrite lookup_view, (Hin k v ltac:(left)). cbn. by rewrite Hd.
  - destruct (find_like a t l); [done|].
    intros k' v' se' [[= -> ->]|?]%elem_of_cons Hd'; [|by eapply IH].
    rewrite Hd in Hd'. injection Hd' as <-. rewrite <-is_like_of_spec. congruence.
Qed.

Lemma existingLikeID_spec b a t :
  bucket_ok b →
  match existingLikeID a t b with
  | Some id => ∃ se, view b !! id = Some se ∧ like_of se = Some (a, t)
  | None => ¬ has_like (a, t) (view b)
  end.
Proof.
  intros Hok.
  assert (∀ k v, (k, v) ∈ bk_foreach b → bk_get b k = Some v) as Hin
    by (intros; by apply bk_foreach_get).
  assert ((∀ k v se, (k, v) ∈ bk_foreach b → decode_event v = Ok se →
    like_of se ≠ Some (a, t)) → ¬ has_like (a, t) (view b)) as Hno.
  { intros Hall (k & se & Hk & Hl). rewrite lookup_view in Hk.
    destruct (bk_get b k) as [v|] eqn:Hg; [|done]. cbn in Hk.
    destruct (decode_event v) eqn:Hd; [|done]. injection Hk as ->.
    eapply Hall; [by apply bk_foreach_get|done|done]. }
  unfold existingLikeID. pose proof (find_like_spec b a t _ Hok Hin) as Hf.
  destruct (find_like _ _ _); auto.
Qed.

Lemma like_dup_spec se b :
  bucket_ok b →
  like_dup se b = true ↔ ∃ p, like_of se = Some p ∧ has_like p (view b).
Proof.
  intros Hok. unfold like_dup, like_of. case_decide; [|naive_solver].
  destruct (e_Like (se_Event se)) as [lk|]; [|naive_solver].
  pose proof (existingLikeID_spec b (se_Author se) (like_TargetID lk) Hok) as Hs.
  destruct (existingLikeID _ _ _) as [id|].
  - split; [|done]. intros _. eexists; split; [done|].
    destruct Hs as (se' & ? & ?). by exists id, se'.
  - split; [done|]. naive_solver.
Qed.

Lemma skips_spec id se b :
  bucket_ok b →
  skips id se (view b) ↔ is_Some (bk_get b id) ∨ like_dup se b = true.
Proof. intros Hok. unfold skips. by rewrite view_is_Some, like_dup_spec. Qed.

(** ** Sub-buckets *)

Lemma create_subview k p b p' :
  subs_ok p → bk_CreateBucketIfNotExists k p = Ok (b, p') →
  bucket_ok b ∧ view b = subview p k ∧ subs_ok p' ∧ (∀ n, subview p' n = subview p n).
Proof.
  intros Hok (_ & -> & Hget & _)%bk_Create_Ok. unfold subview.
  assert (bucket_ok (default bk_new (bk_get p k))) as Hb.
  { destruct (bk_get p k) as [c|] eqn:Hc; [by eapply Hok|apply bucket_ok_new]. }
  split_and!; [done|destruct (bk_get p k); cbn; [done|apply view_new]| |].
  - intros n c. rewrite Hget. case_decide; [|apply Hok]. by intros [= <-].
  - intros n. rewrite Hget. case_decide as Hn; [|done]. subst n.
    destruct (bk_get p k); [done|apply view_new].
Qed.

Lemma subview_set k b p n :
  subview (bk_set k b p) n = if decide (k = n) then view b else subview p n.
Proof. unfold subview. rewrite bk_get_set. by case_decide. Qed.

Lemma subs_ok_set k b p : subs_ok p → bucket_ok b → subs_ok (bk_set k b p).
Proof.
  intros Hok Hb n c. rewrite bk_get_set. case_decide; [by intros [= <-]|apply Hok].
Qed.

(** ** The two insertions implement [log_add] *)

Context `{CborText, !CborLaws Event, !CborLaws SignedEvent}.

(** The event can be stored: its encoding fits a value of the database. *)
Definition storable (se : SignedEvent) : Prop :=
  wf se = true ∧ ∃ v, CanonicalEncode se = Ok v ∧ bk_value_ok v = true.

Lemma storable_ID se : storable se → ∃ id, ID se = Ok id ∧ length id = 32.
Proof.
  intros [Hwf _]. unfold wf, SignedEvent_wf in Hwf. apply andb_prop in Hwf as [Hwf _].
  destruct (CanonicalEncode_ok _ Hwf) as (canon & Hc & _).
  eexists. split; [apply ID_Ok; eauto|]. apply Sum256_length.
Qed.

Lemma storable_decode se v : storable se → CanonicalEncode se = Ok v → decode_event v = Ok se.
Proof. intros [Hwf _] Hv. by apply CanonicalDecode_Encode. Qed.

Lemma Put_storable se id v b :
  storable se → ID se = Ok id → CanonicalEncode se = Ok v → bk_Put id v b = Ok (bk_set id v b).
Proof.
  intros (_ & v' & Hv' & Hok) HID Hv. apply bk_Put_Ok.
  rewrite Hv in Hv'. injection Hv' as <-. split_and!; [|done..].
  by eapply bk_key_fits_32, ID_length.
Qed.

Lemma bk_Create_total k p :
  bk_key_ok k = true → ∃ b p', bk_CreateBucketIfNotExists k p = Ok (b, p').
Proof.
  unfold bk_CreateBucketIfNotExists. intros ->. cbn. destruct (bk_get p k); eauto.
Qed.

(** [p'] is [p] with [se] added to the log [name]. *)
Definition adds (name id : bytes) (se : SignedEvent) (p p' : bucket (bucket bytes)) : Prop :=
  subs_ok p' ∧ ∀ n, subview p' n =
    if decide (n = name) then log_add id se (subview p n) else subview p n.

Lemma adds_skip name id se p b p' :
  subs_ok p → bk_CreateBucketIfNotExists name p = Ok (b, p') →
  is_Some (bk_get b id) ∨ like_dup se b = true → adds name id se p p'.
Proof.
  intros Hok Hc Hskip. destruct (create_subview _ _ _ _ Hok Hc) as (Hb & Hv & Hp' & Hn).
  split; [done|]. intros n. rewrite Hn. case_decide as Hname; [|done]. subst n.
  unfold log_add. rewrite decide_True; [done|]. rewrite <-Hv. by apply skips_spec.
Qed.

Lemma adds_put name id se p b p' v :
  subs_ok p → storable se → ID se = Ok id → CanonicalEncode se = Ok v →
  bk_CreateBucketIfNotExists name p = Ok (b, p') →
  bk_get b id = None → like_dup se b = false →
  adds name id se p (bk_set name (bk_set id v b) p').
Proof.
  intros Hok Hse HID Hv Hc Hget Hdup.
  destruct (create_subview _ _ _ _ Hok Hc) as (Hb & Hview & Hp' & Hn).
  pose proof (storable_decode _ _ Hse Hv) as Hdec. split.
  - apply subs_ok_set; [done|]. by eapply bucket_ok_set.
  - intros n. rewrite subview_set, Hn. unfold log_add.
    destruct (decide (n = name)) as [->|Hne].
    + rewrite decide_True by done. rewrite (view_set _ _ _ _ Hdec), Hview.
      rewrite decide_False; [done|].
      rewrite <-Hview, (skips_spec _ _ _ Hb), Hget, Hdup. by intros [[? ?]|?].
    + by rewrite decide_False.
Qed.

Lemma AppendOwnEvent_adds log se id s :
  subs_ok (bucketOwn s) → storable se → ID se = Ok id → bk_key_ok log = true →
  ∃ own, AppendOwnEvent log se s = (Ok tt, set_own own s) ∧ adds log id se (bucketOwn s) own.
Proof.
  intros Hok Hse HID Hlog. unfold AppendOwnEvent, wrapM, lift, Update, mbind, stM_bind.
  rewrite HID. destruct Hse as (Hwf & v & Hv & Hvok). cbn. rewrite Hv. cbn.
  assert (storable se) as Hse by (split; eauto).
  destruct (bk_Create_total log (bucketOwn s) Hlog) as (b & p' & Hc). rewrite Hc.
  destruct (bk_get b id) as [w|] eqn:Hget.
  { eexists; split; [done|]. eapply adds_skip; eauto. }
  destruct (like_dup se b) eqn:Hdup.
  { eexists; split; [done|]. eapply adds_skip; eauto. }
  rewrite (Put_storable se id v) by done. eexists; split; [done|]. by eapply adds_put.
Qed.

(** The boolean reports whether the log grew. *)
Lemma PutCrawledEvent_adds se id s :
  subs_ok (bucketCrawl s) → storable se → ID se = Ok id → bk_key_ok (se_Author se) = true →
  ∃ crawl inserted, PutCrawledEvent se s = ((inserted, Ok tt), set_crawl crawl s) ∧
    adds (se_Author se) id se (bucketCrawl s) crawl ∧
    (inserted = true ↔ ¬ skips id se (subview (bucketCrawl s) (se_Author se))).
Proof.
  intros Hok Hse HID Hlog. unfold PutCrawledEvent. rewrite HID.
  destruct Hse as (Hwf & v & Hv & Hvok). rewrite Hv.
  assert (storable se) as Hse by (split; eauto).
  destruct (bk_Create_total (se_Author se) (bucketCrawl s) Hlog) as (b & p' & Hc). rewrite Hc.
  destruct (create_subview _ _ _ _ Hok Hc) as (Hb & Hview & Hp' & Hn).
  pose proof (skips_spec id se b Hb) as Hsk. rewrite Hview in Hsk.
  destruct (bk_get b id) as [w|] eqn:Hget.
  { do 2 eexists; split; [done|]. split; [eapply adds_skip; eauto|].
    rewrite Hsk. naive_solver. }
  destruct (like_dup se b) eqn:Hdup.
  { do 2 eexists; split; [done|]. split; [eapply adds_skip; eauto|].
    rewrite Hsk. naive_solver. }
  rewrite (Put_storable se id v) by done. do 2 eexists; split; [done|].
  split; [by eapply adds_put|]. rewrite Hsk. split; [|done]. by intros _ [[? ?]|?].
Qed.

(** ** One event, whatever the outcome *)

Lemma put_Ok_storable se id v b b' :
  wf se = true → CanonicalEncode se = Ok v → bk_Put id v b = Ok b' → storable se.
Proof. intros Hwf Hv (_ & Hok & _)%bk_Put_Ok. split; [done|]. by exists v. Qed.

Lemma PutCrawledEvent_any se s r s' :
  wf se = true → subs_ok (bucketCrawl s) → PutCrawledEvent se s = (r, s') →
  (s' = s ∧ is_ok r.2 = false) ∨
  ∃ id crawl, ID se = Ok id ∧ adds (se_Author se) id se (bucketCrawl s) crawl ∧ s' = set_crawl crawl s.
Proof.
  intros Hwf Hok. unfold PutCrawledEvent.
  destruct (ID se) as [id|] eqn:HID; [|intros [= <- <-]; by left].
  destruct (CanonicalEncode se) as [v|] eqn:Hv; [|intros [= <- <-]; by left].
  destruct (bk_CreateBucketIfNotExists _ _) as [[b p]|] eqn:Hc; [|intros [= <- <-]; by left].
  destruct (bk_get b id) as [x|] eqn:Hget.
  { intros [= _ <-]. right. do 2 eexists. split_and!; [done| |done]. eapply adds_skip; eauto. }
  destruct (like_dup se b) eqn:Hdup.
  { intros [= _ <-]. right. do 2 eexists. split_and!; [done| |done]. eapply adds_skip; eauto. }
  destruct (bk_Put id v b) as [b'|] eqn:Hput; [|intros [= <- <-]; by left].
  intros [= _ <-]. right. do 2 eexists. split_and!; [done| |done].
  pose proof (put_Ok_storable _ _ _ _ _ Hwf Hv Hput) as Hst.
  apply bk_Put_Ok in Hput as (_ & _ & ->). by eapply adds_put.
Qed.

Lemma AppendOwnEvent_any log se s r s' :
  wf se = true → subs_ok (bucketOwn s) → AppendOwnEvent log se s = (r, s') →
  (s' = s ∧ is_ok r = false) ∨
  ∃ id own, ID se = Ok id ∧ adds log id se (bucketOwn s) own ∧ s' = set_own own s.
Proof.
  intros Hwf Hok. unfold AppendOwnEvent, wrapM, lift, Update, mbind, stM_bind.
  destruct (ID se) as [id|e] eqn:HID; [|destruct e; intros [= <- <-]; by left]. cbn [wrap].
  destruct (CanonicalEncode se) as [v|e] eqn:Hv; [|destruct e; intros [= <- <-]; by left]. cbn [wrap].
  destruct (bk_CreateBucketIfNotExists _ _) as [[b p]|] eqn:Hc; [|intros [= <- <-]; by left].
  destruct (bk_get b id) as [x|] eqn:Hget.
  { intros [= _ <-]. right. do 2 eexists. split_and!; [done| |done]. eapply adds_skip; eauto. }
  destruct (like_dup se b) eqn:Hdup.
  { intros [= _ <-]. right. do 2 eexists. split_and!; [done| |done]. eapply adds_skip; eauto. }
  destruct (bk_Put id v b) as [b'|] eqn:Hput; [|intros [= <- <-]; by left].
  intros [= _ <-]. right. do 2 eexists. split_and!; [done| |done].
  pose proof (put_Ok_storable _ _ _ _ _ Hwf Hv Hput) as Hst.
  apply bk_Put_Ok in Hput as (_ & _ & ->). by eapply adds_put.
Qed.

(** An insertion leaves the event, or the like it repeats, in the log. *)
Lemma adds_skips name id se p p' : adds name id se p p' → skips id se (subview p' name).
Proof.
  intros [_ Hv]. rewrite Hv, decide_True by done. unfold log_add. case_decide as Hs; [done|].
  left. rewrite lookup_insert_eq. by eexists.
Qed.

(** ** The order of the events of a log *)

Lemma decodable_sorted b : StronglySorted key_lt (decodable b).
Proof.
  unfold decodable. pose proof (bk_foreach_sorted b) as Hs.
  induction Hs as [|[k v] l Hl IH Hx]; [constructor|]. cbn.
  destruct (decode_event v) as [se|]; cbn; [|done]. constructor; [done|].
  rewrite Forall_forall in Hx. apply Forall_forall. intros [k' se'] Hin.
  apply list_elem_of_omap in Hin as ([k2 v2] & Hin & Hd). specialize (Hx _ Hin).
  destruct (decode_event v2); [|done]. by injection Hd as -> ->.
Qed.

Lemma elem_of_decodable_view b k se : (k, se) ∈ decodable b ↔ view b !! k = Some se.
Proof. unfold view. by rewrite <-elem_of_list_to_map by apply decodable_NoDup. Qed.

Lemma decodable_ext b1 b2 : view b1 = view b2 → decodable b1 = decodable b2.
Proof.
  intros Hv. apply key_sorted_unique; [apply decodable_sorted..|].
  intros [k se]. by rewrite !elem_of_decodable_view, Hv.
Qed.

(** A fresh event goes somewhere into the list; the rest keeps its order. *)
Lemma decodable_insert b b' k se :
  view b !! k = None → view b' = <[k := se]> (view b) →
  ∃ l1 l2, decodable b = l1 ++ l2 ∧ decodable b' = l1 ++ (k, se) :: l2.
Proof.
  intros Hk Hb'.
  assert ((k, se) ∈ decodable b') as (l1 & l2 & Hl)%list_elem_of_split.
  { rewrite elem_of_decodable_view, Hb'. by rewrite lookup_insert_eq. }
  exists l1, l2. split; [|done].
  pose proof (decodable_sorted b') as Hs. pose proof (decodable_NoDup b') as Hnd.
  rewrite Hl in Hs, Hnd.
  apply key_sorted_unique; [apply decodable_sorted|by eapply StronglySorted_app_skip|].
  intros [k' se']. rewrite fmap_app, fmap_cons in Hnd. cbn in Hnd.
  assert ((k', se') ∈ l1 ++ (k, se) :: l2 ↔ <[k := se]> (view b) !! k' = Some se') as Hin
    by by rewrite <-Hl, elem_of_decodable_view, Hb'.
  rewrite elem_of_decodable_view. destruct (decide (k' = k)) as [->|Hne].
  - rewrite Hk. split; [done|]. intros Hin'.
    apply NoDup_app in Hnd as (_ & Hdisj & Hnd). apply NoDup_cons in Hnd as [Hnk _].
    apply elem_of_app in Hin' as [Hin1|Hin2].
    + destruct (Hdisj k); [by apply (list_elem_of_fmap_2 fst) in Hin1|left].
    + destruct Hnk. by apply (list_elem_of_fmap_2 fst) in Hin2.
  - rewrite lookup_insert_ne in Hin by done. rewrite <-Hin, !elem_of_app, elem_of_cons. naive_solver.
Qed.

(** The events of a log, in the order the store returns them. *)
Definition subevents (p : bucket (bucket bytes)) (name : bytes) : list SignedEvent :=
  from_option (λ b, (decodable b).*2) [] (bk_get p name).

Lemma log_events_subevents p name : subs_ok p → log_events p name = Ok (subevents p name).
Proof.
  intros Hok. unfold log_events, subevents. destruct (bk_get p name) as [b|] eqn:E; [|done].
  apply decode_events_ok. by eapply Hok.
Qed.

Lemma decodable_new : decodable bk_new = [].
Proof. unfold decodable. by rewrite bk_foreach_new. Qed.

Lemma subevents_bucket p name :
  ∃ b, subview p name = view b ∧ subevents p name = (decodable b).*2.
Proof.
  unfold subview, subevents. destruct (bk_get p name) as [b|]; [by exists b|].
  exists bk_new. by rewrite view_new, decodable_new.
Qed.

Lemma elem_of_subevents p name se :
  se ∈ subevents p name ↔ ∃ k, subview p name !! k = Some se.
Proof.
  destruct (subevents_bucket p name) as (b & -> & ->). apply elem_of_decodable_2.
Qed.

Lemma subevents_ext p p' name :
  subview p' name = subview p name → subevents p' name = subevents p name.
Proof.
  destruct (subevents_bucket p name) as (b & -> & ->).
  destruct (subevents_bucket p' name) as (b' & -> & ->).
  intros Hv. by rewrite (decodable_ext _ _ Hv).
Qed.

Lemma subevents_insert p p' name k se :
  subview p name !! k = None → subview p' name = <[k := se]> (subview p name) →
  ∃ l1 l2, subevents p name = l1 ++ l2 ∧ subevents p' name = l1 ++ se :: l2.
Proof.
  destruct (subevents_bucket p name) as (b & -> & ->).
  destruct (subevents_bucket p' name) as (b' & -> & ->). intros Hk Hb'.
  destruct (decodable_insert _ _ _ _ Hk Hb') as (l1 & l2 & -> & ->).
  exists l1.*2, l2.*2. by rewrite !fmap_app.
Qed.

(** ** [SignAndAppend] *)

Context `{Ed25519}.

(** The event as it is signed. *)
Definition stamped (log : bytes) (ev : Event) (now : Z) (s : store) : Event :=
  set_stamp ev log now (wrap_u64 (OwnEventCount log s + 1)).

Lemma SignAndAppend_adds kp log ev now s se id :
  subs_ok (bucketOwn s) → bk_key_ok log = true → e_Kind ev ≠ KindLike →
  Sign kp (stamped log ev now s) = Ok se → storable se → ID se = Ok id →
  ∃ own, SignAndAppend kp log ev now s = (Ok (Some se, id), set_own own s) ∧
         adds log id se (bucketOwn s) own.
Proof.
  intros Hok Hlog Hkind Hsign Hse HID.
  destruct (AppendOwnEvent_adds log se id s Hok Hse HID Hlog) as (own & Happ & Hadds).
  exists own. split; [|done]. unfold SignAndAppend. rewrite decide_False by done.
  unfold stamped in Hsign. unfold wrapM, lift, mbind, stM_bind. rewrite Hsign. cbn.
  rewrite Happ. cbn. by rewrite HID.
Qed.

(** ** Counting *)

Lemma OwnEventCount_size log s :
  subs_ok (bucketOwn s) →
  OwnEventCount log s = wrap_u64 (Z.of_nat (size (subview (bucketOwn s) log))).
Proof.
  intros Hok. unfold OwnEventCount, subview.
  destruct (bk_get (bucketOwn s) log) as [b|] eqn:Hb; [|done]. cbn [from_option].
  do 2 f_equal. rewrite bk_KeyN_foreach, <-length_map_to_list, <-decodable_view.
  unfold decodable. apply Hok in Hb.
  assert (∀ k v, (k, v) ∈ bk_foreach b → is_Ok (decode_event v)) as Hd.
  { intros k v Hin%bk_foreach_get. destruct (Hb _ _ Hin) as (se & -> & _). by eexists. }
  induction (bk_foreach b) as [|[k v] l IH]; [done|]. cbn.
  destruct (Hd k v ltac:(left)) as [se ->]. cbn. f_equal. apply IH. intros. eapply Hd. by right.
Qed.

(** A like that is already there is answered with the stored one. *)
Lemma SignAndAppend_liked kp log ev lk now s :
  subs_ok (bucketOwn s) → e_Kind ev = KindLike → e_Like ev = Some lk →
  has_like (Identity kp, like_TargetID lk) (subview (bucketOwn s) PostLog) →
  ∃ id se, SignAndAppend kp log ev now s = (Ok (None, id), s) ∧
    subview (bucketOwn s) PostLog !! id = Some se ∧
    like_of se = Some (Identity kp, like_TargetID lk).
Proof.
  intros Hok Hk Hl Hhas. unfold SignAndAppend. rewrite decide_True by done. rewrite Hl.
  unfold subview in *. destruct (bk_get (bucketOwn s) PostLog) as [b|] eqn:Hb; cbn in *.
  - pose proof (existingLikeID_spec b (Identity kp) (like_TargetID lk) (Hok _ _ Hb)) as Hex.
    destruct (existingLikeID _ _ _) as [id|]; [|done].
    destruct Hex as (se & Hse & Hle). by exists id, se.
  - destruct Hhas as (k & se & Hk' & _). by rewrite lookup_empty in Hk'.
Qed.
End views.

(** ** Cursors *)

Lemma byte_digit v n :
  (0 ≤ v)%Z → Z.of_N (Byte.to_N (byte_of (Z.to_N (Z.shiftr v (8 * n) mod 256)))) =
              (Z.shiftr v (8 * n) mod 256)%Z.
Proof.
  intros Hv. pose proof (Z.mod_pos_bound (Z.shiftr v (8 * n)) 256 ltac:(lia)).
  rewrite to_N_byte_of_small by lia. lia.
Qed.

Lemma from_be_be64 v : in_u64 v → from_be (be64 v) = v.
Proof.
  intros [H0 H1]. unfold be64, from_be. cbn [fmap list_fmap foldl].
  rewrite !byte_digit by done. rewrite !Z.shiftr_div_pow2 by lia.
  change (2 ^ (8 * Z.of_nat 7))%Z with 72057594037927936%Z.
  change (2 ^ (8 * Z.of_nat 6))%Z with 281474976710656%Z.
  change (2 ^ (8 * Z.of_nat 5))%Z with 1099511627776%Z.
  change (2 ^ (8 * Z.of_nat 4))%Z with 4294967296%Z.
  change (2 ^ (8 * Z.of_nat 3))%Z with 16777216%Z.
  change (2 ^ (8 * Z.of_nat 2))%Z with 65536%Z.
  change (2 ^ (8 * Z.of_nat 1))%Z with 256%Z.
  change (2 ^ (8 * Z.of_nat 0))%Z with 1%Z.
  change (2 ^ 64)%Z with 18446744073709551616%Z in H1.
  Z.to_euclidean_division_equations. lia.
Qed.

Definition log_names : list bytes := [ProfileLog; DetailLog; PostLog].

(** The three log names end differently, so author and log can be read back
    from the concatenated key. *)
Lemma cursorKey_inj a1 a2 l1 l2 :
  l1 ∈ log_names → l2 ∈ log_names → cursorKey a1 l1 = cursorKey a2 l2 → a1 = a2 ∧ l1 = l2.
Proof.
  unfold cursorKey, log_names. intros H1 H2 Heq.
  assert (last l1 = last l2) as Hlast.
  { apply (f_equal last) in Heq. rewrite !last_app in Heq.
    rewrite !elem_of_cons, elem_of_nil in H1, H2.
    by destruct H1 as [-> |[-> |[-> |[]]]], H2 as [-> |[-> |[-> |[]]]]. }
  assert (l1 = l2) as ->.
  { rewrite !elem_of_cons, elem_of_nil in H1, H2.
    by destruct H1 as [-> |[-> |[-> |[]]]], H2 as [-> |[-> |[-> |[]]]]. }
  split; [|done]. by apply app_inv_tail in Heq.
Qed.

Section cursors.
Context `{BoltLaws}.

Lemma cursorKey_ok a l : l ∈ log_names → length a ≤ 1000 → bk_key_ok (cursorKey a l) = true.
Proof.
  intros Hl Ha.
  assert (l ≠ [] ∧ length l ≤ 7) as [Hne Hlen].
  { unfold log_names in Hl. rewrite !elem_of_cons, elem_of_nil in Hl.
    destruct Hl as [-> |[-> |[-> |[]]]]; (split; [done|]); vm_compute; lia. }
  unfold cursorKey. apply bk_key_fits; [|rewrite length_app; lia].
  intros [_ ?]%app_eq_nil. done.
Qed.

Lemma PutSyncCursor_ok a l ts s :
  bk_key_ok (cursorKey a l) = true →
  PutSyncCursor a l ts s =
    (Ok tt, set_cursor (bk_set (cursorKey a l) (be64 (wrap_u64 ts)) (bucketCursor s)) s).
Proof.
  intros Hk. unfold PutSyncCursor, Update, put_in, bk_Put. rewrite Hk. cbn [negb].
  by rewrite (bk_value_fits (be64 (wrap_u64 ts))) by (unfold be64; cbn [length fmap list_fmap]; lia).
Qed.

Lemma SyncCursor_put a l ts s a' l' :
  in_i64 ts →
  SyncCursor a' l' (set_cursor (bk_set (cursorKey a l) (be64 (wrap_u64 ts)) (bucketCursor s)) s) =
    if decide (cursorKey a l = cursorKey a' l') then Ok ts else SyncCursor a' l' s.
Proof.
  intros Hts. unfold SyncCursor. cbn [bucketCursor set_cursor]. rewrite bk_get_set.
  case_decide; [|done]. change (length (be64 (wrap_u64 ts)) <? 8) with false. cbv iota.
  change (take 8 (be64 (wrap_u64 ts))) with (be64 (wrap_u64 ts)).
  rewrite from_be_be64 by (unfold in_u64, wrap_u64; apply Z.mod_pos_bound; lia).
  by rewrite wrap_i64_u64.
Qed.
End cursors.
