(* ===== verification/Dump.v ===== *)
(** * The scripts that print a database

    Models [scripts/dumpdb.go] and [scripts/dumpmeta.go]: what they write to
    standard output, line by line, for the buckets found in the file. The text
    of a decoding error and [%q] are parameters. *)

From S2P Require Import Prelude Base32 Text External Identity Event Log Bolt Store StoreFacts.
#[local] Open Scope go_scope.

(** ** Hexadecimal: [%x], [%02x] and [hex.EncodeToString] *)

Definition hex_digit (n : N) : byte := byte_of (if (n <? 10)%N then 48 + n else 87 + n).
Definition hex_byte (b : byte) : bytes := [hex_digit (Byte.to_N b / 16); hex_digit (Byte.to_N b mod 16)].
Definition hex_encode (b : bytes) : bytes := b ≫= hex_byte.

Section dump.
Context `{Bolt, Blake3, Ed25519, !CborType Event, !CborType SignedEvent}.
Context (quote : bytes → bytes) (error_text : error → bytes).

(** A database file that opened: a bucket may be missing. *)
Record dumped := mkDumped {
  dp_meta : option (bucket bytes);
  dp_own : option (bucket (bucket bytes));
  dp_crawl : option (bucket (bucket bytes));
}.
Definition dumped_of (s : store) : dumped :=
  mkDumped (Some (bucketMeta s)) (Some (bucketOwn s)) (Some (bucketCrawl s)).

(** How a program ends: its exit code, and what it printed. *)
Record ran := mkRan { rn_code : nat; rn_out : list bytes; rn_err : list bytes }.

(** ** [dumpdb] *)

Definition readMetaIdentity (db : dumped) : option bytes := mb ← dp_meta db; bk_get mb (# "identity").

Definition event_line (se : SignedEvent) : bytes :=
  let id := match ID se with Ok id => id | Err _ => zero_hash end in
  let text := match e_Post (se_Event se) with Some p => Text p | None => [] end in
  # "  id=" ++ EventID_String id ++ # "  log=" ++ e_Log (se_Event se) ++
  # " kind=" ++ show_Z (e_Kind (se_Event se)) ++ # " seq=" ++ show_Z (e_Sequence (se_Event se)) ++
  # " ts=" ++ show_Z (e_Timestamp (se_Event se)) ++ # "  author=" ++ se_Author se ++ # "  text=" ++ quote text.
Definition bad_line (k : bytes) (er : error) : bytes :=
  # "  " ++ hex_encode k ++ # "  <decode err: " ++ error_text er ++ # ">".

Definition own_post_lines (db : dumped) : list bytes :=
  match dp_own db with
  | None => [ # "(no own bucket)"]
  | Some own =>
      match bk_get own (# "post") with
      | None => [ # "(no own/post bucket)"]
      | Some b => (λ '(k, v), match decode_event v with Err er => bad_line k er | Ok se => event_line se end)
                    <$> bk_foreach b
      end
  end.

(** One event of the crawl cache: only posts are shown. *)
Definition crawl_line (kv : bytes * bytes) : option bytes :=
  match decode_event kv.2 with
  | Err er => Some (bad_line kv.1 er)
  | Ok se => if decide (e_Log (se_Event se) = PostLog) then Some (event_line se) else None
  end.
Definition crawl_lines (db : dumped) : list bytes :=
  match dp_crawl db with
  | None => [ # "(no crawl bucket)"]
  | Some fb => bk_foreach fb ≫= λ '(k, b), (# "author bucket: " ++ quote k) :: omap crawl_line (bk_foreach b)
  end.

Record counts := mkCounts { ct_total : nat; ct_profile : nat; ct_post : nat; ct_detail : nat }.
Definition count_one (c : counts) (kv : bytes * bytes) : counts :=
  let n := S (ct_total c) in
  match decode_event kv.2 with
  | Err _ => mkCounts n (ct_profile c) (ct_post c) (ct_detail c)
  | Ok se =>
      if decide (e_Log (se_Event se) = PostLog) then mkCounts n (ct_profile c) (S (ct_post c)) (ct_detail c)
      else if decide (e_Log (se_Event se) = ProfileLog) then mkCounts n (S (ct_profile c)) (ct_post c) (ct_detail c)
      else if decide (e_Log (se_Event se) = DetailLog) then mkCounts n (ct_profile c) (ct_post c) (S (ct_detail c))
      else mkCounts n (ct_profile c) (ct_post c) (ct_detail c)
  end.
Definition count_author (b : bucket bytes) : counts := foldl count_one (mkCounts 0 0 0 0) (bk_foreach b).

Definition show_nat (n : nat) : bytes := decimal (N.of_nat n).
Definition count_line (k : bytes) (c : counts) : bytes :=
  # "  " ++ quote k ++ # "  total=" ++ show_nat (ct_total c) ++ # "  profile=" ++ show_nat (ct_profile c) ++
  # "  post=" ++ show_nat (ct_post c) ++ # "  detail=" ++ show_nat (ct_detail c).
Definition count_lines (db : dumped) : list bytes :=
  match dp_crawl db with
  | None => []
  | Some fb => (λ '(k, b), count_line k (count_author b)) <$> bk_foreach fb
  end.

Definition dump (db : dumped) : list bytes :=
  let id := readMetaIdentity db in
  [ # "== own identity: " ++ quote (default [] id) ++ # " (present=" ++ bool_text (bool_decide (id ≠ None)) ++ # ") ==";
    []; # "== own/post =="] ++ own_post_lines db ++
  [ []; # "== crawl/<author> (PostLog events only) =="] ++ crawl_lines db ++
  [ []; # "== crawl bucket key count per author (all logs) =="] ++ count_lines db.

Definition dumpdb_main (open : bytes → result dumped) (args : list bytes) : ran :=
  match args with
  | [] => mkRan 1 [] [ # "usage: dumpdb <db>"]
  | path :: _ =>
      match open path with
      | Err er => mkRan 1 [] [ # "open: " ++ error_text er]
      | Ok db => mkRan 0 (dump db) []
      end
  end.

(** ** [dumpmeta]

    The error of opening is dropped, and then the database is nil. *)
Definition meta_lines (raw : bytes) : list bytes :=
  [ # "meta identity bytes (" ++ show_nat (length raw) ++ # "): " ++ hex_encode raw;
    # "meta identity string: " ++ quote raw;
    # "meta identity hex per byte: " ++ (raw ≫= λ b, hex_byte b ++ # " ")].
Definition post_key_lines (db : dumped) : list bytes :=
  match dp_own db ≫= λ own, bk_get own (# "post") with
  | None => []
  | Some b => bk_foreach b ≫= λ '(k, _),
      [ []; # "own/post key bytes (" ++ show_nat (length k) ++ # "): " ++ hex_encode k]
  end.
Definition dumpmeta_main (open : bytes → result dumped) (args : list bytes) : result ran :=
  match args with
  | [] => Ok (mkRan 1 [] [])
  | path :: _ =>
      match open path with
      | Err _ => Err (Panic "nil pointer dereference")
      | Ok db =>
          match dp_meta db with
          | None => Err (Panic "nil pointer dereference")
          | Some mb => Ok (mkRan 0 (meta_lines (default [] (bk_get mb (# "identity"))) ++ post_key_lines db) [])
          end
      end
  end.
End dump.

(** ** What is printed of a store *)

Section facts.
Context `{BoltLaws, Blake3, !Blake3Laws, Ed25519, !CborType Event, !CborType SignedEvent}.
Context (quote : bytes → bytes) (error_text : error → bytes).

(** The counts add up. *)
Lemma count_from l c :
  let d := foldl count_one c l in
  let logs := (λ se, e_Log (se_Event se)) <$> omap (λ kv : bytes * bytes, to_option (decode_event kv.2)) l in
  let among log := length (filter (λ x, x = log) logs) in
  ct_total d = ct_total c + length l ∧ ct_post d = ct_post c + among PostLog ∧
  ct_profile d = ct_profile c + among ProfileLog ∧ ct_detail d = ct_detail c + among DetailLog.
Proof.
  revert c. induction l as [|[k v] l IH]; intros c; cbn [foldl length]; [cbn; lia|].
  destruct (IH (count_one c (k, v))) as (Ht & Hp & Hq & Hd). clear IH. cbv zeta in *.
  rewrite Ht, Hp, Hq, Hd. clear Ht Hp Hq Hd. unfold count_one. cbn [omap list_omap snd].
  destruct (decode_event v) as [se|er]; cbn [to_option fmap list_fmap ct_total ct_post ct_profile ct_detail]; [|lia].
  rewrite !filter_cons. generalize (e_Log (se_Event se)). intros log.
  destruct (decide (log = PostLog)), (decide (log = ProfileLog)), (decide (log = DetailLog)); subst;
    first [discriminate|cbn [ct_total ct_post ct_profile ct_detail length]; lia].
Qed.

(** On a store that is in order, the own posts shown are the user's posts, and
    no line reports a decoding error. *)
Lemma own_posts_shown s evs :
  subs_ok (bucketOwn s) → OwnEvents PostLog s = Ok evs → bk_get (bucketOwn s) PostLog ≠ None →
  own_post_lines quote error_text (dumped_of s) = event_line quote <$> evs.
Proof.
  intros Hok. unfold OwnEvents, log_events, own_post_lines. cbn [dumped_of dp_own].
  change (# "post") with PostLog. destruct (bk_get (bucketOwn s) PostLog) as [b|] eqn:Hb; [|done].
  intros Hev _. rewrite decode_events_ok in Hev by (by eapply Hok). injection Hev as <-.
  assert (∀ k v, (k, v) ∈ bk_foreach b → is_ok (decode_event v) = true) as Hdec.
  { intros k v Hin. apply bk_foreach_get in Hin. by destruct (Hok _ _ Hb k v Hin) as (se & -> & _). }
  unfold decodable. induction (bk_foreach b) as [|[k v] l IH]; [done|]. cbn.
  pose proof (Hdec k v ltac:(by left)) as Hv. destruct (decode_event v) as [se|er]; [|done]. cbn. f_equal.
  apply IH. intros k' v' Hin. apply (Hdec k'). by right.
Qed.
End facts.
