(* ===== verification/StoreFollow.v ===== *)
(** * Follows, pins, verified identities, backup

    Models the second half of [internal/store/store.go] that changes state:
    the follow-state cache, pins, out-of-band verification and the backup,
    with [Follow] and [Unfollow] of [internal/store/events.go] and the data
    of [internal/core/backup.go]. *)

From S2P Require Import Prelude Base32 External Identity Event Log Bolt Store.
#[local] Open Scope go_scope.

(** ** The cached flags of an identity *)

Record followState := mkFollowState { followed : bool; pinned : bool }.

Definition followState_encode (f : followState) : bytes :=
  [if followed f then Byte.x01 else Byte.x00; if pinned f then Byte.x01 else Byte.x00].

Definition nonzero (b : byte) : bool := negb (bool_decide (b = Byte.x00)).

Definition decodeFollowState (v : bytes) : followState :=
  match v with
  | b0 :: b1 :: _ => mkFollowState (nonzero b0) (nonzero b1)
  | _ => mkFollowState false false
  end.

Lemma decodeFollowState_encode f : decodeFollowState (followState_encode f) = f.
Proof. by destruct f as [[] []]. Qed.

(** ** Backup data *)

Record Petname := mkPetname { petname_TargetPubkey : bytes; petname_Name : bytes }.

(** A nil slice is [None]; the decoder leaves an absent field nil. *)
Record BackupData := mkBackupData {
  bd_Key : option EncryptedKey;
  bd_OwnLogs : list SignedEvent;
  bd_Petnames : option (list Petname);
  bd_Verified : option (list bytes);
  bd_Pinned : option (list bytes);
  bd_TransportKey : option EncryptedKey;
}.

(** The slice built by appending to a nil slice. *)
Definition appended {A} (l : list A) : option (list A) :=
  match l with [] => None | _ => Some l end.

Section follow.
Context `{Bolt, Blake3, Ed25519, GoRange}
  `{!CborType Event, !CborType SignedEvent, !CborType EncryptedKey}.

(** ** The follow-state cache *)

Definition put_follow := put_in bucketFollowState set_follow.

Definition putFollowState (id : bytes) (st : followState) : stM store unit :=
  Update (put_follow id (followState_encode st)).

Definition deleteFollowState (id : bytes) : stM store unit :=
  Update (delete_in bucketFollowState set_follow id).

(** Reading a missing key gives nil, which decodes to no flags. *)
Definition getFollowState (id : bytes) (s : store) : followState :=
  decodeFollowState (default [] (bk_get (bucketFollowState s) id)).

Definition IsFollowed (id : bytes) (s : store) : bool := followed (getFollowState id s).
Definition IsPinned (id : bytes) (s : store) : bool := pinned (getFollowState id s).

Definition ErrPinRequiresFollow : error := E "can only pin a followed identity".

Definition PinIdentity (id : bytes) : stM store unit := Update (λ s,
  let st := getFollowState id s in
  if negb (followed st) then (Err ErrPinRequiresFollow, s)
  else put_follow id (followState_encode (mkFollowState (followed st) true)) s).

Definition UnpinIdentity (id : bytes) : stM store unit := Update (λ s,
  let st := mkFollowState (followed (getFollowState id s)) false in
  if negb (followed st) && negb (pinned st) then delete_in bucketFollowState set_follow id s
  else put_follow id (followState_encode st) s).

Definition PinnedIdentities (s : store) : list bytes :=
  omap (λ '(k, v), if pinned (decodeFollowState v) then Some k else None)
    (bk_foreach (bucketFollowState s)).

Definition PutPinnedIdentities (ids : list bytes) : stM store unit :=
  Update (forM_ ids (λ id s,
    let st := getFollowState id s in
    if negb (followed st) then (Ok tt, s)
    else put_follow id (followState_encode (mkFollowState (followed st) true)) s)).

(** ** Verified identities *)

Definition put_verified := put_in bucketVerified set_verified.

Definition VerifyIdentity (id : bytes) : stM store unit :=
  Update (put_verified id [Byte.x01]).
Definition UnverifyIdentity (id : bytes) : stM store unit :=
  Update (delete_in bucketVerified set_verified id).
Definition IsVerified (id : bytes) (s : store) : bool :=
  bool_decide (is_Some (bk_get (bucketVerified s) id)).
Definition VerifiedIdentities (s : store) : list bytes := (bk_foreach (bucketVerified s)).*1.

Definition PutVerifiedIdentities (ids : list bytes) : stM store unit :=
  Update (_ ← modify (λ s, set_verified (bk_foreach_delete (bucketVerified s)) s);
          forM_ ids (λ id, put_verified id [Byte.x01])).

(** ** [Follow] and [Unfollow] *)

Definition follow_ev (kind : Z) (target : bytes) : Event :=
  mkEvent kind [] 0 0 None (Some (mkFollow target)) None None None None.

(** The signed event is not returned: the code answers nil. *)
Definition Store_Follow (kp : KeyPair) (target : bytes) (now : Z)
    : stM store (option SignedEvent * bytes * bytes) :=
  r ← SignAndAppend kp ProfileLog (follow_ev KindFollow target) now;
  let identity := IdentityFromPubkey target in
  _ ← wrapM "follow state" (putFollowState identity (mkFollowState true false));
  mret (None, r.2, identity).

Definition Store_Unfollow (kp : KeyPair) (target : bytes) (now : Z)
    : stM store (option SignedEvent * bytes * bytes) :=
  r ← SignAndAppend kp ProfileLog (follow_ev KindUnfollow target) now;
  let identity := IdentityFromPubkey target in
  _ ← wrapM "follow state" (deleteFollowState identity);
  mret (r.1, r.2, identity).

(** ** Backup *)

Definition rebuildFollowState : stM store unit := λ s,
  match OwnEvents ProfileLog s with
  | Err e => (Err e, s)
  | Ok events =>
      let fs := FollowSet events in
      Update (_ ← modify (λ s, set_follow (bk_foreach_delete (bucketFollowState s)) s);
              forM_ (range_set fs) (λ target,
                put_follow (IdentityFromPubkey target)
                  (followState_encode (mkFollowState true false)))) s
  end.

Definition ExportBackup (s : store) : result BackupData :=
  ek ← Store_EncryptedKey s;
  events ← AllOwnEvents s;
  Ok (mkBackupData (Some ek) events None (appended (VerifiedIdentities s))
        (appended (PinnedIdentities s)) None).

Definition ImportBackup (bd : BackupData) : stM store unit :=
  match bd_Key bd with
  | None => lift (Err (E "backup missing key"))
  | Some _ =>
      _ ← forM_ (bd_OwnLogs bd) (λ se, AppendOwnEvent (e_Log (se_Event se)) se);
      _ ← match bd_Verified bd with
          | Some ids => wrapM "restore verified" (PutVerifiedIdentities ids)
          | None => mret tt
          end;
      _ ← wrapM "rebuild follow state" rebuildFollowState;
      match bd_Pinned bd with
      | Some ids => wrapM "restore pinned" (PutPinnedIdentities ids)
      | None => mret tt
      end
  end.

(** ** [FollowGraph] *)

Definition FollowGraph (s : store) : result (list bytes) :=
  events ← OwnEvents ProfileLog s;
  Ok (IdentityFromPubkey <$> range_set (FollowSet events)).
End follow.
