(* ===== verification/StoreFollowFacts.v ===== *)
(** * The follow edge: cache coherence, pins, backup

    The abstract state is the follow set of the user's own Profile log.
    [cache_ok] relates the follow-state bucket to it, [pins_ok] says that a
    pin lies on a follow edge; every operation of [StoreFollow.v] is shown to
    keep both, and a backup to restore them. *)

From S2P Require Import Prelude Base32 External Identity Event Log Bolt Store StoreFacts StoreFollow.
#[local] Open Scope go_scope.

(** ** The follow set of a log in which others follow too *)

Section follow_set.

Definition about (t : bytes) (e : SignedEvent) : Prop := follow_action t e ≠ None.
#[local] Instance about_dec t e : Decision (about t e).
Proof. unfold about. apply _. Defined.

Lemma omap_about t (l : list SignedEvent) : omap (follow_action t) (filter (about t) l) = omap (follow_action t) l.
Proof.
  induction l as [|e l IH]; [done|]. rewrite filter_cons. cbn. destruct (decide (about t e)) as [Ha|Hn].
  - cbn. by rewrite IH.
  - unfold about in Hn. destruct (follow_action t e); [by destruct Hn|done].
Qed.

(** Only what the log says about [t] decides whether [t] is followed. *)
Lemma FollowSet_about t (l : list SignedEvent) : t ∈ FollowSet l ↔ t ∈ FollowSet (filter (about t) l).
Proof.
  rewrite !FollowSet_follows. unfold follows, SortedByTime.
  by rewrite <-(stable_sort_filter time_less), omap_about.
Qed.

Lemma FollowSet_others t l1 l2 se :
  follow_action t se = None → t ∈ FollowSet (l1 ++ se :: l2) ↔ t ∈ FollowSet (l1 ++ l2).
Proof.
  intros Hse. rewrite FollowSet_about, (FollowSet_about t (l1 ++ l2)), !filter_app, filter_cons.
  by rewrite decide_False by (by intros ?).
Qed.

Lemma FollowSet_latest t l1 l2 se b :
  follow_action t se = Some b → (∀ e, e ∈ l1 ++ l2 → about t e → time_less e se = true) →
  t ∈ FollowSet (l1 ++ se :: l2) ↔ b = true.
Proof.
  intros Hse Hold. rewrite FollowSet_about, filter_app, filter_cons.
  rewrite decide_True by (unfold about; by rewrite Hse).
  rewrite FollowSet_insert.
  - rewrite FollowSet_Apply_spec. by rewrite Hse.
  - intros e He. rewrite <-filter_app in He. apply list_elem_of_filter in He as [Ha He]. by apply Hold.
Qed.

(** [se] inserted anywhere in a list with [e] in it leaves [e] there. *)
Lemma insert_around {A} (l1 l2 k1 k2 : list A) (se e : A) :
  l1 ++ l2 = k1 ++ e :: k2 →
  ∃ m1 m2, l1 ++ se :: l2 = m1 ++ e :: m2 ∧ ∀ x, x ∈ m1 ++ m2 → x = se ∨ x ∈ k1 ++ k2.
Proof.
  revert k1. induction l1 as [|a l1 IH]; intros k1 Hl.
  - cbn in Hl. subst l2. exists (se :: k1), k2. split; [done|set_solver].
  - destruct k1 as [|a' k1]; cbn in Hl; injection Hl as <- Hl.
    + subst k2. exists [], (l1 ++ se :: l2). split; [done|set_solver].
    + destruct (IH k1 Hl) as (m1 & m2 & Hm & Hin). exists (a :: m1), m2. cbn. rewrite Hm.
      split; [done|set_solver].
Qed.

(** [e] is what the log [l] says last about [t]. *)
Definition last_about (t : bytes) (e : SignedEvent) (l : list SignedEvent) : Prop :=
  ∃ k1 k2, l = k1 ++ e :: k2 ∧ ∀ x, x ∈ k1 ++ k2 → about t x → time_less x e = true.

(** An event stamped earlier does not overrule the last. *)
Lemma FollowSet_overruled t l1 l2 se e b :
  follow_action t e = Some b → last_about t e (l1 ++ l2) → time_less se e = true →
  t ∈ FollowSet (l1 ++ se :: l2) ↔ b = true.
Proof.
  intros He (k1 & k2 & Hl & Hlast) Hlate.
  destruct (insert_around l1 l2 k1 k2 se e Hl) as (m1 & m2 & -> & Hin).
  apply FollowSet_latest; [done|]. intros x Hx Ha. destruct (Hin x Hx) as [-> |Hk]; [done|by apply Hlast].
Qed.
End follow_set.

Section facts.
Context `{BoltLaws, Blake3, !Blake3Laws, Ed25519, !Ed25519Laws, GoRange, !GoRangeLaws}.
Context `{CborText, !CborTextLaws}.
Context `{!CborType Event, !CborType SignedEvent, !CborLaws Event, !CborLaws SignedEvent}.

(** ** The follow-state bucket *)

Definition own_profile (s : store) : list SignedEvent := subevents (bucketOwn s) ProfileLog.
Definition own_follows (s : store) : gset bytes := FollowSet (own_profile s).

Definition own_ok (s : store) : Prop := subs_ok (bucketOwn s).
Definition cache_ok (s : store) : Prop :=
  ∀ id, IsFollowed id s = true ↔ ∃ t, t ∈ own_follows s ∧ id = IdentityFromPubkey t.
Definition pins_ok (s : store) : Prop :=
  ∀ id, IsPinned id s = true → IsFollowed id s = true.

Lemma identity_key_ok t : length t = 32 → bk_key_ok (IdentityFromPubkey t) = true.
Proof.
  intros Ht. apply bk_key_fits; [done|]. unfold IdentityFromPubkey. rewrite length_app.
  pose proof (base32NoPadLower_length t). cbn [length IdentityPrefix]. vm_compute (length IdentityPrefix).
  lia.
Qed.

Lemma put_follow_ok id st s :
  bk_key_ok id = true →
  put_follow id (followState_encode st) s =
    (Ok tt, set_follow (bk_set id (followState_encode st) (bucketFollowState s)) s).
Proof.
  intros Hk. unfold put_follow, put_in, bk_Put. rewrite Hk. cbn [negb].
  by rewrite (bk_value_fits (followState_encode st)) by (cbn; lia).
Qed.

Lemma getFollowState_set id st s id' :
  getFollowState id' (set_follow (bk_set id (followState_encode st) (bucketFollowState s)) s) =
  if decide (id = id') then st else getFollowState id' s.
Proof.
  unfold getFollowState. cbn [bucketFollowState set_follow]. rewrite bk_get_set.
  case_decide; [apply decodeFollowState_encode|done].
Qed.

Lemma getFollowState_del id s id' :
  getFollowState id' (set_follow (bk_del id (bucketFollowState s)) s) =
  if decide (id = id') then mkFollowState false false else getFollowState id' s.
Proof.
  unfold getFollowState. cbn [bucketFollowState set_follow]. rewrite bk_get_del. by case_decide.
Qed.

Lemma getFollowState_own own s id : getFollowState id (set_own own s) = getFollowState id s.
Proof. done. Qed.

Lemma own_follows_set_follow b s : own_follows (set_follow b s) = own_follows s.
Proof. done. Qed.

(** A flag set for some identity was written under its key. *)
Lemma followed_key id s : IsFollowed id s = true → is_Some (bk_get (bucketFollowState s) id).
Proof. unfold IsFollowed, getFollowState. by destruct (bk_get _ _). Qed.

Lemma empty_own_ok : own_ok empty_store.
Proof. intros n b. cbn. by rewrite bk_get_new. Qed.

Lemma empty_own_view n : subview (bucketOwn empty_store) n = ∅.
Proof. unfold subview. cbn. by rewrite bk_get_new. Qed.

Lemma empty_own_profile : own_profile empty_store = [].
Proof. unfold own_profile, subevents. cbn. by rewrite bk_get_new. Qed.

Lemma empty_cache_ok : cache_ok empty_store.
Proof.
  intros id. unfold IsFollowed, getFollowState, own_follows. cbn [bucketFollowState empty_store].
  rewrite bk_get_new, empty_own_profile. cbn. split; [done|]. intros (t & Ht & _). set_solver.
Qed.

Lemma empty_pins_ok : pins_ok empty_store.
Proof.
  intros id. unfold IsPinned, getFollowState. cbn [bucketFollowState empty_store].
  by rewrite bk_get_new.
Qed.

(** ** Pins *)

Lemma PinIdentity_spec id s :
  bk_key_ok id = true →
  PinIdentity id s =
    if IsFollowed id s
    then (Ok tt, set_follow (bk_set id (followState_encode (mkFollowState true true))
                               (bucketFollowState s)) s)
    else (Err ErrPinRequiresFollow, s).
Proof.
  intros Hk. unfold PinIdentity, IsFollowed, Update.
  destruct (followed (getFollowState id s)) eqn:Hf; [|done]. cbn [negb].
  by rewrite put_follow_ok.
Qed.

Lemma UnpinIdentity_spec id s :
  bk_key_ok id = true →
  UnpinIdentity id s =
    if IsFollowed id s
    then (Ok tt, set_follow (bk_set id (followState_encode (mkFollowState true false))
                               (bucketFollowState s)) s)
    else (Ok tt, set_follow (bk_del id (bucketFollowState s)) s).
Proof.
  intros Hk. unfold UnpinIdentity, IsFollowed, Update.
  destruct (followed (getFollowState id s)) eqn:Hf; cbn [negb andb followed pinned]; [|done].
  by rewrite put_follow_ok.
Qed.

(** Pinning never changes who is followed. *)
Definition same_follows (s s' : store) : Prop :=
  bucketOwn s' = bucketOwn s ∧ ∀ id, IsFollowed id s' = IsFollowed id s.

Lemma same_follows_cache s s' : same_follows s s' → cache_ok s → cache_ok s'.
Proof.
  intros [Hown Hf] Hc id. rewrite Hf, (Hc id). unfold own_follows, own_profile. by rewrite Hown.
Qed.

Lemma set_flags id st s :
  followed st = IsFollowed id s → (pinned st = true → followed st = true) →
  let s' := set_follow (bk_set id (followState_encode st) (bucketFollowState s)) s in
  same_follows s s' ∧ (pins_ok s → pins_ok s').
Proof.
  intros Hf Hst s'. unfold s'. split.
  - split; [done|]. intros id'. unfold IsFollowed in *. rewrite getFollowState_set.
    case_decide; [by subst|done].
  - intros Hp id'. specialize (Hp id'). revert Hp. unfold IsPinned, IsFollowed in *.
    rewrite !getFollowState_set. by case_decide.
Qed.

Lemma del_flags id s :
  IsFollowed id s = false →
  let s' := set_follow (bk_del id (bucketFollowState s)) s in
  same_follows s s' ∧ (pins_ok s → pins_ok s').
Proof.
  intros Hf s'. unfold s'. split.
  - split; [done|]. intros id'. unfold IsFollowed in *. rewrite getFollowState_del.
    case_decide; [by subst|done].
  - intros Hp id'. specialize (Hp id'). revert Hp. unfold IsPinned, IsFollowed in *.
    rewrite !getFollowState_del. by case_decide.
Qed.

Lemma PinIdentity_follows id s :
  bk_key_ok id = true →
  same_follows s (PinIdentity id s).2 ∧ (pins_ok s → pins_ok (PinIdentity id s).2).
Proof.
  intros Hk. rewrite PinIdentity_spec by done. destruct (IsFollowed id s) eqn:Hf; [|done].
  by apply set_flags.
Qed.

Lemma UnpinIdentity_follows id s :
  bk_key_ok id = true →
  same_follows s (UnpinIdentity id s).2 ∧ (pins_ok s → pins_ok (UnpinIdentity id s).2).
Proof.
  intros Hk. rewrite UnpinIdentity_spec by done.
  destruct (IsFollowed id s) eqn:Hf; [by apply set_flags|by apply del_flags].
Qed.

(** ** [Follow] and [Unfollow] *)

(** [se] is the newest event of the Profile log, and no older event has its
    ID. *)
Definition newest (se : SignedEvent) (s : store) : Prop :=
  ∀ e, e ∈ own_profile s → time_less e se = true ∧ ID e ≠ ID se.

Lemma own_profile_insert se id s own :
  own_ok s → ID se = Ok id → (∀ e, e ∈ own_profile s → ID e ≠ ID se) → like_of se = None →
  adds ProfileLog id se (bucketOwn s) own →
  ∃ l1 l2, own_profile s = l1 ++ l2 ∧ own_profile (set_own own s) = l1 ++ se :: l2.
Proof.
  intros Hok HID Hnew Hl [_ Hadds]. specialize (Hadds ProfileLog).
  rewrite decide_True in Hadds by done.
  assert (subview (bucketOwn s) ProfileLog !! id = None) as Hfresh.
  { apply eq_None_not_Some. intros [e He].
    destruct (Hnew e); [apply elem_of_subevents; eauto|].
    rewrite HID. unfold subview in He.
    destruct (bk_get (bucketOwn s) ProfileLog) as [b|] eqn:Hb; [|done].
    eapply view_ID, He. by eapply Hok. }
  rewrite (log_add_plain _ _ _ Hl) in Hadds.
  rewrite <-insert_union_singleton_r in Hadds by done.
  apply subevents_insert with (k := id); done.
Qed.

Lemma own_profile_append se id s own :
  own_ok s → ID se = Ok id → newest se s → like_of se = None →
  adds ProfileLog id se (bucketOwn s) own →
  ∃ l1 l2, own_profile s = l1 ++ l2 ∧ own_profile (set_own own s) = l1 ++ se :: l2.
Proof. intros Hok HID Hnew. apply own_profile_insert; [done|done|]. intros e He. by apply Hnew. Qed.

Lemma own_follows_append se id s own :
  own_ok s → ID se = Ok id → newest se s → like_of se = None →
  adds ProfileLog id se (bucketOwn s) own →
  own_follows (set_own own s) = FollowSet_Apply (own_follows s) se.
Proof.
  intros Hok HID Hnew Hl Hadds. unfold own_follows.
  destruct (own_profile_append _ _ _ _ Hok HID Hnew Hl Hadds) as (l1 & l2 & Hl1 & ->).
  rewrite Hl1. apply FollowSet_insert. intros e He. apply Hnew. by rewrite Hl1.
Qed.

(** The cache after the edge of one identity is rewritten. *)
Lemma cache_ok_set target b s s' :
  cache_ok s →
  own_follows s' = (if b : bool then {[target]} ∪ own_follows s
                    else own_follows s ∖ {[target]}) →
  (∀ id, IsFollowed id s' =
    if decide (IdentityFromPubkey target = id) then b else IsFollowed id s) →
  cache_ok s'.
Proof.
  intros Hc Hfs Hf id. rewrite Hf, Hfs. case_decide as Hid.
  - subst id. destruct b; split; try done.
    + intros _. exists target. split; [set_solver|done].
    + intros (t & Ht & Heq%(inj _)). set_solver.
  - rewrite (Hc id). destruct b; split; intros (t & Ht & ->); exists t; split; try done;
      set_solver.
Qed.

(** What a follow or unfollow signs: an event that can be stored and is the
    newest of the Profile log. *)
Definition signs (kp : KeyPair) (kind : Z) (target : bytes) (now : Z) (s : store)
    (se : SignedEvent) : Prop :=
  Sign kp (stamped ProfileLog (follow_ev kind target) now s) = Ok se ∧
  storable se ∧ newest se s.

Lemma SignAndAppend_follow kp kind target now s se :
  own_ok s → kind = KindFollow ∨ kind = KindUnfollow → signs kp kind target now s se →
  ∃ id own, SignAndAppend kp ProfileLog (follow_ev kind target) now s =
              (Ok (Some se, id), set_own own s) ∧
    ID se = Ok id ∧ subs_ok own ∧
    own_follows (set_own own s) =
      (if decide (kind = KindFollow) then {[target]} ∪ own_follows s
       else own_follows s ∖ {[target]}).
Proof.
  intros Hok Hkind (Hsign & Hse & Hnew).
  destruct (storable_ID se Hse) as (id & HID & _).
  destruct (Sign_inv _ _ _ Hsign) as (Hev & _ & _).
  assert (like_of se = None) as Hl.
  { unfold like_of. rewrite Hev. rewrite decide_False; [done|]. by destruct Hkind as [-> | ->]. }
  destruct (SignAndAppend_adds kp ProfileLog (follow_ev kind target) now s se id)
    as (own & Hrun & Hadds); try done.
  { by apply bk_key_fits; vm_compute; [|lia]. }
  { by destruct Hkind as [-> | ->]. }
  exists id, own. split_and!; [done|done|apply Hadds|].
  rewrite (own_follows_append se id) by done. unfold FollowSet_Apply. rewrite Hev.
  by destruct Hkind as [-> | ->].
Qed.

Lemma Store_Follow_run kp target now s se :
  own_ok s → cache_ok s → pins_ok s → length target = 32 →
  signs kp KindFollow target now s se →
  ∃ id s', Store_Follow kp target now s = (Ok (None, id, IdentityFromPubkey target), s') ∧
    ID se = Ok id ∧ own_ok s' ∧ cache_ok s' ∧ pins_ok s' ∧
    own_follows s' = {[target]} ∪ own_follows s ∧
    IsFollowed (IdentityFromPubkey target) s' = true ∧
    IsPinned (IdentityFromPubkey target) s' = false.
Proof.
  intros Hok Hc Hp Ht Hsign.
  destruct (SignAndAppend_follow kp KindFollow target now s se) as (id & own & Hrun & HID & Hown & Hfs);
    [done|by left|done|].
  rewrite decide_True in Hfs by done.
  unfold Store_Follow, mbind, stM_bind. rewrite Hrun. unfold wrapM, putFollowState, Update.
  rewrite put_follow_ok by by apply identity_key_ok. cbn.
  do 2 eexists. split_and!; [done|done|exact Hown| | |exact Hfs| |].
  - apply (cache_ok_set target true s); [done|exact Hfs|].
    intros id'. unfold IsFollowed. rewrite (getFollowState_set _ _ (set_own own s)). by case_decide.
  - intros id'. specialize (Hp id'). revert Hp. unfold IsPinned, IsFollowed.
    rewrite (getFollowState_set _ _ (set_own own s)). by case_decide.
  - unfold IsFollowed. rewrite (getFollowState_set _ _ (set_own own s)). by rewrite decide_True.
  - unfold IsPinned. rewrite (getFollowState_set _ _ (set_own own s)). by rewrite decide_True.
Qed.

Lemma Store_Unfollow_run kp target now s se :
  own_ok s → cache_ok s → pins_ok s →
  signs kp KindUnfollow target now s se →
  ∃ id s', Store_Unfollow kp target now s = (Ok (Some se, id, IdentityFromPubkey target), s') ∧
    ID se = Ok id ∧ own_ok s' ∧ cache_ok s' ∧ pins_ok s' ∧
    own_follows s' = own_follows s ∖ {[target]} ∧
    IsFollowed (IdentityFromPubkey target) s' = false ∧
    IsPinned (IdentityFromPubkey target) s' = false.
Proof.
  intros Hok Hc Hp Hsign.
  destruct (SignAndAppend_follow kp KindUnfollow target now s se) as (id & own & Hrun & HID & Hown & Hfs);
    [done|by right|done|].
  rewrite decide_False in Hfs by done.
  unfold Store_Unfollow, mbind, stM_bind. rewrite Hrun. unfold wrapM, deleteFollowState, Update. cbn.
  do 2 eexists. split_and!; [done|done|exact Hown| | |exact Hfs| |].
  - apply (cache_ok_set target false s); [done|exact Hfs|].
    intros id'. unfold IsFollowed. rewrite (getFollowState_del _ (set_own own s)). by case_decide.
  - intros id'. specialize (Hp id'). revert Hp. unfold IsPinned, IsFollowed.
    rewrite (getFollowState_del _ (set_own own s)). by case_decide.
  - unfold IsFollowed. rewrite (getFollowState_del _ (set_own own s)). by rewrite decide_True.
  - unfold IsPinned. rewrite (getFollowState_del _ (set_own own s)). by rewrite decide_True.
Qed.

(** What an unfollow does at any stamp: the cached edge of the target goes with
    its pin, and the log and the cache of everyone else stay. *)
Record unfollowed (target : bytes) (se : SignedEvent) (s s' : store) : Prop := {
  uf_own : own_ok s';
  uf_log : ∃ l1 l2, own_profile s = l1 ++ l2 ∧ own_profile s' = l1 ++ se :: l2;
  uf_action t : follow_action t se = if decide (target = t) then Some false else None;
  uf_state id : getFollowState id s' =
    if decide (IdentityFromPubkey target = id) then mkFollowState false false else getFollowState id s;
}.

Lemma Store_Unfollow_any kp target now s se :
  own_ok s → Sign kp (stamped ProfileLog (follow_ev KindUnfollow target) now s) = Ok se →
  storable se → (∀ e, e ∈ own_profile s → ID e ≠ ID se) →
  ∃ id s', Store_Unfollow kp target now s = (Ok (Some se, id, IdentityFromPubkey target), s') ∧
    ID se = Ok id ∧ unfollowed target se s s'.
Proof.
  intros Hok Hsign Hse Hids. destruct (storable_ID se Hse) as (id & HID & _).
  destruct (Sign_inv _ _ _ Hsign) as (Hev & _ & _).
  assert (like_of se = None) as Hl by (unfold like_of; by rewrite Hev).
  destruct (SignAndAppend_adds kp ProfileLog (follow_ev KindUnfollow target) now s se id)
    as (own & Hrun & Hadds); try done.
  { by apply bk_key_fits; vm_compute; [|lia]. }
  destruct (own_profile_insert se id s own Hok HID Hids Hl Hadds) as (l1 & l2 & Hl1 & Hl2).
  unfold Store_Unfollow, mbind, stM_bind. rewrite Hrun. unfold wrapM, deleteFollowState, Update. cbn.
  do 2 eexists. split_and!; [done|done|]. split; [apply Hadds|by exists l1, l2| |].
  - intros t. unfold follow_action. by rewrite Hev.
  - intros id'. by rewrite (getFollowState_del _ (set_own own s)).
Qed.

Section unfollowed.
Context (target : bytes) (se : SignedEvent) (s s' : store) (Hu : unfollowed target se s s').

Lemma unfollowed_flag id :
  IsFollowed id s' = if decide (IdentityFromPubkey target = id) then false else IsFollowed id s.
Proof. unfold IsFollowed. rewrite (uf_state _ _ _ _ Hu). by case_decide. Qed.

Lemma unfollowed_pin id :
  IsPinned id s' = if decide (IdentityFromPubkey target = id) then false else IsPinned id s.
Proof. unfold IsPinned. rewrite (uf_state _ _ _ _ Hu). by case_decide. Qed.

Lemma unfollowed_pins : pins_ok s → pins_ok s'.
Proof. intros Hp id. rewrite unfollowed_flag, unfollowed_pin. case_decide; [done|apply Hp]. Qed.

Lemma unfollowed_others t : t ≠ target → t ∈ own_follows s' ↔ t ∈ own_follows s.
Proof.
  intros Hne. destruct (uf_log _ _ _ _ Hu) as (l1 & l2 & Hl & Hl'). unfold own_follows. rewrite Hl, Hl'.
  apply FollowSet_others. by rewrite (uf_action _ _ _ _ Hu), decide_False by done.
Qed.

(** Stamped after all the log says about the target, it is in force. *)
Lemma unfollowed_newest :
  (∀ e, e ∈ own_profile s → about target e → time_less e se = true) →
  own_follows s' = own_follows s ∖ {[target]}.
Proof.
  intros Hnew. apply set_eq. intros t. destruct (decide (t = target)) as [->|Hne].
  - destruct (uf_log _ _ _ _ Hu) as (l1 & l2 & Hl & Hl'). unfold own_follows at 1. rewrite Hl'.
    rewrite (FollowSet_latest target l1 l2 se false); [set_solver| |intros e; rewrite <-Hl; apply Hnew].
    by rewrite (uf_action _ _ _ _ Hu), decide_True.
  - rewrite unfollowed_others by done. set_solver.
Qed.

(** Stamped before a follow of the target, it is overruled. *)
Lemma unfollowed_overruled e :
  follow_action target e = Some true → last_about target e (own_profile s) →
  time_less se e = true → target ∈ own_follows s' ∧ ¬ cache_ok s'.
Proof.
  intros He Hlast Hlate. assert (target ∈ own_follows s') as Hin.
  { destruct (uf_log _ _ _ _ Hu) as (l1 & l2 & Hl & Hl'). unfold own_follows. rewrite Hl'.
    rewrite Hl in Hlast. by apply (FollowSet_overruled target l1 l2 se e true). }
  split; [done|]. intros Hc.
  assert (IsFollowed (IdentityFromPubkey target) s' = true) as Hf by (apply Hc; by exists target).
  by rewrite unfollowed_flag, decide_True in Hf.
Qed.
End unfollowed.

(** ** Rebuilding the cache *)

Definition edge : bytes := followState_encode (mkFollowState true false).

Lemma put_follows_spec l s :
  (∀ t, t ∈ l → length t = 32) →
  ∃ b, forM_ l (λ t, put_follow (IdentityFromPubkey t) edge) s = (Ok tt, set_follow b s) ∧
    ∀ k, bk_get b k = if decide (k ∈ IdentityFromPubkey <$> l) then Some edge
                      else bk_get (bucketFollowState s) k.
Proof.
  revert s. induction l as [|t l IH]; intros s Hl.
  { exists (bucketFollowState s). split; [by destruct s|done]. }
  cbn [forM_]. unfold mbind, stM_bind. unfold edge at 1.
  rewrite put_follow_ok by (apply identity_key_ok, Hl; left).
  destruct (IH (set_follow (bk_set (IdentityFromPubkey t) edge (bucketFollowState s)) s))
    as (b & Hb & Hget); [intros; apply Hl; by right|].
  exists b. split; [exact Hb|]. intros k. rewrite Hget, fmap_cons. cbn [bucketFollowState set_follow].
  rewrite bk_get_set. repeat case_decide; set_solver.
Qed.

(** The follow set of a log holds 32-byte targets. *)
Definition targets_ok (s : store) : Prop := ∀ t, t ∈ own_follows s → length t = 32.

Context `{!ForEachDelete}.

Lemma rebuildFollowState_spec s :
  own_ok s → targets_ok s →
  ∃ b, rebuildFollowState s = (Ok tt, set_follow b s) ∧
    ∀ k, bk_get b k =
      if decide (k ∈ IdentityFromPubkey <$> elements (own_follows s)) then Some edge else None.
Proof.
  intros Hok Ht. unfold rebuildFollowState, OwnEvents.
  rewrite log_events_subevents by done. fold (own_profile s). fold (own_follows s).
  set (s0 := set_follow (bk_foreach_delete (bucketFollowState s)) s).
  destruct (put_follows_spec (range_set (own_follows s)) s0) as (b & Hrun & Hb).
  { intros t. rewrite elem_of_range_set. apply Ht. }
  exists b. unfold Update, mbind, stM_bind, modify. fold s0.
  change (followState_encode _) with edge. rewrite Hrun. split; [done|].
  intros k. rewrite Hb. cbn [s0 bucketFollowState set_follow].
  rewrite bk_foreach_delete_get. apply decide_ext. by rewrite range_set_elements.
Qed.

Lemma rebuild_flags s b :
  (∀ k, bk_get b k =
     if decide (k ∈ IdentityFromPubkey <$> elements (own_follows s)) then Some edge else None) →
  cache_ok (set_follow b s) ∧ ∀ id, IsPinned id (set_follow b s) = false.
Proof.
  intros Hb. split; intros id;
    unfold IsFollowed, IsPinned, getFollowState; cbn [bucketFollowState set_follow]; rewrite Hb.
  - rewrite own_follows_set_follow. case_decide as Hin; cbn.
    + split; [|done]. intros _. apply list_elem_of_fmap in Hin as (t & -> & Ht).
      exists t. by rewrite elem_of_elements in Ht.
    + split; [done|]. intros (t & Ht & ->). destruct Hin. apply list_elem_of_fmap.
      exists t. by rewrite elem_of_elements.
  - by case_decide.
Qed.

(** Restoring pins pins exactly the listed identities that are followed. *)
Lemma PutPinned_loop ids s :
  Forall (λ id, bk_key_ok id = true) ids →
  ∃ b, forM_ ids (λ id s, let st := getFollowState id s in
      if negb (followed st) then (Ok tt, s)
      else put_follow id (followState_encode (mkFollowState (followed st) true)) s) s
    = (Ok tt, set_follow b s) ∧
    ∀ id, getFollowState id (set_follow b s) =
      if decide (id ∈ ids ∧ IsFollowed id s = true) then mkFollowState true true
      else getFollowState id s.
Proof.
  revert s. induction ids as [|i ids IH]; intros s Hids.
  { exists (bucketFollowState s). split; [by destruct s|]. intros id.
    rewrite decide_False by set_solver. by destruct s. }
  apply Forall_cons in Hids as [Hi Hids]. cbn [forM_]. unfold mbind, stM_bind.
  destruct (followed (getFollowState i s)) eqn:Hf; cbn [negb].
  - rewrite put_follow_ok by done.
    set (s1 := set_follow _ _). destruct (IH s1 Hids) as (b & Hrun & Hget).
    exists b. split; [exact Hrun|]. intros id.
    change (set_follow b s) with (set_follow b s1). rewrite Hget. unfold s1, IsFollowed.
    rewrite getFollowState_set. destruct (decide (i = id)) as [->|Hne].
    + rewrite (decide_True (P := id ∈ id :: ids ∧ _)) by (split; [left|done]).
      by case_decide.
    + erewrite decide_ext; [done|]. rewrite elem_of_cons. naive_solver.
  - destruct (IH s Hids) as (b & Hrun & Hget). exists b. split; [exact Hrun|].
    intros id. rewrite Hget. apply decide_ext. unfold IsFollowed. rewrite elem_of_cons.
    split; [tauto|]. intros [[->|Hin] Hid]; [congruence|done].
Qed.

Lemma PutPinnedIdentities_spec ids s :
  Forall (λ id, bk_key_ok id = true) ids →
  ∃ b, PutPinnedIdentities ids s = (Ok tt, set_follow b s) ∧
    ∀ id, getFollowState id (set_follow b s) =
      if decide (id ∈ ids ∧ IsFollowed id s = true) then mkFollowState true true
      else getFollowState id s.
Proof.
  intros Hids. destruct (PutPinned_loop ids s Hids) as (b & Hrun & Hget).
  exists b. split; [|done]. unfold PutPinnedIdentities, Update.
  match goal with |- match ?x with _ => _ end = _ => replace x with (Ok tt, set_follow b s) end.
  done.
Qed.

Lemma elem_of_PinnedIdentities id s : id ∈ PinnedIdentities s ↔ IsPinned id s = true.
Proof.
  unfold PinnedIdentities, IsPinned, getFollowState. rewrite list_elem_of_omap. split.
  - intros ([k v] & Hin & Hk). rewrite bk_foreach_get in Hin.
    destruct (pinned (decodeFollowState v)) eqn:Hp; [|done]. injection Hk as ->. by rewrite Hin.
  - destruct (bk_get _ id) as [v|] eqn:Hv; [|done]. cbn. intros Hp.
    exists (id, v). by rewrite bk_foreach_get, Hp.
Qed.

(** ** Verified identities *)

Lemma IsVerified_key id s : IsVerified id s = true ↔ is_Some (bk_get (bucketVerified s) id).
Proof. unfold IsVerified. by rewrite bool_decide_eq_true. Qed.

Lemma elem_of_VerifiedIdentities id s : id ∈ VerifiedIdentities s ↔ IsVerified id s = true.
Proof.
  rewrite IsVerified_key. unfold VerifiedIdentities. rewrite list_elem_of_fmap. split.
  - intros ([k v] & -> & Hin%bk_foreach_get). by eexists.
  - intros [v Hv]. exists (id, v). by rewrite bk_foreach_get.
Qed.

Lemma put_verified_loop ids s :
  Forall (λ id, bk_key_ok id = true) ids →
  ∃ b, forM_ ids (λ id, put_verified id [Byte.x01]) s = (Ok tt, set_verified b s) ∧
    ∀ id, IsVerified id (set_verified b s) = bool_decide (id ∈ ids) || IsVerified id s.
Proof.
  revert s. induction ids as [|i ids IH]; intros s Hids.
  { exists (bucketVerified s). split; [by destruct s|]. by destruct s. }
  apply Forall_cons in Hids as [Hi Hids]. cbn [forM_]. unfold mbind, stM_bind.
  unfold put_verified at 1, put_in, bk_Put. rewrite Hi. cbn [negb].
  rewrite (bk_value_fits [Byte.x01]) by (cbn; lia). cbn [negb].
  set (s1 := set_verified _ _). destruct (IH s1 Hids) as (b & Hrun & Hget).
  exists b. split; [exact Hrun|]. intros id.
  change (set_verified b s) with (set_verified b s1). rewrite Hget. unfold s1, IsVerified.
  cbn [bucketVerified set_verified]. rewrite bk_get_set. case_decide as Hid.
  - subst. rewrite (bool_decide_true (is_Some (Some _))) by by eexists.
    rewrite orb_true_r. by rewrite bool_decide_true by left.
  - f_equal. apply bool_decide_ext. set_solver.
Qed.

Lemma PutVerifiedIdentities_spec ids s :
  Forall (λ id, bk_key_ok id = true) ids →
  ∃ b, PutVerifiedIdentities ids s = (Ok tt, set_verified b s) ∧
    ∀ id, IsVerified id (set_verified b s) = bool_decide (id ∈ ids).
Proof.
  intros Hids. unfold PutVerifiedIdentities, Update, mbind, stM_bind, modify.
  set (s0 := set_verified (bk_foreach_delete (bucketVerified s)) s).
  destruct (put_verified_loop ids s0 Hids) as (b & Hrun & Hb). exists b.
  rewrite Hrun. split; [done|]. intros id.
  change (set_verified b s) with (set_verified b s0). rewrite Hb.
  unfold s0, IsVerified at 1. cbn [bucketVerified set_verified].
  rewrite bk_foreach_delete_get. rewrite (bool_decide_false (is_Some None)) by by intros [].
  apply orb_false_r.
Qed.

(** ** Import is a set union *)

Definition se_id (se : SignedEvent) : bytes := match ID se with Ok id => id | Err _ => [] end.
Definition with_id (se : SignedEvent) : bytes * SignedEvent := (se_id se, se).

(** The events of [l] that go to the log [n], with their keys. *)
Definition for_log (n : bytes) (l : list SignedEvent) : list (bytes * SignedEvent) :=
  with_id <$> filter (λ se, e_Log (se_Event se) = n) l.

Definition importable (se : SignedEvent) : Prop :=
  storable se ∧ bk_key_ok (e_Log (se_Event se)) = true.

Lemma import_logs l s :
  own_ok s → Forall importable l →
  ∃ own, forM_ l (λ se, AppendOwnEvent (e_Log (se_Event se)) se) s = (Ok tt, set_own own s) ∧
    subs_ok own ∧ ∀ n, subview own n = log_adds (for_log n l) (subview (bucketOwn s) n).
Proof.
  revert s. induction l as [|se l IH]; intros s Hok Hl.
  { exists (bucketOwn s). split_and!; [by destruct s|done|done]. }
  apply Forall_cons in Hl as [[Hse Hlog] Hl]. cbn [forM_]. unfold mbind, stM_bind.
  destruct (storable_ID se Hse) as (id & HID & _).
  destruct (AppendOwnEvent_adds (e_Log (se_Event se)) se id s Hok Hse HID Hlog)
    as (own & Happ & Hown & Hadds).
  rewrite Happ. destruct (IH (set_own own s) Hown Hl) as (own' & Hrun & Hown' & Hview).
  exists own'. split_and!; [exact Hrun|done|]. intros n. rewrite Hview.
  cbn [bucketOwn set_own]. rewrite Hadds. unfold for_log. rewrite filter_cons.
  destruct (decide (n = e_Log (se_Event se))) as [->|Hne].
  - rewrite decide_True by done. rewrite fmap_cons. change (with_id se) with (se_id se, se); unfold se_id at 1.
    by rewrite HID.
  - by rewrite (decide_False (P := e_Log (se_Event se) = n)) by done.
Qed.

(** ** The events of a well-formed log *)

(** Every stored event can be stored again and lies in the log it names; one
    like per author and target. *)
Definition logs_ok (s : store) : Prop :=
  own_ok s ∧
  ∀ n, one_like (subview (bucketOwn s) n) ∧
    ∀ k se, subview (bucketOwn s) n !! k = Some se → importable se ∧ e_Log (se_Event se) = n.

Lemma logs_ok_adds id se s own :
  logs_ok s → importable se → adds (e_Log (se_Event se)) id se (bucketOwn s) own →
  logs_ok (set_own own s).
Proof.
  intros [_ Hlogs] Hse [Hown Hadd]. split; [exact Hown|]. intros n. cbn [bucketOwn set_own].
  destruct (Hlogs n) as [Hone Hall]. rewrite Hadd. case_decide as Hn; [|done]. subst n.
  split; [by apply log_add_one_like|]. intros k e. unfold log_add. case_decide; [apply Hall|].
  rewrite lookup_insert. case_decide; [by intros [= <-]|apply Hall].
Qed.

Lemma empty_logs_ok : logs_ok empty_store.
Proof.
  split; [apply empty_own_ok|]. intros n. rewrite empty_own_view.
  split; [by intros k1 k2 e1 e2 p Hk|done].
Qed.

Lemma subview_ID p n k se : subs_ok p → subview p n !! k = Some se → ID se = Ok k.
Proof.
  intros Hok. unfold subview. destruct (bk_get p n) as [b|] eqn:Hb; [|done].
  intros Hk. eapply view_ID, Hk. by eapply Hok.
Qed.

Lemma for_log_subevents s n n' :
  logs_ok s →
  for_log n (subevents (bucketOwn s) n') =
    if decide (n = n') then with_id <$> subevents (bucketOwn s) n else [].
Proof.
  intros [Hok Hlogs]. unfold for_log.
  assert (∀ se, se ∈ subevents (bucketOwn s) n' → e_Log (se_Event se) = n') as Hin.
  { intros se (k & Hk)%elem_of_subevents. by apply (Hlogs n') in Hk as [_ ?]. }
  case_decide as Hn.
  - subst n'. f_equal. induction (subevents (bucketOwn s) n) as [|se l IH]; [done|].
    rewrite filter_cons, decide_True by (apply Hin; left). rewrite IH; [done|].
    intros. apply Hin. by right.
  - induction (subevents (bucketOwn s) n') as [|se l IH]; [done|].
    rewrite filter_cons, decide_False by (rewrite (Hin se ltac:(left)); done).
    apply IH. intros. apply Hin. by right.
Qed.

Lemma with_id_subevents p n :
  subs_ok p → ∃ l, with_id <$> subevents p n = l ∧ NoDup l.*1 ∧ list_to_map l = subview p n ∧
    ∀ k se, (k, se) ∈ l → subview p n !! k = Some se.
Proof.
  intros Hok. destruct (subevents_bucket p n) as (b & Hv & He).
  exists (decodable b). rewrite He, Hv. split_and!.
  - rewrite <-list_fmap_compose. trans (id <$> decodable b); [|apply list_fmap_id].
    apply list_fmap_ext. intros i [k se] Hi%list_elem_of_lookup_2. cbn.
    unfold with_id, se_id. rewrite elem_of_decodable_view, <-Hv in Hi.
    by rewrite (subview_ID _ _ _ _ Hok Hi).
  - apply decodable_NoDup.
  - done.
  - intros k se. by rewrite elem_of_decodable_view.
Qed.

Lemma AllOwnEvents_ok s :
  own_ok s → AllOwnEvents s = Ok ((own_profile s ++ subevents (bucketOwn s) DetailLog)
                                  ++ subevents (bucketOwn s) PostLog).
Proof.
  intros Hok. unfold AllOwnEvents, OwnEvents. by rewrite !log_events_subevents.
Qed.

Definition own_logs : list bytes := [ProfileLog; DetailLog; PostLog].

Lemma for_log_all s n :
  logs_ok s → n ∈ own_logs →
  for_log n ((own_profile s ++ subevents (bucketOwn s) DetailLog) ++ subevents (bucketOwn s) PostLog)
  = with_id <$> subevents (bucketOwn s) n.
Proof.
  intros Hs Hn. unfold own_profile.
  assert (∀ l1 l2, for_log n (l1 ++ l2) = for_log n l1 ++ for_log n l2) as Happ.
  { intros. unfold for_log. by rewrite filter_app, fmap_app. }
  rewrite !Happ, !for_log_subevents by done. unfold own_logs in Hn.
  rewrite !elem_of_cons, elem_of_nil in Hn.
  destruct Hn as [-> |[-> |[-> |[]]]].
  - rewrite decide_True, !decide_False by done. by rewrite !app_nil_r.
  - rewrite decide_False, decide_True, decide_False by done. by rewrite app_nil_r.
  - rewrite !decide_False, decide_True by done. done.
Qed.

Lemma all_importable s :
  logs_ok s →
  Forall importable
    ((own_profile s ++ subevents (bucketOwn s) DetailLog) ++ subevents (bucketOwn s) PostLog).
Proof.
  intros [_ Hlogs]. rewrite !Forall_app. unfold own_profile.
  split_and!; apply Forall_forall; intros se (k & Hk)%elem_of_subevents;
    by apply Hlogs in Hk as [? _].
Qed.

(** ** [ImportBackup] *)

Lemma FollowSet_source t l :
  t ∈ FollowSet l → ∃ se fl, se ∈ l ∧ e_Follow (se_Event se) = Some fl ∧ TargetPubkey fl = t.
Proof.
  rewrite FollowSet_follows. unfold follows. intros Hlast%last_Some_elem_of.
  apply list_elem_of_omap in Hlast as (se & Hin & Ha). rewrite SortedByTime_perm in Hin.
  unfold follow_action in Ha. destruct (e_Follow (se_Event se)) as [fl|] eqn:Hf; [|done].
  case_decide; [|done]. by exists se, fl.
Qed.

(** Decoded events hold 32-byte targets, whatever wrote them. *)
Lemma own_ok_targets s : own_ok s → targets_ok s.
Proof.
  intros Hok t (se & fl & Hin & Hf & <-)%FollowSet_source.
  apply elem_of_subevents in Hin as [k Hk]. unfold subview in Hk.
  destruct (bk_get (bucketOwn s) ProfileLog) as [b|] eqn:Hb; [|done]. cbn in Hk.
  rewrite lookup_view in Hk. destruct (bk_get b k) as [v|]; [|done]. cbn in Hk.
  destruct (decode_event v) as [se'|] eqn:Hd; [|done]. injection Hk as ->.
  apply CanonicalDecode_wf in Hd. unfold wf, SignedEvent_wf in Hd.
  apply andb_prop in Hd as [Hd _]. unfold wf, Event_wf in Hd. rewrite Hf in Hd.
  rewrite !andb_true_iff in Hd. destruct Hd as [[[[[_ Hd] _] _] _] _].
  cbn in Hd. unfold is_hash in Hd. by apply bool_decide_eq_true in Hd.
Qed.

Definition backup_ok (bd : BackupData) : Prop :=
  is_Some (bd_Key bd) ∧ Forall importable (bd_OwnLogs bd) ∧
  Forall (λ id, bk_key_ok id = true) (default [] (bd_Verified bd)) ∧
  Forall (λ id, bk_key_ok id = true) (default [] (bd_Pinned bd)).

(** What a store holds after a backup is merged into [s]. *)
Definition imported (bd : BackupData) (s s' : store) : Prop :=
  own_ok s' ∧ cache_ok s' ∧
  (∀ n, subview (bucketOwn s') n =
        log_adds (for_log n (bd_OwnLogs bd)) (subview (bucketOwn s) n)) ∧
  (∀ id, IsPinned id s' = bool_decide (id ∈ default [] (bd_Pinned bd)) && IsFollowed id s') ∧
  (∀ id, IsVerified id s' = match bd_Verified bd with
                            | Some ids => bool_decide (id ∈ ids)
                            | None => IsVerified id s
                            end).

Lemma restore_verified o s :
  Forall (λ id, bk_key_ok id = true) (default [] o) →
  ∃ b, match o with
       | Some ids => wrapM "restore verified" (PutVerifiedIdentities ids)
       | None => mret tt
       end s = (Ok tt, set_verified b s) ∧
    ∀ id, IsVerified id (set_verified b s) = match o with
      | Some ids => bool_decide (id ∈ ids) | None => IsVerified id s end.
Proof.
  destruct o as [ids|]; cbn [default]; intros Hids.
  - destruct (PutVerifiedIdentities_spec ids s Hids) as (b & Hrun & Hb). exists b.
    unfold wrapM. by rewrite Hrun.
  - exists (bucketVerified s). by destruct s.
Qed.

Lemma restore_pinned o s :
  Forall (λ id, bk_key_ok id = true) (default [] o) →
  (∀ id, IsPinned id s = false) →
  ∃ b, match o with
       | Some ids => wrapM "restore pinned" (PutPinnedIdentities ids)
       | None => mret tt
       end s = (Ok tt, set_follow b s) ∧
    (∀ id, IsFollowed id (set_follow b s) = IsFollowed id s) ∧
    ∀ id, IsPinned id (set_follow b s) = bool_decide (id ∈ default [] o) && IsFollowed id s.
Proof.
  intros Hids Hp. destruct o as [ids|]; cbn [default] in *.
  - destruct (PutPinnedIdentities_spec ids s Hids) as (b & Hrun & Hb). exists b.
    unfold wrapM. rewrite Hrun. split_and!; [done|..]; intros id.
    + unfold IsFollowed at 1. rewrite Hb. case_decide as Hid; [by destruct Hid as [_ ->]|done].
    + unfold IsPinned at 1. rewrite Hb. case_decide as Hid.
      * destruct Hid as [Hin ->]. by rewrite bool_decide_true.
      * specialize (Hp id). unfold IsPinned in Hp. rewrite Hp.
        case_bool_decide as Hin; [|done].
        destruct (IsFollowed id s) eqn:Hf; [|done]. by destruct Hid.
  - exists (bucketFollowState s). destruct s; split_and!; try done.
Qed.

Lemma ImportBackup_run bd s :
  own_ok s → backup_ok bd → ∃ s', ImportBackup bd s = (Ok tt, s') ∧ imported bd s s'.
Proof.
  intros Hok ([k Hk] & Hl & Hv & Hp). unfold ImportBackup. rewrite Hk.
  destruct (import_logs (bd_OwnLogs bd) s Hok Hl) as (own & Hrun & Hown & Hview).
  unfold mbind, stM_bind. rewrite Hrun. set (s1 := set_own own s).
  destruct (restore_verified (bd_Verified bd) s1 Hv) as (bv & Hrunv & Hver).
  rewrite Hrunv. set (s2 := set_verified bv s1) in *.
  destruct (rebuildFollowState_spec s2) as (bf & Hrunf & Hflags);
    [exact Hown|apply own_ok_targets; exact Hown|].
  unfold wrapM at 1. rewrite Hrunf. cbn [wrap].
  destruct (rebuild_flags s2 bf Hflags) as [Hc Hnp].
  set (s3 := set_follow bf s2) in *.
  destruct (restore_pinned (bd_Pinned bd) s3 Hp Hnp) as (bp & Hrunp & Hfo & Hpin).
  exists (set_follow bp s3). split; [exact Hrunp|]. split_and!.
  - exact Hown.
  - eapply same_follows_cache; [|exact Hc]. by split.
  - exact Hview.
  - intros id. by rewrite Hpin, Hfo.
  - exact Hver.
Qed.

(** ** Export, then import *)

Context `{!CborType EncryptedKey}.

Lemma default_appended {A} (l : list A) : default [] (appended l) = l.
Proof. by destruct l. Qed.

Lemma ExportBackup_ok ek s :
  own_ok s → Store_EncryptedKey s = Ok ek →
  ExportBackup s = Ok (mkBackupData (Some ek)
    ((own_profile s ++ subevents (bucketOwn s) DetailLog) ++ subevents (bucketOwn s) PostLog)
    None (appended (VerifiedIdentities s)) (appended (PinnedIdentities s)) None).
Proof.
  intros Hok Hek. unfold ExportBackup. rewrite Hek. cbn. by rewrite AllOwnEvents_ok.
Qed.

(** A store with no account data yet. *)
Definition fresh (s : store) : Prop :=
  (∀ n, bk_get (bucketOwn s) n = None) ∧ ∀ k, bk_get (bucketVerified s) k = None.

Lemma fresh_own_ok s : fresh s → own_ok s.
Proof. intros [Hown _] n b. by rewrite Hown. Qed.

Lemma rebuild_log s n :
  logs_ok s → n ∈ own_logs →
  log_adds (for_log n ((own_profile s ++ subevents (bucketOwn s) DetailLog)
                       ++ subevents (bucketOwn s) PostLog)) ∅ = subview (bucketOwn s) n.
Proof.
  intros Hs Hn. rewrite for_log_all by done. destruct Hs as [Hok Hlogs].
  destruct (with_id_subevents (bucketOwn s) n Hok) as (l & -> & Hnd & Hmap & Hin).
  rewrite (log_adds_rebuild l ∅ (subview (bucketOwn s) n)).
  - by rewrite Hmap, map_union_empty.
  - apply Hlogs.
  - apply map_empty_subseteq.
  - done.
  - intros k se Hk. split; [by apply Hin|done].
Qed.

Lemma keys_ok_visited {V} (b : bucket V) : (∀ k, is_Some (bk_get b k) → bk_key_ok k = true) →
  Forall (λ id, bk_key_ok id = true) (bk_foreach b).*1.
Proof.
  intros Hb. apply Forall_forall. intros k ([k' v] & -> & Hin%bk_foreach_get)%list_elem_of_fmap.
  apply Hb. by eexists.
Qed.
(** ** Remote events *)

(** Storing a list of remote events, one call each. *)
Definition put_all (l : list SignedEvent) (s : store) : store :=
  foldl (λ s se, (PutCrawledEvent se s).2) s l.

Lemma put_all_log_adds a l s :
  subs_ok (bucketCrawl s) →
  Forall (λ se, storable se ∧ se_Author se = a) l → bk_key_ok a = true →
  subs_ok (bucketCrawl (put_all l s)) ∧
  subview (bucketCrawl (put_all l s)) a = log_adds (with_id <$> l) (subview (bucketCrawl s) a).
Proof.
  intros Hok Hl Ha. revert s Hok. induction Hl as [|se l [Hse Hau] Hl IH]; intros s Hok; [done|].
  destruct (storable_ID se Hse) as (id & HID & _).
  destruct (PutCrawledEvent_adds se id s Hok Hse HID) as (crawl & i & Hrun & [Hc Hadd] & _);
    [by subst|].
  cbn [put_all foldl]. rewrite Hrun. cbn [snd].
  destruct (IH (set_crawl crawl s) Hc) as [Hok' Hview]. split; [exact Hok'|].
  unfold put_all in Hview. rewrite Hview. cbn [bucketCrawl set_crawl].
  rewrite Hadd, decide_True by done. unfold with_id at 2, se_id. cbn. by rewrite HID.
Qed.

End facts.
