(* ===== verification/GenDb.v ===== *)
(** * The generator of test stores

    Models [scripts/gentestdb.go]: a new store is filled with an identity, the
    zens it follows with their posts, followers, likes and pins. The crawl cache
    is written by the script itself, past the operations of [Store.v]. *)

From Stdlib Require Import QArith.QArith_base Strings.Byte.
From S2P Require Import Prelude Base32 Text External Identity Event Log Bolt Store StoreFollow.
#[local] Open Scope go_scope.
#[local] Open Scope Z_scope.

(** ** What the standard library gives *)

(** A [float64], of which only the order is used; every finite one is a
    rational. Nothing compares with NaN. *)
Inductive float64 := NaN | Inf (negative : bool) | Finite (q : Q).

Definition flt (x y : float64) : bool :=
  match x, y with
  | NaN, _ | _, NaN => false
  | Inf n, Inf m => n && negb m
  | Inf n, Finite _ => n
  | Finite _, Inf m => negb m
  | Finite p, Finite q => negb (Qle_bool q p)
  end.
Definition fle (x y : float64) : bool :=
  match x, y with NaN, _ | _, NaN => false | _, _ => negb (flt y x) end.

(** [math/rand]: a source made from a seed. *)
Class Rand := {
  rng : Type;
  rnd_New : Z → rng;
  rnd_Float64 : rng → float64 * rng;
  rnd_Intn : nat → rng → nat * rng;
}.

(** ** The state of a run *)

Record crawlRow := mkRow { row_author : bytes; row_id : bytes; row_bytes : bytes }.
Record postRef := mkPostRef { pr_author : KeyPair; pr_id : bytes }.

Section gen.
Context `{Bolt, Blake3, Ed25519, Aead, Rand, order : GoRange}.
Context `{!CborType Event, !CborType SignedEvent, !CborType EncryptedKey}.

(** The [n]-th reading of the clock, and the random bytes of the [n]-th key. *)
Context (clock : nat → Z) (seeds : nat → bytes).

Record gen := mkGen {
  g_store : store;
  g_batch : list crawlRow;
  g_rnd : rng;
  g_ticks : nat;
  g_keys : nat;
}.

Definition on_store {A} (f : stM store A) : stM gen A := λ g,
  let '(r, s) := f (g_store g) in (r, mkGen s (g_batch g) (g_rnd g) (g_ticks g) (g_keys g)).
Definition on_rnd {A} (f : rng → A * rng) : stM gen A := λ g,
  let '(a, x) := f (g_rnd g) in (Ok a, mkGen (g_store g) (g_batch g) x (g_ticks g) (g_keys g)).
Definition Float64 : stM gen float64 := on_rnd rnd_Float64.
Definition Intn (n : nat) : stM gen nat := on_rnd (rnd_Intn n).
Definition Now64 : stM gen Z := λ g,
  (Ok (clock (g_ticks g)), mkGen (g_store g) (g_batch g) (g_rnd g) (S (g_ticks g)) (g_keys g)).
Definition new_key : stM gen KeyPair := λ g,
  (Ok (NewKeyPair (seeds (g_keys g))),
   mkGen (g_store g) (g_batch g) (g_rnd g) (g_ticks g) (S (g_keys g))).

(** A loop that collects what its body makes. *)
Fixpoint collect {A B} (l : list A) (f : A → stM gen B) : stM gen (list B) :=
  match l with
  | [] => mret []
  | x :: l => b ← f x; bs ← collect l f; mret (b :: bs)
  end.

(** ** Texts *)

Definition adjs : list bytes :=
  [ # "quiet"; # "bright"; # "drift"; # "iron"; # "solar"; # "lunar"; # "mist"; # "amber"; # "verdant"; # "cobalt"].
Definition nouns : list bytes :=
  [ # "fox"; # "lark"; # "cedar"; # "tide"; # "spark"; # "raven"; # "fern"; # "hawk"; # "stone"; # "wave"].
Definition verbs : list bytes :=
  [ # "thinking about"; # "watching"; # "waking up to"; # "missing"; # "working on"; # "remembering"; # "looking for"].
Definition objects : list bytes :=
  [ # "the rain"; # "old maps"; # "a slow train"; # "the harbor"; # "a long read"; # "the morning"; # "a cold coffee"].

Definition zenName (i : nat) : bytes :=
  nth (i mod length adjs) adjs [] ++ # "-" ++ nth (i * 7 mod length nouns) nouns [] ++ # "-" ++
  show_Z (Z.of_nat i).

Definition postText (author : bytes) (n : nat) : stM gen bytes :=
  v ← Intn (length verbs);
  o ← Intn (length objects);
  mret (author ++ # ": " ++ nth v verbs [] ++ # " " ++ nth o objects [] ++ # " (#" ++
        show_Z (Z.of_nat n) ++ # ")").

(** ** Events *)

Definition zen_profile (name : bytes) (ts : Z) : Event :=
  mkEvent KindProfile ProfileLog ts 1 (Some (mkProfile name None)) None None None None None.
Definition zen_post_at (text : bytes) (ts seq : Z) : Event :=
  mkEvent KindPost PostLog ts seq None None (Some (mkPost text [] zero_hash)) None None None.
Definition follow_back (target : bytes) (ts : Z) : Event :=
  mkEvent KindFollow ProfileLog ts 2 None (Some (mkFollow target)) None None None None.
Definition like_at (target : bytes) (ts seq : Z) : Event :=
  mkEvent KindLike PostLog ts seq None None None (Some (mkLike target)) None None.

Definition putCrawled (se : SignedEvent) : stM gen unit :=
  id ← wrapM "event id" (lift (ID se));
  b ← wrapM "encode event" (lift (CanonicalEncode se));
  modify (λ g, mkGen (g_store g) (g_batch g ++ [mkRow (se_Author se) id b]) (g_rnd g) (g_ticks g) (g_keys g)).

Definition postID (se : SignedEvent) : stM gen bytes := wrapM "post event id" (lift (ID se)).

(** One row of [flushCrawled]: an ID that is there stays as it is. *)
Definition flush_row (r : crawlRow) : stM store unit := λ s,
  match bk_CreateBucketIfNotExists (row_author r) (bucketCrawl s) with
  | Err e => (Err e, s)
  | Ok (authorBucket, crawl) =>
      match bk_get authorBucket (row_id r) with
      | Some _ => (Ok tt, set_crawl crawl s)
      | None =>
          match bk_Put (row_id r) (row_bytes r) authorBucket with
          | Err e => (Err e, s)
          | Ok authorBucket => (Ok tt, set_crawl (bk_set (row_author r) authorBucket crawl) s)
          end
      end
  end.
Definition flushCrawled (rows : list crawlRow) : stM store unit := Update (forM_ rows flush_row).

Definition flush (m : string) : stM gen unit := λ g,
  wrapM m (on_store (flushCrawled (g_batch g))) g.

Definition appendOwnProfile (kp : KeyPair) (name : bytes) : stM gen unit :=
  now ← Now64;
  se ← lift (Sign kp (zen_profile name now));
  on_store (AppendOwnEvent ProfileLog se).

Definition followLocal (own : KeyPair) (target : bytes) : stM gen unit :=
  pub ← lift (PubkeyBytes target);
  now ← Now64;
  _ ← on_store (Store_Follow own (array32 pub) now);
  mret tt.

(** ** The zens *)

Definition time_Second : Z := 10 ^ 9.
Definition time_Minute : Z := 60 * time_Second.
Definition time_Hour : Z := 60 * time_Minute.

Definition zen_post (base : Z) (kp : KeyPair) (name : bytes) (i p : nat) : stM gen postRef :=
  let ts := wrap_i64 (base + Z.of_nat i * time_Second + Z.of_nat p * time_Minute) in
  text ← postText name p;
  post ← wrapM "sign post" (lift (Sign kp (zen_post_at text ts (wrap_u64 (Z.of_nat p + 1)))));
  _ ← putCrawled post;
  id ← postID post;
  mret (mkPostRef kp id).

Definition gen_zen (base : Z) (own : KeyPair) (postsPer i : nat) : stM gen (KeyPair * list postRef) :=
  kp ← new_key;
  prof ← wrapM "sign profile" (lift (Sign kp (zen_profile (zenName i) (wrap_i64 (base + Z.of_nat i)))));
  _ ← putCrawled prof;
  _ ← wrapM "follow zen" (followLocal own (Identity kp));
  posts ← collect (seq 0 postsPer) (zen_post base kp (zenName i) i);
  mret (kp, posts).

Definition follow_us (frac : float64) (ownPub : bytes) (kp : KeyPair) : stM gen nat :=
  x ← Float64;
  if flt x frac then
    now ← Now64;
    se ← wrapM "sign follow-back" (lift (Sign kp (follow_back ownPub now)));
    _ ← putCrawled se;
    mret 1%nat
  else mret 0%nat.

Definition own_post (base : Z) (own : KeyPair) (name : bytes) (p : nat) : stM gen postRef :=
  let ts := wrap_i64 (base + Z.of_nat p * time_Hour) in
  text ← postText name p;
  post ← wrapM "sign own post" (lift (Sign own (zen_post_at text ts (wrap_u64 (Z.of_nat p + 1)))));
  _ ← wrapM "append own post" (on_store (AppendOwnEvent PostLog post));
  id ← postID post;
  mret (mkPostRef own id).

(** ** Likes *)

(** The loop that draws a liker other than the author. It has no end of its
    own: [fuel] bounds the draws. *)
Fixpoint draw_liker (fuel : nat) (likers : list KeyPair) (author : bytes) : stM gen KeyPair :=
  match fuel with
  | O => lift (Err (E "out of fuel"))
  | S fuel =>
      i ← Intn (length likers);
      match likers !! i with
      | None => lift (Err (Panic "index out of range"))
      | Some cand =>
          if decide (Identity cand = author) then draw_liker fuel likers author else mret cand
      end
  end.

Definition hasOwnLike (id : bytes) (s : store) : bool :=
  match bk_get (bucketOwn s) PostLog with
  | Some b => match bk_get b id with Some _ => true | None => false end
  | None => false
  end.

(** [likeSeq] is a Go map: an absent identity reads as 0. *)
Definition like_post (fuel : nat) (own : KeyPair) (likers : list KeyPair) (frac : float64)
    (p : postRef) (acc : gmap bytes Z * nat) : stM gen (gmap bytes Z * nat) :=
  x ← Float64;
  if fle frac x then mret acc
  else
    liker ← draw_liker fuel likers (Identity (pr_author p));
    let seq := wrap_u64 (default 0 (acc.1 !! Identity liker) + 1) in
    let likeSeq := <[Identity liker := seq]> acc.1 in
    ts ← Now64;
    se ← wrapM "sign like" (lift (Sign liker (like_at (pr_id p) ts seq)));
    if decide (Identity liker = Identity own) then
      _ ← wrapM "append own like" (on_store (AppendOwnEvent PostLog se));
      s ← read (λ g, Ok (g_store g));
      let id := match ID se with Ok id => id | Err _ => zero_hash end in
      mret (likeSeq, if hasOwnLike id s then S acc.2 else acc.2)
    else
      _ ← putCrawled se;
      mret (likeSeq, S acc.2).

Fixpoint like_posts (fuel : nat) (own : KeyPair) (likers : list KeyPair) (frac : float64)
    (posts : list postRef) (acc : gmap bytes Z * nat) : stM gen nat :=
  match posts with
  | [] => mret acc.2
  | p :: posts => acc ← like_post fuel own likers frac p acc; like_posts fuel own likers frac posts acc
  end.

Definition float_zero : float64 := Finite 0.
Definition float_one : float64 := Finite 1.

Definition generateLikes (fuel : nat) (own : KeyPair) (remotes : list KeyPair)
    (posts : list postRef) (frac : float64) : stM gen nat :=
  if fle frac float_zero || (length posts =? 0)%nat then mret 0%nat
  else like_posts fuel own (own :: remotes) frac posts (∅, 0%nat).

(** ** Pins *)

Definition pin_zen (frac : float64) (kp : KeyPair) : stM gen nat :=
  x ← Float64;
  if fle frac x then mret 0%nat
  else _ ← wrapM "pin zen" (on_store (PinIdentity (Identity kp))); mret 1%nat.

Definition generatePins (remotes : list KeyPair) (frac : float64) : stM gen nat :=
  if fle frac float_zero || (length remotes =? 0)%nat then mret 0%nat
  else counts ← collect remotes (pin_zen frac); mret (sum_list counts).

(** ** [main] *)

Record flags := mkFlags {
  nZens : Z;
  postsPer : Z;
  ownPosts : Z;
  followBack : float64;
  likesFrac : float64;
  pinsFrac : float64;
  ownName : bytes;
  f_passphrase : bytes;
  overwrite : bool;
}.

Definition outside (x : float64) : bool := flt x float_zero || flt float_one x.
Definition check_flags (f : flags) : result unit :=
  if (nZens f <? 0) || (postsPer f <? 0) || (ownPosts f <? 0) then Err (E "counts cannot be negative")
  else if outside (followBack f) then Err (E "-followers must be between 0 and 1")
  else if outside (likesFrac f) then Err (E "-likes must be between 0 and 1")
  else if outside (pinsFrac f) then Err (E "-pins must be between 0 and 1")
  else Ok tt.

(** What is at the path of the new store: nothing, or a file that may be
    removed. *)
Definition claim_path (f : flags) (present : bool) (removed : result unit) : result unit :=
  if overwrite f then wrap "remove existing db" removed
  else if present then Err (E "db already exists; pass -overwrite to replace it")
  else Ok tt.

Record report := mkReport {
  r_own : KeyPair;
  r_remotes : list KeyPair;
  r_posts : list postRef;
  r_followers : nat;
  r_likes : nat;
  r_pins : nat;
}.

(** From [store.Open] on; [start] is the time the script reads for its
    posts. *)
Definition generate (fuel : nat) (f : flags) (salt nonce : bytes) (start : Z) : stM gen report :=
  own ← new_key;
  ek ← wrapM "encrypt own key" (lift (Encrypt DefaultKeyEncryption salt nonce (kp_Private own) (f_passphrase f)));
  _ ← wrapM "init own identity" (on_store (InitIdentity own ek));
  ownPub ← wrapM "own pubkey" (lift (PubkeyBytes (Identity own)));
  _ ← wrapM "own profile" (appendOwnProfile own (ownName f));
  let base := wrap_i64 (start - 24 * time_Hour) in
  zens ← collect (seq 0 (Z.to_nat (nZens f))) (gen_zen base own (Z.to_nat (postsPer f)));
  followers ← collect zens.*1 (follow_us (followBack f) (array32 ownPub));
  _ ← flush "flush crawled events";
  mine ← collect (seq 0 (Z.to_nat (ownPosts f))) (own_post base own (ownName f));
  let posts := mjoin zens.*2 ++ mine in
  likes ← generateLikes fuel own zens.*1 posts (likesFrac f);
  _ ← flush "flush like events";
  pins ← generatePins zens.*1 (pinsFrac f);
  mret (mkReport own zens.*1 posts (sum_list followers) likes pins).

Definition gen_main (fuel : nat) (f : flags) (present : bool) (removed : result unit) (seed : Z)
    (salt nonce : bytes) (start : Z) : result report * gen :=
  (_ ← lift (check_flags f);
   _ ← lift (claim_path f present removed);
   generate fuel f salt nonce start) (mkGen empty_store [] (rnd_New seed) 0 0).

Definition summary (dbPath : bytes) (f : flags) (r : report) : bytes :=
  let n (z : Z) := show_Z z in
  let k (c : nat) := show_Z (Z.of_nat c) in
  # "generated " ++ dbPath ++ [Byte.x0a] ++
  # "  zens:          " ++ n (nZens f) ++ [Byte.x0a] ++
  # "  posts/zen:     " ++ n (postsPer f) ++ # " (total " ++ n (wrap_i64 (nZens f * postsPer f)) ++ # ")" ++ [Byte.x0a] ++
  # "  followers:     " ++ k (r_followers r) ++ # " of " ++ n (nZens f) ++ # " zens" ++ [Byte.x0a] ++
  # "  likes:         " ++ k (r_likes r) ++ # " events" ++ [Byte.x0a] ++
  # "  pinned zens:   " ++ k (r_pins r) ++ # " of " ++ n (nZens f) ++ [Byte.x0a] ++
  # "  own posts:     " ++ n (ownPosts f) ++ [Byte.x0a] ++
  # "  remote events: ~" ++ n (wrap_i64 (nZens f * wrap_i64 (1 + postsPer f))) ++
  # " (plus local profile/posts)" ++ [Byte.x0a] ++
  [Byte.x0a] ++ # "open with:" ++ [Byte.x0a] ++ # "  driftnode --db " ++ dbPath ++
  # " daemon unlock  # then run the TUI" ++ [Byte.x0a].
End gen.
