(* ===== verification/GenDbFacts.v ===== *)
(** * The generated store

    Every step of the generator keeps an invariant that ties the store and the
    batch of crawled events to what the script has made so far. *)

From S2P Require Import Prelude Base32 Text External Identity Event Log Bolt Store StoreFacts StoreFollow StoreFollowFacts GenDb.
#[local] Open Scope go_scope.

(** ** What the script signs can be encoded *)

Lemma is_ascii_app s t : is_ascii (s ++ t) ↔ is_ascii s ∧ is_ascii t.
Proof. apply Forall_app. Qed.

Lemma is_ascii_lit s : forallb (λ c, Byte.to_N c <? 128)%N s = true → is_ascii s.
Proof. unfold is_ascii. rewrite forallb_forall, Forall_forall. setoid_rewrite N.ltb_lt. setoid_rewrite list_elem_of_In. done. Qed.

Lemma is_ascii_nth l i : forallb (forallb (λ c, Byte.to_N c <? 128)%N) l = true → is_ascii (nth i l []).
Proof.
  intros Hl. destruct (nth_in_or_default i l []) as [Hin| ->]; [|constructor].
  rewrite forallb_forall in Hl. by apply is_ascii_lit, Hl.
Qed.

Lemma digits_ascii w n : is_ascii (digits w n).
Proof.
  revert n. induction w as [|w IH]; intros n; [constructor|]. cbn [digits].
  apply is_ascii_app. split; [apply IH|]. repeat constructor. unfold digit.
  rewrite to_N_byte_of_small; pose proof (N.mod_lt n 10 ltac:(lia)); lia.
Qed.

Lemma show_Z_ascii z : is_ascii (show_Z z).
Proof.
  unfold show_Z. apply is_ascii_app. split; [|apply digits_ascii].
  destruct (z <? 0)%Z; [by apply is_ascii_lit|constructor].
Qed.

Lemma zenName_ascii i : is_ascii (zenName i).
Proof.
  unfold zenName. rewrite !is_ascii_app.
  split_and!; first [apply show_Z_ascii|by apply is_ascii_nth|by apply is_ascii_lit].
Qed.

Section wf.
Context `{CborText, !CborTextLaws}.

Definition header_ok (ts seq : Z) : Prop := in_i64 ts ∧ in_u64 seq.

Lemma wf_profile name ts seq (Hn : is_ascii name) : header_ok ts seq →
  wf (set_stamp (zen_profile name 0) ProfileLog ts seq) = true.
Proof.
  intros [Ht Hs]. unfold wf, Event_wf. cbn. unfold in_i64, in_u64 in *.
  rewrite !bool_decide_true by (unfold KindProfile; lia).
  by rewrite !cbor_text_ascii by (try done; by apply is_ascii_lit).
Qed.

Lemma wf_post text ts seq (Hn : is_ascii text) : header_ok ts seq → wf (zen_post_at text ts seq) = true.
Proof.
  intros [Ht Hs]. unfold wf, Event_wf. cbn. unfold in_i64, in_u64 in *.
  rewrite !bool_decide_true by (unfold KindPost; lia).
  by rewrite !cbor_text_ascii by (try done; by apply is_ascii_lit).
Qed.

Lemma wf_follow target ts seq (Hl : length target = 32) : header_ok ts seq →
  wf (set_stamp (follow_ev KindFollow target) ProfileLog ts seq) = true.
Proof.
  intros [Ht Hs]. unfold wf, Event_wf. cbn. unfold in_i64, in_u64 in *.
  rewrite !bool_decide_true by (unfold KindFollow; lia).
  rewrite !cbor_text_ascii by by apply is_ascii_lit. cbn. unfold is_hash. by rewrite Hl.
Qed.

Lemma wf_like target ts seq (Hl : length target = 32) : header_ok ts seq → wf (like_at target ts seq) = true.
Proof.
  intros [Ht Hs]. unfold wf, Event_wf. cbn. unfold in_i64, in_u64 in *.
  rewrite !bool_decide_true by (unfold KindLike; lia).
  rewrite !cbor_text_ascii by by apply is_ascii_lit. cbn. unfold is_hash. by rewrite Hl.
Qed.
End wf.

(** ** Steps that succeed *)

Section triple.
Context `{Bolt, Rand}.

Definition triple {A} (P : gen → Prop) (m : stM gen A) (Q : A → gen → Prop) : Prop :=
  ∀ g a g', P g → m g = (Ok a, g') → Q a g'.

Lemma t_ret {A} (P : gen → Prop) (a : A) (Q : A → gen → Prop) :
  (∀ g, P g → Q a g) → triple P (mret a) Q.
Proof. intros HQ g b g' HP [= <- <-]. by apply HQ. Qed.

Lemma t_bind {A B} P (m : stM gen A) Q (f : A → stM gen B) R :
  triple P m Q → (∀ a, triple (Q a) (f a) R) → triple P (m ≫= f) R.
Proof. intros Hm Hf g b g' HP (a & g1 & H1 & H2)%stM_bind_Ok. eapply Hf; [|exact H2]. by eapply Hm. Qed.

Lemma t_wrap {A} P m (x : stM gen A) Q : triple P x Q → triple P (wrapM m x) Q.
Proof.
  intros Hx g a g' HP. unfold wrapM. destruct (x g) as [r g1] eqn:Hr. intros [= Hw <-].
  apply wrap_Ok in Hw as ->. by eapply Hx.
Qed.

Lemma t_lift {A} P (r : result A) Q : (∀ a g, r = Ok a → P g → Q a g) → triple P (lift r) Q.
Proof. intros HQ g a g' HP [= -> <-]. by apply HQ. Qed.

Lemma t_impl {A} (P P' : gen → Prop) (m : stM gen A) Q Q' :
  triple P' m Q' → (∀ g, P g → P' g) → (∀ a g, Q' a g → Q a g) → triple P m Q.
Proof. intros Hm HP HQ g a g' Hg Hr. eapply HQ, Hm; [by apply HP|done]. Qed.

(** A loop, by what holds between its turns. *)
Lemma t_collect {A B} (I : list A → list B → gen → Prop) (f : A → stM gen B) l :
  (∀ xs x bs, x ∈ l → triple (I xs bs) (f x) (λ b, I (xs ++ [x]) (bs ++ [b]))) →
  triple (I [] []) (collect l f) (I l).
Proof.
  intros Hf. assert (∀ r xs bs, xs ++ r = l →
    triple (I xs bs) (collect r f) (λ out, I l (bs ++ out))) as Hall; [|by apply (Hall l)].
  induction r as [|x r IH]; intros xs bs Hl; cbn [collect].
  - rewrite app_nil_r in Hl. subst. apply t_ret. intros g. by rewrite app_nil_r.
  - eapply t_bind; [apply Hf; rewrite <-Hl; set_solver|]. intros b.
    eapply t_bind; [apply IH; by rewrite <-Hl, <-(assoc_L (++))|]. intros bs'. apply t_ret.
    intros g. by rewrite <-(assoc_L (++)).
Qed.
End triple.

Section store_steps.
Context `{BoltLaws, Blake3, !Blake3Laws, Ed25519, !Ed25519Laws, CborText, !CborTextLaws}.
Context `{!CborType Event, !CborType SignedEvent, !CborLaws Event, !CborLaws SignedEvent}.

(** An append that succeeds inserts the event, whatever the limits of the
    database. *)
Lemma AppendOwnEvent_inv log se s s' :
  own_ok s → wf se = true → AppendOwnEvent log se s = (Ok tt, s') →
  ∃ id own, ID se = Ok id ∧ s' = set_own own s ∧ adds log id se (bucketOwn s) own.
Proof.
  intros Hok Hwf Happ. destruct (AppendOwnEvent_any _ _ _ _ _ Hwf Hok Happ) as [[_ ?]|(id & own & ? & ? & ?)]; [done|].
  by exists id, own.
Qed.

(** A row of the batch, and the event it holds. *)
Definition row_of (se : SignedEvent) (r : crawlRow) : Prop :=
  row_author r = se_Author se ∧ ID se = Ok (row_id r) ∧ CanonicalEncode se = Ok (row_bytes r) ∧ wf se = true.

(** Flushing a row puts its event under its ID, unless one is there. *)
Definition put_new (id : bytes) (se : SignedEvent) (m : elog) : elog :=
  match m !! id with Some _ => m | None => <[id := se]> m end.

Lemma flush_row_inv se r s s' :
  subs_ok (bucketCrawl s) → row_of se r → flush_row r s = (Ok tt, s') →
  ∃ crawl, s' = set_crawl crawl s ∧ subs_ok crawl ∧
    ∀ n, subview crawl n = if decide (n = se_Author se) then put_new (row_id r) se (subview (bucketCrawl s) n)
                           else subview (bucketCrawl s) n.
Proof.
  intros Hok (Ha & HID & Hv & Hwf). unfold flush_row, put_new.
  destruct (bk_CreateBucketIfNotExists _ _) as [[b p]|] eqn:Hc; [|done].
  destruct (create_subview _ _ _ _ Hok Hc) as (Hb & Hview & Hp & Hn).
  pose proof (view_is_Some b (row_id r) Hb) as Hsome. rewrite Ha in *.
  destruct (bk_get b (row_id r)) as [w|] eqn:Hget.
  - intros [= <-]. exists p. split_and!; [done|done|]. intros n. rewrite Hn. case_decide as Hd; [subst n|done].
    rewrite <-Hview. destruct Hsome as [_ [e ->]]; [by eexists|done].
  - destruct (bk_Put _ _ _) as [b'|] eqn:Hput; [|done]. intros [= <-].
    apply bk_Put_Ok in Hput as (_ & _ & ->).
    assert (decode_event (row_bytes r) = Ok se) as Hdec by by apply CanonicalDecode_Encode.
    exists (bk_set (se_Author se) (bk_set (row_id r) (row_bytes r) b) p). split_and!; [done| |].
    + apply subs_ok_set; [done|]. by eapply bucket_ok_set.
    + intros n. rewrite subview_set, Hn. destruct (decide (n = se_Author se)) as [->|Hne].
      * rewrite decide_True by done. rewrite (view_set _ _ _ _ Hdec), Hview.
        destruct (subview (bucketCrawl s) (se_Author se) !! row_id r) as [e|] eqn:He; [|done].
        rewrite <-Hview in He. destruct Hsome as [Hs _]. destruct Hs; [by eexists|done].
      * by rewrite decide_False.
Qed.
End store_steps.

(** ** The invariant *)

(** What the script has made: the zens it follows, the posts, and the targets
    of the likes in the batch. *)
Record made := mkMade { md_zens : list KeyPair; md_posts : list postRef; md_likes : list bytes }.

Section invariant.
Context `{BoltLaws, Blake3, !Blake3Laws, Ed25519, !Ed25519Laws, GoRange, !GoRangeLaws, Rand}.
Context `{CborText, !CborTextLaws}.
Context `{!CborType Event, !CborType SignedEvent, !CborLaws Event, !CborLaws SignedEvent}.
Context (own : KeyPair).

Definition like_target (se : SignedEvent) : option bytes := snd <$> like_of se.

(** A row of the batch holds a verified event. *)
Definition row_ok (se : SignedEvent) (r : crawlRow) : Prop := row_of se r ∧ Verify se = Ok tt.

(** A post is under its ID in its author's log: the user's, or the batch. *)
Definition placed (g : gen) (p : postRef) : Prop :=
  (pr_author p = own ∧ is_Some (subview (bucketOwn (g_store g)) PostLog !! pr_id p)) ∨
  ∃ r, r ∈ g_batch g ∧ row_author r = Identity (pr_author p) ∧ row_id r = pr_id p.

(** The user's own log. *)
Record own_inv (zens : list KeyPair) (s : store) : Prop := {
  oi_ok : own_ok s;
  oi_signed : ∀ n k se, subview (bucketOwn s) n !! k = Some se → Verify se = Ok tt ∧ se_Author se = Identity own;
  oi_one_like : one_like (subview (bucketOwn s) PostLog);
  oi_follows : ∀ k se, subview (bucketOwn s) ProfileLog !! k = Some se →
    e_Kind (se_Event se) ≠ KindUnfollow ∧ ∀ t, follow_action t se = Some true → t ∈ kp_Public <$> zens;
  oi_size : size (subview (bucketOwn s) ProfileLog) ≤ S (length zens);
  oi_all : size (subview (bucketOwn s) ProfileLog) = S (length zens) →
    ∀ kp, kp ∈ zens → kp_Public kp ∈ own_follows s;
  oi_flags : ∀ id, IsFollowed id s = true ↔ ∃ kp, kp ∈ zens ∧ id = Identity kp;
  oi_pins : pins_ok s;
}.

(** The crawl cache holds rows of the batch. *)
Record crawl_inv (likes : list bytes) (batch : list crawlRow) (s : store) : Prop := {
  ci_rows : ∃ evs, Forall2 row_ok evs batch ∧ omap like_target evs = likes;
  ci_ok : subs_ok (bucketCrawl s);
  ci_from : ∀ a k se, subview (bucketCrawl s) a !! k = Some se →
    ∃ r, r ∈ batch ∧ row_ok se r ∧ a = row_author r ∧ k = row_id r;
}.

Record gen_inv (d : made) (g : gen) : Prop := {
  gi_own : own_inv (md_zens d) (g_store g);
  gi_crawl : crawl_inv (md_likes d) (g_batch g) (g_store g);
  gi_posts : Forall (placed g) (md_posts d);
  gi_ids : Forall (λ p, length (pr_id p) = 32) (md_posts d);
  gi_keys : Forall valid_key (md_zens d);
}.

Lemma same_own zens s s' :
  bucketOwn s' = bucketOwn s → bucketFollowState s' = bucketFollowState s → own_inv zens s → own_inv zens s'.
Proof.
  intros Ho Hf []. unfold own_ok, own_follows, own_profile, pins_ok, IsPinned, IsFollowed, getFollowState in *.
  split; unfold own_ok, own_follows, own_profile, pins_ok, IsPinned, IsFollowed, getFollowState; by rewrite ?Ho, ?Hf.
Qed.

Lemma same_crawl likes batch s s' :
  bucketCrawl s' = bucketCrawl s → crawl_inv likes batch s → crawl_inv likes batch s'.
Proof. intros Hc []. by split; rewrite ?Hc. Qed.

(** ** The own log *)

Lemma adds_lookup name id se p p' n k e :
  adds name id se p p' → subview p' n !! k = Some e →
  (n = name ∧ k = id ∧ e = se) ∨ subview p n !! k = Some e.
Proof.
  intros [_ Hv]. rewrite Hv. case_decide as Hn; [|by right]. intros Hk. unfold log_add in Hk.
  case_decide; [by subst; right|]. rewrite lookup_insert in Hk. case_decide; [left|right]; naive_solver.
Qed.

Lemma adds_mono name id se p p' n : adds name id se p p' → subview p n ⊆ subview p' n.
Proof. intros [_ Hv]. rewrite Hv. case_decide; [apply log_add_mono|done]. Qed.

Lemma adds_present name id se p p' :
  adds name id se p p' → like_of se = None → is_Some (subview p' name !! id).
Proof. intros Ha Hl. destruct (adds_skips _ _ _ _ _ Ha) as [Hs|(p0 & Hp & _)]; [done|congruence]. Qed.

(** With no unfollow in the log, the follow set is what its follows target. *)
Lemma follow_set_only t l :
  (∀ se, se ∈ l → e_Kind (se_Event se) ≠ KindUnfollow) →
  t ∈ FollowSet l ↔ ∃ se, se ∈ l ∧ follow_action t se = Some true.
Proof.
  intros Hl. rewrite FollowSet_follows. unfold follows.
  assert (∀ b, b ∈ omap (follow_action t) (SortedByTime l) → b = true) as Hall.
  { intros b (se & Hse & Hb)%list_elem_of_omap. rewrite SortedByTime_perm in Hse.
    specialize (Hl se Hse). revert Hb. unfold follow_action. repeat case_match; naive_solver. }
  split.
  - intros Hlast. apply last_Some in Hlast as [l' Hl'].
    assert (true ∈ omap (follow_action t) (SortedByTime l)) as Hin by (rewrite Hl'; set_solver).
    apply list_elem_of_omap in Hin as (se & Hse & Hb). rewrite SortedByTime_perm in Hse. by exists se.
  - intros (se & Hse & Hb).
    assert (true ∈ omap (follow_action t) (SortedByTime l)) as Hin.
    { apply list_elem_of_omap. exists se. by rewrite SortedByTime_perm. }
    destruct (last (omap (follow_action t) (SortedByTime l))) as [b|] eqn:Hb'.
    + f_equal. apply Hall. by apply last_Some_elem_of.
    + apply last_None in Hb'. rewrite Hb' in Hin. by apply elem_of_nil in Hin.
Qed.

Lemma own_follows_only zens s t : own_inv zens s →
  t ∈ own_follows s ↔ ∃ k se, subview (bucketOwn s) ProfileLog !! k = Some se ∧ follow_action t se = Some true.
Proof.
  intros Hinv. unfold own_follows. rewrite follow_set_only.
  - unfold own_profile. setoid_rewrite elem_of_subevents. naive_solver.
  - intros se (k & Hk)%elem_of_subevents. by apply (oi_follows _ _ Hinv k).
Qed.

Lemma own_inv_post zens s id se p' :
  own_inv zens s → adds PostLog id se (bucketOwn s) p' → Verify se = Ok tt → se_Author se = Identity own →
  own_inv zens (set_own p' s).
Proof.
  intros Hinv Hadds Hver Ha. pose proof Hadds as [Hok Hv].
  assert (subview p' ProfileLog = subview (bucketOwn s) ProfileLog) as Hprof by by rewrite Hv.
  destruct Hinv as [? Hsig Hone Hfol Hsize Hall Hflags Hpins].
  split; unfold own_follows, own_profile; cbn [bucketOwn set_own]; try done; rewrite ?Hprof; try done.
  - intros n k e He. destruct (adds_lookup _ _ _ _ _ _ _ _ Hadds He) as [(_ & _ & ->)|Hold]; [done|by eapply Hsig].
  - rewrite Hv, decide_True by done. by apply log_add_one_like.
  - by rewrite (subevents_ext (bucketOwn s) p' ProfileLog Hprof).
Qed.

Lemma own_inv_profile s id se p' :
  own_inv [] s → subview (bucketOwn s) ProfileLog = ∅ → e_Kind (se_Event se) = KindProfile →
  adds ProfileLog id se (bucketOwn s) p' → Verify se = Ok tt → se_Author se = Identity own →
  own_inv [] (set_own p' s).
Proof.
  intros Hinv Hempty Hkind Hadds Hver Ha. pose proof Hadds as [Hok Hv].
  assert (subview p' PostLog = subview (bucketOwn s) PostLog) as Hpost by by rewrite Hv.
  assert (∀ k e, subview p' ProfileLog !! k = Some e → k = id ∧ e = se) as Honly.
  { intros k e He. destruct (adds_lookup _ _ _ _ _ _ _ _ Hadds He) as [(_ & ? & ?)|Hold]; [done|].
    by rewrite Hempty, lookup_empty in Hold. }
  destruct Hinv as [? Hsig Hone Hfol Hsize Hall Hflags Hpins].
  split; unfold own_follows, own_profile; cbn [bucketOwn set_own]; try done; rewrite ?Hpost; try done.
  - intros n k e He. destruct (adds_lookup _ _ _ _ _ _ _ _ Hadds He) as [(_ & _ & ->)|Hold]; [done|by eapply Hsig].
  - intros k e [_ ->]%Honly. rewrite Hkind. split; [done|]. intros t. unfold follow_action. rewrite Hkind.
    by repeat case_match.
  - assert (subview p' ProfileLog ⊆ {[id := se]}) as Hsub.
    { apply map_subseteq_spec. intros k e [-> ->]%Honly. apply lookup_singleton_eq. }
    apply map_subseteq_size in Hsub. by rewrite map_size_singleton in Hsub.
  - intros _ kp []%not_elem_of_nil.
Qed.

Definition follow_of (target : bytes) (se : SignedEvent) : Prop :=
  e_Kind (se_Event se) = KindFollow ∧ e_Follow (se_Event se) = Some (mkFollow target).

Lemma follow_of_action target se t : follow_of target se → follow_action t se = Some true ↔ t = target.
Proof.
  intros [Hk Hf]. unfold follow_action. rewrite Hf, Hk. cbn. case_decide as Ht; [|naive_solver].
  by rewrite decide_True.
Qed.

Lemma follow_of_like target se : follow_of target se → like_of se = None.
Proof. intros [Hk _]. unfold like_of. by rewrite Hk. Qed.

Lemma own_inv_follow zens kp s id se p' :
  own_inv zens s → follow_of (kp_Public kp) se →
  adds ProfileLog id se (bucketOwn s) p' → Verify se = Ok tt → se_Author se = Identity own →
  own_inv (zens ++ [kp]) (set_follow (bk_set (Identity kp) edge (bucketFollowState s)) (set_own p' s)).
Proof.
  intros Hinv Hfo Hadds Hver Ha. pose proof Hadds as [Hok Hv].
  pose proof (follow_of_like _ _ Hfo) as Hl. pose proof (λ t, own_follows_only zens s t Hinv) as Hofs.
  set (s' := set_follow _ _).
  assert (subview p' PostLog = subview (bucketOwn s) PostLog) as Hpost by by rewrite Hv.
  assert (∀ k e, subview p' ProfileLog !! k = Some e →
    e_Kind (se_Event e) ≠ KindUnfollow ∧ ∀ t, follow_action t e = Some true → t ∈ kp_Public <$> zens ++ [kp]) as Hkinds.
  { intros k e He. rewrite fmap_app. destruct (adds_lookup _ _ _ _ _ _ _ _ Hadds He) as [(_ & -> & ->)|Hold].
    - split; [by destruct Hfo as [-> _]|]. intros t Ht. apply (follow_of_action _ _ _ Hfo) in Ht as ->. set_solver.
    - apply (oi_follows _ _ Hinv) in Hold as [? Hold]. split; [done|]. intros t Ht. apply Hold in Ht. set_solver. }
  assert (∀ t, t ∈ own_follows s' ↔
    ∃ k e, subview p' ProfileLog !! k = Some e ∧ follow_action t e = Some true) as Hfs.
  { intros t. unfold own_follows. rewrite follow_set_only.
    - unfold own_profile. setoid_rewrite elem_of_subevents. cbn. naive_solver.
    - intros e (k & He)%elem_of_subevents. by apply (Hkinds k). }
  destruct Hinv as [? Hsig Hone Hfol Hsize Hall Hflags Hpins].
  specialize (Hv ProfileLog) as Hvp. rewrite decide_True in Hvp by done. unfold log_add in Hvp.
  assert (bucketOwn s' = p') as Hbo by done.
  split; unfold own_ok; rewrite ?Hbo, ?Hpost; try done.
  - intros n k e He. destruct (adds_lookup _ _ _ _ _ _ _ _ Hadds He) as [(_ & _ & ->)|Hold]; [done|by eapply Hsig].
  - rewrite length_app. cbn [length]. case_decide as Hskip; rewrite Hvp; [lia|].
    rewrite map_size_insert_None; [lia|]. apply eq_None_not_Some. intros Hsome. by destruct Hskip; left.
  - rewrite length_app. cbn [length]. intros Hfull kp' Hkp'. apply Hfs. case_decide as Hskip; [rewrite Hvp in Hfull; lia|].
    assert (subview (bucketOwn s) ProfileLog !! id = None) as Hfresh.
    { apply eq_None_not_Some. intros Hsome. by destruct Hskip; left. }
    rewrite Hvp, map_size_insert_None in Hfull by done.
    apply elem_of_app in Hkp' as [Hkp'| ->%list_elem_of_singleton].
    + apply Hall in Hkp'; [|lia]. apply Hofs in Hkp' as (k & e & He & Hact). exists k, e. split; [|done].
      rewrite Hvp, lookup_insert_ne; [done|]. congruence.
    + exists id, se. rewrite Hvp, lookup_insert_eq. split; [done|]. by apply (follow_of_action (kp_Public kp)).
  - intros i. unfold IsFollowed, s', edge. rewrite (getFollowState_set _ _ (set_own p' s)).
    setoid_rewrite elem_of_app. setoid_rewrite list_elem_of_singleton.
    destruct (decide (Identity kp = i)) as [<-|Hid].
    + split; [|done]. intros _. exists kp. naive_solver.
    + change (getFollowState i (set_own p' s)) with (getFollowState i s). fold (IsFollowed i s). rewrite Hflags.
      naive_solver.
  - intros i. unfold IsPinned, IsFollowed, s', edge. rewrite (getFollowState_set _ _ (set_own p' s)).
    destruct (decide (Identity kp = i)); [done|]. apply Hpins.
Qed.
End invariant.
