(* ===== verification/GenDbRuns.v ===== *)
(** * Runs of the generator

    Each part of [GenDb.v] keeps the invariant of [GenDbFacts.v], and a run that
    succeeds leaves it in the finished store. *)

From S2P Require Import Prelude Base32 Text External Identity Event Log Bolt Store StoreFacts StoreFollow StoreFollowFacts GenDb GenDbFacts.
#[local] Open Scope go_scope.

Section runs.
Context `{BoltLaws, Blake3, !Blake3Laws, Ed25519, !Ed25519Laws, Aead, GoRange, !GoRangeLaws, Rand}.
Context `{CborText, !CborTextLaws, !CborType EncryptedKey}.
Context `{!CborType Event, !CborType SignedEvent, !CborLaws Event, !CborLaws SignedEvent}.
Context (clock : nat → Z) (seeds : nat → bytes).
Context (Hclock : ∀ n, in_i64 (clock n)) (Hseeds : ∀ n, length (seeds n) = 32).
Context (own : KeyPair) (Hown : valid_key own).

Abbreviation inv := (gen_inv own).

(** ** Small steps *)

Lemma inv_same d g g' :
  g_store g' = g_store g → g_batch g' = g_batch g → inv d g → inv d g'.
Proof.
  intros Hs Hb [? ? Hp ? ?]. split; rewrite ?Hs, ?Hb; try done.
  eapply Forall_impl; [exact Hp|]. intros p. unfold placed. by rewrite Hs, Hb.
Qed.

Lemma t_now d : triple (inv d) (Now64 clock) (λ now g, inv d g ∧ in_i64 now).
Proof. intros g a g' Hg [= <- <-]. split; [by apply (inv_same d g)|apply Hclock]. Qed.

Lemma t_key d : triple (inv d) (new_key seeds) (λ kp g, inv d g ∧ valid_key kp).
Proof. intros g a g' Hg [= <- <-]. split; [by apply (inv_same d g)|]. by eexists. Qed.

Lemma t_rnd {A} d (f : rng → A * rng) : triple (inv d) (on_rnd f) (λ _, inv d).
Proof.
  intros g a g' Hg. unfold on_rnd. destruct (f (g_rnd g)) as [b x]. intros [= -> <-]. by apply (inv_same d g).
Qed.

Lemma t_text name n d : is_ascii name →
  triple (inv d) (postText name n) (λ text g, inv d g ∧ is_ascii text).
Proof.
  intros Hname. unfold postText.
  eapply t_bind; [apply t_rnd|]. intros v. eapply t_bind; [apply t_rnd|]. intros o. apply t_ret.
  intros g Hg. split; [done|]. rewrite !is_ascii_app.
  split_and!; first [done|apply show_Z_ascii|by apply is_ascii_nth|by apply is_ascii_lit].
Qed.

Lemma Sign_run kp ev se : valid_key kp → wf ev = true → Sign kp ev = Ok se →
  se_Event se = ev ∧ se_Author se = Identity kp ∧ Verify se = Ok tt ∧ wf se = true.
Proof.
  intros Hk Hwf Hs. destruct (Sign_inv _ _ _ Hs) as (_ & _ & Hv).
  destruct (Sign_Ok kp ev Hk Hwf Hv) as (se' & Hs' & ? & ? & ? & _ & ?). rewrite Hs in Hs'. by injection Hs' as <-.
Qed.

Lemma t_sign kp ev d : valid_key kp → wf ev = true →
  triple (inv d) (lift (Sign kp ev)) (λ se g, inv d g ∧
    se_Event se = ev ∧ se_Author se = Identity kp ∧ Verify se = Ok tt ∧ wf se = true).
Proof. intros Hk Hwf. apply t_lift. intros se g Hs Hg. split; [done|]. by apply Sign_run. Qed.

Lemma header i n : header_ok (wrap_i64 i) (wrap_u64 n).
Proof. split; [apply wrap_i64_range|]. unfold wrap_u64, in_u64. apply Z.mod_pos_bound. lia. Qed.
Lemma header_now now n : in_i64 now → header_ok now (wrap_u64 n).
Proof. intros Hn. by split; [|apply (header 0)]. Qed.

Lemma step_store d d' (g : gen) s :
  md_posts d' = md_posts d → md_likes d' = md_likes d → Forall valid_key (md_zens d') →
  own_inv own (md_zens d') s → bucketCrawl s = bucketCrawl (g_store g) →
  subview (bucketOwn (g_store g)) PostLog ⊆ subview (bucketOwn s) PostLog →
  inv d g → inv d' (mkGen s (g_batch g) (g_rnd g) (g_ticks g) (g_keys g)).
Proof.
  intros Hp Hl Hk Ho Hc Hsub [? ? Hpl ? ?]. split; rewrite ?Hp, ?Hl; try done.
  - by eapply same_crawl.
  - eapply Forall_impl; [exact Hpl|]. intros p [[Ha Hs]|Hr]; [left|by right]. split; [done|]. cbn.
    destruct Hs as [e He]. exists e. by eapply lookup_weaken.
Qed.

(** ** The batch *)

Lemma t_crawled se d : wf se = true → Verify se = Ok tt →
  triple (inv d) (putCrawled se) (λ _ g,
    inv (mkMade (md_zens d) (md_posts d) (md_likes d ++ option_list (like_target se))) g ∧
    ∃ r, r ∈ g_batch g ∧ row_author r = se_Author se ∧ ID se = Ok (row_id r)).
Proof.
  intros Hwf Hver g [] g' [Ho Hc Hp Hids Hk] Hrun. unfold putCrawled in Hrun.
  apply stM_bind_Ok in Hrun as (id & g1 & [= Hid%wrap_Ok ->] & Hrun).
  apply stM_bind_Ok in Hrun as (b & g2 & [= Hb%wrap_Ok ->] & [= <-]).
  set (r := mkRow (se_Author se) id b). assert (row_of se r) as Hr by done.
  split; [split; cbn; try done|].
  - destruct Hc as [(evs & Hevs & Hl) Hok Hfrom]. split; [|done|].
    + exists (evs ++ [se]). split; [apply Forall2_app; [done|by repeat constructor]|].
      rewrite omap_app, Hl. cbn. by destruct (like_target se).
    + intros a k e He. destruct (Hfrom a k e He) as (r' & Hr' & Hrest). exists r'. split; [apply elem_of_app; by left|done].
  - eapply Forall_impl; [exact Hp|]. intros p [Hs|(r' & Hr' & Hrest)]; [by left|right].
    exists r'. split; [apply elem_of_app; by left|done].
  - exists r. split; [apply elem_of_app; right; by apply list_elem_of_singleton|done].
Qed.

Definition flushed (g : gen) : Prop :=
  ∀ r, r ∈ g_batch g → is_Some (subview (bucketCrawl (g_store g)) (row_author r) !! row_id r).

Lemma put_new_lookup id se m k e : put_new id se m !! k = Some e → (k = id ∧ e = se) ∨ m !! k = Some e.
Proof.
  unfold put_new. destruct (m !! id); [by right|]. rewrite lookup_insert. case_decide; naive_solver.
Qed.
Lemma put_new_keeps id se m k : is_Some (m !! k) → is_Some (put_new id se m !! k).
Proof.
  unfold put_new. destruct (m !! id); [done|]. intros [e He]. rewrite lookup_insert. case_decide; by eexists.
Qed.
Lemma put_new_has id se m : is_Some (put_new id se m !! id).
Proof. unfold put_new. destruct (m !! id) eqn:Hm; [by eexists|]. rewrite lookup_insert_eq. by eexists. Qed.

Lemma flush_rows likes batch rows s s' :
  crawl_inv likes batch s → rows ⊆ batch → forM_ rows flush_row s = (Ok tt, s') →
  ∃ crawl, s' = set_crawl crawl s ∧ crawl_inv likes batch s' ∧
    (∀ a k, is_Some (subview (bucketCrawl s) a !! k) → is_Some (subview crawl a !! k)) ∧
    ∀ r, r ∈ rows → is_Some (subview crawl (row_author r) !! row_id r).
Proof.
  revert s. induction rows as [|r rows IH]; intros s Hinv Hsub Hrun.
  - injection Hrun as <-. exists (bucketCrawl s). destruct s. split_and!; [done|done|done|]. intros r []%not_elem_of_nil.
  - apply stM_bind_Ok in Hrun as ([] & s1 & Hr & Hrun).
    destruct Hinv as [Hrows Hok Hfrom]. destruct Hrows as (evs & Hevs & Hl).
    assert (r ∈ batch) as Hin by (apply Hsub; left).
    destruct (proj1 (list_elem_of_lookup _ _) Hin) as [i Hi].
    destruct (Forall2_lookup_r _ _ _ _ _ Hevs Hi) as (se & Hse & Hrow).
    destruct (flush_row_inv se r s s1 Hok (proj1 Hrow) Hr) as (crawl & -> & Hok1 & Hv).
    pose proof (proj1 (proj1 Hrow)) as Ha.
    destruct (IH (set_crawl crawl s)) as (crawl' & -> & Hinv' & Hkeep & Hhas); [|intros r' Hr'; apply Hsub; by right|exact Hrun|].
    { split; [by exists evs|done|]. intros a k e He. cbn in He. rewrite Hv in He. case_decide as Hd; [|by apply Hfrom].
      subst a. destruct (put_new_lookup _ _ _ _ _ He) as [[-> ->]|Hold]; [|by apply Hfrom].
      exists r. by rewrite Ha. }
    assert (∀ a k, is_Some (subview (bucketCrawl s) a !! k) → is_Some (subview crawl a !! k)) as Hkeep1.
    { intros a k Hs. rewrite Hv. case_decide; [|done]. subst. by apply put_new_keeps. }
    exists crawl'. split_and!; [done|done| |].
    + intros a k Hs. by apply Hkeep, Hkeep1.
    + intros r' [->|Hr']%elem_of_cons; [|by apply Hhas]. apply Hkeep. cbn.
      rewrite Hv, decide_True by done. rewrite Ha. apply put_new_has.
Qed.

Lemma t_flush m d : triple (inv d) (flush m) (λ _ g, inv d g ∧ flushed g).
Proof.
  intros g [] g' Hg Hrun. unfold flush, wrapM, on_store, flushCrawled, Update in Hrun.
  destruct (forM_ (g_batch g) flush_row (g_store g)) as [[[]|e] s] eqn:Hf; [|by destruct e].
  injection Hrun as <-. pose proof Hg as [Ho Hc Hp Hids Hk].
  destruct (flush_rows _ _ _ _ _ Hc ltac:(done) Hf) as (crawl & -> & Hc' & _ & Hhas).
  split; [|exact Hhas]. split; cbn; try done. by apply (same_own own _ (g_store g)).
Qed.

(** ** The own log *)

Lemma t_append_post se d : wf se = true → Verify se = Ok tt → se_Author se = Identity own →
  triple (inv d) (on_store (AppendOwnEvent PostLog se)) (λ _ g, inv d g ∧
    (like_of se = None → ∀ id, ID se = Ok id → is_Some (subview (bucketOwn (g_store g)) PostLog !! id))).
Proof.
  intros Hwf Hver Ha g [] g' Hg Hrun. unfold on_store in Hrun.
  destruct (AppendOwnEvent PostLog se (g_store g)) as [r s] eqn:Happ. injection Hrun as -> <-.
  pose proof (gi_own _ _ _ Hg) as Ho.
  destruct (AppendOwnEvent_inv _ _ _ _ (oi_ok _ _ _ Ho) Hwf Happ) as (id & p' & HID & -> & Hadds).
  split.
  - apply (step_store d d g); try done; [by destruct Hg| |by eapply adds_mono].
    by eapply own_inv_post.
  - intros Hl id' HID'. rewrite HID in HID'. injection HID' as <-. by eapply adds_present.
Qed.

Lemma t_profile name d : is_ascii name → md_zens d = [] →
  triple (λ g, inv d g ∧ subview (bucketOwn (g_store g)) ProfileLog = ∅) (appendOwnProfile clock own name) (λ _, inv d).
Proof.
  intros Hname Hz g [] g' [Hg Hempty] Hrun. unfold appendOwnProfile in Hrun.
  apply stM_bind_Ok in Hrun as (now & g1 & Hnow & Hrun).
  destruct (t_now d g now g1 Hg Hnow) as [Hg1 Hin].
  assert (g_store g1 = g_store g) as Hs1 by by injection Hnow as _ <-.
  apply stM_bind_Ok in Hrun as (se & g2 & [= Hsign ->] & Hrun).
  assert (wf (zen_profile name now) = true) as Hwf by (apply (wf_profile name now 1); [done|by split]).
  destruct (Sign_run own _ se Hown Hwf Hsign) as (Hev & Ha & Hver & Hwse).
  unfold on_store in Hrun. destruct (AppendOwnEvent ProfileLog se (g_store g2)) as [r s] eqn:Happ.
  injection Hrun as -> <-. pose proof (gi_own _ _ _ Hg1) as Ho.
  destruct (AppendOwnEvent_inv _ _ _ _ (oi_ok _ _ _ Ho) Hwse Happ) as (id & p' & HID & -> & Hadds).
  apply (step_store d d g2); try done; [by destruct Hg1| |by eapply adds_mono].
  rewrite Hz in *. eapply own_inv_profile; try done; by rewrite ?Hs1, ?Hev.
Qed.

Lemma SignAndAppend_inv kp log ev now s se id s' :
  e_Kind ev ≠ KindLike → SignAndAppend kp log ev now s = (Ok (se, id), s') →
  ∃ e, Sign kp (stamped log ev now s) = Ok e ∧ AppendOwnEvent log e s = (Ok tt, s').
Proof.
  intros Hk. unfold SignAndAppend. rewrite decide_False by done. fold (stamped log ev now s).
  intros (e & s1 & [= Hs%wrap_Ok ->] & Hrun)%stM_bind_Ok.
  apply stM_bind_Ok in Hrun as ([] & s2 & Happ & Hrun).
  apply stM_bind_Ok in Hrun as (id' & s3 & [= _ ->] & [= _ _ <-]).
  exists e. split; [done|]. unfold wrapM in Happ. destruct (AppendOwnEvent log e s1) as [r s4].
  injection Happ as Hr%wrap_Ok <-. by rewrite Hr.
Qed.

Definition add_zen (kp : KeyPair) (d : made) : made := mkMade (md_zens d ++ [kp]) (md_posts d) (md_likes d).

Lemma t_follow kp d : valid_key kp →
  triple (inv d) (followLocal clock own (Identity kp)) (λ _, inv (add_zen kp d)).
Proof.
  intros Hkp g [] g' Hg Hrun. unfold followLocal in Hrun.
  apply stM_bind_Ok in Hrun as (pub & g1 & [= Hpub ->] & Hrun).
  rewrite valid_key_identity in Hpub by done. injection Hpub as <-.
  pose proof (valid_key_public _ Hkp) as Hlen. rewrite array32_id in Hrun by done.
  apply stM_bind_Ok in Hrun as (now & g2 & Hnow & Hrun).
  destruct (t_now d g1 now g2 Hg Hnow) as [Hg2 Hin].
  apply stM_bind_Ok in Hrun as (r & g3 & Hrun & [= <-]). unfold on_store in Hrun.
  destruct (Store_Follow own (kp_Public kp) now (g_store g2)) as [r' s] eqn:Hf. injection Hrun as -> <-.
  unfold Store_Follow in Hf. apply stM_bind_Ok in Hf as ([se0 id0] & s1 & Hsa & Hf).
  assert (e_Kind (follow_ev KindFollow (kp_Public kp)) ≠ KindLike) as Hk by done.
  destruct (SignAndAppend_inv _ _ _ _ _ _ _ _ Hk Hsa) as (se & Hsign & Happ).
  destruct (Sign_run own _ se Hown (wf_follow _ _ _ Hlen (header_now now _ Hin)) Hsign) as (Hev & Ha & Hver & Hwse).
  pose proof (gi_own _ _ _ Hg2) as Ho.
  destruct (AppendOwnEvent_inv _ _ _ _ (oi_ok _ _ _ Ho) Hwse Happ) as (id & p' & HID & -> & Hadds).
  apply stM_bind_Ok in Hf as ([] & s2 & Hput & [= _ <-]).
  unfold putFollowState, Update, wrapM in Hput. rewrite put_follow_ok in Hput by by apply identity_key_ok.
  injection Hput as <-.
  apply (step_store d (add_zen kp d) g2); try done.
  - cbn. apply Forall_app. split; [by destruct Hg2|by apply Forall_singleton].
  - eapply own_inv_follow; try done. split; by rewrite Hev.
  - cbn. by eapply adds_mono.
Qed.

(** ** The zens *)

Definition add_posts (ps : list postRef) (d : made) : made := mkMade (md_zens d) (md_posts d ++ ps) (md_likes d).

Lemma inv_post d p g : inv d g → placed own g p → length (pr_id p) = 32 → inv (add_posts [p] d) g.
Proof. intros [] Hp Hl. split; try done; cbn; apply Forall_app; (split; [done|]); by apply Forall_singleton. Qed.

Lemma no_likes d l : l = [] → mkMade (md_zens d) (md_posts d) (md_likes d ++ l) = d.
Proof. intros ->. rewrite app_nil_r. by destruct d. Qed.

Lemma t_crawled_plain se d : wf se = true → Verify se = Ok tt → e_Kind (se_Event se) ≠ KindLike →
  triple (inv d) (putCrawled se) (λ _ g, inv d g ∧
    ∃ r, r ∈ g_batch g ∧ row_author r = se_Author se ∧ ID se = Ok (row_id r)).
Proof.
  intros Hwf Hver Hk. eapply t_impl; [by apply t_crawled|done|]. intros [] g. rewrite no_likes; [done|].
  unfold like_target, like_of. by rewrite decide_False.
Qed.

Lemma t_zen_post base kp name i p d : valid_key kp → is_ascii name →
  triple (inv d) (zen_post base kp name i p) (λ q, inv (add_posts [q] d)).
Proof.
  intros Hkp Hname. unfold zen_post.
  eapply t_bind; [by apply t_text|]. intros text g q g' [Hg Htext] Hrun.
  apply stM_bind_Ok in Hrun as (se & g1 & Hs & Hrun). injection Hs as Hs%wrap_Ok ->.
  destruct (Sign_run kp _ se Hkp (wf_post _ _ _ Htext (header _ _)) Hs) as (Hev & Ha & Hver & Hwf).
  apply stM_bind_Ok in Hrun as ([] & g2 & Hput & Hrun).
  destruct (t_crawled_plain se d Hwf Hver ltac:(by rewrite Hev) g1 tt g2 Hg Hput) as [Hg2 (r & Hr & Har & HID)].
  apply stM_bind_Ok in Hrun as (id & g3 & Hid & [= <- <-]). injection Hid as Hid%wrap_Ok ->.
  apply inv_post; [done| |by eapply ID_length]. right. exists r. rewrite HID in Hid. injection Hid as <-.
  by rewrite Har, Ha.
Qed.

(** What [gen_zen] leaves for [zens] done in turn. *)
Definition zens_made (l : list (KeyPair * list postRef)) : made := mkMade l.*1 (mjoin l.*2) [].

Lemma t_gen_zen base per i l :
  triple (inv (zens_made l)) (gen_zen clock seeds base own per i) (λ z, inv (zens_made (l ++ [z]))).
Proof.
  unfold gen_zen. eapply t_bind; [apply t_key|]. intros kp g z g' [Hg Hkp] Hrun.
  apply stM_bind_Ok in Hrun as (se & g1 & Hs & Hrun). injection Hs as Hs%wrap_Ok ->.
  assert (wf (zen_profile (zenName i) (wrap_i64 (base + Z.of_nat i))) = true) as Hw.
  { apply (wf_profile _ (wrap_i64 (base + Z.of_nat i)) 1); [apply zenName_ascii|]. split; [apply wrap_i64_range|done]. }
  destruct (Sign_run kp _ se Hkp Hw Hs) as (Hev & Ha & Hver & Hwf).
  apply stM_bind_Ok in Hrun as ([] & g2 & Hput & Hrun).
  destruct (t_crawled_plain se _ Hwf Hver ltac:(by rewrite Hev) g1 tt g2 Hg Hput) as [Hg2 _].
  apply stM_bind_Ok in Hrun as ([] & g3 & Hfol & Hrun).
  apply (t_wrap _ _ _ _ (t_follow kp _ Hkp) g2 tt g3 Hg2) in Hfol.
  apply stM_bind_Ok in Hrun as (ps & g4 & Hps & [= <- <-]).
  assert (zens_made (l ++ [(kp, ps)]) = add_posts ps (add_zen kp (zens_made l))) as ->.
  { unfold zens_made, add_posts, add_zen. cbn. rewrite !fmap_app, join_app. cbn. by rewrite app_nil_r. }
  refine (t_collect (λ _ bs, inv (add_posts bs (add_zen kp (zens_made l)))) _ _ _ g3 ps g4 _ Hps).
  - intros xs x bs _. eapply t_impl; [by apply t_zen_post, zenName_ascii|done|]. intros q g5.
    unfold add_posts. cbn. by rewrite <-(assoc_L (++)).
  - unfold add_posts. cbn. rewrite app_nil_r. done.
Qed.

Lemma t_follow_us frac pub kp d : valid_key kp → length pub = 32 →
  triple (inv d) (follow_us clock frac pub kp) (λ _, inv d).
Proof.
  intros Hkp Hl. unfold follow_us. eapply t_bind; [apply t_rnd|]. intros x.
  destruct (flt x frac); [|by apply t_ret].
  eapply t_bind; [apply t_now|]. intros now g n g' [Hg Hin] Hrun.
  apply stM_bind_Ok in Hrun as (se & g1 & Hs & Hrun). injection Hs as Hs%wrap_Ok ->.
  destruct (Sign_run kp _ se Hkp (wf_follow pub now 2 Hl ltac:(done)) Hs) as (Hev & Ha & Hver & Hwf).
  apply stM_bind_Ok in Hrun as ([] & g2 & Hput & [= _ <-]).
  by destruct (t_crawled_plain se d Hwf Hver ltac:(by rewrite Hev) g1 tt g2 Hg Hput) as [Hg2 _].
Qed.

Lemma t_own_post base name p d : is_ascii name →
  triple (inv d) (own_post base own name p) (λ q, inv (add_posts [q] d)).
Proof.
  intros Hname. unfold own_post. eapply t_bind; [by apply t_text|]. intros text g q g' [Hg Htext] Hrun.
  apply stM_bind_Ok in Hrun as (se & g1 & Hs & Hrun). injection Hs as Hs%wrap_Ok ->.
  destruct (Sign_run own _ se Hown (wf_post _ _ _ Htext (header _ _)) Hs) as (Hev & Ha & Hver & Hwf).
  apply stM_bind_Ok in Hrun as ([] & g2 & Hput & Hrun).
  apply (t_wrap _ _ _ _ (t_append_post se d Hwf Hver Ha) g1 tt g2 Hg) in Hput as [Hg2 Hin].
  apply stM_bind_Ok in Hrun as (id & g3 & Hid & [= <- <-]). injection Hid as Hid%wrap_Ok ->.
  apply inv_post; [done| |by eapply ID_length]. left. split; [done|]. apply Hin; [|done].
  unfold like_of. by rewrite Hev.
Qed.

(** ** Likes and pins *)

Lemma t_draw fuel likers a d :
  triple (inv d) (draw_liker fuel likers a) (λ c g, inv d g ∧ c ∈ likers ∧ Identity c ≠ a).
Proof.
  induction fuel as [|fuel IH]; cbn [draw_liker]; [by apply t_lift|].
  eapply t_bind; [apply t_rnd|]. intros i. destruct (likers !! i) as [c|] eqn:Hc; [|by apply t_lift].
  case_decide as Ha; [exact IH|]. apply t_ret. intros g Hg. split_and!; [done| |done]. by eapply list_elem_of_lookup_2.
Qed.

(** The likes in the batch target posts that have been gone through, each at
    most once. *)
Definition liked (zens : list KeyPair) (posts seen : list postRef) (g : gen) : Prop :=
  ∃ ls, inv (mkMade zens posts ls) g ∧ ls `sublist_of` (pr_id <$> seen).

Lemma liked_skip zens posts seen p g : liked zens posts seen g → liked zens posts (seen ++ [p]) g.
Proof.
  intros (ls & Hg & Hsub). exists ls. split; [done|]. rewrite fmap_app. by apply sublist_inserts_r.
Qed.

Lemma t_like_post fuel frac p acc zens posts seen :
  Forall valid_key zens → p ∈ posts →
  triple (liked zens posts seen) (like_post clock fuel own (own :: zens) frac p acc)
    (λ _, liked zens posts (seen ++ [p])).
Proof.
  intros Hz Hp g res g' (ls & Hg & Hsub) Hrun. unfold like_post in Hrun.
  apply stM_bind_Ok in Hrun as (x & g1 & Hx & Hrun). apply (t_rnd _ _ _ _ _ Hg) in Hx.
  destruct (fle frac x). { injection Hrun as _ <-. apply liked_skip. by exists ls. }
  apply stM_bind_Ok in Hrun as (c & g2 & Hc & Hrun).
  apply (t_draw _ _ _ _ _ _ _ Hx) in Hc as (Hg2 & Hin & Hne).
  assert (valid_key c) as Hck.
  { apply elem_of_cons in Hin as [->|Hin]; [done|]. rewrite Forall_forall in Hz. by apply Hz. }
  apply stM_bind_Ok in Hrun as (now & g3 & Hnow & Hrun).
  apply (t_now _ _ _ _ Hg2) in Hnow as [Hg3 Hnow].
  apply stM_bind_Ok in Hrun as (se & g4 & Hs & Hrun). injection Hs as Hs%wrap_Ok ->.
  pose proof (gi_ids _ _ _ Hg3) as Hids. rewrite Forall_forall in Hids. specialize (Hids p Hp).
  destruct (Sign_run c _ se Hck (wf_like _ _ _ Hids (header_now _ _ Hnow)) Hs) as (Hev & Ha & Hver & Hwf).
  case_decide as Hown'.
  - apply stM_bind_Ok in Hrun as ([] & g5 & Happ & Hrun).
    apply (t_wrap _ _ _ _ (t_append_post se _ Hwf Hver ltac:(congruence)) _ _ _ Hg3) in Happ as [Hg5 _].
    apply stM_bind_Ok in Hrun as (s & g6 & [= _ ->] & [= _ <-]). apply liked_skip. by exists ls.
  - apply stM_bind_Ok in Hrun as ([] & g5 & Hput & [= _ <-]).
    apply (t_crawled se _ Hwf Hver _ _ _ Hg3) in Hput as [Hg5 _]. cbn in Hg5.
    assert (like_target se = Some (pr_id p)) as Hlt by (unfold like_target, like_of; by rewrite Hev).
    rewrite Hlt in Hg5. exists (ls ++ [pr_id p]). split; [done|]. rewrite fmap_app. by apply sublist_app.
Qed.

Lemma t_like_posts fuel frac zens posts acc rest seen :
  Forall valid_key zens → posts = seen ++ rest →
  triple (liked zens posts seen) (like_posts clock fuel own (own :: zens) frac rest acc) (λ _, liked zens posts posts).
Proof.
  intros Hz. revert seen acc. induction rest as [|p rest IH]; intros seen acc Hposts; cbn [like_posts].
  - apply t_ret. intros g. by rewrite Hposts, app_nil_r.
  - eapply t_bind; [apply (t_like_post fuel frac p acc zens posts seen); [done|rewrite Hposts; apply elem_of_app; right; left]|].
    intros acc'. apply IH. by rewrite Hposts, cons_middle, (assoc_L (++)).
Qed.

Lemma t_likes fuel frac zens posts :
  Forall valid_key zens →
  triple (inv (mkMade zens posts [])) (generateLikes clock fuel own zens posts frac) (λ _, liked zens posts posts).
Proof.
  intros Hz. unfold generateLikes. case_match.
  - apply t_ret. intros g Hg. exists []. split; [done|]. apply sublist_nil_l.
  - eapply t_impl; [by apply (t_like_posts fuel frac zens posts _ posts [])| |done].
    intros g Hg. exists []. split; [done|]. apply sublist_nil_l.
Qed.

Lemma t_pin frac kp d : valid_key kp →
  triple (λ g, inv d g ∧ flushed g) (pin_zen frac kp) (λ _ g, inv d g ∧ flushed g).
Proof.
  intros Hkp g n g' [Hg Hfl] Hrun. unfold pin_zen in Hrun.
  apply stM_bind_Ok in Hrun as (x & g1 & Hx & Hrun).
  assert (flushed g1) as Hfl1.
  { unfold Float64, on_rnd in Hx. destruct (rnd_Float64 (g_rnd g)). by injection Hx as _ <-. }
  apply (t_rnd _ _ _ _ _ Hg) in Hx. destruct (fle frac x); [by injection Hrun as _ <-|].
  apply stM_bind_Ok in Hrun as ([] & g2 & Hpin & [= _ <-]).
  unfold wrapM, on_store in Hpin.
  rewrite PinIdentity_spec in Hpin by by apply identity_key_ok, valid_key_public.
  pose proof (gi_own _ _ _ Hx) as Ho. destruct (IsFollowed (Identity kp) (g_store g1)) eqn:Hf; [|done].
  injection Hpin as <-.
  destruct (set_flags (Identity kp) (mkFollowState true true) (g_store g1)) as [[Hsame Hfo] Hpins]; [done|done|].
  set (s' := set_follow _ _) in *. split; [|exact Hfl1]. apply (step_store d d g1); try done; [by destruct Hx|].
  destruct Ho. split; unfold own_follows, own_profile, own_ok in *; rewrite ?Hsame; try done.
  - intros i. by rewrite Hfo.
  - by apply Hpins.
Qed.

Lemma t_pins frac zens d : Forall valid_key zens →
  triple (λ g, inv d g ∧ flushed g) (generatePins zens frac) (λ _ g, inv d g ∧ flushed g).
Proof.
  intros Hz. rewrite Forall_forall in Hz. unfold generatePins. case_match; [by apply t_ret|].
  apply (t_bind _ _ (λ _ g, inv d g ∧ flushed g)); [|intros; by apply t_ret].
  apply (t_collect (λ _ _ g, inv d g ∧ flushed g)).
  intros _ kp _ Hkp. by apply t_pin, Hz.
Qed.
End runs.

Section generate.
Context `{BoltLaws, Blake3, !Blake3Laws, Ed25519, !Ed25519Laws, Aead, GoRange, !GoRangeLaws, Rand}.
Context `{CborText, !CborTextLaws, !CborType EncryptedKey}.
Context `{!CborType Event, !CborType SignedEvent, !CborLaws Event, !CborLaws SignedEvent}.
Context (clock : nat → Z) (seeds : nat → bytes).
Context (Hclock : ∀ n, in_i64 (clock n)) (Hseeds : ∀ n, length (seeds n) = 32).

(** ** The whole run *)

Lemma InitIdentity_same kp ek s s' : InitIdentity kp ek s = (Ok tt, s') →
  bucketOwn s' = bucketOwn s ∧ bucketCrawl s' = bucketCrawl s ∧ bucketFollowState s' = bucketFollowState s.
Proof.
  unfold InitIdentity, Update, put_meta, put_key, put_in, wrapM, lift, mbind, stM_bind.
  repeat case_match; intros; simplify_eq; done.
Qed.

Lemma start_inv own s r n k : valid_key own →
  bucketOwn s = bucketOwn empty_store → bucketCrawl s = bucketCrawl empty_store →
  bucketFollowState s = bucketFollowState empty_store →
  gen_inv own (mkMade [] [] []) (mkGen s [] r n k).
Proof.
  intros Hk Ho Hc Hf. split; cbn; try done.
  - apply (same_own own [] empty_store); [done..|].
    split; unfold own_follows, pins_ok, IsPinned, IsFollowed; try done.
    + apply empty_own_ok.
    + intros m j e. by rewrite empty_own_view, lookup_empty.
    + rewrite empty_own_view. apply one_like_empty.
    + intros j e. by rewrite empty_own_view, lookup_empty.
    + rewrite empty_own_view, map_size_empty. lia.
    + intros _ kp []%not_elem_of_nil.
    + intros i. unfold getFollowState. cbn. rewrite bk_get_new. cbn. split; [done|]. intros (kp & []%not_elem_of_nil & _).
    + intros i. unfold getFollowState. cbn. by rewrite bk_get_new.
  - apply (same_crawl [] [] empty_store); [done|]. split.
    + exists []. by split; [constructor|].
    + intros m b. cbn. by rewrite bk_get_new.
    + intros a j e. unfold subview. cbn. by rewrite bk_get_new.
Qed.

Lemma collect_Forall {A B} (P : B → Prop) (l : list A) (f : A → stM gen B) g out g' :
  (∀ x g b g', f x g = (Ok b, g') → P b) → collect l f g = (Ok out, g') → Forall P out ∧ length out = length l.
Proof.
  intros Hf. revert g out. induction l as [|x l IH]; intros g out; cbn [collect]; [by intros [= <- <-]|].
  intros (b & g1 & Hb & Hrun)%stM_bind_Ok. apply stM_bind_Ok in Hrun as (bs & g2 & Hbs & [= <- <-]).
  apply IH in Hbs as [? ?]. split; [|cbn; by f_equal]. constructor; [by eapply Hf|done].
Qed.

Lemma gen_zen_length base own per i g z g' :
  gen_zen clock seeds base own per i g = (Ok z, g') → length z.2 = per.
Proof.
  unfold gen_zen. do 4 (intros (? & ? & _ & Hrun)%stM_bind_Ok; revert Hrun).
  intros (ps & g2 & Hps & [= <- <-])%stM_bind_Ok.
  apply (collect_Forall (λ _, True)) in Hps as [_ Hl]; [|done]. cbn. by rewrite Hl, length_seq.
Qed.

Lemma length_mjoin {A} (l : list (list A)) k : Forall (λ x, length x = k) l → length (mjoin l) = length l * k.
Proof.
  induction 1 as [|x l Hx _ IH]; [done|].
  change (mjoin (x :: l)) with (x ++ mjoin l). by rewrite length_app, Hx, IH.
Qed.

(** What a run that succeeds has made. *)
Definition made_as_asked (f : flags) (rep : report) : Prop :=
  length (r_remotes rep) = Z.to_nat (nZens f) ∧
  length (r_posts rep) = Z.to_nat (nZens f) * Z.to_nat (postsPer f) + Z.to_nat (ownPosts f).

Lemma generate_run fuel f salt nonce start r rep g :
  is_ascii (ownName f) →
  generate clock seeds fuel f salt nonce start (mkGen empty_store [] r 0 0) = (Ok rep, g) →
  liked (r_own rep) (r_remotes rep) (r_posts rep) (r_posts rep) g ∧ flushed g ∧ made_as_asked f rep.
Proof.
  intros Hname Hrun. unfold generate in Hrun.
  apply stM_bind_Ok in Hrun as (own & g1 & Hkey & Hrun). injection Hkey as Hkey <-.
  assert (valid_key own) as Hown by (subst own; by eexists). clear Hkey.
  apply stM_bind_Ok in Hrun as (ek & g2 & Hek & Hrun). injection Hek as _ <-.
  apply stM_bind_Ok in Hrun as ([] & g3 & Hinit & Hrun). unfold wrapM, on_store in Hinit. cbn [g_store] in Hinit.
  destruct (InitIdentity own ek empty_store) as [ri s] eqn:Hi. injection Hinit as Hri%wrap_Ok <-. subst ri.
  destruct (InitIdentity_same _ _ _ _ Hi) as (Ho & Hc & Hf).
  apply stM_bind_Ok in Hrun as (pub & g4 & Hpub & Hrun). injection Hpub as Hpub%wrap_Ok <-.
  rewrite valid_key_identity in Hpub by done. injection Hpub as <-.
  rewrite array32_id in Hrun by by apply valid_key_public.
  apply stM_bind_Ok in Hrun as ([] & g5 & Hprof & Hrun).
  apply (t_wrap _ _ _ _ (t_profile clock Hclock own Hown _ (mkMade [] [] []) Hname eq_refl)) in Hprof as Hg5;
    [|split; [by apply start_inv|cbn; rewrite Ho; apply empty_own_view]].
  apply stM_bind_Ok in Hrun as (zens & g6 & Hzens & Hrun).
  assert (Forall (λ z, length z.2 = Z.to_nat (postsPer f)) zens ∧ length zens = Z.to_nat (nZens f)) as [Hper Hlen].
  { rewrite <-(length_seq (Z.to_nat (nZens f)) 0). eapply collect_Forall, Hzens. intros *. apply gen_zen_length. }
  apply (t_collect (λ _ l, gen_inv own (zens_made l))) in Hzens as Hg6; [|intros; by apply t_gen_zen|done].
  pose proof (gi_keys _ _ _ Hg6) as Hz. cbn in Hz.
  apply stM_bind_Ok in Hrun as (fs & g7 & Hfs & Hrun).
  apply (t_collect (λ _ _, gen_inv own (zens_made zens))) in Hfs as Hg7; [| |done].
  2: { intros _ kp _ Hkp. rewrite Forall_forall in Hz. apply t_follow_us; [done|by apply Hz|by apply valid_key_public]. }
  apply stM_bind_Ok in Hrun as ([] & g8 & Hflush & Hrun). apply (t_flush own) with (d := zens_made zens) in Hflush as [Hg8 _]; [|done].
  apply stM_bind_Ok in Hrun as (mine & g9 & Hmine & Hrun).
  assert (length mine = Z.to_nat (ownPosts f)) as Hmlen.
  { apply (collect_Forall (λ _, True)) in Hmine as [_ Hl]; [|done]. by rewrite Hl, length_seq. }
  apply (t_collect (λ _ l, gen_inv own (add_posts l (zens_made zens)))) in Hmine as Hg9.
  2: { intros xs p ps _. eapply t_impl; [by apply (t_own_post own Hown)|done|]. intros q h. unfold add_posts. cbn.
       by rewrite <-(assoc_L (++)). }
  2: { unfold add_posts. cbn. by rewrite app_nil_r. }
  unfold add_posts in Hg9. cbn [zens_made md_zens md_posts md_likes] in Hg9.
  apply stM_bind_Ok in Hrun as (likes & g10 & Hlikes & Hrun).
  apply (t_likes clock Hclock own Hown _ _ _ _ Hz _ _ _ Hg9) in Hlikes as (ls & Hg10 & Hsub).
  apply stM_bind_Ok in Hrun as ([] & g11 & Hflush2 & Hrun).
  apply (t_flush own) with (d := mkMade zens.*1 (mjoin zens.*2 ++ mine) ls) in Hflush2 as Hg11; [|done].
  apply stM_bind_Ok in Hrun as (pins & g12 & Hpins & [= <- <-]).
  apply (t_pins own _ _ _ Hz _ _ _ Hg11) in Hpins as [Hg12 Hfl]. split_and!; [by exists ls|done|split; cbn].
  - by rewrite length_fmap.
  - rewrite length_app, Hmlen, (length_mjoin _ (Z.to_nat (postsPer f))); [by rewrite length_fmap, Hlen|].
    by apply Forall_fmap.
Qed.
End generate.
