(* ===== verification/StoreQuery.v ===== *)
(** * Queries across logs

    Models the read-only queries of [internal/store/store.go] that combine the
    user's own logs, the follow graph and the crawl cache: received followers,
    the merged timeline, outbound interaction counts and the like lookup. *)

From S2P Require Import Prelude Base32 External Identity Event Log Bolt Store StoreFollow.
#[local] Open Scope go_scope.

Section queries.
Context `{Bolt, Blake3, Ed25519, order : GoRange}.
Context `{!CborType Event, !CborType SignedEvent}.

(** ** Scans *)

(** Every event of the crawl cache that decodes, author by author. *)
Definition crawl_scan (s : store) : list SignedEvent :=
  mjoin ((λ p, (decodable p.2).*2) <$> bk_foreach (bucketCrawl s)).

(** The values of one of the user's own logs. *)
Definition own_bucket (log : bytes) (s : store) : list (bytes * bytes) :=
  from_option bk_foreach [] (bk_get (bucketOwn s) log).

(** ** Followers *)

Definition own_pubkey (s : store) : result bytes :=
  match Store_Identity s with
  | None => Err (E "no local identity set")
  | Some ownID => pub ← wrap "own identity" (PubkeyBytes ownID); Ok (array32 pub)
  end.

Definition follows_me (ownArr : bytes) (se : SignedEvent) : bool :=
  bool_decide (e_Kind (se_Event se) = KindFollow) &&
  match e_Follow (se_Event se) with
  | Some fl => bool_decide (TargetPubkey fl = ownArr)
  | None => false
  end.

Definition ReceivedFollowers (s : store) : result (list bytes) :=
  ownArr ← own_pubkey s;
  let seen := list_to_set (C := gset bytes)
    (se_Author <$> filter (λ se, follows_me ownArr se = true) (crawl_scan s)) in
  Ok (range_set seen).

Definition ReceivedFollowEvents (s : store) : result (list SignedEvent) :=
  ownArr ← own_pubkey s;
  Ok (filter (λ se, follows_me ownArr se = true) (crawl_scan s)).

(** ** The merged timeline *)

Definition in_post_log (se : SignedEvent) : Prop := e_Log (se_Event se) = PostLog.
#[global] Instance in_post_log_dec se : Decision (in_post_log se) := decide (_ = _).

(** [for _, id := range identities { ... own = append(own, ...) }]. *)
Fixpoint append_posts (read : bytes → result (list SignedEvent)) (ids : list bytes)
    (own : list SignedEvent) : result (list SignedEvent) :=
  match ids with
  | [] => Ok own
  | id :: ids =>
      events ← read id;
      append_posts read ids (own ++ filter in_post_log events)
  end.

Definition AllPosts (s : store) : result (list SignedEvent) :=
  own ← OwnEvents PostLog s;
  identities ← FollowGraph s;
  append_posts (λ id, CrawledEvents id s) identities own.

Definition AllPostsOneTx (s : store) : result (list SignedEvent) :=
  out ← decode_all "decode own event" (own_bucket PostLog s);
  follows ← match bk_get (bucketOwn s) ProfileLog with
            | Some profBucket =>
                profEvents ← decode_all "decode profile event" (bk_foreach profBucket);
                Ok (IdentityFromPubkey <$> range_set (FollowSet profEvents))
            | None => Ok []
            end;
  append_posts (λ id, match bk_get (bucketCrawl s) id with
                      | None => Ok []
                      | Some authorBucket =>
                          decode_all "decode crawled event" (bk_foreach authorBucket)
                      end) follows out.

(** ** Outbound interactions *)

(** [authors[id] = se.Author] for a list of keyed events. *)
Definition index_authors (l : list (bytes * SignedEvent)) (authors : gmap bytes bytes)
    : gmap bytes bytes :=
  foldl (λ m p, <[array32 p.1 := se_Author p.2]> m) authors l.

(** The keyed events of an own log, or the error of the first that does not
    decode. *)
Fixpoint decode_keyed (m : string) (l : list (bytes * bytes))
    : result (list (bytes * SignedEvent)) :=
  match l with
  | [] => Ok []
  | (k, v) :: l =>
      se ← wrap m (decode_event v);
      out ← decode_keyed m l;
      Ok ((k, se) :: out)
  end.

(** The crawled posts of one followed key, in the crawl bucket of its
    identity. *)
Definition followed_posts (s : store) (target : bytes) : list (bytes * SignedEvent) :=
  match bk_get (bucketCrawl s) (IdentityFromPubkey target) with
  | None => []
  | Some authorBucket => filter (λ p, in_post_log p.2) (decodable authorBucket)
  end.

Definition author_index (s : store) : result (gmap bytes bytes) :=
  own ← decode_keyed "decode own event" (own_bucket PostLog s);
  profEvents ← decode_all "decode profile event" (own_bucket ProfileLog s);
  Ok (foldl (λ m t, index_authors (followed_posts s t) m) (index_authors own ∅)
        (range_set (FollowSet profEvents))).

(** [out[author]++] for every event whose reference resolves. *)
Definition count_step (authors : gmap bytes bytes) (ref : SignedEvent → option bytes)
    (out : gmap bytes Z) (se : SignedEvent) : gmap bytes Z :=
  match ref se with
  | None => out
  | Some id =>
      match authors !! id with
      | None => out
      | Some author => <[author := (default 0 (out !! author) + 1)%Z]> out
      end
  end.

(** The parent a reply names. *)
Definition reply_ref (se : SignedEvent) : option bytes :=
  match e_Post (se_Event se) with
  | Some p => if EventID_IsZero (ParentID p) then None else Some (ParentID p)
  | None => None
  end.

(** The post a like names. *)
Definition like_ref (se : SignedEvent) : option bytes :=
  if decide (e_Kind (se_Event se) = KindLike) then like_TargetID <$> e_Like (se_Event se)
  else None.

Definition OutboundReplies (s : store) : result (gmap bytes Z) :=
  authors ← author_index s;
  own ← decode_all "decode own event" (own_bucket PostLog s);
  Ok (foldl (count_step authors reply_ref) ∅ own).

Definition OutboundLikes (s : store) : result (gmap bytes Z) :=
  authors ← author_index s;
  own ← decode_all "decode own event" (own_bucket PostLog s);
  Ok (foldl (count_step authors like_ref) ∅ own).

(** ** Likes of given posts *)

Definition likes_one_of (wanted : gset bytes) (se : SignedEvent) : bool :=
  match like_ref se with Some id => bool_decide (id ∈ wanted) | None => false end.

Definition LikesForPosts (targetIDs : list bytes) (s : store) : result (list SignedEvent) :=
  let wanted := list_to_set (C := gset bytes) targetIDs in
  own ← decode_all "decode own event" (own_bucket PostLog s);
  Ok (filter (λ se, likes_one_of wanted se = true) own ++
      filter (λ se, likes_one_of wanted se = true) (crawl_scan s)).

End queries.
