(* ===== verification/StoreQueryFacts.v ===== *)
(** * What the queries compute

    On well-formed buckets every query of [StoreQuery.v] succeeds; this file
    gives the lists and counts it returns. *)

From S2P Require Import Prelude Base32 External Identity Event Log Bolt Store StoreFacts StoreFollow StoreFollowFacts StoreQuery.
#[local] Open Scope go_scope.

Section facts.
Context `{BoltLaws, Blake3, !Blake3Laws, Ed25519, GoRange, !GoRangeLaws}.
Context `{!CborType Event, !CborType SignedEvent}.

(** Own logs and crawl cache are well formed. *)
Definition all_ok (s : store) : Prop := own_ok s ∧ subs_ok (bucketCrawl s).

Definition own_posts (s : store) : list SignedEvent := subevents (bucketOwn s) PostLog.
Definition posts_of (s : store) (id : bytes) : list SignedEvent :=
  filter in_post_log (subevents (bucketCrawl s) id).

Lemma decode_own_bucket m log s :
  own_ok s → decode_all m (own_bucket log s) = Ok (subevents (bucketOwn s) log).
Proof.
  intros Hok. unfold own_bucket, subevents.
  destruct (bk_get (bucketOwn s) log) as [b|] eqn:Hb; [|done].
  apply decode_all_ok. by eapply Hok.
Qed.

Lemma decode_own_keyed m log s :
  own_ok s → decode_keyed m (own_bucket log s) =
    Ok (from_option decodable [] (bk_get (bucketOwn s) log)).
Proof.
  intros Hok. unfold own_bucket.
  destruct (bk_get (bucketOwn s) log) as [b|] eqn:Hb; [|done]. apply Hok in Hb. cbn.
  unfold decodable.
  assert (∀ k v, (k, v) ∈ bk_foreach b → is_Ok (decode_event v)) as Hd.
  { intros k v Hin%bk_foreach_get. destruct (Hb _ _ Hin) as (se & -> & _). by eexists. }
  induction (bk_foreach b) as [|[k v] l IH]; [done|]. cbn.
  destruct (Hd k v ltac:(left)) as [se ->]. cbn.
  rewrite IH; [done|]. intros. eapply Hd. by right.
Qed.

(** ** The timeline *)

Lemma append_posts_ok read f ids own :
  (∀ id, read id = Ok (f id)) →
  append_posts read ids own = Ok (own ++ mjoin ((λ id, filter in_post_log (f id)) <$> ids)).
Proof.
  intros Hread. revert own. induction ids as [|id ids IH]; intros own; cbn.
  - by rewrite app_nil_r.
  - rewrite Hread. cbn. rewrite IH. by rewrite <-(assoc_L (++)).
Qed.

Lemma FollowGraph_ok s :
  own_ok s → FollowGraph s = Ok (IdentityFromPubkey <$> range_set (own_follows s)).
Proof. intros Hok. unfold FollowGraph, OwnEvents. by rewrite log_events_subevents. Qed.

Definition timeline (s : store) (ids : list bytes) : list SignedEvent :=
  own_posts s ++ mjoin (posts_of s <$> ids).

Lemma AllPosts_ok s :
  all_ok s → AllPosts s = Ok (timeline s (IdentityFromPubkey <$> range_set (own_follows s))).
Proof.
  intros [Hown Hcrawl]. unfold AllPosts, OwnEvents.
  rewrite log_events_subevents, FollowGraph_ok by done. cbn.
  by rewrite (append_posts_ok _ (subevents (bucketCrawl s)))
    by (intros; by apply log_events_subevents).
Qed.

Lemma range_set_empty : range_set ∅ = [].
Proof. apply Permutation_nil_r. by rewrite range_set_elements, elements_empty. Qed.

Lemma AllPostsOneTx_ok s :
  all_ok s → AllPostsOneTx s = Ok (timeline s (IdentityFromPubkey <$> range_set (own_follows s))).
Proof.
  intros [Hown Hcrawl]. unfold AllPostsOneTx. rewrite decode_own_bucket by done.
  assert (∀ id, match bk_get (bucketCrawl s) id with
                | None => Ok []
                | Some b => decode_all "decode crawled event" (bk_foreach b)
                end = Ok (subevents (bucketCrawl s) id)) as Hread.
  { intros id. unfold subevents. destruct (bk_get (bucketCrawl s) id) as [b|] eqn:Hb; [|done].
    apply decode_all_ok. by eapply Hcrawl. }
  unfold timeline, own_follows, own_profile. unfold subevents at 2.
  destruct (bk_get (bucketOwn s) ProfileLog) as [b|] eqn:Hb.
  - rewrite decode_all_ok by by eapply Hown. cbn.
    by rewrite (append_posts_ok _ _ _ _ Hread).
  - cbn [from_option mbind result_bind]. rewrite (append_posts_ok _ _ _ _ Hread).
    change (FollowSet []) with (∅ : gset bytes). by rewrite range_set_empty.
Qed.

Lemma elem_of_timeline s ids se :
  se ∈ timeline s ids ↔
  se ∈ own_posts s ∨ ∃ id, id ∈ ids ∧ in_post_log se ∧ se ∈ subevents (bucketCrawl s) id.
Proof.
  unfold timeline, posts_of. rewrite elem_of_app, list_elem_of_join.
  setoid_rewrite list_elem_of_fmap. split.
  - intros [?|(l & Hin & id & -> & Hid)]; [by left|]. right. exists id.
    by rewrite list_elem_of_filter in Hin.
  - intros [?|(id & Hid & Hp & Hin)]; [by left|]. right.
    exists (posts_of s id). split; [by apply list_elem_of_filter|]. by exists id.
Qed.

Lemma timeline_perm s ids ids' : ids ≡ₚ ids' → timeline s ids ≡ₚ timeline s ids'.
Proof. intros Hp. unfold timeline. by rewrite Hp. Qed.

(** ** Followers *)

Lemma elem_of_crawl_scan s se :
  se ∈ crawl_scan s ↔ ∃ id, se ∈ subevents (bucketCrawl s) id.
Proof.
  unfold crawl_scan. rewrite list_elem_of_join. setoid_rewrite list_elem_of_fmap. split.
  - intros (l & Hse & [id b] & -> & Hin%bk_foreach_get). exists id.
    unfold subevents. by rewrite Hin.
  - intros [id Hin]. unfold subevents in Hin.
    destruct (bk_get (bucketCrawl s) id) as [b|] eqn:Hb; [|by apply not_elem_of_nil in Hin].
    exists (decodable b).*2. split; [done|]. exists (id, b). by rewrite bk_foreach_get.
Qed.

Lemma elem_of_ReceivedFollowEvents s me l se :
  own_pubkey s = Ok me → ReceivedFollowEvents s = Ok l →
  se ∈ l ↔ (∃ id, se ∈ subevents (bucketCrawl s) id) ∧ follows_me me se = true.
Proof.
  intros Hme. unfold ReceivedFollowEvents. rewrite Hme. cbn. intros [= <-].
  rewrite list_elem_of_filter, elem_of_crawl_scan. tauto.
Qed.

Lemma elem_of_ReceivedFollowers s me l a :
  own_pubkey s = Ok me → ReceivedFollowers s = Ok l →
  a ∈ l ↔ ∃ se id, se ∈ subevents (bucketCrawl s) id ∧ follows_me me se = true ∧ se_Author se = a.
Proof.
  intros Hme. unfold ReceivedFollowers. rewrite Hme. cbn. intros [= <-].
  rewrite elem_of_range_set, elem_of_list_to_set, list_elem_of_fmap.
  setoid_rewrite list_elem_of_filter. setoid_rewrite elem_of_crawl_scan. naive_solver.
Qed.

(** ** Counting references *)

(** The reference of [se] resolves to the author [a]. *)
Definition resolves (authors : gmap bytes bytes) (ref : SignedEvent → option bytes) (a : bytes)
    (se : SignedEvent) : Prop := (id ← ref se; authors !! id) = Some a.
#[global] Instance resolves_dec authors ref a se : Decision (resolves authors ref a se) :=
  decide (_ = _).

Lemma count_foldl authors ref l out a :
  default 0%Z (foldl (count_step authors ref) out l !! a) =
  (default 0 (out !! a) + Z.of_nat (length (filter (resolves authors ref a) l)))%Z.
Proof.
  revert out. induction l as [|se l IH]; intros out; cbn [foldl]; [cbn; lia|].
  rewrite IH, filter_cons. unfold count_step.
  assert (resolves authors ref a se ↔ (id ← ref se; authors !! id) = Some a) as Hres by done.
  destruct (ref se) as [id|] eqn:Hr; cbn [mbind option_bind] in *.
  - destruct (authors !! id) as [b|] eqn:Ha.
    + rewrite lookup_insert. destruct (decide (b = a)) as [->|Hne].
      * rewrite (decide_True (P := resolves _ _ _ _)) by by apply Hres.
        cbn [from_option length]. rewrite Nat2Z.inj_succ. cbv [Datatypes.id]. lia.
      * by rewrite (decide_False (P := resolves _ _ _ _)) by (rewrite Hres; congruence).
    + by rewrite (decide_False (P := resolves _ _ _ _)) by by rewrite Hres.
  - by rewrite (decide_False (P := resolves _ _ _ _)) by by rewrite Hres.
Qed.

(** ** The author index *)

Lemma lookup_index_authors l m id :
  index_authors l m !! id =
  match last (omap (λ p, if decide (array32 p.1 = id) then Some (se_Author p.2) else None) l) with
  | Some a => Some a
  | None => m !! id
  end.
Proof.
  unfold index_authors. induction l as [|p l IH] using rev_ind; [done|].
  rewrite foldl_app. cbn. rewrite lookup_insert, omap_app. cbn.
  destruct (decide (array32 p.1 = id)) as [Hid|Hid]; [by rewrite last_snoc|].
  by rewrite app_nil_r, IH.
Qed.

Lemma index_authors_source l m id a :
  index_authors l m !! id = Some a →
  (∃ p, p ∈ l ∧ array32 p.1 = id ∧ se_Author p.2 = a) ∨ m !! id = Some a.
Proof.
  rewrite lookup_index_authors. destruct (last _) as [b|] eqn:Hl; [|by right].
  intros [= ->]. left. apply last_Some_elem_of, list_elem_of_omap in Hl as (p & Hp & Hq).
  case_decide; [|done]. injection Hq as <-. by exists p.
Qed.

Lemma index_authors_total l m id :
  (∃ p, p ∈ l ∧ array32 p.1 = id) ∨ is_Some (m !! id) → is_Some (index_authors l m !! id).
Proof.
  rewrite lookup_index_authors. intros Hor.
  destruct (last _) as [b|] eqn:Hl; [by eexists|]. destruct Hor as [(p & Hp & Hid)|]; [|done].
  apply last_None in Hl.
  assert (se_Author p.2 ∈ omap (λ p : bytes * SignedEvent,
    if decide (array32 p.1 = id) then Some (se_Author p.2) else None) l) as Hin.
  { apply list_elem_of_omap. exists p. by rewrite decide_True. }
  rewrite Hl in Hin. by apply not_elem_of_nil in Hin.
Qed.

(** The events held under a key and the authors they name: the user's own
    posts and those of everyone followed. *)
Definition held_list (s : store) : list (bytes * SignedEvent) :=
  from_option decodable [] (bk_get (bucketOwn s) PostLog) ++
  mjoin (followed_posts s <$> range_set (own_follows s)).
Definition held (s : store) (id a : bytes) : Prop :=
  ∃ p, p ∈ held_list s ∧ array32 p.1 = id ∧ se_Author p.2 = a.

Lemma author_index_ok s :
  own_ok s → ∃ idx, author_index s = Ok idx ∧
    (∀ id a, idx !! id = Some a → held s id a) ∧
    (∀ id a, held s id a → is_Some (idx !! id)).
Proof.
  intros Hok. unfold author_index. rewrite decode_own_keyed, decode_own_bucket by done. cbn.
  fold (own_profile s). fold (own_follows s). eexists. split; [done|].
  unfold held, held_list. set (own := from_option _ _ _).
  assert (∀ ts m, foldl (λ m t, index_authors (followed_posts s t) m) m ts =
                  index_authors (mjoin (followed_posts s <$> ts)) m) as Hjoin.
  { induction ts as [|t ts IH]; intros m; [done|]. cbn [foldl]. rewrite IH. cbn.
    unfold index_authors. by rewrite foldl_app. }
  rewrite Hjoin. split.
  - intros id a [(p & Hp & ?)|Ha]%index_authors_source; [exists p; set_solver|].
    apply index_authors_source in Ha as [(p & Hp & ?)|Ha]; [exists p; set_solver|].
    by rewrite lookup_empty in Ha.
  - intros id a (p & [Hp|Hp]%elem_of_app & Hid & _); apply index_authors_total.
    + right. apply index_authors_total. left. by exists p.
    + left. by exists p.
Qed.

(** An ID names one author among the events held. *)
Definition unambiguous (s : store) : Prop :=
  ∀ id a b, held s id a → held s id b → a = b.

#[global] Instance held_dec s id a : Decision (held s id a).
Proof.
  refine (dec_iff (P := Exists (λ p, array32 p.1 = id ∧ se_Author p.2 = a) (held_list s)) _).
  apply Exists_exists.
Defined.

(** The reference of [se] names an event held by [a]. *)
Definition refers_to (s : store) (ref : SignedEvent → option bytes) (a : bytes)
    (se : SignedEvent) : Prop :=
  match ref se with Some id => held s id a | None => False end.
#[global] Instance refers_to_dec s ref a se : Decision (refers_to s ref a se).
Proof. unfold refers_to. destruct (ref se); apply _. Defined.

Lemma resolves_refers s idx ref a se :
  unambiguous s → (∀ id a, idx !! id = Some a → held s id a) →
  (∀ id a, held s id a → is_Some (idx !! id)) →
  resolves idx ref a se ↔ refers_to s ref a se.
Proof.
  intros Hun H1' H2'. unfold resolves, refers_to. destruct (ref se) as [id|]; cbn; [|done].
  split; [apply H1'|]. intros Hh. destruct (H2' _ _ Hh) as [b Hb]. rewrite Hb. f_equal.
  eapply Hun; [by apply H1'|done].
Qed.

(** ** Likes *)

Lemma LikesForPosts_ok ids s :
  own_ok s → ∃ l, LikesForPosts ids s = Ok l ∧
    ∀ se, se ∈ l ↔ (∃ id, like_ref se = Some id ∧ id ∈ ids) ∧
      (se ∈ own_posts s ∨ ∃ a, se ∈ subevents (bucketCrawl s) a).
Proof.
  intros Hok. unfold LikesForPosts. rewrite decode_own_bucket by done. cbn.
  eexists. split; [done|]. intros se.
  rewrite elem_of_app, !list_elem_of_filter, elem_of_crawl_scan. fold (own_posts s).
  assert (likes_one_of (list_to_set ids) se = true ↔ ∃ id, like_ref se = Some id ∧ id ∈ ids) as ->.
  { unfold likes_one_of. destruct (like_ref se) as [id|]; [|naive_solver].
    rewrite bool_decide_eq_true, elem_of_list_to_set. naive_solver. }
  tauto.
Qed.
End facts.
