(* ===== verification/Wire.v ===== *)
(** * Wire messages and framing

    Models [internal/sync/sync.go]: the message envelope and its payloads, the
    length-prefixed framing, and the byte stream it runs over. *)

From S2P Require Import Prelude Base32 External Identity Event Store.
#[local] Open Scope go_scope.

(** ** Messages *)

Definition MsgRequest : Z := 1.
Definition MsgEvents : Z := 2.
Definition MsgDone : Z := 3.
Definition MsgReverse : Z := 4.
Definition MsgZens : Z := 5.
Definition MsgHello : Z := 6.
Definition MsgAuth : Z := 7.
Definition MsgFollowers : Z := 8.
Definition MsgLikeRequest : Z := 9.

Record Request := mkRequest { req_Log : bytes; req_AfterTime : Z; req_Author : bytes }.
Record Events := mkEvents { Items : list SignedEvent }.
Record Done := mkDone {}.
Record ZenRef := mkZenRef { zr_Token : bytes; zr_Identity : bytes; zr_Name : bytes }.
(** A nil slice and an empty one are both []: the code never tells them
    apart. *)
Record Zens := mkZens { Tokens : list bytes; zens_Items : list ZenRef }.
Record LikeRequest := mkLikeRequest { TargetIDs : list bytes }.
Record Hello := mkHello { h_Identity : bytes; h_Nonce : bytes }.
Record Auth := mkAuth { auth_Signature : bytes }.

Record Message := mkMessage {
  m_Kind : Z;
  m_Request : option Request;
  m_Events : option Events;
  m_Done : option Done;
  m_Zens : option Zens;
  m_Hello : option Hello;
  m_Auth : option Auth;
  m_LikeRequest : option LikeRequest;
}.

#[export] Instance Request_eq_dec : EqDecision Request. Proof. solve_decision. Defined.
#[export] Instance Events_eq_dec : EqDecision Events. Proof. solve_decision. Defined.
#[export] Instance Done_eq_dec : EqDecision Done. Proof. solve_decision. Defined.
#[export] Instance ZenRef_eq_dec : EqDecision ZenRef. Proof. solve_decision. Defined.
#[export] Instance Zens_eq_dec : EqDecision Zens. Proof. solve_decision. Defined.
#[export] Instance LikeRequest_eq_dec : EqDecision LikeRequest. Proof. solve_decision. Defined.
#[export] Instance Hello_eq_dec : EqDecision Hello. Proof. solve_decision. Defined.
#[export] Instance Auth_eq_dec : EqDecision Auth. Proof. solve_decision. Defined.
#[export] Instance Message_eq_dec : EqDecision Message. Proof. solve_decision. Defined.

#[export] Instance Message_wf `{CborText} : WellFormed Message := λ m,
  bool_decide (0 ≤ m_Kind m < 256)%Z
  && opt_all (λ r, cbor_text (req_Log r) && bool_decide (- 2 ^ 63 ≤ req_AfterTime r < 2 ^ 63)%Z
                   && cbor_text (req_Author r)) (m_Request m)
  && opt_all (λ e, forallb (λ se : SignedEvent, wf se) (Items e)) (m_Events m)
  && opt_all (λ z, forallb cbor_text (Tokens z)
                   && forallb (λ r, cbor_text (zr_Token r) && cbor_text (zr_Identity r)
                                    && cbor_text (zr_Name r)) (zens_Items z)) (m_Zens m)
  && opt_all (λ h, cbor_text (h_Identity h) && is_hash (h_Nonce h)) (m_Hello m)
  && opt_all (λ q, forallb is_hash (TargetIDs q)) (m_LikeRequest m).

(** An envelope with no payload. *)
Definition bare (kind : Z) : Message := mkMessage kind None None None None None None None.

Definition NewRequest (log : bytes) (after : Z) (author : bytes) : Message :=
  mkMessage MsgRequest (Some (mkRequest log after author)) None None None None None None.
Definition NewEvents (items : list SignedEvent) : Message :=
  mkMessage MsgEvents None (Some (mkEvents items)) None None None None None.
Definition NewDone : Message :=
  mkMessage MsgDone None None (Some mkDone) None None None None.
Definition NewReverse : Message := bare MsgReverse.
Definition NewZens (refs : list ZenRef) : Message :=
  mkMessage MsgZens None None None (Some (mkZens (zr_Token <$> refs) refs)) None None None.
Definition NewHello (id nonce : bytes) : Message :=
  mkMessage MsgHello None None None None (Some (mkHello id nonce)) None None.
Definition NewAuth (sig : bytes) : Message :=
  mkMessage MsgAuth None None None None None (Some (mkAuth sig)) None.
Definition NewFollowers : Message := bare MsgFollowers.
Definition NewLikeRequest (targetIDs : list bytes) : Message :=
  mkMessage MsgLikeRequest None None None None None None (Some (mkLikeRequest targetIDs)).

(** ** The byte stream

    [rx] is everything the peer will have sent, after which a read fails with
    [rx_end] ([EOF] when the peer closed). [tx] is what was written; when
    [tx_room] is [Some n] the writer accepts [n] more bytes and then fails. *)

Record conn := mkConn { rx : bytes; rx_end : error; tx : bytes; tx_room : option nat }.

Definition set_rx (r : bytes) (c : conn) : conn := mkConn r (rx_end c) (tx c) (tx_room c).
Definition set_tx (t : bytes) (room : option nat) (c : conn) : conn :=
  mkConn (rx c) (rx_end c) t room.

(** [w.Write(data)]. *)
Definition Write (data : bytes) : stM conn unit := λ c,
  match tx_room c with
  | None => (Ok tt, set_tx (tx c ++ data) None c)
  | Some n =>
      if length data <=? n then (Ok tt, set_tx (tx c ++ data) (Some (n - length data)) c)
      else (Err (E "io: write on closed connection"), set_tx (tx c ++ take n data) (Some 0) c)
  end.

(** [io.ReadFull(r, buf)] with [len(buf) = n > 0]. *)
Definition ReadFull (n : nat) : stM conn bytes := λ c,
  if n <=? length (rx c) then (Ok (take n (rx c)), set_rx (drop n (rx c)) c)
  else match rx c, rx_end c with
       | _ :: _, EOF => (Err ErrUnexpectedEOF, set_rx [] c)
       | _, e => (Err e, set_rx [] c)
       end.

(** ** Framing *)

Definition maxFrameSize : Z := 16 * 1024 * 1024.

(** [binary.BigEndian.PutUint32(hdr, uint32(n))]. *)
Definition be32 (v : Z) : bytes :=
  (λ i, byte_of (Z.to_N (Z.shiftr v (8 * Z.of_nat i) mod 256))) <$> [3; 2; 1; 0].

Section framing.
Context `{!CborType Message}.

Definition WriteMsg (msg : Message) : stM conn unit :=
  data ← wrapM "encode" (lift (CanonicalEncode msg));
  if (maxFrameSize <? Z.of_nat (length data))%Z then lift (Err (E "message too large"))
  else
    _ ← wrapM "write header" (Write (be32 (Z.of_nat (length data))));
    wrapM "write body" (Write data).

Definition ReadMsg : stM conn Message :=
  hdr ← wrapM "read header" (ReadFull 4);
  let n := from_be hdr in
  if (n =? 0)%Z then lift (Err (E "empty message"))
  else if (maxFrameSize <? n)%Z then lift (Err (E "message too large"))
  else
    buf ← wrapM "read body" (ReadFull (Z.to_nat n));
    wrapM "decode" (lift (CanonicalDecode buf)).
End framing.

(** ** Facts about framing *)

Lemma be32_length v : length (be32 v) = 4.
Proof. done. Qed.

Lemma from_be_be32 v : (0 ≤ v < 2 ^ 32)%Z → from_be (be32 v) = v.
Proof.
  intros [H0 H1]. unfold be32, from_be. cbn [fmap list_fmap foldl].
  assert (∀ n, Z.of_N (Byte.to_N (byte_of (Z.to_N (Z.shiftr v (8 * n) mod 256)))) =
               (Z.shiftr v (8 * n) mod 256)%Z) as Hd.
  { intros n. pose proof (Z.mod_pos_bound (Z.shiftr v (8 * n)) 256 ltac:(lia)).
    rewrite to_N_byte_of_small by lia. lia. }
  rewrite !Hd, !Z.shiftr_div_pow2 by lia.
  change (2 ^ (8 * Z.of_nat 3))%Z with 16777216%Z.
  change (2 ^ (8 * Z.of_nat 2))%Z with 65536%Z.
  change (2 ^ (8 * Z.of_nat 1))%Z with 256%Z.
  change (2 ^ (8 * Z.of_nat 0))%Z with 1%Z.
  change (2 ^ 32)%Z with 4294967296%Z in H1.
  Z.to_euclidean_division_equations. lia.
Qed.

Lemma ReadFull_Ok n c b c' :
  ReadFull n c = (Ok b, c') ↔ n ≤ length (rx c) ∧ b = take n (rx c) ∧ c' = set_rx (drop n (rx c)) c.
Proof.
  unfold ReadFull. destruct (Nat.leb_spec n (length (rx c))) as [Hle|Hgt].
  - split; [intros [= <- <-]; done|]. by intros (_ & -> & ->).
  - split; [|lia]. destruct (rx c); [done|]. by destruct (rx_end c).
Qed.

(** A read shortens what is left and touches nothing else. *)
Lemma ReadFull_frame n c r c' :
  ReadFull n c = (r, c') → ∃ k, c' = set_rx (drop k (rx c)) c.
Proof.
  unfold ReadFull. destruct (Nat.leb_spec n (length (rx c))).
  - intros [= <- <-]. by exists n.
  - exists (length (rx c)). rewrite drop_all. destruct (rx c); [by simplify_eq/=|].
    destruct (rx_end c); by simplify_eq/=.
Qed.

Section framing_facts.
Context `{CborText, !CborType Message, !CborLaws Message}.

(** The bytes of a message on the wire. *)
Definition frame (data : bytes) : bytes := be32 (Z.of_nat (length data)) ++ data.

#[global] Arguments frame : simpl never.

Definition sendable (msg : Message) (data : bytes) : Prop :=
  CanonicalEncode msg = Ok data ∧ (Z.of_nat (length data) ≤ maxFrameSize)%Z.

Lemma WriteMsg_Ok msg data c :
  sendable msg data → tx_room c = None →
  WriteMsg msg c = (Ok tt, set_tx (tx c ++ frame data) None c).
Proof.
  intros [Henc Hsize] Hroom. unfold WriteMsg, wrapM, lift, mbind, stM_bind. rewrite Henc. cbn [wrap].
  destruct (Z.ltb_spec maxFrameSize (Z.of_nat (length data))); [lia|].
  unfold Write at 1. rewrite Hroom. cbn [wrap]. unfold Write. cbn [tx_room set_tx tx wrap].
  unfold frame. by rewrite (assoc_L (++)).
Qed.

Lemma ReadMsg_frame msg data rest c :
  wf msg = true → sendable msg data → rx c = frame data ++ rest →
  ReadMsg c = (Ok msg, set_rx rest c).
Proof.
  intros Hwf [Henc Hsize] Hrx. unfold ReadMsg, wrapM, lift, mbind, stM_bind.
  destruct (CanonicalEncode_ok msg Hwf) as (data' & Henc' & Hne).
  rewrite Henc in Henc'. injection Henc' as <-.
  assert (0 < length data) as Hpos by (destruct data; [done|cbn; lia]).
  assert (rx c = be32 (Z.of_nat (length data)) ++ (data ++ rest)) as Hrx'
    by (rewrite Hrx; unfold frame; by rewrite (assoc_L (++))).
  rewrite (proj2 (ReadFull_Ok 4 c (be32 (Z.of_nat (length data))) (set_rx (data ++ rest) c))).
  2:{ rewrite Hrx'. rewrite take_app_length', drop_app_length' by done.
      split_and!; [rewrite length_app, be32_length; lia|done|done]. }
  cbn [wrap]. unfold maxFrameSize in Hsize.
  rewrite from_be_be32 by lia.
  destruct (Z.eqb_spec (Z.of_nat (length data)) 0); [lia|].
  destruct (Z.ltb_spec maxFrameSize (Z.of_nat (length data))); [unfold maxFrameSize in *; lia|].
  rewrite Nat2Z.id.
  rewrite (proj2 (ReadFull_Ok (length data) (set_rx (data ++ rest) c) data (set_rx rest c))).
  2:{ cbn [rx set_rx]. rewrite length_app, take_app_length, drop_app_length. split_and!; [lia|done|done]. }
  cbn [wrap]. by rewrite (CanonicalDecode_Encode msg data).
Qed.

Lemma ReadMsg_frame_len msg c c' :
  ReadMsg c = (Ok msg, c') →
  ∃ n, 4 < n ∧ (Z.of_nat n ≤ 4 + maxFrameSize)%Z ∧ n ≤ length (rx c) ∧
       c' = set_rx (drop n (rx c)) c ∧ wf msg = true.
Proof.
  unfold ReadMsg, wrapM, lift. intros Hrun.
  apply stM_bind_Ok in Hrun as (hdr & c1 & Hh & Hrun).
  destruct (ReadFull 4 c) as [r1 c1'] eqn:Hr1. injection Hh as Hw <-. apply wrap_Ok in Hw. subst r1.
  apply ReadFull_Ok in Hr1 as (Hlen & -> & ->).
  destruct (Z.eqb_spec (from_be (take 4 (rx c))) 0) as [|Hn0]; [done|].
  destruct (Z.ltb_spec maxFrameSize (from_be (take 4 (rx c)))) as [|Hmax]; [done|].
  assert (0 ≤ from_be (take 4 (rx c)))%Z as Hpos.
  { unfold from_be. generalize (take 4 (rx c)). intros l.
    assert (∀ acc, 0 ≤ acc → 0 ≤ foldl (λ acc c, acc * 256 + Z.of_N (Byte.to_N c)) acc l)%Z as Hf.
    { induction l as [|x l IH]; intros acc Hacc; [done|]. cbn. apply IH. lia. }
    by apply Hf. }
  apply stM_bind_Ok in Hrun as (buf & c2 & Hb & Hrun).
  destruct (ReadFull _ _) as [r2 c2'] eqn:Hr2. injection Hb as Hw <-. apply wrap_Ok in Hw. subst r2.
  apply ReadFull_Ok in Hr2 as (Hlen2 & -> & ->).
  injection Hrun as Hd <-. apply wrap_Ok in Hd. cbn [rx set_rx] in *.
  rewrite length_drop in Hlen2.
  exists (4 + Z.to_nat (from_be (take 4 (rx c)))). split_and!; [lia|lia|lia| |].
  - unfold set_rx. cbn. by rewrite drop_drop.
  - by apply CanonicalDecode_wf in Hd.
Qed.

(** An error shortens the input or leaves it, and changes nothing else. *)
Lemma ReadMsg_frames r c c' : ReadMsg c = (r, c') → ∃ k, c' = set_rx (drop k (rx c)) c.
Proof.
  unfold ReadMsg, wrapM, lift, mbind, stM_bind.
  destruct (ReadFull 4 c) as [r1 c1] eqn:Hr1.
  destruct (ReadFull_frame _ _ _ _ Hr1) as [k1 ->].
  destruct r1 as [hdr|e]; cbn [wrap]; [|destruct e; intros [= <- <-]; by exists k1].
  destruct (_ =? 0)%Z; [intros [= <- <-]; by exists k1|].
  destruct (_ <? _)%Z; [intros [= <- <-]; by exists k1|].
  destruct (ReadFull _ (set_rx _ c)) as [r2 c2] eqn:Hr2.
  destruct (ReadFull_frame _ _ _ _ Hr2) as [k2 ->]. cbn [rx set_rx].
  rewrite drop_drop.
  destruct r2 as [buf|e]; cbn [wrap]; [|destruct e]; intros [= <- <-]; by exists (k1 + k2).
Qed.
End framing_facts.

(** ** Serializers of the toy codec *)

Module ToyWire.
Import Toy ToyEvent.

#[export] Instance ser_Request : Toy.Ser Request :=
  via (λ r, (req_Log r, req_AfterTime r, req_Author r)) (λ '(l, t, a), mkRequest l t a)
    ltac:(by intros []).
#[export] Instance ser_Events : Toy.Ser Events := via Items mkEvents ltac:(by intros []).
#[export] Instance ser_Done : Toy.Ser Done :=
  via (λ _, @nil byte) (λ _, mkDone) ltac:(by intros []).
#[export] Instance ser_ZenRef : Toy.Ser ZenRef :=
  via (λ r, (zr_Token r, zr_Identity r, zr_Name r)) (λ '(t, i, n), mkZenRef t i n)
    ltac:(by intros []).
#[export] Instance ser_Zens : Toy.Ser Zens :=
  via (λ z, (Tokens z, zens_Items z)) (λ '(t, i), mkZens t i) ltac:(by intros []).
#[export] Instance ser_LikeRequest : Toy.Ser LikeRequest :=
  via TargetIDs mkLikeRequest ltac:(by intros []).
#[export] Instance ser_Hello : Toy.Ser Hello :=
  via (λ h, (h_Identity h, h_Nonce h)) (λ '(i, n), mkHello i n) ltac:(by intros []).
#[export] Instance ser_Auth : Toy.Ser Auth := via auth_Signature mkAuth ltac:(by intros []).
#[export] Instance ser_Message : Toy.Ser Message :=
  via (λ m, (m_Kind m, m_Request m, m_Events m, m_Done m, m_Zens m, m_Hello m, m_Auth m,
             m_LikeRequest m))
    (λ '(k, r, e, d, z, h, a, q), mkMessage k r e d z h a q) ltac:(by intros []).
End ToyWire.
