(* ===== verification/Session.v ===== *)
(** * Sync sessions

    Models [internal/sync/session.go]: the server's answers, the client's
    fetches, and the bidirectional session with its handshake, pulls, cursors
    and zen exchange. *)

From S2P Require Import Prelude Base32 External Identity Event Log Bolt Store StoreFollow StoreQuery Wire.
#[local] Open Scope go_scope.

(** [errors.Is(err, io.EOF) || errors.Is(err, io.ErrUnexpectedEOF)]. *)
Definition is_eof (e : error) : bool := error_is e EOF || error_is e ErrUnexpectedEOF.

(** Consecutive slices of at most 64 events. *)
Definition batchSize : nat := 64.
Fixpoint batches_fuel (fuel : nat) (l : list SignedEvent) : list (list SignedEvent) :=
  match fuel, l with
  | S n, _ :: _ => take batchSize l :: batches_fuel n (drop batchSize l)
  | _, _ => []
  end.
Definition batches (l : list SignedEvent) : list (list SignedEvent) := batches_fuel (length l) l.

(** [cursorSkewWindow.Nanoseconds()]: five minutes. *)
Definition cursorSkewWindow : Z := 5 * 60 * 1000000000.

(** Prefers Items, falls back to bare tokens. *)
Definition zensFromMsg (msg : Message) : list ZenRef :=
  match m_Zens msg with
  | None => []
  | Some z =>
      match zens_Items z with
      | _ :: _ => zens_Items z
      | [] => (λ tok, mkZenRef tok [] []) <$> Tokens z
      end
  end.

Section session.
Context `{Bolt, Blake3, Ed25519}.
Context `{!CborType Event, !CborType SignedEvent, !CborType Message}.

(** The state of whoever runs the session, reached only through callbacks. *)
Context {D : Type}.

(** ** State *)

Record world := mkWorld {
  w_store : store;
  w_conn : conn;
  w_env : D;
  w_cursorZen : bytes;
}.

Definition set_store (s : store) (w : world) : world :=
  mkWorld s (w_conn w) (w_env w) (w_cursorZen w).
Definition set_conn (c : conn) (w : world) : world :=
  mkWorld (w_store w) c (w_env w) (w_cursorZen w).
Definition set_cursorZen (z : bytes) (w : world) : world :=
  mkWorld (w_store w) (w_conn w) (w_env w) z.
Definition set_world_env (sd : store * D) (w : world) : world :=
  mkWorld sd.1 (w_conn w) sd.2 (w_cursorZen w).

(** The session's configuration: every callback may be nil. *)
Record callbacks := mkCallbacks {
  cb_key : option KeyPair;
  cb_zens : option (store → D → list ZenRef);
  cb_onZen : option (ZenRef → store → D → store * D);
  cb_onAuthed : option (bytes → store → D → store * D);
  cb_onMerge : option (SignedEvent → bool → store → D → store * D);
  cb_cursorSource : option (bytes → bytes → store → D → result Z);
  cb_cursorSink : option (bytes → bytes → Z → store → D → result unit * (store * D));
}.

Definition on_conn {A} (m : stM conn A) : stM world A := λ w,
  let '(r, c) := m (w_conn w) in (r, set_conn c w).
Definition on_store {A} (m : stM store A) : stM world A := λ w,
  let '(r, s) := m (w_store w) in (r, set_store s w).
(** The result of a call as a value, for a goroutine awaited later. *)
Definition attempt {S A} (m : stM S A) : stM S (result A) := λ s,
  let '(r, s) := m s in (Ok r, s).

(** ** The read loop

    [for { msg, err := ReadMsg(r); if err != nil { return ... }; switch ... }]:
    [body] either goes on with a new accumulator or returns. Each message
    consumes more than four bytes of what is left to read, so the length of
    the input is enough fuel ([read_loop_total] in SessionFacts.v). *)
Fixpoint read_loop {Acc R} (fuel : nat) (body : Acc → Message → world → (Acc + R) * world)
    (on_err : Acc → error → world → R * world) (acc : Acc) (w : world) : option R * world :=
  match fuel with
  | O => (None, w)
  | S n =>
      match ReadMsg (w_conn w) with
      | (Err e, c) => let '(r, w) := on_err acc e (set_conn c w) in (Some r, w)
      | (Ok msg, c) =>
          match body acc msg (set_conn c w) with
          | (inl acc, w) => read_loop n body on_err acc w
          | (inr r, w) => (Some r, w)
          end
      end
  end.

Definition loop {Acc R} (out_of_fuel : R) (body : Acc → Message → world → (Acc + R) * world)
    (on_err : Acc → error → world → R * world) (acc : Acc) (w : world) : R * world :=
  let '(r, w') := read_loop (S (length (rx (w_conn w)))) body on_err acc w in
  (default out_of_fuel r, w').

(** Returned by no loop: see [read_loop_total]. *)
Definition no_fuel {A} : result A := Err (Panic "out of fuel").

(** ** Server *)

Definition filterAfterTime (events : list SignedEvent) (after : Z) : list SignedEvent :=
  filter (λ se, (after < e_Timestamp (se_Event se))%Z) (SortedByTime events).

Definition fetchOwnEvents (req : Request) (s : store) : result (list SignedEvent) :=
  all ← OwnEvents (req_Log req) s;
  Ok (filter (λ se, (req_AfterTime req < e_Timestamp (se_Event se))%Z) (SortedByTime all)).

Definition fetchEvents (req : Request) (s : store) : result (list SignedEvent) :=
  if decide (req_Author req = []) then fetchOwnEvents req s
  else if decide (Store_Identity s = Some (req_Author req)) then fetchOwnEvents req s
  else
    cached ← CrawledEvents (req_Author req) s;
    let cached := match cached with
                  | [] => CrawledProfiles (req_Author req) s
                  | _ => cached
                  end in
    Ok (filterAfterTime cached (req_AfterTime req)).

(** Events in batches, then Done. *)
Definition send_events (m : string) (events : list SignedEvent) : stM conn unit :=
  _ ← forM_ (batches events) (λ b, wrapM m (WriteMsg (NewEvents b)));
  WriteMsg NewDone.

Definition handleRequest (req : option Request) : stM world unit := λ w,
  match req with
  | None => (Err (E "request message missing payload"), w)
  | Some req =>
      match fetchEvents req (w_store w) with
      | Err e => (Err e, w)
      | Ok events => on_conn (send_events "write events" events) w
      end
  end.

Definition handleFollowers : stM world unit := λ w,
  match ReceivedFollowEvents (w_store w) with
  | Err e => (Err (Wrap "fetch followers" e), w)
  | Ok events => on_conn (send_events "write followers" events) w
  end.

Definition handleLikeRequest (req : option LikeRequest) : stM world unit := λ w,
  match req with
  | None => (Err (E "like request missing payload"), w)
  | Some req =>
      match LikesForPosts (TargetIDs req) (w_store w) with
      | Err e => (Err (Wrap "fetch likes" e), w)
      | Ok events => on_conn (send_events "write likes" events) w
      end
  end.

(** The answer to the three requests; [None] for any other kind. *)
Definition answer (msg : Message) : option (stM world unit) :=
  if decide (m_Kind msg = MsgRequest) then Some (handleRequest (m_Request msg))
  else if decide (m_Kind msg = MsgFollowers) then Some handleFollowers
  else if decide (m_Kind msg = MsgLikeRequest) then Some (handleLikeRequest (m_LikeRequest msg))
  else None.

Definition Serve_body (_ : unit) (msg : Message) (w : world) : (unit + result unit) * world :=
  match answer msg with
  | Some h => match h w with
              | (Ok _, w) => (inl tt, w)
              | (Err e, w) => (inr (Err e), w)
              end
  | None => if decide (m_Kind msg = MsgDone) then (inr (Ok tt), w) else (inl tt, w)
  end.

Definition Serve_err (_ : unit) (e : error) (w : world) : result unit * world :=
  (if is_eof e then Ok tt else Err (Wrap "read msg" e), w).

Definition Serve : world → result unit * world := loop no_fuel Serve_body Serve_err tt.

(** ** Client *)

(** The loop of [SyncLogRaw], [FetchFollowers] and [FetchLikes]: collect the
    events that verify until Done or end of stream; what was collected is
    returned with an error too. *)
Definition verified (items : list SignedEvent) : list SignedEvent :=
  filter (λ se, Verify se = Ok tt) items.

Definition collect_body (out : list SignedEvent) (msg : Message) (w : world)
    : (list SignedEvent + (list SignedEvent * result unit)) * world :=
  if decide (m_Kind msg = MsgEvents) then
    match m_Events msg with
    | None => (inl out, w)
    | Some evs => (inl (out ++ verified (Items evs)), w)
    end
  else if decide (m_Kind msg = MsgDone) then (inr (out, Ok tt), w)
  else (inl out, w).

(** What a loop returns when the stream ends or breaks: [EOF] is no error. *)
Definition read_stop {Acc} (acc : Acc) (e : error) (w : world) : (Acc * result unit) * world :=
  ((acc, if is_eof e then Ok tt else Err (Wrap "read msg" e)), w).

Definition collect : world → (list SignedEvent * result unit) * world :=
  loop ([], no_fuel) collect_body read_stop [].

Definition SyncLogRaw (log : bytes) (after : Z) (author : bytes) (w : world)
    : (list SignedEvent * result unit) * world :=
  match wrapM "write request" (on_conn (WriteMsg (NewRequest log after author))) w with
  | (Err e, w) => (([], Err e), w)
  | (Ok _, w) => collect w
  end.

Definition FetchFollowers (w : world) : (list SignedEvent * result unit) * world :=
  match wrapM "write followers request" (on_conn (WriteMsg NewFollowers)) w with
  | (Err e, w) => (([], Err e), w)
  | (Ok _, w) => collect w
  end.

Definition FetchLikes (targetIDs : list bytes) (w : world)
    : (list SignedEvent * result unit) * world :=
  match wrapM "write like request" (on_conn (WriteMsg (NewLikeRequest targetIDs))) w with
  | (Err e, w) => (([], Err e), w)
  | (Ok _, w) => collect w
  end.

(** [Client.mergeEvent]: [ownID] is empty when no identity is set. *)
Definition own_id (s : store) : bytes := default [] (Store_Identity s).

Definition Client_mergeEvent (se : SignedEvent) (s : store) : (bool * result unit) * store :=
  if decide (se_Author se = own_id s) then
    let '(r, s) := AppendOwnEvent (e_Log (se_Event se)) se s in ((true, r), s)
  else PutCrawledEvent se s.

(** Merged count of a list, failures logged and skipped. *)
Fixpoint merge_all (events : list SignedEvent) (merged : nat) (s : store) : nat * store :=
  match events with
  | [] => (merged, s)
  | se :: events =>
      match Client_mergeEvent se s with
      | ((inserted, Ok _), s) => merge_all events (if inserted then S merged else merged) s
      | ((_, Err _), s) => merge_all events merged s
      end
  end.

Definition SyncLog (log : bytes) (after : Z) (author : bytes) (w : world)
    : (nat * result unit) * world :=
  match SyncLogRaw log after author w with
  | ((_, Err e), w) => ((0, Err e), w)
  | ((events, Ok _), w) =>
      let '(merged, s) := merge_all events 0 (w_store w) in
      ((merged, Ok tt), set_store s w)
  end.

(** ** Session *)

Context (cb : callbacks).

(** [Session.mergeEvent]: the callback sees every outcome. *)
Definition Session_mergeEvent (se : SignedEvent) (w : world) : (bool * result unit) * world :=
  let '((inserted, r), s) :=
    (if decide (se_Author se = own_id (w_store w)) then
       let '(r, s) := AppendOwnEvent (e_Log (se_Event se)) se (w_store w) in ((true, r), s)
     else PutCrawledEvent se (w_store w)) in
  let w := set_store s w in
  ((inserted, r),
   match cb_onMerge cb with
   | Some f => set_world_env (f se inserted (w_store w) (w_env w)) w
   | None => w
   end).

Definition advanceCursor (log : bytes) (prevAfter maxTS : Z) (w : world) : world :=
  if decide (w_cursorZen w = []) then w
  else match cb_cursorSink cb with
       | None => w
       | Some sink =>
           if (maxTS =? 0)%Z then w
           else
             let c := wrap_i64 (maxTS - cursorSkewWindow) in
             let c := if (c <? prevAfter)%Z then prevAfter else c in
             let '(_, sd) := sink (w_cursorZen w) log c (w_store w) (w_env w) in
             set_world_env sd w
       end.

(** One received event of a pull: [acc] is [merged] and [maxTS]. *)
Definition pull_item (acc : nat * Z) (se : SignedEvent) (w : world) : (nat * Z) * world :=
  match Verify se with
  | Err _ => (acc, w)
  | Ok _ =>
      match Session_mergeEvent se w with
      | ((_, Err _), w) => (acc, w)
      | ((inserted, Ok _), w) =>
          ((if inserted then S acc.1 else acc.1,
            if (acc.2 <? e_Timestamp (se_Event se))%Z then e_Timestamp (se_Event se) else acc.2), w)
      end
  end.

Fixpoint pull_items (items : list SignedEvent) (acc : nat * Z) (w : world) : (nat * Z) * world :=
  match items with
  | [] => (acc, w)
  | se :: items => let '(acc, w) := pull_item acc se w in pull_items items acc w
  end.

(** The timestamp the request carries. *)
Definition pull_after (log : bytes) (after : Z) (author : bytes) (w : world) : Z :=
  if decide (author = [] ∧ w_cursorZen w ≠ []) then
    match cb_cursorSource cb with
    | None => after
    | Some source =>
        match source (w_cursorZen w) log (w_store w) (w_env w) with
        | Ok c => if (after <? c)%Z then c else after
        | Err _ => after
        end
    end
  else after.

Definition pull_body (log : bytes) (after : Z) (acc : nat * Z) (msg : Message) (w : world)
    : ((nat * Z) + (nat * result unit)) * world :=
  if decide (m_Kind msg = MsgEvents) then
    match m_Events msg with
    | None => (inl acc, w)
    | Some evs => let '(acc, w) := pull_items (Items evs) acc w in (inl acc, w)
    end
  else if decide (m_Kind msg = MsgDone) then
    (inr (acc.1, Ok tt), advanceCursor log after acc.2 w)
  else (inl acc, w).

Definition pull_err (log : bytes) (after : Z) (acc : nat * Z) (e : error) (w : world)
    : (nat * result unit) * world :=
  if is_eof e then ((acc.1, Ok tt), advanceCursor log after acc.2 w)
  else ((acc.1, Err (Wrap "read msg" e)), w).

Definition pull_loop (log : bytes) (after : Z) : world → (nat * result unit) * world :=
  loop (0, no_fuel) (pull_body log after) (pull_err log after) (0, 0%Z).

Definition pullLog (log : bytes) (after : Z) (author : bytes) (w : world)
    : (nat * result unit) * world :=
  let after := pull_after log after author w in
  match wrapM "write request" (on_conn (WriteMsg (NewRequest log after author))) w with
  | (Err e, w) => ((0, Err e), w)
  | (Ok _, w) => pull_loop log after w
  end.

Definition serve_body (served : nat) (msg : Message) (w : world)
    : (nat + (nat * result unit)) * world :=
  match answer msg with
  | Some h => match h w with
              | (Ok _, w) => (inl (S served), w)
              | (Err e, w) => (inr (served, Err e), w)
              end
  | None =>
      if decide (m_Kind msg = MsgReverse ∨ m_Kind msg = MsgDone) then (inr (served, Ok tt), w)
      else (inl served, w)
  end.

Definition serve : world → (nat * result unit) * world :=
  loop (0, no_fuel) serve_body read_stop 0.

(** [for _, ref := range zensFromMsg(msg) { s.onZen(ref) }]. *)
Definition learn (msg : Message) (w : world) : world :=
  match cb_onZen cb with
  | None => w
  | Some f => foldl (λ w ref, set_world_env (f ref (w_store w) (w_env w)) w) w (zensFromMsg msg)
  end.

Definition own_refs (w : world) : list ZenRef :=
  match cb_zens cb with Some f => f (w_store w) (w_env w) | None => [] end.

(** The accumulator is [served] and [sentZens]. *)
Definition swz_body (acc : nat * bool) (msg : Message) (w : world)
    : ((nat * bool) + (nat * result unit)) * world :=
  let '(served, sentZens) := acc in
  match answer msg with
  | Some h => match h w with
              | (Ok _, w) => (inl (S served, sentZens), w)
              | (Err e, w) => (inr (served, Err e), w)
              end
  | None =>
      if decide (m_Kind msg = MsgZens) then
        let w := learn msg w in
        if sentZens then (inl (served, sentZens), w)
        else match wrapM "write zens" (on_conn (WriteMsg (NewZens (own_refs w)))) w with
             | (Ok _, w) => (inl (served, true), w)
             | (Err e, w) => (inr (served, Err e), w)
             end
      else if decide (m_Kind msg = MsgReverse) then (inr (served, Ok tt), w)
      else if decide (m_Kind msg = MsgDone) then (inr (served, Ok tt), w)
      else (inl (served, sentZens), w)
  end.

Definition serveWithZens : world → (nat * result unit) * world :=
  loop (0, no_fuel) swz_body (λ acc, read_stop acc.1) (0, false).

Definition zens_body (_ : unit) (msg : Message) (w : world) : (unit + result unit) * world :=
  if decide (m_Kind msg = MsgZens) then (inr (Ok tt), learn msg w) else (inl tt, w).

Definition exchangeZens (w : world) : result unit * world :=
  match wrapM "write zens" (on_conn (WriteMsg (NewZens (own_refs w)))) w with
  | (Err e, w) => (Err e, w)
  | (Ok _, w) =>
      loop no_fuel zens_body (λ _ e w, (Err (Wrap "read zens" e), w)) tt w
  end.

(** *** Handshake

    [nonce] is what [randNonce] returns. A goroutine writes while the
    handshake reads; reading and writing act on different halves of the
    connection, so writing first gives the same outcome. *)

Definition expect_hello (msg : Message) : result Hello :=
  match m_Hello msg with
  | Some h => if decide (m_Kind msg = MsgHello) then Ok h else Err (E "handshake: expected hello")
  | None => Err (E "handshake: expected hello")
  end.

Definition expect_auth (msg : Message) : result Auth :=
  match m_Auth msg with
  | Some a => if decide (m_Kind msg = MsgAuth) then Ok a else Err (E "handshake: expected auth")
  | None => Err (E "handshake: expected auth")
  end.

Definition authed (zenID : bytes) (w : world) : world :=
  let w := set_cursorZen zenID w in
  match cb_onAuthed cb with
  | Some f => set_world_env (f zenID (w_store w) (w_env w)) w
  | None => w
  end.

Definition Handshake (nonce : result bytes) : stM world bytes :=
  match cb_key cb with
  | None => mret []
  | Some key =>
      ourNonce ← wrapM "handshake nonce" (lift nonce);
      writeErr ← attempt (on_conn (WriteMsg (NewHello (Identity key) ourNonce)));
      zenHello ← wrapM "read hello" (on_conn ReadMsg);
      _ ← wrapM "write hello" (lift writeErr);
      hello ← lift (expect_hello zenHello);
      let zenID := h_Identity hello in
      zenPub ← wrapM "zen identity" (lift (PubkeyBytes zenID));
      sig ← lift (ed25519_Sign (kp_Private key) (h_Nonce hello));
      writeErr ← attempt (on_conn (WriteMsg (NewAuth sig)));
      zenAuth ← wrapM "read auth" (on_conn ReadMsg);
      _ ← wrapM "write auth" (lift writeErr);
      auth ← lift (expect_auth zenAuth);
      ok ← lift (ed25519_Verify zenPub ourNonce (auth_Signature auth));
      if negb ok then lift (Err (E "handshake: zen signature verification failed"))
      else λ w, (Ok zenID, authed zenID w)
  end.

(** *** The two roles *)

(** [for _, lg := range []core.LogName{PostLog, ProfileLog}]. *)
Fixpoint pull_logs (logs : list bytes) (merged : nat) (w : world) : (nat * result unit) * world :=
  match logs with
  | [] => ((merged, Ok tt), w)
  | lg :: logs =>
      match pullLog lg 0 [] w with
      | ((_, Err e), w) => ((merged, Err e), w)
      | ((n, Ok _), w) => pull_logs logs (merged + n) w
      end
  end.

Definition RunInitiator (nonce : result bytes) (w : world) : (nat * result unit) * world :=
  match Handshake nonce w with
  | (Err e, w) => ((0, Err e), w)
  | (Ok _, w) =>
      match pull_logs [PostLog; ProfileLog] 0 w with
      | ((merged, Err e), w) => ((merged, Err e), w)
      | ((merged, Ok _), w) =>
          match exchangeZens w with
          | (Err e, w) => ((merged, Err e), w)
          | (Ok _, w) =>
              match wrapM "write reverse" (on_conn (WriteMsg NewReverse)) w with
              | (Err e, w) => ((merged, Err e), w)
              | (Ok _, w) =>
                  match serve w with
                  | ((_, Err e), w) => ((merged, Err e), w)
                  | ((n, Ok _), w) => ((merged + n, Ok tt), w)
                  end
              end
          end
      end
  end.

Definition RunListener (nonce : result bytes) (w : world) : (nat * result unit) * world :=
  match Handshake nonce w with
  | (Err e, w) => ((0, Err e), w)
  | (Ok _, w) =>
      match serveWithZens w with
      | ((_, Err e), w) => ((0, Err e), w)
      | ((n, Ok _), w) => pull_logs [PostLog; ProfileLog] n w
      end
  end.
End session.
Arguments world {_} _.
Arguments callbacks {_} _.
