(* ===== verification/SessionFacts.v ===== *)
(** * Sync sessions: loops, transcripts, invariants

    The read loops of [Session.v] terminate; [loop_runs] is their big-step
    semantics. [wire] gives the bytes of a list of messages, over which the
    phases of a session are computed; the last part is the invariant rule for
    what a peer can make a session store. *)

From S2P Require Import Prelude Base32 External Identity Event Log Bolt Store StoreFollow StoreQuery Wire Session.
#[local] Open Scope go_scope.

(** ** Batches *)

Lemma batches_fuel_spec n l :
  length l ≤ n → mjoin (batches_fuel n l) = l ∧
  Forall (λ b, 0 < length b ≤ batchSize) (batches_fuel n l).
Proof.
  revert l. induction n as [|n IH]; intros [|x l] Hn; cbn in Hn; try (split; [done|constructor]); try lia.
  cbn [batches_fuel].
  destruct (IH (drop batchSize (x :: l))) as [Hj Hf].
  { rewrite length_drop. cbn [length]. unfold batchSize. lia. }
  split.
  - change (take batchSize (x :: l) ++ mjoin (batches_fuel n (drop batchSize (x :: l))) = x :: l).
    rewrite Hj. apply take_drop.
  - constructor; [|done]. rewrite length_take. cbn [length]. unfold batchSize. lia.
Qed.

Lemma batches_join l : mjoin (batches l) = l.
Proof. by apply batches_fuel_spec. Qed.

Lemma batches_bounded l : Forall (λ b, 0 < length b ≤ batchSize) (batches l).
Proof. by apply batches_fuel_spec. Qed.

Section facts.
Context `{Bolt, Blake3, Ed25519, CborText}.
Context `{!CborType Event, !CborType SignedEvent, !CborType Message, !CborLaws Message}.
Context {D : Type}.

(** ** Big-step semantics of the read loop *)

Section loops.
Context {Acc R : Type}.
Context (body : Acc → Message → world D → (Acc + R) * world D).
Context (on_err : Acc → error → world D → R * world D).

Inductive loop_runs (acc : Acc) (w : world D) : R * world D → Prop :=
  | loop_stop e c rw :
      ReadMsg (w_conn w) = (Err e, c) → on_err acc e (set_conn c w) = rw → loop_runs acc w rw
  | loop_return msg c r w' :
      ReadMsg (w_conn w) = (Ok msg, c) → body acc msg (set_conn c w) = (inr r, w') →
      loop_runs acc w (r, w')
  | loop_next msg c acc' w' rw :
      ReadMsg (w_conn w) = (Ok msg, c) → body acc msg (set_conn c w) = (inl acc', w') →
      loop_runs acc' w' rw → loop_runs acc w rw.

(** The body reads nothing itself. *)
Definition reads_nothing : Prop := ∀ acc msg w acc' w',
  body acc msg w = (inl acc', w') → length (rx (w_conn w')) ≤ length (rx (w_conn w)).

Lemma read_loop_total fuel acc w :
  reads_nothing → length (rx (w_conn w)) < fuel →
  ∃ r w', read_loop fuel body on_err acc w = (Some r, w') ∧ loop_runs acc w (r, w').
Proof.
  intros Hbody. revert acc w. induction fuel as [|n IH]; intros acc w Hn; [lia|]. cbn [read_loop].
  destruct (ReadMsg (w_conn w)) as [[msg|e] c] eqn:Hread.
  - destruct (body acc msg (set_conn c w)) as [[acc'|r] w'] eqn:Hb.
    + destruct (ReadMsg_frame_len _ _ _ Hread) as (k & Hk & _ & Hlen & -> & _).
      destruct (IH acc' w') as (r & w2 & Hrun & Hsem).
      { apply Hbody in Hb. cbn in Hb. rewrite length_drop in Hb. lia. }
      exists r, w2. split; [done|]. by eapply loop_next.
    + exists r, w'. split; [done|]. by eapply loop_return.
  - destruct (on_err acc e (set_conn c w)) as [r w'] eqn:He. exists r, w'.
    split; [done|]. by eapply loop_stop.
Qed.

Lemma loop_sound r0 acc w : reads_nothing → loop_runs acc w (loop r0 body on_err acc w).
Proof.
  intros Hbody. unfold loop.
  destruct (read_loop_total (S (length (rx (w_conn w)))) acc w Hbody) as (r & w' & -> & Hsem); [lia|].
  done.
Qed.

Lemma loop_runs_det acc w rw1 rw2 : loop_runs acc w rw1 → loop_runs acc w rw2 → rw1 = rw2.
Proof.
  intros Hrun. revert rw2.
  induction Hrun as [acc w e c rw Hr He|acc w msg c r w' Hr Hb|acc w msg c acc' w' rw Hr Hb Hrun IH];
    intros rw2 Hrun2;
    destruct Hrun2 as [e2 c2 rw2 Hr2 He2|msg2 c2 r2 w2 Hr2 Hb2|msg2 c2 acc2 w2 rw2 Hr2 Hb2 Hrun2];
    rewrite Hr in Hr2; try discriminate Hr2; injection Hr2 as <- <-; try congruence.
  apply IH. rewrite Hb in Hb2. by injection Hb2 as <- <-.
Qed.

(** A derivation computes the loop. *)
Lemma loop_eval r0 acc w rw : reads_nothing → loop_runs acc w rw → loop r0 body on_err acc w = rw.
Proof. intros Hbody Hrun. eapply loop_runs_det; [by apply loop_sound|done]. Qed.

(** The invariant rule. *)
Lemma loop_invariant (P : world D → Prop) acc w rw :
  loop_runs acc w rw →
  (∀ c w, P w → P (set_conn c w)) →
  (∀ acc msg w r w', wf msg = true → P w → body acc msg w = (r, w') → P w') →
  (∀ acc e w, P w → P (on_err acc e w).2) →
  P w → P rw.2.
Proof.
  intros Hrun Hconn Hbody Herr. induction Hrun as [acc w e c rw Hr He|acc w msg c r w' Hr Hb|
    acc w msg c acc' w' rw Hr Hb Hrun IH]; intros HP.
  - rewrite <-He. apply Herr, Hconn, HP.
  - destruct (ReadMsg_frame_len _ _ _ Hr) as (_ & _ & _ & _ & _ & Hwf).
    eapply Hbody; [exact Hwf| |exact Hb]. by apply Hconn.
  - destruct (ReadMsg_frame_len _ _ _ Hr) as (_ & _ & _ & _ & _ & Hwf).
    apply IH. eapply Hbody; [exact Hwf| |exact Hb]. by apply Hconn.
Qed.

(** The same with the accumulator, and a postcondition. *)
Lemma loop_rule (P : Acc → world D → Prop) (Q : R → world D → Prop) acc w rw :
  loop_runs acc w rw →
  (∀ acc c w, P acc w → P acc (set_conn c w)) →
  (∀ acc msg w acc' w', wf msg = true → P acc w → body acc msg w = (inl acc', w') → P acc' w') →
  (∀ acc msg w r w', wf msg = true → P acc w → body acc msg w = (inr r, w') → Q r w') →
  (∀ acc e w, P acc w → Q (on_err acc e w).1 (on_err acc e w).2) →
  P acc w → Q rw.1 rw.2.
Proof.
  intros Hrun Hconn Hnext Hret Herr. induction Hrun as [acc w e c rw Hr He|acc w msg c r w' Hr Hb|
    acc w msg c acc' w' rw Hr Hb Hrun IH]; intros HP.
  - rewrite <-He. by apply Herr, Hconn.
  - destruct (ReadMsg_frame_len _ _ _ Hr) as (_ & _ & _ & _ & _ & Hwf).
    eapply Hret; [exact Hwf| |exact Hb]. by apply Hconn.
  - destruct (ReadMsg_frame_len _ _ _ Hr) as (_ & _ & _ & _ & _ & Hwf).
    apply IH. eapply Hnext; [exact Hwf| |exact Hb]. by apply Hconn.
Qed.
End loops.

(** ** Transcripts *)

Definition enc (m : Message) : bytes := match CanonicalEncode m with Ok d => d | Err _ => [] end.

(** The message can be framed. *)
Definition good (m : Message) : Prop :=
  wf m = true ∧ (Z.of_nat (length (enc m)) ≤ maxFrameSize)%Z.

Definition goodb (m : Message) : bool :=
  wf m && (Z.of_nat (length (enc m)) <=? maxFrameSize)%Z.

Lemma goodb_good m : goodb m = true → good m.
Proof. unfold goodb. rewrite andb_true_iff, Z.leb_le. done. Qed.

Lemma goodb_all ms : forallb goodb ms = true → Forall good ms.
Proof.
  induction ms as [|m ms IH]; cbn; [constructor|]. rewrite andb_true_iff. intros [Hm Hms].
  constructor; [by apply goodb_good|by apply IH].
Qed.

Definition wire (ms : list Message) : bytes := mjoin ((λ m, frame (enc m)) <$> ms).

Lemma good_sendable m : good m → sendable m (enc m).
Proof.
  intros [Hwf Hsize]. split; [|done]. unfold enc.
  by destruct (CanonicalEncode_ok m Hwf) as (d & -> & _).
Qed.

Lemma wire_app ms1 ms2 : wire (ms1 ++ ms2) = wire ms1 ++ wire ms2.
Proof. unfold wire. by rewrite fmap_app, join_app. Qed.

Lemma wire_one m : wire [m] = frame (enc m).
Proof. unfold wire. cbn [fmap list_fmap]. apply app_nil_r. Qed.

Lemma wire_cons m ms : wire (m :: ms) = frame (enc m) ++ wire ms.
Proof. done. Qed.

Lemma WriteMsg_good m r e t :
  good m → WriteMsg m (mkConn r e t None) = (Ok tt, mkConn r e (t ++ wire [m]) None).
Proof.
  intros Hm. rewrite (WriteMsg_Ok m (enc m)) by (done || by apply good_sendable).
  by rewrite wire_one.
Qed.

Lemma ReadMsg_good m rest e t room :
  good m → ReadMsg (mkConn (frame (enc m) ++ rest) e t room) = (Ok m, mkConn rest e t room).
Proof.
  intros Hm. rewrite (ReadMsg_frame m (enc m) rest); [done|apply Hm|by apply good_sendable|done].
Qed.

Lemma ReadMsg_end e t room :
  ReadMsg (mkConn [] e t room) = (wrap "read header" (Err e), mkConn [] e t room).
Proof. unfold ReadMsg, wrapM, lift, mbind, stM_bind. cbn. by destruct e. Qed.

(** Send-all of messages that can be framed. *)
Lemma write_all f ms r e t :
  Forall good ms → (∀ m, f m = WriteMsg m ∨ ∃ s, f m = wrapM s (WriteMsg m)) →
  forM_ ms f (mkConn r e t None) = (Ok tt, mkConn r e (t ++ wire ms) None).
Proof.
  intros Hms Hf. revert t. induction Hms as [|m ms Hm Hms IH]; intros t; cbn [forM_].
  { by rewrite app_nil_r. }
  unfold mbind, stM_bind.
  assert (f m (mkConn r e t None) = (Ok tt, mkConn r e (t ++ wire [m]) None)) as ->.
  { destruct (Hf m) as [-> | [s ->]]; [by apply WriteMsg_good|]. unfold wrapM.
    by rewrite WriteMsg_good. }
  rewrite IH. by rewrite <-(assoc_L (++)), <-wire_app.
Qed.

(** The answer to a request, as messages. *)
Definition reply (events : list SignedEvent) : list Message :=
  (NewEvents <$> batches events) ++ [NewDone].

Lemma send_events_ok m events r e t :
  Forall good (reply events) →
  send_events m events (mkConn r e t None) = (Ok tt, mkConn r e (t ++ wire (reply events)) None).
Proof.
  unfold reply. intros [Hb Hd]%Forall_app. unfold send_events, mbind, stM_bind.
  assert (forM_ (batches events) (λ b, wrapM m (WriteMsg (NewEvents b))) (mkConn r e t None) =
    forM_ (NewEvents <$> batches events) (λ b, wrapM m (WriteMsg b)) (mkConn r e t None)) as ->.
  { clear. generalize (mkConn r e t None). induction (batches events) as [|b bs IH]; intros c; [done|].
    cbn. unfold mbind, stM_bind. destruct (wrapM m (WriteMsg (NewEvents b)) c) as [[]]; [apply IH|done]. }
  rewrite (write_all (λ b, wrapM m (WriteMsg b))) by (done || intros; right; by exists m).
  apply Forall_cons in Hd as [Hd _]. rewrite WriteMsg_good by done.
  by rewrite wire_app, (assoc_L (++)).
Qed.
End facts.
