(* ===== verification/SessionRuns.v ===== *)
(** * The phases of a session, computed

    Every phase of a session is a function of what the peer sends. On the wire
    bytes of well-formed messages this file computes each phase: what it
    writes, what it stores and what it leaves unread. *)

From S2P Require Import Prelude Base32 External Identity Event Log Bolt Store StoreFollow StoreQuery Wire Session SessionFacts.
#[local] Open Scope go_scope.

(** ** Writers do not read *)

Definition keeps_rx {A} (m : stM conn A) : Prop :=
  ∀ c r c', m c = (r, c') → rx c' = rx c.

Lemma keeps_lift {A} (r : result A) : keeps_rx (lift r).
Proof. by intros c r' c' [= _ <-]. Qed.

Lemma keeps_bind {A B} (m : stM conn A) (f : A → stM conn B) :
  keeps_rx m → (∀ a, keeps_rx (f a)) → keeps_rx (m ≫= f).
Proof.
  intros Hm Hf c r c'. unfold mbind, stM_bind. destruct (m c) as [[a|e] c1] eqn:Hr.
  - intros Hr2. rewrite (Hf _ _ _ _ Hr2). by eapply Hm.
  - intros [= _ <-]. by eapply Hm.
Qed.

Lemma keeps_wrap {A} s (m : stM conn A) : keeps_rx m → keeps_rx (wrapM s m).
Proof.
  intros Hm c r c'. unfold wrapM. destruct (m c) as [r1 c1] eqn:Hr. intros [= _ <-]. by eapply Hm.
Qed.

Lemma keeps_forM {A} (l : list A) f : (∀ x, keeps_rx (f x)) → keeps_rx (forM_ l f).
Proof.
  intros Hf. induction l as [|x l IH]; [apply (keeps_lift (Ok tt))|]. by apply keeps_bind.
Qed.

Lemma keeps_Write d : keeps_rx (Write d).
Proof.
  intros c r c'. unfold Write. destruct (tx_room c); [|by intros [= _ <-]].
  destruct (_ <=? _); by intros [= _ <-].
Qed.

Section runs.
Context `{Bolt, Blake3, Ed25519, CborText}.
Context `{!CborType Event, !CborType SignedEvent, !CborType Message, !CborLaws Message}.
Context {D : Type}.
Implicit Types (w : world D) (cb : callbacks D) (d : D).

Lemma keeps_WriteMsg m : keeps_rx (WriteMsg m).
Proof.
  unfold WriteMsg. apply keeps_bind; [apply keeps_wrap, keeps_lift|]. intros d.
  destruct (_ <? _)%Z; [apply keeps_lift|].
  apply keeps_bind; [apply keeps_wrap, keeps_Write|]. intros _. apply keeps_wrap, keeps_Write.
Qed.

Lemma keeps_send m evs : keeps_rx (send_events m evs).
Proof.
  unfold send_events. apply keeps_bind; [|intros; apply keeps_WriteMsg].
  apply keeps_forM. intros b. apply keeps_wrap, keeps_WriteMsg.
Qed.

Lemma on_conn_rx {A} (m : stM conn A) w r w' :
  keeps_rx m → on_conn m w = (r, w') → rx (w_conn w') = rx (w_conn w).
Proof.
  intros Hm. unfold on_conn. destruct (m (w_conn w)) as [r1 c] eqn:Hr. intros [= _ <-].
  by eapply Hm.
Qed.

Lemma wrapM_rx {A} s (m : stM (world D) A) w r w' :
  (∀ r w', m w = (r, w') → rx (w_conn w') = rx (w_conn w)) →
  wrapM s m w = (r, w') → rx (w_conn w') = rx (w_conn w).
Proof.
  intros Hm. unfold wrapM. destruct (m w) as [r1 w1] eqn:Hr. intros [= _ <-]. by eapply Hm.
Qed.

Lemma answer_rx msg h w r w' : answer msg = Some h → h w = (r, w') → rx (w_conn w') = rx (w_conn w).
Proof.
  unfold answer. repeat case_decide; intros [= <-].
  - unfold handleRequest. destruct (m_Request msg) as [req|]; [|by intros [= _ <-]].
    destruct (fetchEvents _ _); [|by intros [= _ <-]]. apply on_conn_rx, keeps_send.
  - unfold handleFollowers. destruct (ReceivedFollowEvents _); [|by intros [= _ <-]].
    apply on_conn_rx, keeps_send.
  - unfold handleLikeRequest. destruct (m_LikeRequest msg) as [req|]; [|by intros [= _ <-]].
    destruct (LikesForPosts _ _); [|by intros [= _ <-]]. apply on_conn_rx, keeps_send.
Qed.

(** ** Merging does not touch the connection *)

Lemma set_world_env_conn sd w : w_conn (set_world_env sd w) = w_conn w.
Proof. done. Qed.

Lemma merge_conn cb se c w :
  Session_mergeEvent cb se (set_conn c w) =
    let '(r, w') := Session_mergeEvent cb se w in (r, set_conn c w').
Proof.
  unfold Session_mergeEvent. cbn [w_store set_conn].
  destruct (if decide (se_Author se = own_id (w_store w)) then _ else _) as [[i r] s].
  by destruct (cb_onMerge cb).
Qed.

Lemma pull_item_conn cb acc se c w :
  pull_item cb acc se (set_conn c w) =
    let '(a, w') := pull_item cb acc se w in (a, set_conn c w').
Proof.
  unfold pull_item. destruct (Verify se); [|done]. rewrite merge_conn.
  destruct (Session_mergeEvent cb se w) as [[i [u|e]] w']; done.
Qed.

Lemma pull_items_conn cb items acc c w :
  pull_items cb items acc (set_conn c w) =
    let '(a, w') := pull_items cb items acc w in (a, set_conn c w').
Proof.
  revert acc w. induction items as [|se items IH]; intros acc w; [done|]. cbn.
  rewrite pull_item_conn. destruct (pull_item cb acc se w) as [a w']. apply IH.
Qed.

Lemma pull_items_app cb l1 l2 acc w :
  pull_items cb (l1 ++ l2) acc w =
    let '(a, w') := pull_items cb l1 acc w in pull_items cb l2 a w'.
Proof.
  revert acc w. induction l1 as [|se l1 IH]; intros acc w; cbn; [done|].
  destruct (pull_item cb acc se w) as [a w']. apply IH.
Qed.

Lemma pull_items_rx cb items acc w a w' :
  pull_items cb items acc w = (a, w') → w_conn w' = w_conn w.
Proof.
  intros Hrun. pose proof (pull_items_conn cb items acc (w_conn w) w) as Hc.
  assert (set_conn (w_conn w) w = w) as Hw by by destruct w.
  rewrite Hw, Hrun in Hc. injection Hc as ->. done.
Qed.

(** ** Fetching *)

Lemma collect_reads_nothing : reads_nothing (collect_body (D := D)).
Proof.
  intros out msg w acc' w'. unfold collect_body.
  repeat case_decide; [destruct (m_Events msg)|..]; intros Heq; by simplify_eq.
Qed.

Lemma verified_app l1 l2 : verified (l1 ++ l2) = verified l1 ++ verified l2.
Proof. apply filter_app. Qed.

Lemma collect_reply evs rest e t s d z :
  Forall good (reply evs) →
  collect (mkWorld s (mkConn (wire (reply evs) ++ rest) e t None) d z) =
    ((verified evs, Ok tt), mkWorld s (mkConn rest e t None) d z).
Proof.
  intros Hg. unfold collect. apply loop_eval; [apply collect_reads_nothing|].
  assert (∀ bs out, Forall good ((NewEvents <$> bs) ++ [NewDone]) →
    loop_runs collect_body
      read_stop out
      (mkWorld s (mkConn (wire ((NewEvents <$> bs) ++ [NewDone]) ++ rest) e t None) d z)
      ((out ++ verified (mjoin bs), Ok tt), mkWorld s (mkConn rest e t None) d z)) as Hruns.
  { induction bs as [|b bs IH]; intros out Hbs.
    - apply Forall_cons in Hbs as [Hd _]. cbn [fmap list_fmap app]. rewrite app_nil_r.
      rewrite wire_one. eapply loop_return; [by apply ReadMsg_good|]. done.
    - cbn [fmap list_fmap app] in Hbs |- *. apply Forall_cons in Hbs as [Hb Hbs].
      rewrite wire_cons, <-(assoc_L (++)).
      eapply loop_next; [by apply ReadMsg_good|done|].
      change (mjoin (b :: bs)) with (b ++ mjoin bs). rewrite verified_app, (assoc_L (++) out).
      by apply IH. }
  pose proof (Hruns (batches evs) [] Hg) as Hrun. by rewrite batches_join in Hrun.
Qed.

Lemma SyncLogRaw_reply log after author evs rest e t s d z :
  good (NewRequest log after author) → Forall good (reply evs) →
  SyncLogRaw log after author (mkWorld s (mkConn (wire (reply evs) ++ rest) e t None) d z) =
    ((verified evs, Ok tt),
     mkWorld s (mkConn rest e (t ++ wire [NewRequest log after author]) None) d z).
Proof.
  intros Hq Hg. unfold SyncLogRaw, wrapM, on_conn. cbn [w_conn].
  rewrite WriteMsg_good by done. by apply collect_reply.
Qed.

(** Whatever comes, what is collected verifies. *)
Lemma collect_verified w : Forall (λ se, Verify se = Ok tt) (collect w).1.1.
Proof.
  apply (loop_rule _ _ (λ out _, Forall (λ se, Verify se = Ok tt) out)
    (λ r _, Forall (λ se, Verify se = Ok tt) r.1) _ _ _
    (loop_sound collect_body read_stop ([], no_fuel) [] w collect_reads_nothing));
    [done| | |done|constructor].
  - intros out msg w1 out' w1' _ Ho. unfold collect_body.
    repeat case_decide; [destruct (m_Events msg) as [evs|]|..]; intros Heq; simplify_eq; try done.
    apply Forall_app; split; [done|]. apply Forall_forall. intros se.
    unfold verified. rewrite list_elem_of_filter. tauto.
  - intros out msg w1 r w1' _ Ho. unfold collect_body.
    repeat case_decide; [destruct (m_Events msg) as [evs|]|..]; intros Heq; by simplify_eq.
Qed.

Lemma request_collects {A} m (send : stM (world D) A) w :
  Forall (λ se, Verify se = Ok tt)
    (match wrapM m send w with
     | (Err e, w) => (([], Err e), w)
     | (Ok _, w) => collect w
     end).1.1.
Proof. destruct (wrapM m send w) as [[u|e] w1]; [apply collect_verified|constructor]. Qed.

(** ** Pulling *)

Lemma pull_reads_nothing cb log after : reads_nothing (pull_body cb log after).
Proof.
  intros acc msg w acc' w'. unfold pull_body.
  case_decide; [|case_decide; intros Heq; by simplify_eq].
  destruct (m_Events msg) as [evs|]; [|intros Heq; by simplify_eq].
  destruct (pull_items cb (Items evs) acc w) as [a w1] eqn:Hp.
  intros Heq; simplify_eq. by rewrite (pull_items_rx _ _ _ _ _ _ Hp).
Qed.

Lemma pull_loop_runs cb log after w :
  loop_runs (pull_body cb log after) (pull_err cb log after) (0, 0%Z) w
    (pull_loop cb log after w).
Proof. apply (loop_sound (pull_body cb log after)), pull_reads_nothing. Qed.

(** A pull of a complete reply merges its events in order and then advances
    the cursor. *)
Lemma pull_loop_reply cb log after evs rest e t w :
  Forall good (reply evs) →
  pull_loop cb log after (set_conn (mkConn (wire (reply evs) ++ rest) e t None) w) =
    let '(a, w') := pull_items cb evs (0, 0%Z) (set_conn (mkConn rest e t None) w) in
    ((a.1, Ok tt), advanceCursor cb log after a.2 w').
Proof.
  intros Hg. unfold pull_loop.
  apply (loop_eval (pull_body cb log after) (pull_err cb log after)); [apply pull_reads_nothing|].
  assert (∀ bs acc w, Forall good ((NewEvents <$> bs) ++ [NewDone]) →
    loop_runs (pull_body cb log after) (pull_err cb log after) acc
      (set_conn (mkConn (wire ((NewEvents <$> bs) ++ [NewDone]) ++ rest) e t None) w)
      (let '(a, w') := pull_items cb (mjoin bs) acc (set_conn (mkConn rest e t None) w) in
       ((a.1, Ok tt), advanceCursor cb log after a.2 w'))) as Hruns.
  { induction bs as [|b bs IH]; intros acc w0 Hbs.
    - apply Forall_cons in Hbs as [Hd _]. cbn [fmap list_fmap app]. rewrite wire_one.
      eapply loop_return; [by apply ReadMsg_good|]. done.
    - cbn [fmap list_fmap app] in Hbs |- *. apply Forall_cons in Hbs as [Hb Hbs].
      rewrite wire_cons, <-(assoc_L (++)).
      change (mjoin (b :: bs)) with (b ++ mjoin bs). rewrite pull_items_app.
      destruct (pull_items cb b acc w0) as [a1 w1] eqn:Hp.
      eapply loop_next; [by apply ReadMsg_good| |].
      { unfold pull_body. rewrite decide_True by done. cbn [m_Events NewEvents Items].
        change (set_conn ?c (set_conn _ w0)) with (set_conn c w0).
        rewrite pull_items_conn, Hp. done. }
      rewrite pull_items_conn, Hp. by apply IH. }
  pose proof (Hruns (batches evs) (0, 0%Z) w Hg) as Hrun. by rewrite batches_join in Hrun.
Qed.

Lemma pullLog_reply cb log after author evs rest e t s d z :
  let w := mkWorld s (mkConn (wire (reply evs) ++ rest) e t None) d z in
  let after' := pull_after cb log after author w in
  let q := NewRequest log after' author in
  good q → Forall good (reply evs) →
  pullLog cb log after author w =
    let '(a, w') := pull_items cb evs (0, 0%Z) (mkWorld s (mkConn rest e (t ++ wire [q]) None) d z) in
    ((a.1, Ok tt), advanceCursor cb log after' a.2 w').
Proof.
  intros w after' q Hq Hg. unfold pullLog. fold after'. fold q.
  unfold wrapM, on_conn. cbn [w_conn w]. rewrite WriteMsg_good by done. cbn [wrap].
  apply (pull_loop_reply cb log after' evs rest e (t ++ wire [q]) (mkWorld s (mkConn [] e t None) d z) Hg).
Qed.

(** ** Serving *)

(** The reply to a request for the server's own log. *)
Definition own_after (s : store) (log : bytes) (after : Z) (evs : list SignedEvent) : Prop :=
  ∃ all, OwnEvents log s = Ok all ∧
    evs = filter (λ se, (after < e_Timestamp (se_Event se))%Z) (SortedByTime all).

Lemma answer_own s log after evs r e t d z :
  own_after s log after evs → Forall good (reply evs) →
  ∃ h, answer (D := D) (NewRequest log after []) = Some h ∧
    h (mkWorld s (mkConn r e t None) d z) =
      (Ok tt, mkWorld s (mkConn r e (t ++ wire (reply evs)) None) d z).
Proof.
  intros (all & Hall & ->) Hg. eexists. split; [done|].
  unfold handleRequest. cbn [m_Request NewRequest]. unfold fetchEvents. cbn [req_Author].
  rewrite decide_True by done. unfold fetchOwnEvents. cbn [req_Log req_AfterTime w_store].
  rewrite Hall. cbn [mbind result_bind]. unfold on_conn. cbn [w_conn].
  by rewrite send_events_ok.
Qed.

Lemma serve_reads_nothing : reads_nothing (serve_body (D := D)).
Proof.
  intros n msg w acc' w'. unfold serve_body. destruct (answer msg) as [h|] eqn:Ha.
  - destruct (h w) as [[u|e] w1] eqn:Hh; intros Heq; simplify_eq.
    by rewrite (answer_rx _ _ _ _ _ Ha Hh).
  - case_decide; intros Heq; by simplify_eq.
Qed.

(** One request, answered. *)
Lemma serve_step served s log after evs rest e t d z rw :
  own_after s log after evs → good (NewRequest log after []) → Forall good (reply evs) →
  loop_runs serve_body read_stop (S served)
    (mkWorld s (mkConn rest e (t ++ wire (reply evs)) None) d z) rw →
  loop_runs serve_body read_stop served
    (mkWorld s (mkConn (wire [NewRequest log after []] ++ rest) e t None) d z) rw.
Proof.
  intros Hown Hq Hg Hrun. rewrite wire_one.
  eapply loop_next; [by apply ReadMsg_good| |exact Hrun].
  unfold serve_body. cbn [set_conn w_store w_env w_cursorZen].
  destruct (answer_own s log after evs rest e t d z Hown Hg) as (h & -> & Hh).
  unfold set_conn. cbn [w_store w_conn w_env w_cursorZen]. by rewrite Hh.
Qed.

Lemma serve_eof served s t d z :
  loop_runs serve_body read_stop served (mkWorld s (mkConn [] EOF t None) d z)
    ((served, Ok tt), mkWorld s (mkConn [] EOF t None) d z).
Proof.
  by eapply (loop_stop _ _ served _ (Wrap "read header" EOF)); [exact (ReadMsg_end EOF t None)|].
Qed.

Lemma serve_two s l1 a1 evs1 l2 a2 evs2 t d z :
  own_after s l1 a1 evs1 → own_after s l2 a2 evs2 →
  good (NewRequest l1 a1 []) → good (NewRequest l2 a2 []) →
  Forall good (reply evs1) → Forall good (reply evs2) →
  serve (mkWorld s (mkConn (wire [NewRequest l1 a1 []; NewRequest l2 a2 []]) EOF t None) d z) =
    ((2, Ok tt), mkWorld s (mkConn [] EOF (t ++ wire (reply evs1) ++ wire (reply evs2)) None) d z).
Proof.
  intros H1' H2' Hq1 Hq2 Hg1 Hg2. unfold serve.
  apply (loop_eval serve_body read_stop); [apply serve_reads_nothing|].
  change [?x; ?y] with ([x] ++ [y]). rewrite wire_app.
  apply (serve_step _ _ _ _ evs1); [done..|].
  rewrite <-(app_nil_r (wire [NewRequest l2 a2 []])).
  apply (serve_step _ _ _ _ evs2); [done..|].
  rewrite (assoc_L (++)). apply serve_eof.
Qed.

Lemma Serve_reads_nothing : reads_nothing (Serve_body (D := D)).
Proof.
  intros n msg w acc' w'. unfold Serve_body. destruct (answer msg) as [h|] eqn:Ha.
  - destruct (h w) as [[u|e] w1] eqn:Hh; intros Heq; simplify_eq.
    by rewrite (answer_rx _ _ _ _ _ Ha Hh).
  - case_decide; intros Heq; by simplify_eq.
Qed.

(** ** Serving with zen exchange *)

Lemma learn_rx cb msg w : w_conn (learn cb msg w) = w_conn w.
Proof.
  unfold learn. destruct (cb_onZen cb) as [f|]; [|done].
  generalize (zensFromMsg msg) as refs. intros refs. revert w.
  induction refs as [|r refs IH]; intros w; [done|]. cbn. by rewrite IH.
Qed.

Lemma swz_reads_nothing cb : reads_nothing (swz_body cb).
Proof.
  intros [served sent] msg w acc' w'. unfold swz_body.
  destruct (answer msg) as [h|] eqn:Ha.
  - destruct (h w) as [[u|e] w1] eqn:Hh; intros Heq; simplify_eq.
    by rewrite (answer_rx _ _ _ _ _ Ha Hh).
  - case_decide; [|repeat case_decide; intros Heq; by simplify_eq].
    destruct sent; [intros Heq; simplify_eq; by rewrite learn_rx|].
    destruct (wrapM _ _ _) as [[u|e] w1] eqn:Hw; intros Heq; simplify_eq.
    assert (rx (w_conn w') = rx (w_conn (learn cb msg w))) as ->; [|by rewrite learn_rx].
    eapply wrapM_rx, Hw. intros r w1. apply on_conn_rx, keeps_WriteMsg.
Qed.

Lemma swz_step cb served sent s log after evs rest e t d z rw :
  own_after s log after evs → good (NewRequest log after []) → Forall good (reply evs) →
  loop_runs (swz_body cb) (λ acc, read_stop acc.1) (S served, sent)
    (mkWorld s (mkConn rest e (t ++ wire (reply evs)) None) d z) rw →
  loop_runs (swz_body cb) (λ acc, read_stop acc.1) (served, sent)
    (mkWorld s (mkConn (wire [NewRequest log after []] ++ rest) e t None) d z) rw.
Proof.
  intros Hown Hq Hg Hrun. rewrite wire_one.
  eapply loop_next; [by apply ReadMsg_good| |exact Hrun].
  unfold swz_body. destruct (answer_own s log after evs rest e t d z Hown Hg) as (h & -> & Hh).
  unfold set_conn. cbn [w_store w_conn w_env w_cursorZen]. by rewrite Hh.
Qed.

(** A session that keeps no cursors and no zens of its own: a key and the
    refs it offers. *)
Definition plain (key : KeyPair) (refs : list ZenRef) : callbacks D :=
  mkCallbacks (Some key) (Some (λ _ _, refs)) None None None None None.

Lemma swz_zens key refs theirs served rest e t s d z rw :
  good (NewZens refs) → good (NewZens theirs) →
  loop_runs (swz_body (plain key refs)) (λ acc, read_stop acc.1) (served, true)
    (mkWorld s (mkConn rest e (t ++ wire [NewZens refs]) None) d z) rw →
  loop_runs (swz_body (plain key refs)) (λ acc, read_stop acc.1) (served, false)
    (mkWorld s (mkConn (wire [NewZens theirs] ++ rest) e t None) d z) rw.
Proof.
  intros Hr Ht Hrun. rewrite wire_one. eapply loop_next; [by apply ReadMsg_good| |exact Hrun].
  unfold swz_body, wrapM, on_conn. cbn. by rewrite WriteMsg_good.
Qed.

Lemma swz_reverse cb served sent rest e t s d z :
  good NewReverse →
  loop_runs (swz_body cb) (λ acc, read_stop acc.1) (served, sent)
    (mkWorld s (mkConn (wire [NewReverse] ++ rest) e t None) d z)
    ((served, Ok tt), mkWorld s (mkConn rest e t None) d z).
Proof. intros Hr. rewrite wire_one. by eapply loop_return; [apply ReadMsg_good|]. Qed.

Lemma serveWithZens_two key refs theirs s l1 a1 evs1 l2 a2 evs2 rest e t d z :
  own_after s l1 a1 evs1 → own_after s l2 a2 evs2 →
  good (NewRequest l1 a1 []) → good (NewRequest l2 a2 []) →
  Forall good (reply evs1) → Forall good (reply evs2) →
  good (NewZens refs) → good (NewZens theirs) → good NewReverse →
  serveWithZens (plain key refs)
    (mkWorld s (mkConn (wire ([NewRequest l1 a1 []] ++ [NewRequest l2 a2 []] ++ [NewZens theirs]
                              ++ [NewReverse]) ++ rest) e t None) d z) =
    ((2, Ok tt), mkWorld s (mkConn rest e
       (t ++ wire (reply evs1 ++ reply evs2 ++ [NewZens refs])) None) d z).
Proof.
  intros Ho1 Ho2 Hq1 Hq2 Hg1 Hg2 Hr Ht Hrev.
  apply loop_eval; [apply swz_reads_nothing|].
  rewrite !wire_app, <-!(assoc_L (++)).
  apply (swz_step _ _ _ _ _ _ evs1); [done..|].
  apply (swz_step _ _ _ _ _ _ evs2); [done..|].
  apply swz_zens; [done..|]. rewrite <-!(assoc_L (++)). by apply swz_reverse.
Qed.

Lemma zens_reads_nothing cb : reads_nothing (zens_body cb).
Proof. intros acc msg w acc' w'. unfold zens_body. case_decide; intros Heq; by simplify_eq. Qed.

Lemma exchangeZens_plain key refs theirs rest e t s d z :
  good (NewZens refs) → good (NewZens theirs) →
  exchangeZens (plain key refs) (mkWorld s (mkConn (wire [NewZens theirs] ++ rest) e t None) d z) =
    (Ok tt, mkWorld s (mkConn rest e (t ++ wire [NewZens refs]) None) d z).
Proof.
  intros Hr Ht. unfold exchangeZens, wrapM, on_conn. cbn [w_conn own_refs cb_zens plain].
  rewrite WriteMsg_good by done. cbn [wrap].
  apply loop_eval.
  - apply zens_reads_nothing.
  - rewrite wire_one. by eapply loop_return; [apply ReadMsg_good|].
Qed.

(** ** Reading several messages *)

Fixpoint read_all (n : nat) : stM conn (list Message) :=
  match n with
  | O => mret []
  | S n => m ← ReadMsg; ms ← read_all n; mret (m :: ms)
  end.

Lemma read_all_wire ms rest e t room :
  Forall good ms →
  read_all (length ms) (mkConn (wire ms ++ rest) e t room) = (Ok ms, mkConn rest e t room).
Proof.
  induction 1 as [|m ms Hm Hms IH]; [done|]. cbn [length read_all].
  rewrite wire_cons, <-(assoc_L (++)). unfold mbind, stM_bind. rewrite ReadMsg_good by done.
  by rewrite IH.
Qed.

(** ** Handshake *)

Lemma expect_hello_New i n : expect_hello (NewHello i n) = Ok (mkHello i n).
Proof. done. Qed.

Lemma expect_auth_New sg : expect_auth (NewAuth sg) = Ok (mkAuth sg).
Proof. done. Qed.

Lemma Handshake_plain key refs nonce hisID hisNonce hisSig pub sig rest e t s d z :
  good (NewHello (Identity key) nonce) → good (NewAuth sig) →
  good (NewHello hisID hisNonce) → good (NewAuth hisSig) →
  PubkeyBytes hisID = Ok pub → ed25519_Sign (kp_Private key) hisNonce = Ok sig →
  ed_verify pub nonce hisSig = true →
  Handshake (plain key refs) (Ok nonce)
    (mkWorld s (mkConn (wire ([NewHello hisID hisNonce] ++ [NewAuth hisSig]) ++ rest) e t None) d z) =
    (Ok hisID, mkWorld s (mkConn rest e
       (t ++ wire ([NewHello (Identity key) nonce] ++ [NewAuth sig])) None) d hisID).
Proof.
  intros Hh Ha Hh' Ha' Hpub Hsig Hver. unfold Handshake. cbn [cb_key plain].
  rewrite !wire_app, <-!(assoc_L (++)), !wire_one.
  unfold mbind, stM_bind, wrapM, lift, attempt, on_conn. cbn [wrap w_conn].
  rewrite WriteMsg_good by done. cbn [wrap w_conn set_conn w_store w_env w_cursorZen].
  rewrite ReadMsg_good by done. cbn [wrap]. rewrite expect_hello_New. cbn [h_Identity h_Nonce].
  rewrite Hpub. cbn [wrap]. rewrite Hsig. cbn [w_conn set_conn].
  rewrite WriteMsg_good by done. cbn [w_conn set_conn w_store w_env w_cursorZen].
  rewrite ReadMsg_good by done. cbn [wrap]. rewrite expect_auth_New. cbn [auth_Signature].
  unfold ed25519_Verify. rewrite decide_True by (by eapply PubkeyBytes_length). rewrite Hver.
  cbn. unfold authed, wire. cbn. by rewrite <-!(assoc_L (++)), ?app_nil_r.
Qed.
End runs.
