(* ===== verification/SessionMeet.v ===== *)
(** * Two sessions face to face

    An initiator and a listener, each with its own store and log, reading what
    the other writes. *)

From S2P Require Import Prelude Base32 External Identity Event Log Bolt Store StoreFacts StoreFollow StoreFollowFacts StoreQuery Wire Session SessionFacts SessionRuns.
#[local] Open Scope go_scope.

Section meet.
Context `{BoltLaws, Blake3, !Blake3Laws, Ed25519, !Ed25519Laws, CborText}.
Context `{!CborType Event, !CborLaws Event, !CborType SignedEvent, !CborLaws SignedEvent}.
Context `{!CborType Message, !CborLaws Message}.
Context {D : Type}.
Implicit Types (w : world D) (d : D).

(** Events of [a] that any peer accepts. *)
Definition authentic (a : bytes) (se : SignedEvent) : Prop :=
  storable se ∧ Verify se = Ok tt ∧ se_Author se = a.

(** ** Pulling someone else's log

    The events go to the crawl cache of their author, and the count is the
    number of events that log grew by. *)
Lemma pull_item_foreign cb acc a se w :
  cb_onMerge cb = None → subs_ok (bucketCrawl (w_store w)) → authentic a se →
  a ≠ own_id (w_store w) → bk_key_ok a = true →
  ∃ mx, pull_item cb acc se w =
    ((acc.1 + (size (subview (bucketCrawl (put_all [se] (w_store w))) a)
               - size (subview (bucketCrawl (w_store w)) a)), mx),
     set_store (put_all [se] (w_store w)) w) ∧
  size (subview (bucketCrawl (w_store w)) a)
    ≤ size (subview (bucketCrawl (put_all [se] (w_store w))) a).
Proof.
  intros Hcb Hok (Hse & Hver & Hau) Hne Hkey. subst a.
  destruct (storable_ID se Hse) as (id & HID & _).
  destruct (PutCrawledEvent_adds se id (w_store w) Hok Hse HID Hkey)
    as (crawl & i & Hrun & [_ Hadd] & Hi).
  unfold pull_item. rewrite Hver. unfold Session_mergeEvent. rewrite decide_False by done.
  cbn [put_all foldl]. rewrite Hrun, Hcb. cbn [snd bucketCrawl set_crawl].
  rewrite Hadd, decide_True by done. unfold log_add. case_decide as Hs.
  - destruct i; [by destruct (proj1 Hi eq_refl)|]. rewrite Nat.sub_diag, Nat.add_0_r. by eexists.
  - destruct i; [|exfalso; by discriminate (proj2 Hi Hs)].
    rewrite map_size_insert_None; [|apply eq_None_not_Some; unfold skips in Hs; tauto].
    replace (S _ - _) with 1 by lia. replace (acc.1 + 1) with (S acc.1) by lia.
    eexists; split; [done|lia].
Qed.

Lemma put_all_crawl_only l s :
  bucketMeta (put_all l s) = bucketMeta s ∧ bucketOwn (put_all l s) = bucketOwn s.
Proof.
  revert s. induction l as [|se l IH]; intros s; [done|]. cbn [put_all foldl].
  fold (put_all l (PutCrawledEvent se s).2). destruct (IH (PutCrawledEvent se s).2) as [-> ->].
  unfold PutCrawledEvent.
  destruct (ID se); [|done]. destruct (CanonicalEncode se); [|done].
  destruct (bk_CreateBucketIfNotExists _ _) as [[b p]|]; [|done].
  destruct (bk_get b _); [done|]. destruct (like_dup se b); [done|]. by destruct (bk_Put _ _ b).
Qed.

Lemma put_all_own_id l s : own_id (put_all l s) = own_id s.
Proof. unfold own_id, Store_Identity. by rewrite (proj1 (put_all_crawl_only l s)). Qed.

Lemma put_all_app l1 l2 s : put_all (l1 ++ l2) s = put_all l2 (put_all l1 s).
Proof. apply foldl_app. Qed.

Lemma pull_items_foreign cb a l acc w :
  cb_onMerge cb = None → bk_key_ok a = true → Forall (authentic a) l →
  subs_ok (bucketCrawl (w_store w)) → a ≠ own_id (w_store w) →
  ∃ mx, pull_items cb l acc w =
    ((acc.1 + (size (subview (bucketCrawl (put_all l (w_store w))) a)
               - size (subview (bucketCrawl (w_store w)) a)), mx),
     set_store (put_all l (w_store w)) w) ∧
  size (subview (bucketCrawl (w_store w)) a)
    ≤ size (subview (bucketCrawl (put_all l (w_store w))) a).
Proof.
  intros Hcb Hkey Hl. revert acc w. induction Hl as [|se l Hse Hl IH]; intros acc w Hok Hne.
  { exists acc.2. cbn [pull_items put_all foldl]. rewrite Nat.sub_diag, Nat.add_0_r.
    split; [by destruct acc, w|done]. }
  destruct (pull_item_foreign cb acc a se w) as (mx & Hrun & Hle); [done..|].
  change (se :: l) with ([se] ++ l). rewrite put_all_app, pull_items_app.
  cbn [pull_items app]. rewrite Hrun.
  assert (Hok' : subs_ok (bucketCrawl (put_all [se] (w_store w)))).
  { apply (put_all_log_adds a); [done| |done]. repeat constructor; apply Hse. }
  destruct (IH (acc.1 + (size (subview (bucketCrawl (put_all [se] (w_store w))) a)
               - size (subview (bucketCrawl (w_store w)) a)), mx)
              (set_store (put_all [se] (w_store w)) w)) as (mx' & Hrun' & Hle');
    [done|by cbn [set_store w_store]; rewrite put_all_own_id|].
  exists mx'. rewrite Hrun'. cbn [fst set_store w_store w_conn w_env w_cursorZen] in *.
  split; [|lia]. f_equal. f_equal. lia.
Qed.

(** ** The server's answer *)

Lemma fetchEvents_ok req s :
  subs_ok (bucketOwn s) → subs_ok (bucketCrawl s) →
  fetchEvents req s =
    Ok (filter (λ se, (req_AfterTime req < e_Timestamp (se_Event se))%Z)
         (SortedByTime (if decide (req_Author req = [] ∨ Store_Identity s = Some (req_Author req))
                        then subevents (bucketOwn s) (req_Log req)
                        else subevents (bucketCrawl s) (req_Author req)))).
Proof.
  intros Ho Hc. unfold fetchEvents, fetchOwnEvents, OwnEvents, CrawledEvents.
  rewrite !log_events_subevents by done. cbn [mbind result_bind].
  destruct (decide (req_Author req = [])) as [Hn|Hn].
  { rewrite decide_True by by left. done. }
  destruct (decide (Store_Identity s = Some (req_Author req))) as [Hs|Hs].
  { rewrite decide_True by by right. done. }
  rewrite decide_False by tauto. unfold filterAfterTime.
  destruct (subevents (bucketCrawl s) (req_Author req)) as [|se l] eqn:Hsub; [|done].
  unfold CrawledProfiles. unfold subevents in Hsub.
  destruct (bk_get (bucketCrawl s) (req_Author req)) as [b|]; [|done].
  cbn [from_option] in Hsub. by rewrite Hsub.
Qed.

(** ** One side *)

Record side := mkSide {
  sd_key : KeyPair;
  sd_refs : list ZenRef;
  sd_nonce : bytes;
  sd_store : store;
  sd_posts : list SignedEvent;
  sd_profile : list SignedEvent;
}.

Definition sd_id (x : side) : bytes := Identity (sd_key x).
Definition sd_log (x : side) : list SignedEvent := sd_posts x ++ sd_profile x.

(** What a side brings: a generated key whose identity the store has, a
    well-formed store with its own authentic events in it, and messages that
    fit in frames. *)
Record ready (x : side) : Prop := {
  ready_key : valid_key (sd_key x);
  ready_identity : Store_Identity (sd_store x) = Some (sd_id x);
  ready_crawl : subs_ok (bucketCrawl (sd_store x));
  ready_posts : own_after (sd_store x) PostLog 0 (sd_posts x);
  ready_profile : own_after (sd_store x) ProfileLog 0 (sd_profile x);
  ready_authentic : Forall (authentic (sd_id x)) (sd_log x);
  ready_replies : Forall good (reply (sd_posts x)) ∧ Forall good (reply (sd_profile x));
  ready_zens : good (NewZens (sd_refs x));
  ready_hello : good (NewHello (sd_id x) (sd_nonce x));
}.

Definition hello_of (x : side) : Message := NewHello (sd_id x) (sd_nonce x).
Definition auth_to (x y : side) : Message := NewAuth (ed_sign (kp_Private (sd_key x)) (sd_nonce y)).

(** The other messages two sides exchange fit in frames, too. *)
Definition small_frames (x y : side) : Prop :=
  good (NewRequest PostLog 0 []) ∧ good (NewRequest ProfileLog 0 []) ∧ good NewReverse ∧
  good (auth_to x y) ∧ good (auth_to y x).

Lemma small_frames_sym x y : small_frames x y → small_frames y x.
Proof. unfold small_frames. tauto. Qed.

Definition requests : list Message := [NewRequest PostLog 0 []; NewRequest ProfileLog 0 []].

(** What the initiator and the listener write. *)
Definition initiator_script (x y : side) : list Message :=
  [hello_of x; auth_to x y] ++ requests ++ [NewZens (sd_refs x); NewReverse] ++
  reply (sd_posts x) ++ reply (sd_profile x).
Definition listener_script (x y : side) : list Message :=
  [hello_of x; auth_to x y] ++ reply (sd_posts x) ++ reply (sd_profile x) ++
  [NewZens (sd_refs x)] ++ requests.

(** The number of events the log of [x] in the store of [y] grows by. *)
Definition gain (x y : side) : nat :=
  size (subview (bucketCrawl (put_all (sd_log x) (sd_store y))) (sd_id x)) -
  size (subview (bucketCrawl (sd_store y)) (sd_id x)).

(** The session [y] runs once it has met [x]. *)
Definition met (x y : side) : store := put_all (sd_log x) (sd_store y).

Lemma meet_handshake (x y : side) rest e t d z :
  ready x → ready y → small_frames x y →
  Handshake (plain (sd_key y) (sd_refs y)) (Ok (sd_nonce y))
    (mkWorld (sd_store y) (mkConn (wire [hello_of x; auth_to x y] ++ rest) e t None) d z) =
  (Ok (sd_id x), mkWorld (sd_store y)
     (mkConn rest e (t ++ wire [hello_of y; auth_to y x]) None) d (sd_id x)).
Proof.
  intros Hx Hy (_ & _ & _ & Haxy & Hayx).
  destruct (valid_key_sign (sd_key x) (sd_nonce y) (ready_key x Hx)) as (sx & Hsx & Hlx & Hvx).
  destruct (valid_key_sign (sd_key y) (sd_nonce x) (ready_key y Hy)) as (sy & Hsy & Hly & _).
  assert (∀ k m sg, ed25519_Sign k m = Ok sg → ed_sign k m = sg) as Hed.
  { intros k m sg. unfold ed25519_Sign. case_decide; intros; by simplify_eq. }
  unfold auth_to in *. rewrite (Hed _ _ _ Hsx) in *. rewrite (Hed _ _ _ Hsy) in *.
  eapply Handshake_plain; [apply ready_hello| |apply ready_hello| | | |]; eauto.
  by apply valid_key_identity, ready_key.
Qed.

(** Pulling one log of the other side. *)
Lemma meet_pull cb log l r rest e t d z s :
  cb_onMerge cb = None → cb_cursorSource cb = None → cb_cursorSink cb = None →
  good (NewRequest log 0 []) → Forall good (reply l) →
  bk_key_ok r = true → Forall (authentic r) l → subs_ok (bucketCrawl s) → r ≠ own_id s →
  pullLog cb log 0 [] (mkWorld s (mkConn (wire (reply l) ++ rest) e t None) d z) =
    ((size (subview (bucketCrawl (put_all l s)) r) - size (subview (bucketCrawl s) r), Ok tt),
     mkWorld (put_all l s) (mkConn rest e (t ++ wire [NewRequest log 0 []]) None) d z) ∧
  size (subview (bucketCrawl s) r) ≤ size (subview (bucketCrawl (put_all l s)) r).
Proof.
  intros Hm Hsrc Hsink Hq Hg Hr Hl Hs Hne.
  set (w := mkWorld s (mkConn (wire (reply l) ++ rest) e t None) d z).
  assert (Hafter : pull_after cb log 0 [] w = 0%Z).
  { unfold pull_after. rewrite Hsrc. by case_decide. }
  pose proof (pullLog_reply cb log 0 [] l rest e t s d z) as Hrun. cbv zeta in Hrun. fold w in Hrun.
  rewrite Hafter in Hrun. specialize (Hrun Hq Hg).
  destruct (pull_items_foreign cb r l (0, 0%Z)
    (mkWorld s (mkConn rest e (t ++ wire [NewRequest log 0 []]) None) d z))
    as (mx & Hitems & Hle); [done..|].
  rewrite Hitems in Hrun. cbn [w_store fst snd] in Hrun, Hle. rewrite Nat.add_0_l in Hrun.
  split; [|done]. rewrite Hrun. unfold advanceCursor. rewrite Hsink. by case_decide.
Qed.

Lemma met_own_after l log after evs s :
  own_after s log after evs → own_after (put_all l s) log after evs.
Proof.
  intros (all & Hall & ->). exists all. split; [|done].
  unfold OwnEvents. by rewrite (proj2 (put_all_crawl_only l s)).
Qed.

Lemma ready_id_ok x : ready x → bk_key_ok (sd_id x) = true.
Proof. intros Hx. apply identity_key_ok, valid_key_public, Hx. Qed.

Lemma ready_own_id x : ready x → own_id (sd_store x) = sd_id x.
Proof. intros Hx. unfold own_id. by rewrite (ready_identity x Hx). Qed.

(** Pulling both logs of the other side. *)
Lemma meet_pulls cb x y n rest e t d z :
  cb_onMerge cb = None → cb_cursorSource cb = None → cb_cursorSink cb = None →
  ready x → ready y → small_frames x y → sd_id x ≠ sd_id y →
  pull_logs cb [PostLog; ProfileLog] n (mkWorld (sd_store y)
    (mkConn (wire (reply (sd_posts x) ++ reply (sd_profile x)) ++ rest) e t None) d z) =
  ((n + gain x y, Ok tt), mkWorld (met x y) (mkConn rest e (t ++ wire requests) None) d z).
Proof.
  intros Hm Hsrc Hsink Hx Hy (Hq1 & Hq2 & _) Hne.
  pose proof (ready_authentic x Hx) as [Hp Hf]%Forall_app.
  destruct (ready_replies x Hx) as [Hg1 Hg2]. pose proof (ready_id_ok x Hx) as Hkey.
  pose proof (ready_crawl y Hy) as Hok.
  assert (Hok' : subs_ok (bucketCrawl (put_all (sd_posts x) (sd_store y)))).
  { apply (put_all_log_adds (sd_id x)); [done| |done].
    eapply Forall_impl; [exact Hp|]. intros se Hse. split; apply Hse. }
  rewrite wire_app, <-(assoc_L (++)). cbn [pull_logs].
  destruct (meet_pull cb PostLog (sd_posts x) (sd_id x) (wire (reply (sd_profile x)) ++ rest)
    e t d z (sd_store y)) as [-> Hle1]; [done..|by rewrite ready_own_id|].
  destruct (meet_pull cb ProfileLog (sd_profile x) (sd_id x) rest e
    (t ++ wire [NewRequest PostLog 0 []]) d z (put_all (sd_posts x) (sd_store y)))
    as [-> Hle2]; [done..|by rewrite put_all_own_id, ready_own_id|].
  rewrite <-put_all_app in *. fold (sd_log x) in *. rewrite <-(assoc_L (++)), <-wire_app.
  unfold gain. f_equal. f_equal. lia.
Qed.

Lemma met_log x y :
  ready x → ready y →
  subview (bucketCrawl (met x y)) (sd_id x) =
    log_adds (with_id <$> sd_log x) (subview (bucketCrawl (sd_store y)) (sd_id x)).
Proof.
  intros Hx Hy. apply put_all_log_adds; [apply Hy| |by apply ready_id_ok].
  eapply Forall_impl; [apply (ready_authentic x Hx)|]. intros se Hse. split; apply Hse.
Qed.

Lemma initiator_run x y t d z :
  ready x → ready y → small_frames x y → sd_id x ≠ sd_id y →
  RunInitiator (plain (sd_key y) (sd_refs y)) (Ok (sd_nonce y))
    (mkWorld (sd_store y) (mkConn (wire (listener_script x y)) EOF t None) d z) =
  ((gain x y + 2, Ok tt),
   mkWorld (met x y) (mkConn [] EOF (t ++ wire (initiator_script y x)) None) d (sd_id x)).
Proof.
  intros Hx Hy Hsmall Hne. unfold RunInitiator, listener_script.
  rewrite wire_app. rewrite (meet_handshake x y) by done.
  rewrite (assoc_L (++) (reply _)), wire_app.
  rewrite (meet_pulls _ x y 0) by done.
  rewrite wire_app. rewrite exchangeZens_plain by (apply ready_zens; done).
  unfold wrapM, on_conn. cbn [w_conn]. destruct Hsmall as (Hq1 & Hq2 & Hrev & _).
  rewrite WriteMsg_good by done. cbn [wrap].
  unfold set_conn. cbn [w_store w_env w_cursorZen]. unfold requests.
  rewrite (serve_two _ _ _ (sd_posts y) _ _ (sd_profile y));
    [|by apply met_own_after, Hy|by apply met_own_after, Hy|done|done|apply Hy|apply Hy].
  unfold initiator_script, requests. rewrite !wire_app, <-!(assoc_L (++)).
  change [NewZens (sd_refs y); NewReverse] with ([NewZens (sd_refs y)] ++ [NewReverse]).
  rewrite wire_app, <-!(assoc_L (++)). done.
Qed.

Lemma listener_run x y e t d z :
  ready x → ready y → small_frames x y → sd_id x ≠ sd_id y →
  RunListener (plain (sd_key y) (sd_refs y)) (Ok (sd_nonce y))
    (mkWorld (sd_store y) (mkConn (wire (initiator_script x y)) e t None) d z) =
  ((2 + gain x y, Ok tt),
   mkWorld (met x y) (mkConn [] e (t ++ wire (listener_script y x)) None) d (sd_id x)).
Proof.
  intros Hx Hy Hsmall Hne. unfold RunListener, initiator_script.
  rewrite wire_app. rewrite (meet_handshake x y) by done.
  assert (Hsplit : requests ++ [NewZens (sd_refs x); NewReverse] ++
      reply (sd_posts x) ++ reply (sd_profile x) =
    ([NewRequest PostLog 0 []] ++ [NewRequest ProfileLog 0 []] ++ [NewZens (sd_refs x)] ++
      [NewReverse]) ++ reply (sd_posts x) ++ reply (sd_profile x)) by done.
  rewrite Hsplit, wire_app. pose proof Hsmall as (Hq1 & Hq2 & Hrev & _).
  rewrite (serveWithZens_two _ _ (sd_refs x) _ _ _ (sd_posts y) _ _ (sd_profile y));
    try done; try apply Hy; try apply Hx.
  rewrite <-(app_nil_r (wire (reply _ ++ reply _))).
  rewrite (meet_pulls _ x y 2) by done.
  unfold listener_script. by rewrite !wire_app, <-!(assoc_L (++)).
Qed.
End meet.
