(* ===== verification/SessionInv.v ===== *)
(** * What a peer can make a session store

    An invariant of every phase of a session, whatever bytes the peer sends:
    the logs only grow, and only by events that verify, filed under their own
    author. *)

From S2P Require Import Prelude Base32 External Identity Event Log Bolt Store StoreFacts StoreFollow StoreQuery Wire Session SessionFacts SessionRuns.
#[local] Open Scope go_scope.

Section inv.
Context `{BoltLaws, Blake3, !Blake3Laws, Ed25519, CborText}.
Context `{!CborType Event, !CborLaws Event, !CborType SignedEvent, !CborLaws SignedEvent}.
Context `{!CborType Message, !CborLaws Message}.
Context {D : Type}.
Implicit Types (w : world D) (cb : callbacks D) (d : D).

(** ** Growing by verified events *)

(** [p'] is [p] with more events, each of which verifies and is where [ok]
    allows it. *)
Definition grows (ok : bytes → SignedEvent → Prop) (p p' : bucket (bucket bytes)) : Prop :=
  subs_ok p' ∧ ∀ n k se,
    (subview p n !! k = Some se → subview p' n !! k = Some se) ∧
    (subview p' n !! k = Some se → subview p n !! k = Some se ∨
       Verify se = Ok tt ∧ ID se = Ok k ∧ ok n se).

Lemma grows_refl ok p : subs_ok p → grows ok p p.
Proof. intros Hp. split; [done|]. intros n k se. by split; [|left]. Qed.

Lemma grows_adds (ok : bytes → SignedEvent → Prop) p0 p p' n id se :
  grows ok p0 p → adds n id se p p' → Verify se = Ok tt → ID se = Ok id → ok n se →
  grows ok p0 p'.
Proof.
  intros [_ Hg] [Hok' Hv] Hver HID Hn. split; [done|]. intros n' k se'. rewrite Hv.
  destruct (Hg n' k se') as [Hkeep Hnew].
  case_decide as Hname; [subst n'|by split; [intros ?; apply Hkeep|]].
  unfold log_add. case_decide as Hs; [by split|].
  assert (Hfree : subview p n !! id = None).
  { apply eq_None_not_Some. intros Hin. apply Hs. by left. }
  split.
  - intros Hin%Hkeep. rewrite lookup_insert_ne; [done|]. intros ->. by rewrite Hfree in Hin.
  - destruct (decide (id = k)) as [->|Hne].
    + rewrite lookup_insert_eq. intros [= <-]. by right.
    + rewrite lookup_insert_ne by done. apply Hnew.
Qed.

(** The store [s] has grown from [old] by events of others in the cache and
    events of the user's own in the logs. *)
Definition own_place (old : store) (log : bytes) (se : SignedEvent) : Prop :=
  se_Author se = own_id old ∧ e_Log (se_Event se) = log.
Definition crawl_place (old : store) (a : bytes) (se : SignedEvent) : Prop :=
  se_Author se = a ∧ a ≠ own_id old.

Record grown (old s : store) : Prop := {
  grown_meta : bucketMeta s = bucketMeta old;
  grown_own : grows (own_place old) (bucketOwn old) (bucketOwn s);
  grown_crawl : grows (crawl_place old) (bucketCrawl old) (bucketCrawl s);
}.

Lemma grown_refl s : subs_ok (bucketOwn s) → subs_ok (bucketCrawl s) → grown s s.
Proof. intros Ho Hc. split; [done|by apply grows_refl..]. Qed.

Lemma grown_own_id old s : grown old s → own_id s = own_id old.
Proof. intros [Hm _ _]. unfold own_id, Store_Identity. by rewrite Hm. Qed.

Lemma grown_merge old s se :
  wf se = true → Verify se = Ok tt → grown old s →
  grown old (if decide (se_Author se = own_id s)
             then (AppendOwnEvent (e_Log (se_Event se)) se s).2 else (PutCrawledEvent se s).2).
Proof.
  intros Hwf Hver Hg. pose proof (grown_own_id _ _ Hg) as Hid. destruct Hg as [Hm Ho Hc].
  rewrite Hid. case_decide as Hau.
  - destruct (AppendOwnEvent _ se s) as [r s'] eqn:Hrun.
    destruct (AppendOwnEvent_any _ _ _ _ _ Hwf (proj1 Ho) Hrun) as [[-> _]|(id & own & HID & Ha & ->)];
      [done|]. cbn [snd]. split; [done| |done]. by eapply grows_adds.
  - destruct (PutCrawledEvent se s) as [r s'] eqn:Hrun.
    destruct (PutCrawledEvent_any _ _ _ _ Hwf (proj1 Hc) Hrun) as [[-> _]|(id & cr & HID & Ha & ->)];
      [done|]. cbn [snd]. split; [done|done|]. by eapply grows_adds.
Qed.

(** ** Whole sessions *)

(** Callbacks that write elsewhere, cursors for instance. *)
Definition same_logs (s s' : store) : Prop :=
  bucketMeta s' = bucketMeta s ∧ bucketOwn s' = bucketOwn s ∧ bucketCrawl s' = bucketCrawl s.

Record neutral cb : Prop := {
  neutral_zen f : cb_onZen cb = Some f → ∀ r s d, same_logs s (f r s d).1;
  neutral_authed f : cb_onAuthed cb = Some f → ∀ i s d, same_logs s (f i s d).1;
  neutral_merge f : cb_onMerge cb = Some f → ∀ se i s d, same_logs s (f se i s d).1;
  neutral_sink f : cb_cursorSink cb = Some f → ∀ i l c s d, same_logs s (f i l c s d).2.1;
}.

Lemma grown_same old s s' : same_logs s s' → grown old s → grown old s'.
Proof. intros (Hm & Ho & Hc) [Hm' Ho' Hc']. split; congruence. Qed.

Section safe.
Context (old : store) cb (Hcb : neutral cb).

Definition inv w : Prop := grown old (w_store w).
Definition safe {R} (m : world D → R * world D) : Prop := ∀ w, inv w → inv (m w).2.

Lemma safe_bind {A B} (m : stM (world D) A) (f : A → stM (world D) B) :
  safe m → (∀ a, safe (f a)) → safe (m ≫= f).
Proof.
  intros Hm Hf w Hw. unfold mbind, stM_bind. pose proof (Hm w Hw) as Hw'.
  destruct (m w) as [[a|e] w']; [by apply Hf|done].
Qed.
Lemma safe_lift {A} (r : result A) : safe (lift r).
Proof. by intros w Hw. Qed.
Lemma safe_wrapM {A} s (m : stM (world D) A) : safe m → safe (wrapM s m).
Proof. intros Hm w Hw. unfold wrapM. specialize (Hm w Hw). by destruct (m w). Qed.
Lemma safe_attempt {A} (m : stM (world D) A) : safe m → safe (attempt m).
Proof. intros Hm w Hw. unfold attempt. specialize (Hm w Hw). by destruct (m w). Qed.
Lemma safe_on_conn {A} (m : stM conn A) : safe (on_conn m).
Proof. intros w Hw. unfold on_conn. by destruct (m (w_conn w)). Qed.

Lemma inv_set_conn c w : inv w → inv (set_conn c w).
Proof. done. Qed.

Lemma safe_answer msg h : answer msg = Some h → safe h.
Proof.
  unfold answer. repeat case_decide; intros [= <-] w Hw.
  - unfold handleRequest. destruct (m_Request msg) as [req|]; [|done].
    destruct (fetchEvents _ _); [by apply safe_on_conn|done].
  - unfold handleFollowers. destruct (ReceivedFollowEvents _); [by apply safe_on_conn|done].
  - unfold handleLikeRequest. destruct (m_LikeRequest msg) as [req|]; [|done].
    destruct (LikesForPosts _ _); [by apply safe_on_conn|done].
Qed.

Lemma inv_merge se w :
  wf se = true → Verify se = Ok tt → inv w → inv (Session_mergeEvent cb se w).2.
Proof.
  intros Hwf Hver Hw. pose proof (grown_merge _ _ _ Hwf Hver Hw) as Hg.
  unfold Session_mergeEvent.
  match goal with |- context [if decide ?P then ?a else ?b] =>
    destruct (if decide P then a else b) as [[i r] s] eqn:Hrun end.
  assert (Hs : inv (set_store s w)).
  { unfold inv. cbn. case_decide; [|by rewrite Hrun in Hg].
    destruct (AppendOwnEvent _ _ _) as [r' s'] eqn:Ha. by simplify_eq/=. }
  cbn. destruct (cb_onMerge cb) as [f|] eqn:Hf; [|done].
  eapply grown_same; [|exact Hs]. by apply (neutral_merge _ Hcb).
Qed.

Lemma inv_pull_items items acc w :
  forallb (λ se : SignedEvent, wf se) items = true → inv w → inv (pull_items cb items acc w).2.
Proof.
  revert acc w. induction items as [|se items IH]; intros acc w; [done|]. cbn [forallb pull_items].
  intros [Hse Hitems]%andb_prop Hw.
  assert (Hw' : inv (pull_item cb acc se w).2).
  { unfold pull_item. destruct (Verify se) as [[]|] eqn:Hver; [|done].
    pose proof (inv_merge se w Hse Hver Hw) as Hm.
    by destruct (Session_mergeEvent cb se w) as [[i [u|e]] w']. }
  destruct (pull_item cb acc se w) as [a w']. by apply IH.
Qed.

Lemma inv_advance log after ts w : inv w → inv (advanceCursor cb log after ts w).
Proof.
  intros Hw. unfold advanceCursor. case_decide; [done|].
  destruct (cb_cursorSink cb) as [f|] eqn:Hf; [|done]. destruct (ts =? 0)%Z; [done|].
  match goal with |- context [f ?i ?l ?c ?s ?d] =>
    pose proof (neutral_sink _ Hcb f Hf i l c s d) as Hs; destruct (f i l c s d) as [r sd] end.
  by eapply grown_same.
Qed.

Lemma wf_events msg evs :
  wf msg = true → m_Events msg = Some evs → forallb (λ se : SignedEvent, wf se) (Items evs) = true.
Proof.
  unfold wf, Message_wf. rewrite !andb_true_iff. intros (((((_ & _) & He) & _) & _) & _) Hm.
  by rewrite Hm in He.
Qed.

Lemma safe_pull log after author : safe (pullLog cb log after author).
Proof.
  intros w Hw. unfold pullLog.
  match goal with |- context [wrapM ?s ?m w] => pose proof (safe_wrapM s m (safe_on_conn _) w Hw) as Hw1;
    destruct (wrapM s m w) as [[u|e] w1] end; [|done].
  eapply (loop_invariant _ _ inv); [apply pull_loop_runs|done| | |done].
  - intros acc msg w2 r w3 Hmsg Hw2. unfold pull_body. case_decide; [|case_decide].
    + destruct (m_Events msg) as [evs|] eqn:He; [|intros Heq; by simplify_eq].
      pose proof (inv_pull_items (Items evs) acc w2 (wf_events _ _ Hmsg He) Hw2) as Hi.
      destruct (pull_items cb (Items evs) acc w2). intros Heq; by simplify_eq.
    + intros Heq; simplify_eq. by apply inv_advance.
    + intros Heq; by simplify_eq.
  - intros acc e w2 Hw2. unfold pull_err. destruct (is_eof e); [by apply inv_advance|done].
Qed.

Lemma inv_learn msg w : inv w → inv (learn cb msg w).
Proof.
  unfold learn. destruct (cb_onZen cb) as [f|] eqn:Hf; [|done].
  generalize (zensFromMsg msg) as refs. intros refs. revert w.
  induction refs as [|r refs IH]; intros w Hw; [done|]. cbn. apply IH.
  eapply grown_same; [|exact Hw]. by apply (neutral_zen _ Hcb).
Qed.

Lemma safe_serve : safe serve.
Proof.
  intros w Hw. unfold serve. eapply (loop_invariant _ _ inv);
    [apply loop_sound, serve_reads_nothing|done| |done|done].
  intros acc msg w2 r w3 _ Hw2. unfold serve_body. destruct (answer msg) as [h|] eqn:Ha.
  - pose proof (safe_answer _ _ Ha w2 Hw2) as Hh.
    destruct (h w2) as [[u|e] w4]; intros Heq; by simplify_eq.
  - case_decide; intros Heq; by simplify_eq.
Qed.

Lemma safe_serveWithZens : safe (serveWithZens cb).
Proof.
  intros w Hw. unfold serveWithZens. eapply (loop_invariant _ _ inv);
    [apply loop_sound, swz_reads_nothing|done| |done|done].
  intros [served sent] msg w2 r w3 _ Hw2. unfold swz_body. destruct (answer msg) as [h|] eqn:Ha.
  - pose proof (safe_answer _ _ Ha w2 Hw2) as Hh.
    destruct (h w2) as [[u|e] w4]; intros Heq; by simplify_eq.
  - repeat case_decide; [|intros Heq; by simplify_eq..].
    pose proof (inv_learn msg w2 Hw2) as Hl.
    destruct sent; [intros Heq; by simplify_eq|].
    match goal with |- context [wrapM ?s ?m ?w] =>
      pose proof (safe_wrapM s m (safe_on_conn _) w Hl) as Hs; destruct (wrapM s m w) as [[u|e] w4] end;
      intros Heq; by simplify_eq.
Qed.

Lemma safe_exchangeZens : safe (exchangeZens cb).
Proof.
  intros w Hw. unfold exchangeZens.
  match goal with |- context [wrapM ?s ?m w] =>
    pose proof (safe_wrapM s m (safe_on_conn _) w Hw) as Hs; destruct (wrapM s m w) as [[u|e] w1] end;
    [|done].
  eapply (loop_invariant _ _ inv); [apply loop_sound, zens_reads_nothing|done| |done|done].
  intros acc msg w2 r w3 _ Hw2. unfold zens_body.
  case_decide; intros Heq; simplify_eq; [by apply inv_learn|done].
Qed.

Lemma safe_authed id : safe (λ w, (Ok id, authed cb id w)).
Proof.
  intros w Hw. unfold authed. cbn. destruct (cb_onAuthed cb) as [f|] eqn:Hf; [|done].
  eapply grown_same; [|exact Hw]. by apply (neutral_authed _ Hcb).
Qed.

Lemma safe_Handshake nonce : safe (Handshake cb nonce).
Proof.
  unfold Handshake. destruct (cb_key cb) as [key|]; [|by intros w Hw].
  repeat (first [apply safe_bind; [|intros ?]
                |apply safe_wrapM|apply safe_attempt|apply safe_lift|apply safe_on_conn]).
  destruct (negb _); [apply safe_lift|apply safe_authed].
Qed.

Lemma safe_pull_logs logs merged : safe (pull_logs cb logs merged).
Proof.
  revert merged. induction logs as [|lg logs IH]; intros merged w Hw; [done|]. cbn [pull_logs].
  pose proof (safe_pull lg 0 [] w Hw) as Hp.
  destruct (pullLog cb lg 0 [] w) as [[n [u|e]] w']; [by apply IH|done].
Qed.

Lemma safe_RunInitiator nonce : safe (RunInitiator cb nonce).
Proof.
  intros w Hw. unfold RunInitiator. pose proof (safe_Handshake nonce w Hw) as Hw1.
  destruct (Handshake cb nonce w) as [[id|e] w1]; [|done].
  pose proof (safe_pull_logs [PostLog; ProfileLog] 0 w1 Hw1) as Hw2.
  destruct (pull_logs cb _ 0 w1) as [[n [u|e]] w2]; [|done].
  pose proof (safe_exchangeZens w2 Hw2) as Hw3.
  destruct (exchangeZens cb w2) as [[u'|e] w3]; [|done].
  match goal with |- context [wrapM ?s ?m w3] =>
    pose proof (safe_wrapM s m (safe_on_conn _) w3 Hw3) as Hw4;
    destruct (wrapM s m w3) as [[u2|e] w4] end; [|done].
  pose proof (safe_serve w4 Hw4) as Hw5. by destruct (serve w4) as [[n' [u3|e]] w5].
Qed.

Lemma safe_RunListener nonce : safe (RunListener cb nonce).
Proof.
  intros w Hw. unfold RunListener. pose proof (safe_Handshake nonce w Hw) as Hw1.
  destruct (Handshake cb nonce w) as [[id|e] w1]; [|done].
  pose proof (safe_serveWithZens w1 Hw1) as Hw2.
  destruct (serveWithZens cb w1) as [[n [u|e]] w2]; [|done]. by apply safe_pull_logs.
Qed.
End safe.
End inv.
