(* ===== verification/SessionCursor.v ===== *)
(** * Cursors and authentication of a session

    What the callbacks the daemon installs make of a pull, and what an
    accepted handshake proves. *)

From S2P Require Import Prelude Base32 External Identity Event Log Bolt Store StoreFacts StoreFollow StoreQuery Wire Session SessionFacts SessionRuns SessionInv.
#[local] Open Scope go_scope.

Section cursors.
Context `{BoltLaws, Blake3, !Blake3Laws, Ed25519, CborText}.
Context `{!CborType Event, !CborLaws Event, !CborType SignedEvent, !CborLaws SignedEvent}.
Context `{!CborType Message, !CborLaws Message}.
Context {D : Type}.
Implicit Types (w : world D) (cb : callbacks D) (d : D).

(** [sess.SetCursorSource(d.store.SyncCursor)] and
    [sess.SetCursorSink(d.store.PutSyncCursor)]. *)
Definition store_source (zen log : bytes) (s : store) (d : D) : result Z := SyncCursor zen log s.
Definition store_sink (zen log : bytes) (ts : Z) (s : store) (d : D) : result unit * (store * D) :=
  let '(r, s) := PutSyncCursor zen log ts s in (r, (s, d)).

(** Cursors in the store, and a merge callback that leaves them alone. *)
Record store_cursors cb : Prop := {
  cursors_source : cb_cursorSource cb = Some store_source;
  cursors_sink : cb_cursorSink cb = Some store_sink;
  cursors_merge f : cb_onMerge cb = Some f →
    ∀ se i s d, bucketCursor (f se i s d).1 = bucketCursor s;
}.

Lemma AppendOwnEvent_cursor log se s : bucketCursor (AppendOwnEvent log se s).2 = bucketCursor s.
Proof.
  unfold AppendOwnEvent, wrapM, lift, Update, mbind, stM_bind.
  destruct (ID se) as [id|e]; [|by destruct e]. cbn.
  destruct (CanonicalEncode se) as [v|e]; [|by destruct e]. cbn.
  destruct (bk_CreateBucketIfNotExists _ _) as [[b p]|]; [|done].
  destruct (bk_get b _); [done|]. destruct (like_dup se b); [done|]. by destruct (bk_Put _ _ b).
Qed.

Lemma PutCrawledEvent_cursor se s : bucketCursor (PutCrawledEvent se s).2 = bucketCursor s.
Proof.
  unfold PutCrawledEvent. destruct (ID se); [|done]. destruct (CanonicalEncode se); [|done].
  destruct (bk_CreateBucketIfNotExists _ _) as [[b p]|]; [|done].
  destruct (bk_get b _); [done|]. destruct (like_dup se b); [done|]. by destruct (bk_Put _ _ b).
Qed.

Lemma merge_cursor cb se w :
  store_cursors cb →
  bucketCursor (w_store (Session_mergeEvent cb se w).2) = bucketCursor (w_store w) ∧
  w_cursorZen (Session_mergeEvent cb se w).2 = w_cursorZen w.
Proof.
  intros Hcb. unfold Session_mergeEvent.
  match goal with |- context [if decide ?P then ?a else ?b] =>
    destruct (if decide P then a else b) as [[i r] s] eqn:Hrun end.
  assert (Hs : bucketCursor s = bucketCursor (w_store w)).
  { case_decide.
    - destruct (AppendOwnEvent _ _ _) as [r' s'] eqn:Ha. simplify_eq/=.
      by rewrite <-(AppendOwnEvent_cursor (e_Log (se_Event se)) se (w_store w)), Ha.
    - by rewrite <-(PutCrawledEvent_cursor se (w_store w)), Hrun. }
  cbn. destruct (cb_onMerge cb) as [f|] eqn:Hf; [|done]. split; [|done].
  cbn. rewrite (cursors_merge _ Hcb f Hf). done.
Qed.

(** What a pull has seen: no cursor moved yet, and the largest timestamp is
    zero or that of an event that verified. *)
Definition seen (zen : bytes) (cursors : bucket bytes) (acc : nat * Z) w : Prop :=
  bucketCursor (w_store w) = cursors ∧ w_cursorZen w = zen ∧
  (acc.2 = 0%Z ∨ (0 < acc.2 < 2 ^ 63)%Z ∧
     ∃ se, Verify se = Ok tt ∧ e_Timestamp (se_Event se) = acc.2).

Lemma wf_timestamp (se : SignedEvent) : wf se = true → in_i64 (e_Timestamp (se_Event se)).
Proof.
  unfold wf, SignedEvent_wf. intros [He _]%andb_prop. unfold wf, Event_wf in He.
  rewrite !andb_true_iff, !bool_decide_eq_true in He. unfold in_i64. tauto.
Qed.

Lemma seen_item cb zen cursors acc se w :
  store_cursors cb → wf se = true → seen zen cursors acc w →
  seen zen cursors (pull_item cb acc se w).1 (pull_item cb acc se w).2.
Proof.
  intros Hcb Hwf (Hc & Hz & Hmax). unfold pull_item.
  destruct (Verify se) as [[]|] eqn:Hver; [|done].
  destruct (merge_cursor cb se w Hcb) as [Hc' Hz'].
  destruct (Session_mergeEvent cb se w) as [[i [u|e]] w1]; cbn [fst snd] in *;
    [|split_and!; [congruence|congruence|done]].
  split_and!; [congruence|congruence|].
  destruct (Z.ltb_spec acc.2 (e_Timestamp (se_Event se))) as [Hlt|_]; [|done].
  right. pose proof (wf_timestamp se Hwf) as Hts. split; [|by exists se].
  cbn [snd]. unfold in_i64 in Hts. destruct Hmax as [Hz0|[Hpos _]]; lia.
Qed.

Lemma seen_items cb zen cursors items acc w :
  store_cursors cb → forallb (λ se : SignedEvent, wf se) items = true → seen zen cursors acc w →
  seen zen cursors (pull_items cb items acc w).1 (pull_items cb items acc w).2.
Proof.
  intros Hcb. revert acc w. induction items as [|se items IH]; intros acc w; [done|].
  cbn [forallb pull_items]. intros [Hse Hitems]%andb_prop Hs.
  pose proof (seen_item cb _ _ acc se w Hcb Hse Hs) as Hs'.
  destruct (pull_item cb acc se w) as [a w']. by apply IH.
Qed.

(** Where the cursor of [zen] and [log] is after a pull that asked for events
    after [c0]. *)
Definition cursor_after (zen log : bytes) (c0 : Z) (cursors : bucket bytes) (s : store) : Prop :=
  (∀ k, k ≠ cursorKey zen log → bk_get (bucketCursor s) k = bk_get cursors k) ∧
  ∃ c1, SyncCursor zen log s = Ok c1 ∧ (c0 ≤ c1)%Z ∧
    (c1 = c0 ∨ ∃ se, Verify se = Ok tt ∧ c1 = (e_Timestamp (se_Event se) - cursorSkewWindow)%Z).

Lemma SyncCursor_bucket zen log s s' :
  bucketCursor s = bucketCursor s' → SyncCursor zen log s = SyncCursor zen log s'.
Proof. unfold SyncCursor. by intros ->. Qed.

Lemma advance_seen cb zen log c0 s0 acc w :
  store_cursors cb → zen ≠ [] → bk_key_ok (cursorKey zen log) = true →
  SyncCursor zen log s0 = Ok c0 → (0 ≤ c0 < 2 ^ 63)%Z →
  seen zen (bucketCursor s0) acc w →
  cursor_after zen log c0 (bucketCursor s0) (w_store (advanceCursor cb log c0 acc.2 w)).
Proof.
  intros Hcb Hzen Hkey Hc0 Hr (Hc & Hz & Hmax). unfold advanceCursor.
  rewrite Hz, decide_False by done. rewrite (cursors_sink _ Hcb).
  destruct (Z.eqb_spec acc.2 0) as [|Hne].
  { split; [by rewrite Hc|]. exists c0. split_and!; [|lia|by left].
    by rewrite (SyncCursor_bucket _ _ _ s0). }
  destruct Hmax as [?|[Hpos (se & Hver & Hts)]]; [done|].
  rewrite wrap_i64_id by (unfold in_i64, cursorSkewWindow in *; lia).
  set (c := if (acc.2 - cursorSkewWindow <? c0)%Z then c0 else (acc.2 - cursorSkewWindow)%Z).
  assert (Hcr : in_i64 c ∧ (c0 ≤ c)%Z ∧ (c = c0 ∨ c = acc.2 - cursorSkewWindow)%Z).
  { unfold c, in_i64, cursorSkewWindow.
    destruct (Z.ltb_spec (acc.2 - 5 * 60 * 1000000000) c0); lia. }
  destruct Hcr as (Hcr & Hle & Hwhich).
  unfold store_sink. rewrite PutSyncCursor_ok by done. cbn [set_world_env w_store fst].
  split.
  - intros k Hk. cbn [bucketCursor set_cursor]. rewrite bk_get_set, decide_False by done.
    by rewrite Hc.
  - exists c. rewrite SyncCursor_put, decide_True by done. split_and!; [done|done|].
    destruct Hwhich as [?|Hw]; [by left|]. right. exists se. by rewrite Hts.
Qed.

Lemma pull_cursor cb zen log c0 w :
  store_cursors cb → zen ≠ [] → w_cursorZen w = zen → bk_key_ok (cursorKey zen log) = true →
  SyncCursor zen log (w_store w) = Ok c0 → (0 ≤ c0 < 2 ^ 63)%Z →
  pull_after cb log 0 [] w = c0 ∧
  cursor_after zen log c0 (bucketCursor (w_store w)) (w_store (pullLog cb log 0 [] w).2).
Proof.
  intros Hcb Hzen Hz Hkey Hc0 Hr.
  assert (Hsame : cursor_after zen log c0 (bucketCursor (w_store w)) (w_store w)).
  { split; [done|]. exists c0. split_and!; [done|lia|by left]. }
  assert (Hafter : pull_after cb log 0 [] w = c0).
  { unfold pull_after. rewrite decide_True by (rewrite Hz; done).
    rewrite (cursors_source _ Hcb), Hz. unfold store_source. rewrite Hc0.
    destruct (Z.ltb_spec 0 c0); lia. }
  split; [done|]. unfold pullLog. rewrite Hafter. unfold wrapM, on_conn.
  destruct (WriteMsg _ (w_conn w)) as [[u|e] c]; [|by destruct e]. cbn [wrap].
  set (w1 := set_conn c w).
  apply (loop_rule _ _ (seen zen (bucketCursor (w_store w)))
    (λ _ w', cursor_after zen log c0 (bucketCursor (w_store w)) (w_store w')) _ _ _
    (pull_loop_runs cb log c0 w1)); [done| | | |by split_and!; [| |left]].
  - intros acc msg w2 acc' w' Hmsg Hs. unfold pull_body. repeat case_decide; [|intros Heq; by simplify_eq..].
    destruct (m_Events msg) as [evs|] eqn:He; [|intros Heq; by simplify_eq].
    pose proof (seen_items cb _ _ (Items evs) acc w2 Hcb (wf_events _ _ Hmsg He) Hs) as Hi.
    destruct (pull_items cb (Items evs) acc w2). intros Heq; by simplify_eq.
  - intros acc msg w2 r w' _ Hs. unfold pull_body. repeat case_decide.
    + destruct (m_Events msg) as [evs|]; [destruct (pull_items cb (Items evs) acc w2)|];
        intros Heq; by simplify_eq.
    + intros Heq; simplify_eq. by apply advance_seen.
    + intros Heq; by simplify_eq.
  - intros acc e w2 Hs. unfold pull_err. destruct (is_eof e); [by apply advance_seen|].
    destruct Hs as (Hc & _). split; [by cbn; rewrite Hc|].
    exists c0. split_and!; [|lia|by left]. cbn. by rewrite (SyncCursor_bucket _ _ _ (w_store w)).
Qed.

(** ** What an accepted handshake proves *)

Lemma on_conn_Ok {A} (m : stM conn A) w a w' :
  on_conn m w = (Ok a, w') → ∃ c, m (w_conn w) = (Ok a, c) ∧ w' = set_conn c w.
Proof. unfold on_conn. destruct (m (w_conn w)) as [r c]. intros [= -> <-]. by exists c. Qed.

Lemma wrapM_Ok {S A} m (x : stM S A) s a s' : wrapM m x s = (Ok a, s') → x s = (Ok a, s').
Proof.
  unfold wrapM. destruct (x s) as [r s1]. intros [= Hr <-]. apply wrap_Ok in Hr. by subst.
Qed.

Lemma lift_Ok {S A} (r : result A) (s : S) a s' : lift r s = (Ok a, s') → r = Ok a ∧ s' = s.
Proof. by intros [= -> <-]. Qed.

Lemma attempt_rx {A} (m : stM conn A) w r w' :
  keeps_rx m → attempt (on_conn m) w = (Ok r, w') → rx (w_conn w') = rx (w_conn w).
Proof.
  intros Hm. unfold attempt, on_conn. destruct (m (w_conn w)) as [r1 c] eqn:Hr. intros [= _ <-].
  by eapply Hm.
Qed.

(** The two messages an accepted handshake read. *)
Record handshake_read cb (nonce id : bytes) w w' (h a : Message) (pub : bytes) : Prop := {
  hs_hello : ∃ c c', rx c = rx (w_conn w) ∧ ReadMsg c = (Ok h, c') ∧
             ∃ c2 c3, rx c2 = rx c' ∧ ReadMsg c2 = (Ok a, c3) ∧ rx (w_conn w') = rx c3;
  hs_identity : h_Identity <$> m_Hello h = Some id;
  hs_key : PubkeyBytes id = Ok pub;
  hs_signature : ∃ sig, m_Auth a = Some (mkAuth sig) ∧ ed_verify pub nonce sig = true;
}.

Lemma Handshake_Ok cb key nonce id w w' :
  cb_key cb = Some key → Handshake cb (Ok nonce) w = (Ok id, w') →
  ∃ h a pub, handshake_read cb nonce id w w' h a pub.
Proof.
  intros Hkey. unfold Handshake. rewrite Hkey. intros Hrun.
  apply stM_bind_Ok in Hrun as (n & w1 & Hn & Hrun). apply wrapM_Ok, lift_Ok in Hn as [[= <-] ->].
  apply stM_bind_Ok in Hrun as (we & w2 & Hwe & Hrun).
  apply attempt_rx in Hwe; [|apply keeps_WriteMsg].
  apply stM_bind_Ok in Hrun as (h & w3 & Hh & Hrun).
  apply wrapM_Ok, on_conn_Ok in Hh as (c1 & Hh & ->).
  apply stM_bind_Ok in Hrun as (u & w4 & Hu & Hrun). apply wrapM_Ok, lift_Ok in Hu as [_ ->].
  apply stM_bind_Ok in Hrun as (hello & w5 & Hhello & Hrun). apply lift_Ok in Hhello as [Hhello ->].
  apply stM_bind_Ok in Hrun as (pub & w6 & Hpub & Hrun). apply wrapM_Ok, lift_Ok in Hpub as [Hpub ->].
  apply stM_bind_Ok in Hrun as (sig & w7 & Hsig & Hrun). apply lift_Ok in Hsig as [_ ->].
  apply stM_bind_Ok in Hrun as (we2 & w8 & Hwe2 & Hrun).
  apply attempt_rx in Hwe2; [|apply keeps_WriteMsg].
  apply stM_bind_Ok in Hrun as (a & w9 & Ha & Hrun).
  apply wrapM_Ok, on_conn_Ok in Ha as (c2 & Ha & ->).
  apply stM_bind_Ok in Hrun as (u2 & w10 & Hu & Hrun). apply wrapM_Ok, lift_Ok in Hu as [_ ->].
  apply stM_bind_Ok in Hrun as (auth & w11 & Hauth & Hrun). apply lift_Ok in Hauth as [Hauth ->].
  apply stM_bind_Ok in Hrun as (ok & w12 & Hok & Hrun). apply lift_Ok in Hok as [Hok ->].
  destruct ok; cbn [negb] in Hrun; [|done]. injection Hrun as Hid Hw'.
  exists h, a, pub. split.
  - exists (w_conn w2), c1. split_and!; [done|done|]. exists (w_conn w8), c2.
    split_and!; [by rewrite Hwe2|done|]. rewrite <-Hw'. unfold authed.
    by destruct (cb_onAuthed cb).
  - unfold expect_hello in Hhello. destruct (m_Hello h) as [hh|]; [|done].
    case_decide; [|done]. injection Hhello as ->. cbn. by rewrite Hid.
  - by rewrite <-Hid.
  - unfold expect_auth in Hauth. destruct (m_Auth a) as [aa|]; [|done].
    case_decide; [|done]. injection Hauth as ->. exists (auth_Signature auth).
    split; [by destruct auth|]. unfold ed25519_Verify in Hok. case_decide; [|done]. by injection Hok.
Qed.
End cursors.
