(* ===== verification/SessionLoops.v ===== *)
(** * Where the read loops end

    Each loop of a session takes the messages of the peer one by one up to the
    first that ends it, or to where reading fails. [scans] says which those are;
    here every loop is shown to do with them what its [switch] says, and to
    leave unread what follows. *)

From S2P Require Import Prelude Base32 External Identity Event Log Bolt Store StoreFollow StoreQuery Wire Session SessionFacts SessionRuns.
#[local] Open Scope go_scope.

(** ** Reading does not write, writing does not read *)

(** The connection [c] with what is left to read in [i]. *)
Definition in_of (i c : conn) : conn := mkConn (rx i) (rx_end i) (tx c) (tx_room c).

Definition blind {A} (m : stM conn A) : Prop :=
  ∀ i c, m (in_of i c) = let '(r, c') := m c in (r, in_of i c').

Lemma blind_lift {A} (r : result A) : blind (lift r).
Proof. by intros i c. Qed.

Lemma blind_bind {A B} (m : stM conn A) (f : A → stM conn B) :
  blind m → (∀ a, blind (f a)) → blind (m ≫= f).
Proof.
  intros Hm Hf i c. unfold mbind, stM_bind. rewrite Hm. destruct (m c) as [[a|e] c1]; [apply Hf|done].
Qed.

Lemma blind_wrap {A} s (m : stM conn A) : blind m → blind (wrapM s m).
Proof. intros Hm i c. unfold wrapM. rewrite Hm. by destruct (m c). Qed.

Lemma blind_forM {A} (l : list A) f : (∀ x, blind (f x)) → blind (forM_ l f).
Proof. intros Hf. induction l as [|x l IH]; [apply (blind_lift (Ok tt))|]. by apply blind_bind. Qed.

Lemma blind_Write d : blind (Write d).
Proof. intros i c. unfold Write. cbn. destruct (tx_room c); [|done]. by destruct (_ <=? _). Qed.

Lemma ReadFull_in n c c0 :
  ReadFull n (in_of c c0) = let '(r, c') := ReadFull n c in (r, in_of c' c0).
Proof. unfold ReadFull. cbn. destruct (_ <=? _); [done|]. destruct (rx c); [done|]. by destruct (rx_end c). Qed.

Section loops.
Context `{Bolt, Blake3, Ed25519, CborText}.
Context `{!CborType Event, !CborType SignedEvent, !CborType Message, !CborLaws Message}.
Context {D : Type}.
Implicit Types (w : world D) (cb : callbacks D) (d : D).

Lemma blind_WriteMsg m : blind (WriteMsg m).
Proof.
  unfold WriteMsg. apply blind_bind; [apply blind_wrap, blind_lift|]. intros d.
  destruct (_ <? _)%Z; [apply blind_lift|].
  apply blind_bind; [apply blind_wrap, blind_Write|]. intros _. apply blind_wrap, blind_Write.
Qed.

Lemma blind_send m evs : blind (send_events m evs).
Proof.
  unfold send_events. apply blind_bind; [|intros; apply blind_WriteMsg].
  apply blind_forM. intros b. apply blind_wrap, blind_WriteMsg.
Qed.

Lemma ReadMsg_in c c0 : ReadMsg (in_of c c0) = let '(r, c') := ReadMsg c in (r, in_of c' c0).
Proof.
  unfold ReadMsg, wrapM, lift, mbind, stM_bind. rewrite ReadFull_in.
  destruct (ReadFull 4 c) as [[hdr|e] c1]; cbn [wrap]; [|by destruct e].
  destruct (_ =? _)%Z; [done|]. destruct (_ <? _)%Z; [done|]. rewrite ReadFull_in.
  destruct (ReadFull _ c1) as [[buf|e] c2]; cbn [wrap]; [done|by destruct e].
Qed.

(** ** What is read *)

(** Reading from [c], none of [msgs] stops; then comes [r], a message that does
    or the error of reading on, and [c'] is left. *)
Inductive scans (stops : Message → bool) : conn → list Message → result Message → conn → Prop :=
  | scans_fail c e c' : ReadMsg c = (Err e, c') → scans stops c [] (Err e) c'
  | scans_stop c m c' : ReadMsg c = (Ok m, c') → stops m = true → scans stops c [] (Ok m) c'
  | scans_next c m c1 msgs r c' :
      ReadMsg c = (Ok m, c1) → stops m = false → scans stops c1 msgs r c' →
      scans stops c (m :: msgs) r c'.

Lemma scans_in stops c msgs r c' c0 : scans stops c msgs r c' → scans stops (in_of c c0) msgs r (in_of c' c0).
Proof.
  induction 1 as [c e c' Hr|c m c' Hr Hs|c m c1 msgs r c' Hr Hs _ IH].
  - apply scans_fail. by rewrite ReadMsg_in, Hr.
  - apply scans_stop; [by rewrite ReadMsg_in, Hr|done].
  - eapply scans_next; [by rewrite ReadMsg_in, Hr|done..].
Qed.

Lemma ReadMsg_fail_len c e c' : ReadMsg c = (Err e, c') → length (rx c') ≤ length (rx c).
Proof. intros Hr. destruct (ReadMsg_frames _ _ _ Hr) as [k ->]. cbn. rewrite length_drop. lia. Qed.

(** A message takes five bytes at least, so every input is scanned to an end. *)
Lemma scans_total stops c :
  ∃ msgs r c', scans stops c msgs r c' ∧ 5 * length msgs + length (rx c') ≤ length (rx c).
Proof.
  remember (length (rx c)) as n eqn:Hn. revert c Hn. induction n as [n IH] using lt_wf_ind. intros c ->.
  destruct (ReadMsg c) as [[m|e] c1] eqn:Hr.
  - destruct (ReadMsg_frame_len _ _ _ Hr) as (k & Hk & _ & Hlen & -> & _).
    assert (length (rx (set_rx (drop k (rx c)) c)) = length (rx c) - k) as Hd by (cbn; apply length_drop).
    destruct (stops m) eqn:Hs.
    + exists [], (Ok m). eexists. split; [by eapply scans_stop|]. rewrite Hd. cbn [length]. lia.
    + destruct (IH (length (rx c) - k)) with (c := set_rx (drop k (rx c)) c) as (msgs & r & c' & Hsc & Hb); [lia|done|].
      exists (m :: msgs), r, c'. split; [by eapply scans_next|]. cbn [length]. lia.
  - exists [], (Err e), c1. split; [by apply scans_fail|]. cbn [length].
    pose proof (ReadMsg_fail_len _ _ _ Hr). lia.
Qed.

(** The scan is determined by the input. *)
Lemma scans_det stops c msgs r c' msgs2 r2 c2 :
  scans stops c msgs r c' → scans stops c msgs2 r2 c2 → msgs2 = msgs ∧ r2 = r ∧ c2 = c'.
Proof.
  intros Hsc. revert msgs2 r2 c2.
  induction Hsc as [c e c' Hr|c m c' Hr Hs|c m c1 msgs r c' Hr Hs _ IH]; intros msgs2 r2 c2 Hsc2;
    destruct Hsc2 as [c e2 c2 Hr2|c m2 c2 Hr2 Hs2|c m2 c3 msgs2 r2 c2 Hr2 Hs2 Hsc2];
    rewrite Hr in Hr2; simplify_eq; try congruence; [done..|].
  by destruct (IH _ _ _ Hsc2) as (-> & -> & ->).
Qed.

(** ** The loop over what is read *)

(** The world [w] with what is left to read in [i]. *)
Definition set_in (i : conn) w : world D := set_conn (in_of i (w_conn w)) w.

Lemma set_in_self w : set_in (w_conn w) w = w.
Proof. unfold set_in, in_of. by destruct w as [s [] d z]. Qed.

Lemma set_in_in i j w : set_in i (set_in j w) = set_in i w.
Proof. done. Qed.

Section rule.
Context {Acc R : Type}.
Context (body : Acc → Message → world D → (Acc + R) * world D).
Context (on_err : Acc → error → world D → R * world D).
Context (stops : Message → bool).
Context (step : Acc → Message → world D → (Acc + R) * world D).
Context (fin : Acc → result Message → world D → R * world D).

Fixpoint process (msgs : list Message) (acc : Acc) w : (Acc + R) * world D :=
  match msgs with
  | [] => (inl acc, w)
  | m :: msgs =>
      match step acc m w with
      | (inl acc, w) => process msgs acc w
      | (inr r, w) => (inr r, w)
      end
  end.

Context (Hbody : ∀ acc m w, body acc m w =
  if stops m then let '(r, w') := fin acc (Ok m) w in (inr r, w') else step acc m w).
Context (Herr : ∀ acc e w, on_err acc e w = fin acc (Err e) w).
Context (Hstep : ∀ acc m i w, stops m = false →
  step acc m (set_in i w) = let '(x, w') := step acc m w in (x, set_in i w')).

Lemma process_runs c msgs r c' :
  scans stops c msgs r c' → ∀ acc w,
  match process msgs acc w with
  | (inl a, w1) => loop_runs body on_err acc (set_in c w) (fin a r (set_in c' w1))
  | (inr x, w1) => ∃ c2, loop_runs body on_err acc (set_in c w) (x, set_in c2 w1)
  end.
Proof.
  induction 1 as [c e c' Hr|c m c' Hr Hs|c m c1 msgs r c' Hr Hs Hsc IH]; intros acc w; cbn [process].
  - eapply loop_stop; [cbn; by rewrite ReadMsg_in, Hr|]. apply Herr.
  - destruct (fin acc (Ok m) (set_in c' w)) as [x w1] eqn:Hf.
    eapply loop_return; [cbn; by rewrite ReadMsg_in, Hr|].
    change (set_conn _ (set_in c w)) with (set_in c' w). by rewrite Hbody, Hs, Hf.
  - assert (ReadMsg (w_conn (set_in c w)) = (Ok m, in_of c1 (w_conn w))) as Hread
      by (cbn; by rewrite ReadMsg_in, Hr).
    assert (∀ x w1, step acc m w = (x, w1) →
      body acc m (set_conn (in_of c1 (w_conn w)) (set_in c w)) = (x, set_in c1 w1)) as Hb.
    { intros x w1 Hx. change (set_conn _ (set_in c w)) with (set_in c1 w).
      by rewrite Hbody, Hs, Hstep, Hx. }
    destruct (step acc m w) as [[a|x] w1]; specialize (Hb _ _ eq_refl).
    + specialize (IH a w1). destruct (process msgs a w1) as [[a2|x] w2].
      * by eapply loop_next.
      * destruct IH as [c2 IH]. exists c2. by eapply loop_next.
    + exists c1. by eapply loop_return.
Qed.

Lemma process_loop r0 msgs r c' acc w :
  reads_nothing body → scans stops (w_conn w) msgs r c' →
  match process msgs acc w with
  | (inl a, w1) => loop r0 body on_err acc w = fin a r (set_in c' w1)
  | (inr x, w1) => ∃ c2, loop r0 body on_err acc w = (x, set_in c2 w1)
  end.
Proof.
  intros Hrd Hsc. pose proof (process_runs _ _ _ _ Hsc acc w) as Hp. rewrite set_in_self in Hp.
  destruct (process msgs acc w) as [[a|x] w1]; [by apply loop_eval|].
  destruct Hp as [c2 Hp]. exists c2. by apply loop_eval.
Qed.
End rule.

(** ** Which messages end a loop, and what the others come to *)

Definition ends_pull (m : Message) : bool := bool_decide (m_Kind m = MsgDone).
Definition ends_serve (m : Message) : bool := bool_decide (m_Kind m = MsgReverse ∨ m_Kind m = MsgDone).
Definition ends_zens (m : Message) : bool := bool_decide (m_Kind m = MsgZens).

(** The end of the stream is no error. *)
Definition ending (r : result Message) : result unit :=
  match r with
  | Ok _ => Ok tt
  | Err e => if is_eof e then Ok tt else Err (Wrap "read msg" e)
  end.

Definition msg_items (m : Message) : list SignedEvent :=
  if decide (m_Kind m = MsgEvents) then default [] (Items <$> m_Events m) else [].
Definition events_of (msgs : list Message) : list SignedEvent := mjoin (msg_items <$> msgs).

(** The requests among [msgs] answered in order, up to a failure: how many
    were, and the failure. *)
Fixpoint answered (msgs : list Message) (n : nat) w : (nat * option error) * world D :=
  match msgs with
  | [] => ((n, None), w)
  | m :: msgs =>
      match answer m with
      | None => answered msgs n w
      | Some h =>
          match h w with
          | (Ok _, w) => answered msgs (S n) w
          | (Err e, w) => ((n, Some e), w)
          end
      end
  end.

(** The same with zens: those of every offer are learned, and our own sent in
    return for the first. *)
Definition offerZens cb (sent : bool) w : result unit * world D :=
  if sent then (Ok tt, w) else wrapM "write zens" (on_conn (WriteMsg (NewZens (own_refs cb w)))) w.

Fixpoint answered_zens cb (msgs : list Message) (n : nat) (sent : bool) w
    : (nat * option error) * world D :=
  match msgs with
  | [] => ((n, None), w)
  | m :: msgs =>
      match answer m with
      | Some h =>
          match h w with
          | (Ok _, w) => answered_zens cb msgs (S n) sent w
          | (Err e, w) => ((n, Some e), w)
          end
      | None =>
          if ends_zens m then
            match offerZens cb sent (learn cb m w) with
            | (Ok _, w) => answered_zens cb msgs n true w
            | (Err e, w) => ((n, Some e), w)
            end
          else answered_zens cb msgs n sent w
      end
  end.

(** ** Fetching *)

Definition collect_step (out : list SignedEvent) (m : Message) w
    : (list SignedEvent + (list SignedEvent * result unit)) * world D :=
  (inl (out ++ verified (msg_items m)), w).

Lemma process_collect msgs out w :
  process collect_step msgs out w = (inl (out ++ verified (events_of msgs)), w).
Proof.
  revert out. induction msgs as [|m msgs IH]; intros out; cbn [process collect_step].
  - change (events_of []) with (@nil SignedEvent). by rewrite app_nil_r.
  - rewrite IH. change (events_of (m :: msgs)) with (msg_items m ++ events_of msgs).
    by rewrite verified_app, (assoc_L (++)).
Qed.

(** Deciding on the kind in the goal. *)
Ltac by_kind :=
  unfold MsgRequest, MsgEvents, MsgDone, MsgReverse, MsgZens, MsgFollowers, MsgLikeRequest in *;
  repeat (case_decide || case_bool_decide); try done; try lia.

Lemma collect_switch out m w :
  collect_body out m w =
    if ends_pull m then (inr (out, ending (Ok m)), w) else collect_step out m w.
Proof.
  unfold collect_body, ends_pull, collect_step, msg_items. by_kind;
    [destruct (m_Events m) as [evs|]; [done|]|]; cbn; by rewrite app_nil_r.
Qed.

Lemma collect_ends msgs r c' w :
  scans ends_pull (w_conn w) msgs r c' →
  collect w = ((verified (events_of msgs), ending r), set_in c' w).
Proof.
  intros Hsc. pose proof (process_loop collect_body read_stop ends_pull collect_step
    (λ out r w, ((out, ending r), w)) collect_switch (λ _ _ _, eq_refl) (λ _ _ _ _ _, eq_refl)
    ([], no_fuel) msgs r c' [] w collect_reads_nothing Hsc) as Hl.
  by rewrite process_collect in Hl.
Qed.

(** ** Pulling *)

Definition pull_one cb (acc : nat * Z) (m : Message) w
    : ((nat * Z) + (nat * result unit)) * world D :=
  let '(acc, w) := pull_items cb (msg_items m) acc w in (inl acc, w).

(** What a pull does last: the cursor moves unless reading failed. *)
Definition pull_fin cb (log : bytes) (after : Z) (acc : nat * Z) (r : result Message) w
    : (nat * result unit) * world D :=
  ((acc.1, ending r),
   match ending r with Ok _ => advanceCursor cb log after acc.2 w | Err _ => w end).

Lemma process_pull cb msgs acc w :
  process (pull_one cb) msgs acc w =
    let '(acc, w) := pull_items cb (events_of msgs) acc w in (inl acc, w).
Proof.
  revert acc w. induction msgs as [|m msgs IH]; intros acc w; [done|]. cbn [process].
  change (events_of (m :: msgs)) with (msg_items m ++ events_of msgs).
  rewrite pull_items_app. unfold pull_one at 1.
  destruct (pull_items cb (msg_items m) acc w) as [a w1]. apply IH.
Qed.

Lemma pull_one_in cb acc m i w :
  pull_one cb acc m (set_in i w) = let '(x, w') := pull_one cb acc m w in (x, set_in i w').
Proof.
  unfold pull_one, set_in. rewrite pull_items_conn.
  destruct (pull_items cb (msg_items m) acc w) as [a w1] eqn:Hp.
  by rewrite (pull_items_rx _ _ _ _ _ _ Hp).
Qed.

Lemma pull_switch cb log after acc m w :
  pull_body cb log after acc m w =
    if ends_pull m then let '(r, w') := pull_fin cb log after acc (Ok m) w in (inr r, w')
    else pull_one cb acc m w.
Proof.
  unfold pull_body, ends_pull, pull_one, pull_fin, msg_items. by_kind.
  by destruct (m_Events m) as [evs|].
Qed.

Lemma pull_ends cb log after msgs r c' w :
  scans ends_pull (w_conn w) msgs r c' →
  pull_loop cb log after w =
    let '(acc, w1) := pull_items cb (events_of msgs) (0, 0%Z) w in
    pull_fin cb log after acc r (set_in c' w1).
Proof.
  intros Hsc. pose proof (process_loop (pull_body cb log after) (pull_err cb log after) ends_pull
    (pull_one cb) (pull_fin cb log after) (pull_switch cb log after)) as Hl.
  specialize (Hl ltac:(intros acc e w1; unfold pull_err, pull_fin, ending; by destruct (is_eof e))
    (λ acc m i w _, pull_one_in cb acc m i w)
    (0, no_fuel) msgs r c' (0, 0%Z) w (pull_reads_nothing cb log after) Hsc).
  rewrite process_pull in Hl. by destruct (pull_items cb (events_of msgs) (0, 0%Z) w).
Qed.

(** ** Serving *)

Lemma on_conn_in {A} (m : stM conn A) i w :
  blind m → on_conn m (set_in i w) = let '(r, w') := on_conn m w in (r, set_in i w').
Proof. intros Hm. unfold on_conn, set_in at 1. cbn [w_conn set_conn]. rewrite Hm. by destruct (m (w_conn w)). Qed.

Lemma answer_in m h i w :
  answer m = Some h → h (set_in i w) = let '(r, w') := h w in (r, set_in i w').
Proof.
  unfold answer. repeat case_decide; intros [= <-].
  - unfold handleRequest. destruct (m_Request m) as [req|]; [|done]. cbn [w_store set_in set_conn].
    destruct (fetchEvents _ _); [|done]. apply on_conn_in, blind_send.
  - unfold handleFollowers. cbn [w_store set_in set_conn].
    destruct (ReceivedFollowEvents _); [|done]. apply on_conn_in, blind_send.
  - unfold handleLikeRequest. destruct (m_LikeRequest m) as [req|]; [|done].
    cbn [w_store set_in set_conn]. destruct (LikesForPosts _ _); [|done]. apply on_conn_in, blind_send.
Qed.

Lemma ends_serve_answer m : ends_serve m = true → answer (D := D) m = None.
Proof. unfold ends_serve, answer. intros He%bool_decide_eq_true. by_kind. Qed.

Lemma ends_pull_serve m : ends_pull m = true → ends_serve m = true.
Proof. unfold ends_pull, ends_serve. by_kind. Qed.

(** [conclude] turns a count into the result of the loop. *)
Definition answer_step {A R} (count : A → A) (conclude : A → result unit → R) (acc : A) (m : Message) w
    : (A + R) * world D :=
  match answer m with
  | None => (inl acc, w)
  | Some h =>
      match h w with
      | (Ok _, w) => (inl (count acc), w)
      | (Err e, w) => (inr (conclude acc (Err e)), w)
      end
  end.

Lemma answer_step_in {A R} count (conclude : A → result unit → R) acc m i w :
  answer_step count conclude acc m (set_in i w) =
    let '(x, w') := answer_step count conclude acc m w in (x, set_in i w').
Proof.
  unfold answer_step. destruct (answer m) as [h|] eqn:Ha; [|done].
  rewrite (answer_in _ _ _ _ Ha). by destruct (h w) as [[u|e] w1].
Qed.

Lemma process_serve msgs n w :
  process (answer_step S pair) msgs n w =
    match answered msgs n w with
    | ((n, None), w) => (inl n, w)
    | ((n, Some e), w) => (inr (n, Err e), w)
    end.
Proof.
  revert n w. induction msgs as [|m msgs IH]; intros n w; [done|]. cbn [process answered].
  unfold answer_step at 1. destruct (answer m) as [h|]; [|apply IH].
  destruct (h w) as [[u|e] w1]; [apply IH|done].
Qed.

Lemma process_Serve msgs n w :
  process (answer_step id (λ _ r, r)) msgs tt w =
    match answered msgs n w with
    | ((_, None), w) => (inl tt, w)
    | ((_, Some e), w) => (inr (Err e), w)
    end.
Proof.
  revert n w. induction msgs as [|m msgs IH]; intros n w; [done|]. cbn [process answered].
  unfold answer_step at 1. destruct (answer m) as [h|]; [|apply IH].
  destruct (h w) as [[u|e] w1]; [apply IH|done].
Qed.

Lemma serve_switch n m w :
  serve_body n m w =
    if ends_serve m then (inr (n, ending (Ok m)), w) else answer_step S pair n m w.
Proof.
  unfold serve_body, answer_step. destruct (ends_serve m) eqn:He.
  - rewrite ends_serve_answer by done. apply bool_decide_eq_true in He. by rewrite decide_True.
  - apply bool_decide_eq_false in He. rewrite decide_False by done.
    destruct (answer m) as [h|]; [|done]. by destruct (h w) as [[[]|e] w1].
Qed.

Lemma Serve_switch u m w :
  Serve_body u m w =
    if ends_pull m then (inr (ending (Ok m)), w) else answer_step id (λ _ r, r) u m w.
Proof.
  unfold Serve_body, answer_step. destruct u, (ends_pull m) eqn:He.
  - rewrite ends_serve_answer by by apply ends_pull_serve.
    apply bool_decide_eq_true in He. by rewrite decide_True.
  - apply bool_decide_eq_false in He. rewrite decide_False by done.
    destruct (answer m) as [h|]; [|done]. by destruct (h w) as [[[]|e] w1].
Qed.

(** The outcome of a serving loop [run]: all that was asked is answered, up to
    where a write fails. *)
Definition serves (run : (nat * result unit) * world D) (out : (nat * option error) * world D)
    (r : result Message) (c' : conn) : Prop :=
  match out with
  | ((n, None), w1) => run = ((n, ending r), set_in c' w1)
  | ((n, Some e), w1) => ∃ c2, run = ((n, Err e), set_in c2 w1)
  end.

Lemma serve_ends msgs r c' w :
  scans ends_serve (w_conn w) msgs r c' → serves (serve w) (answered msgs 0 w) r c'.
Proof.
  intros Hsc. pose proof (process_loop serve_body read_stop ends_serve (answer_step S pair)
    (λ n r w, ((n, ending r), w)) serve_switch (λ _ _ _, eq_refl)
    (λ n m i w _, answer_step_in S pair n m i w)
    (0, no_fuel) msgs r c' 0 w serve_reads_nothing Hsc) as Hl.
  rewrite process_serve in Hl. unfold serves. by destruct (answered msgs 0 w) as [[n [e|]] w1].
Qed.

Lemma Serve_ends msgs r c' w :
  scans ends_pull (w_conn w) msgs r c' →
  ∃ n, serves (n, (Serve w).1, (Serve w).2) (answered msgs 0 w) r c'.
Proof.
  intros Hsc. pose proof (process_loop Serve_body Serve_err ends_pull
    (answer_step id (λ _ r, r)) (λ _ r w, (ending r, w)) Serve_switch (λ _ _ _, eq_refl)
    (λ u m i w _, answer_step_in id _ u m i w)
    no_fuel msgs r c' tt w Serve_reads_nothing Hsc) as Hl.
  rewrite (process_Serve _ 0) in Hl. fold (Serve w) in Hl. unfold serves.
  destruct (answered msgs 0 w) as [[n [e|]] w1]; exists n.
  - destruct Hl as [c2 Hl]. exists c2. change (loop _ _ _ _ w) with (Serve w) in Hl. by rewrite Hl.
  - change (loop _ _ _ _ w) with (Serve w) in Hl. by rewrite Hl.
Qed.

(** ** Zens *)

Lemma learn_conn cb m c w : learn cb m (set_conn c w) = set_conn c (learn cb m w).
Proof.
  unfold learn. destruct (cb_onZen cb) as [f|]; [|done]. generalize (zensFromMsg m) as refs.
  intros refs. revert w. induction refs as [|r refs IH]; intros w; [done|].
  exact (IH (set_world_env (f r (w_store w) (w_env w)) w)).
Qed.

Lemma learn_in cb m i w : learn cb m (set_in i w) = set_in i (learn cb m w).
Proof. unfold set_in. by rewrite learn_conn, learn_rx. Qed.

Lemma offerZens_in cb sent i w :
  offerZens cb sent (set_in i w) = let '(r, w') := offerZens cb sent w in (r, set_in i w').
Proof.
  unfold offerZens. destruct sent; [done|]. unfold wrapM.
  change (own_refs cb (set_in i w)) with (own_refs cb w).
  rewrite on_conn_in by apply blind_WriteMsg. by destruct (on_conn _ w) as [r w1].
Qed.

Definition zen_step cb (acc : nat * bool) (m : Message) w
    : ((nat * bool) + (nat * result unit)) * world D :=
  match answer m with
  | Some h =>
      match h w with
      | (Ok _, w) => (inl (S acc.1, acc.2), w)
      | (Err e, w) => (inr (acc.1, Err e), w)
      end
  | None =>
      if ends_zens m then
        match offerZens cb acc.2 (learn cb m w) with
        | (Ok _, w) => (inl (acc.1, true), w)
        | (Err e, w) => (inr (acc.1, Err e), w)
        end
      else (inl acc, w)
  end.

Lemma process_zens cb msgs acc w :
  match answered_zens cb msgs acc.1 acc.2 w with
  | ((n, None), w1) => ∃ sent, process (zen_step cb) msgs acc w = (inl (n, sent), w1)
  | ((n, Some e), w1) => process (zen_step cb) msgs acc w = (inr (n, Err e), w1)
  end.
Proof.
  revert acc w. induction msgs as [|m msgs IH]; intros [n sent] w; [by exists sent|].
  cbn [process answered_zens fst snd]. unfold zen_step at 1 3. cbn [fst snd].
  destruct (answer m) as [h|].
  - destruct (h w) as [[u|e] w1]; [apply (IH (S n, sent))|done].
  - destruct (ends_zens m); [|apply (IH (n, sent))].
    destruct (offerZens cb sent (learn cb m w)) as [[u|e] w1]; [apply (IH (n, true))|done].
Qed.

Lemma swz_step_in cb acc m i w :
  zen_step cb acc m (set_in i w) = let '(x, w') := zen_step cb acc m w in (x, set_in i w').
Proof.
  unfold zen_step. destruct (answer m) as [h|] eqn:Ha.
  - rewrite (answer_in _ _ _ _ Ha). by destruct (h w) as [[u|e] w1].
  - destruct (ends_zens m); [|done]. rewrite learn_in, offerZens_in.
    by destruct (offerZens cb acc.2 (learn cb m w)) as [[u|e] w1].
Qed.

Lemma swz_switch cb acc m w :
  swz_body cb acc m w =
    if ends_serve m then (inr (acc.1, ending (Ok m)), w) else zen_step cb acc m w.
Proof.
  destruct acc as [n sent]. unfold swz_body, zen_step. destruct (ends_serve m) eqn:He.
  - rewrite ends_serve_answer by done. apply bool_decide_eq_true in He. by_kind.
  - destruct (answer m) as [h|]; [done|]. unfold ends_serve, ends_zens, offerZens in *. cbn [fst snd].
    destruct sent; by_kind.
Qed.

Lemma swz_ends cb msgs r c' w :
  scans ends_serve (w_conn w) msgs r c' →
  serves (serveWithZens cb w) (answered_zens cb msgs 0 false w) r c'.
Proof.
  intros Hsc. pose proof (process_loop (swz_body cb) (λ acc, read_stop acc.1) ends_serve (zen_step cb)
    (λ acc r w, ((acc.1, ending r), w)) (swz_switch cb) (λ _ _ _, eq_refl)
    (λ acc m i w _, swz_step_in cb acc m i w)
    (0, no_fuel) msgs r c' (0, false) w (swz_reads_nothing cb) Hsc) as Hl.
  pose proof (process_zens cb msgs (0, false) w) as Hp. cbn [fst snd] in Hp. unfold serves.
  destruct (answered_zens cb msgs 0 false w) as [[n [e|]] w1].
  - by rewrite Hp in Hl.
  - destruct Hp as [sent Hp]. by rewrite Hp in Hl.
Qed.

(** The initiator's side of the exchange passes over everything but the peer's
    offer. *)
Lemma exchange_ends cb w w1 msgs r c' :
  offerZens cb false w = (Ok tt, w1) → scans ends_zens (w_conn w1) msgs r c' →
  exchangeZens cb w =
    match r with
    | Ok m => (Ok tt, learn cb m (set_in c' w1))
    | Err e => (Err (Wrap "read zens" e), set_in c' w1)
    end.
Proof.
  unfold offerZens, exchangeZens. intros -> Hsc.
  pose proof (process_loop (zens_body cb) (λ _ e w, (Err (Wrap "read zens" e), w)) ends_zens
    (λ (_ : unit) m w, (@inl unit (result unit) tt, w))
    (λ _ r w, match r with
              | Ok m => (Ok tt, learn cb m w)
              | Err e => (Err (Wrap "read zens" e), w)
              end)) as Hl.
  specialize (Hl ltac:(intros [] m w2; unfold zens_body, ends_zens; by_kind)
    (λ _ _ _, eq_refl) (λ _ _ _ _ _, eq_refl)
    no_fuel msgs r c' tt w1 (zens_reads_nothing cb) Hsc).
  assert (∀ w2, process (λ (_ : unit) m w, (@inl unit (result unit) tt, w)) msgs tt w2 = (inl tt, w2)) as Hp.
  { clear. induction msgs as [|m msgs IH]; intros w2; [done|]. apply IH. }
  by rewrite Hp in Hl.
Qed.
End loops.
