(* ===== verification/PullRace.v ===== *)
(** * Pulls that run at once

    A round dials several zens in parallel, and a zen that is dialled may dial
    back, so pulls interleave: each reads its cursor, stores what it receives
    event by event, and writes the cursor at its end, in transactions of their
    own. Here those are the steps of a machine, together with anything else that
    adds verified events. *)

From S2P Require Import Prelude Base32 External Identity Event Log Bolt Store StoreFacts StoreFollow StoreQuery Wire Session SessionFacts SessionRuns SessionInv SessionCursor.
#[local] Open Scope go_scope.

Section machine.
Context `{Bolt, Blake3, Ed25519, CborText, !CborType Event, !CborType SignedEvent, !CborType Message}.
Context {D : Type} (cb : callbacks D).

(** A [pullLog] of the daemon's own: before its cursor is read, receiving with
    the timestamp it asked for and what it has merged, and over. *)
Inductive puller :=
  | Asking (zen log : bytes)
  | Receiving (zen log : bytes) (after : Z) (acc : nat * Z)
  | Over.

Record pulls := mkPulls { pl_store : store; pl_env : D; pl_all : list puller }.

(** What a pull sees of the program. *)
Definition world_of (zen : bytes) (s : store) (d : D) : world D := mkWorld s (mkConn [] EOF [] None) d zen.
Definition moves (y : pulls) (i : nat) (w : world D) (p : puller) : pulls :=
  mkPulls (w_store w) (w_env w) (<[i := p]> (pl_all y)).

Inductive pull_step (y : pulls) : pulls → Prop :=
  | pull_asks i zen log :
      pl_all y !! i = Some (Asking zen log) →
      let w := world_of zen (pl_store y) (pl_env y) in
      pull_step y (moves y i w (Receiving zen log (pull_after cb log 0 [] w) (0, 0%Z)))
  | pull_gets i zen log after acc se :
      pl_all y !! i = Some (Receiving zen log after acc) → wf se = true →
      let r := pull_item cb acc se (world_of zen (pl_store y) (pl_env y)) in
      pull_step y (moves y i r.2 (Receiving zen log after r.1))
  | pull_ends i zen log after acc :
      pl_all y !! i = Some (Receiving zen log after acc) →
      pull_step y (moves y i (advanceCursor cb log after acc.2 (world_of zen (pl_store y) (pl_env y))) Over)
  | pull_breaks i zen log after acc :
      pl_all y !! i = Some (Receiving zen log after acc) →
      pull_step y (moves y i (world_of zen (pl_store y) (pl_env y)) Over)
  | pull_others s d :
      grown (pl_store y) s → bucketCursor s = bucketCursor (pl_store y) →
      pull_step y (mkPulls s d (pl_all y)).
End machine.

Section facts.
Context `{BoltLaws, Blake3, !Blake3Laws, Ed25519, CborText}.
Context `{!CborType Event, !CborLaws Event, !CborType SignedEvent, !CborLaws SignedEvent}.
Context `{!CborType Message, !CborLaws Message}.
Context {D : Type} (cb : callbacks D) (Hcb : store_cursors cb) (Hn : neutral cb).

(** ** A pull on its own is a run of the machine *)

Lemma pull_item_zen acc se (w : world D) : w_cursorZen (pull_item cb acc se w).2 = w_cursorZen w.
Proof.
  unfold pull_item. destruct (Verify se); [|done].
  pose proof (merge_cursor cb se w Hcb) as [_ Hz]. by destruct (Session_mergeEvent cb se w) as [[i [u|e]] w'].
Qed.

(** The events of a reply, received one after the other. *)
Lemma pull_items_run zen log after items (y : @pulls _ D) i acc :
  forallb (λ se : SignedEvent, wf se) items = true → i < length (pl_all y) →
  pl_all y !! i = Some (Receiving zen log after acc) →
  let r := pull_items cb items acc (world_of zen (pl_store y) (pl_env y)) in
  rtc (pull_step cb) y (moves y i r.2 (Receiving zen log after r.1)).
Proof.
  revert y acc. induction items as [|se items IH]; intros y acc Hwf Hlen Hi; cbn [pull_items].
  - cbn. unfold moves. rewrite list_insert_id by done. by destruct y.
  - cbn [forallb] in Hwf. apply andb_prop in Hwf as [Hse Hwf].
    set (w := world_of zen (pl_store y) (pl_env y)).
    pose proof (pull_gets cb y i zen log after acc se Hi Hse) as Hstep. cbn zeta in Hstep. fold w in Hstep.
    pose proof (pull_item_zen acc se w) as Hz. pose proof (pull_item_conn cb acc se (w_conn w) w) as Hc.
    destruct (pull_item cb acc se w) as [acc' w'] eqn:Hitem. cbn [fst snd] in *.
    eapply rtc_l; [exact Hstep|]. set (y1 := moves y i w' _).
    assert (world_of zen (pl_store y1) (pl_env y1) = w') as Hw.
    { subst w. unfold world_of, set_conn in *. cbn in *. rewrite Hitem in Hc. injection Hc as Hc.
      destruct w'; cbn in *. congruence. }
    specialize (IH y1 acc' Hwf). rewrite Hw in IH. cbn zeta in IH.
    assert (moves y1 i (pull_items cb items acc' w').2 (Receiving zen log after (pull_items cb items acc' w').1) =
            moves y i (pull_items cb items acc' w').2 (Receiving zen log after (pull_items cb items acc' w').1)) as <-.
    { unfold moves, y1. cbn. by rewrite list_insert_insert_eq. }
    apply IH; cbn; [by rewrite length_insert|by apply list_lookup_insert_eq].
Qed.

(** ** The invariant *)

(** The event, or the like it repeats, is in the log it belongs to. *)
Definition held (old s : store) (se : SignedEvent) : Prop :=
  ∃ id, ID se = Ok id ∧
    skips id se (if decide (se_Author se = own_id old) then subview (bucketOwn s) (e_Log (se_Event se))
                 else subview (bucketCrawl s) (se_Author se)).

(** A value a cursor may take that stood at [c0]: never less, and moved only
    to five minutes before an event that is held. *)
Definition mark (old s : store) (c0 c : Z) : Prop :=
  (c0 ≤ c < 2 ^ 63)%Z ∧
  (c = c0 ∨ ∃ se, Verify se = Ok tt ∧ held old s se ∧ c = (e_Timestamp (se_Event se) - cursorSkewWindow)%Z).

Definition cursor_at (s : store) (zen log : bytes) (c0 : Z) : Prop :=
  SyncCursor zen log s = Ok c0 ∧ (0 ≤ c0 < 2 ^ 63)%Z.

(** The pulls of the daemon: of a zen with a name, of one of the logs, and
    with a cursor that reads. *)
Definition target (old : store) (zen log : bytes) : Prop :=
  zen ≠ [] ∧ log ∈ log_names ∧ bk_key_ok (cursorKey zen log) = true ∧ ∃ c0, cursor_at old zen log c0.

Definition puller_ok (old s : store) (p : puller) : Prop :=
  match p with
  | Asking zen log => target old zen log
  | Receiving zen log after acc =>
      target old zen log ∧ (∀ c0, cursor_at old zen log c0 → mark old s c0 after) ∧
      (acc.2 = 0%Z ∨ (0 < acc.2 < 2 ^ 63)%Z ∧
         ∃ se, Verify se = Ok tt ∧ held old s se ∧ e_Timestamp (se_Event se) = acc.2)
  | Over => True
  end.

Definition cursors_ok (old s : store) : Prop :=
  ∀ zen log c0, log ∈ log_names → cursor_at old zen log c0 →
    ∃ c, SyncCursor zen log s = Ok c ∧ mark old s c0 c.

Record pulls_inv (old : store) (y : @pulls _ D) : Prop := {
  pi_grown : grown old (pl_store y);
  pi_cursors : cursors_ok old (pl_store y);
  pi_all : Forall (puller_ok old (pl_store y)) (pl_all y);
}.

Lemma grows_view ok p p' n : grows ok p p' → subview p n ⊆ subview p' n.
Proof. intros [_ Hg]. apply map_subseteq_spec. intros k se. apply Hg. Qed.

Lemma held_mono old s s' se : grown s s' → held old s se → held old s' se.
Proof.
  intros [_ Ho Hc] (id & HID & Hs). exists id. split; [done|].
  case_decide; (eapply skips_mono; [|exact Hs]); by eapply grows_view.
Qed.

Lemma mark_mono old s s' c0 c : grown s s' → mark old s c0 c → mark old s' c0 c.
Proof.
  intros Hg [Hr Hc]. split; [done|]. destruct Hc as [?|(se & ? & Hh & ?)]; [by left|right].
  exists se. split_and!; [done|by eapply held_mono|done].
Qed.

Lemma puller_ok_mono old s s' p : grown s s' → puller_ok old s p → puller_ok old s' p.
Proof.
  intros Hg. destruct p as [zen log|zen log after acc|]; cbn; [done| |done].
  intros (Ht & Ha & Hacc). split_and!; [done| |].
  - intros c0 Hc0. eapply mark_mono; [done|by apply Ha].
  - destruct Hacc as [?|(Hr & se & ? & Hh & ?)]; [by left|right]. split; [done|].
    exists se. split_and!; [done|by eapply held_mono|done].
Qed.

Lemma grown_trans a b c : grown a b → grown b c → grown a c.
Proof.
  intros Hab Hbc. pose proof (grown_own_id _ _ Hab) as Hid. destruct Hab as [Hm Ho Hc], Hbc as [Hm' Ho' Hc'].
  split; [congruence| |].
  - split; [apply Ho'|]. intros n k se. destruct Ho as [_ Ho], Ho' as [_ Ho'].
    destruct (Ho n k se) as [Hk1 Hn1], (Ho' n k se) as [Hk2 Hn2]. split; [by auto|].
    intros [?|(? & ? & Hp)]%Hn2; [by apply Hn1|right]. unfold own_place in *. rewrite Hid in Hp. done.
  - split; [apply Hc'|]. intros n k se. destruct Hc as [_ Hc], Hc' as [_ Hc'].
    destruct (Hc n k se) as [Hk1 Hn1], (Hc' n k se) as [Hk2 Hn2]. split; [by auto|].
    intros [?|(? & ? & Hp)]%Hn2; [by apply Hn1|right]. unfold crawl_place in *. rewrite Hid in Hp. done.
Qed.

Lemma grown_self old s : grown old s → grown s s.
Proof. intros [_ Ho Hc]. apply grown_refl; [apply Ho|apply Hc]. Qed.

(** A step that grows the store and leaves the cursors alone. *)
Lemma inv_grows old (y : @pulls _ D) s d l :
  pulls_inv old y → grown (pl_store y) s → bucketCursor s = bucketCursor (pl_store y) →
  Forall (puller_ok old s) l → pulls_inv old (mkPulls s d l).
Proof.
  intros [Hg Hc _] Hs Hb Hl. split; cbn; [by eapply grown_trans| |done].
  intros zen log c0 Hlog Hc0. destruct (Hc zen log c0 Hlog Hc0) as (c & Hcur & Hm). exists c.
  split; [by rewrite (SyncCursor_bucket _ _ s (pl_store y))|by eapply mark_mono].
Qed.

Lemma all_insert old (y : @pulls _ D) s i p :
  pulls_inv old y → grown (pl_store y) s → puller_ok old s p →
  Forall (puller_ok old s) (<[i := p]> (pl_all y)).
Proof.
  intros [_ _ Hall] Hs Hp. apply Forall_insert; [|done].
  eapply Forall_impl; [exact Hall|]. intros q. by apply puller_ok_mono.
Qed.

(** What is merged is held. *)
Lemma merge_held old se (w w' : world D) i u :
  wf se = true → grown old (w_store w) → Session_mergeEvent cb se w = ((i, Ok u), w') → held old (w_store w') se.
Proof.
  intros Hwf Hg Hrun. pose proof (grown_own_id _ _ Hg) as Hid. destruct Hg as [_ [Ho _] [Hc _]].
  unfold Session_mergeEvent in Hrun.
  match type of Hrun with context [if decide ?P then ?a else ?b] =>
    destruct (if decide P then a else b) as [[i' r] s] eqn:Hput end.
  assert (r = Ok u ∧ same_logs s (w_store w')) as [-> (_ & Hown & Hcrawl)].
  { destruct (cb_onMerge cb) as [f|] eqn:Hf; injection Hrun as _ -> <-; (split; [done|]); [|by repeat split].
    cbn. by apply (neutral_merge _ Hn f Hf). }
  unfold held. rewrite Hid in Hput. rewrite Hown, Hcrawl.
  case_decide as Ha.
  - destruct (AppendOwnEvent _ se (w_store w)) as [r' s'] eqn:Happ. injection Hput as _ -> ->.
    destruct (AppendOwnEvent_any _ _ _ _ _ Hwf Ho Happ) as [[_ ?]|(id & own & HID & Hadds & ->)]; [done|].
    exists id. split; [done|]. by apply (adds_skips _ _ _ (bucketOwn (w_store w))).
  - destruct (PutCrawledEvent_any _ _ _ _ Hwf Hc Hput) as [[_ ?]|(id & cr & HID & Hadds & ->)]; [done|].
    exists id. split; [done|]. by apply (adds_skips _ _ _ (bucketCrawl (w_store w))).
Qed.

Lemma item_grown se acc (w : world D) : wf se = true → grown (w_store w) (w_store w) →
  grown (w_store w) (w_store (pull_item cb acc se w).2).
Proof.
  intros Hwf Hg. pose proof (inv_pull_items (w_store w) cb Hn [se] acc w) as Hi.
  cbn in Hi. rewrite Hwf in Hi. specialize (Hi eq_refl Hg). unfold inv in Hi. by destruct (pull_item cb acc se w).
Qed.

Lemma item_cursor acc se (w : world D) :
  bucketCursor (w_store (pull_item cb acc se w).2) = bucketCursor (w_store w).
Proof.
  unfold pull_item. destruct (Verify se); [|done].
  pose proof (merge_cursor cb se w Hcb) as [Hb _]. by destruct (Session_mergeEvent cb se w) as [[i [u|e]] w'].
Qed.

Lemma step_gets old (y : @pulls _ D) i zen log after acc se :
  pulls_inv old y → pl_all y !! i = Some (Receiving zen log after acc) → wf se = true →
  let r := pull_item cb acc se (world_of zen (pl_store y) (pl_env y)) in
  pulls_inv old (moves y i r.2 (Receiving zen log after r.1)).
Proof.
  intros Hinv Hi Hwf. set (w := world_of zen (pl_store y) (pl_env y)). cbn zeta.
  pose proof Hinv as [Hg _ Hall]. pose proof (grown_self _ _ Hg) as Hself.
  pose proof (item_grown se acc w Hwf Hself) as Hgrow. pose proof (item_cursor acc se w) as Hcur.
  apply (inv_grows old y); [done|exact Hgrow|exact Hcur|]. apply all_insert; [done|exact Hgrow|].
  rewrite Forall_lookup in Hall. pose proof (puller_ok_mono _ _ _ _ Hgrow (Hall i _ Hi)) as (Ht & Ha & Hacc).
  split_and!; [done|done|]. revert Hacc. clear Hcur Ha. unfold pull_item in *.
  destruct (Verify se) as [[]|] eqn:Hver; [|done].
  destruct (Session_mergeEvent cb se w) as [[j [u|e]] w'] eqn:Hm; [|done]. cbn [fst snd].
  intros Hacc. destruct (Z.ltb_spec acc.2 (e_Timestamp (se_Event se))) as [Hlt|_]; [|done].
  pose proof (wf_timestamp se Hwf) as Hts. unfold in_i64 in Hts.
  right. split; [destruct Hacc as [Hz|[? _]]; lia|]. exists se. split_and!; [done| |done].
  by apply (merge_held old se w w' j u).
Qed.

Lemma step_asks old (y : @pulls _ D) i zen log :
  pulls_inv old y → pl_all y !! i = Some (Asking zen log) →
  let w := world_of zen (pl_store y) (pl_env y) in
  pulls_inv old (moves y i w (Receiving zen log (pull_after cb log 0 [] w) (0, 0%Z))).
Proof.
  intros Hinv Hi w. pose proof Hinv as [Hg Hc Hall]. pose proof (grown_self _ _ Hg) as Hself.
  apply (inv_grows old y); [done|done|done|]. apply all_insert; [done|done|].
  rewrite Forall_lookup in Hall. pose proof (Hall i _ Hi) as Ht. split_and!; [done| |by left].
  intros c0 Hc0. destruct Ht as (Hzen & Hlog & _). destruct (Hc zen log c0 Hlog Hc0) as (c & Hcur & Hm).
  assert (pull_after cb log 0 [] w = c) as ->; [|done].
  unfold pull_after. rewrite decide_True by done. rewrite (cursors_source _ Hcb). unfold store_source. cbn.
  rewrite Hcur. destruct Hc0 as [_ Hc0], Hm as [Hm _]. destruct (Z.ltb_spec 0 c); lia.
Qed.

Lemma step_ends old (y : @pulls _ D) i zen log after acc :
  pulls_inv old y → pl_all y !! i = Some (Receiving zen log after acc) →
  pulls_inv old (moves y i (advanceCursor cb log after acc.2 (world_of zen (pl_store y) (pl_env y))) Over).
Proof.
  intros Hinv Hi. pose proof Hinv as [Hg Hc Hall]. pose proof (grown_self _ _ Hg) as Hself.
  rewrite Forall_lookup in Hall. destruct (Hall i _ Hi) as ((Hzen & Hlog & Hkey & c0 & Hc0) & Ha & Hacc).
  set (w := world_of _ _ _).
  pose proof (inv_advance (pl_store y) cb Hn log after acc.2 w Hself) as Hgrow. unfold inv in Hgrow.
  assert (∀ zen' log' c0', log' ∈ log_names → cursor_at old zen' log' c0' →
    ∃ c, SyncCursor zen' log' (w_store (advanceCursor cb log after acc.2 w)) = Ok c ∧ mark old (pl_store y) c0' c) as Hcur.
  { intros zen' log' c0' Hlog' Hc0'. unfold advanceCursor. rewrite decide_False by done.
    rewrite (cursors_sink _ Hcb). destruct (Z.eqb_spec acc.2 0) as [|Hne]; [by apply Hc|].
    destruct Hacc as [?|[Hpos (se & Hver & Hh & Hts)]]; [done|].
    rewrite wrap_i64_id by (unfold in_i64, cursorSkewWindow in *; lia).
    unfold store_sink. rewrite PutSyncCursor_ok by done. cbn [set_world_env w_store fst].
    pose proof (Ha c0 Hc0) as [Har Haw]. destruct Hc0 as [Hc0 Hc0r].
    set (c := if (acc.2 - cursorSkewWindow <? after)%Z then after else (acc.2 - cursorSkewWindow)%Z).
    assert ((after ≤ c < 2 ^ 63)%Z ∧ (c = after ∨ c = acc.2 - cursorSkewWindow)%Z) as [Hcr Hcw].
    { unfold c, cursorSkewWindow. destruct (Z.ltb_spec (acc.2 - 5 * 60 * 1000000000) after); lia. }
    rewrite SyncCursor_put by (unfold in_i64; lia). case_decide as Hk; [|by apply Hc].
    apply cursorKey_inj in Hk as [<- <-]; [|done..]. exists c. split; [done|].
    destruct Hc0' as [Hc0' _]. change (w_cursorZen w) with zen in Hc0'. assert (c0' = c0) as -> by congruence. split; [lia|].
    destruct Hcw as [->| ->]; [done|]. right. exists se. by rewrite Hts. }
  split; cbn [moves pl_store pl_all].
  - by eapply grown_trans.
  - intros zen' log' c0' Hlog' Hc0'. destruct (Hcur zen' log' c0' Hlog' Hc0') as (c & ? & ?).
    exists c. split; [done|]. by eapply mark_mono.
  - by apply all_insert.
Qed.

Lemma pull_step_inv old y y' : pulls_inv old y → pull_step cb y y' → pulls_inv old y'.
Proof.
  intros Hinv Hstep. destruct Hstep as [i zen log Hi w|i zen log after acc se Hi Hwf r|i zen log after acc Hi|
    i zen log after acc Hi|s d Hg Hb].
  - by apply step_asks.
  - by apply step_gets.
  - by apply step_ends.
  - pose proof (grown_self _ _ (pi_grown _ _ Hinv)) as Hself.
    apply (inv_grows old y); [done|done|done|]. by apply all_insert.
  - apply (inv_grows old y); [done..|]. eapply Forall_impl; [apply Hinv|]. intros p. by apply puller_ok_mono.
Qed.

Lemma pulls_reachable old d l y :
  subs_ok (bucketOwn old) → subs_ok (bucketCrawl old) → Forall (puller_ok old old) l →
  rtc (pull_step cb) (mkPulls old d l) y → pulls_inv old y.
Proof.
  intros Ho Hc Hl Hrun.
  assert (pulls_inv old (mkPulls old d l)) as Hinv.
  { split; [by apply grown_refl| |done]. intros zen log c0 _ [Hcur Hr]. exists c0. split; [done|].
    split; [lia|by left]. }
  revert Hinv. induction Hrun as [|a b c Hs _ IH]; [done|]. intros Hinv. apply IH. by eapply pull_step_inv.
Qed.
End facts.
