(* ===== verification/Crawler.v ===== *)
(** * The crawler

    Models [internal/crawler/crawler.go]: the breadth-first walk of the
    follow graph that caches profile logs. *)

From S2P Require Import Prelude Base32 External Identity Event Log Bolt Store.
#[local] Open Scope go_scope.

(** [type Fetcher interface]: the two fetches, and [ctx.Err()] as the run sees
    it, over whatever state the network has. *)
Class Fetcher (F : Type) := {
  FetchProfileLog : bytes → F → result (list SignedEvent) * F;
  fetch_followers : bytes → F → result (list SignedEvent) * F;
  ctx_Err : F → option error;
}.

Record crawler := mkCrawler {
  visited : gset bytes;
  queue : list bytes;
  maxDepth : Z;
  maxCache : Z;
  running : bool;
  lastRun : option Z;
}.

Definition set_visited v c := mkCrawler v (queue c) (maxDepth c) (maxCache c) (running c) (lastRun c).
Definition set_queue q c := mkCrawler (visited c) q (maxDepth c) (maxCache c) (running c) (lastRun c).
Definition set_running r t c := mkCrawler (visited c) (queue c) (maxDepth c) (maxCache c) r t.

Definition Crawler_New : crawler := mkCrawler ∅ [] 5 10000 false None.
Definition SetMaxDepth (d : Z) (c : crawler) : crawler :=
  mkCrawler (visited c) (queue c) d (maxCache c) (running c) (lastRun c).
Definition SetMaxCache (n : Z) (c : crawler) : crawler :=
  mkCrawler (visited c) (queue c) (maxDepth c) n (running c) (lastRun c).
Definition Seed (seeds : list bytes) (c : crawler) : crawler :=
  set_queue (queue c ++ filter (λ s, s ∉ visited c) seeds) c.
Definition VisitedCount (c : crawler) : nat := size (visited c).
Definition Reset (c : crawler) : crawler := set_queue [] (set_visited ∅ c).

Section run.
Context `{Bolt, Blake3, Ed25519, GoRange}.
Context `{!CborType Event, !CborType SignedEvent}.
Context `{Fetcher F}.

Record crawl := mkCrawl { cr_state : crawler; cr_store : store; cr_net : F }.

(** [for _, se := range events { ... c.store.PutCrawledProfile(id, &se) }]. *)
Definition store_profile (id : bytes) (s : store) (se : SignedEvent) : store :=
  if decide (e_Log (se_Event se) = ProfileLog ∧ Verify se = Ok tt) then (PutCrawledProfile id se s).2
  else s.

(** The targets and authors not visited yet, in the order they are appended. *)
Definition follow_targets (events : list SignedEvent) (seen : gset bytes) : list bytes :=
  filter (λ i, i ∉ seen) (IdentityFromPubkey <$> range_set (FollowSet events)).
Definition follow_authors (events : list SignedEvent) (seen : gset bytes) : list bytes :=
  filter (λ i, i ∉ seen) (se_Author <$> filter (λ se, Verify se = Ok tt) events).

(** The body of the loop over a batch after the visited check. [FetchFollowers]
    failing leaves [followEvents] nil. *)
Definition fetch_one (id : bytes) (fetched : nat) (nextBatch : list bytes) (w : crawl)
    : nat * list bytes * crawl :=
  let c := set_visited ({[id]} ∪ visited (cr_state w)) (cr_state w) in
  match FetchProfileLog id (cr_net w) with
  | (Err _, n) => (fetched, nextBatch, mkCrawl c (cr_store w) n)
  | (Ok events, n) =>
      let s := foldl (store_profile id) (cr_store w) events in
      let '(followers, n) := fetch_followers id n in
      let followEvents := match followers with Ok l => l | Err _ => [] end in
      (S fetched,
       (nextBatch ++ follow_targets events (visited c)) ++ follow_authors followEvents (visited c),
       mkCrawl c s n)
  end.

(** The loop over a batch. A cancelled context abandons it: the rest of the
    batch and the next one are lost. *)
Fixpoint crawl_batch (batch : list bytes) (fetched : nat) (nextBatch : list bytes) (w : crawl)
    : (nat * result (list bytes)) * crawl :=
  match batch with
  | [] => ((fetched, Ok nextBatch), w)
  | id :: batch =>
      match ctx_Err (cr_net w) with
      | Some e => ((fetched, Err e), w)
      | None =>
          let c := cr_state w in
          if decide (id ∈ visited c ∨ (maxCache c ≤ Z.of_nat (size (visited c)))%Z) then
            crawl_batch batch fetched nextBatch w
          else
            let '(fetched, nextBatch, w) := fetch_one id fetched nextBatch w in
            crawl_batch batch fetched nextBatch w
      end
  end.

(** [for depth := 0; depth < c.maxDepth; depth++]. *)
Fixpoint crawl_rounds (depth : nat) (fetched : nat) (w : crawl) : (nat * result unit) * crawl :=
  match depth with
  | O => ((fetched, Ok tt), w)
  | S depth =>
      let batch := queue (cr_state w) in
      let w := mkCrawl (set_queue [] (cr_state w)) (cr_store w) (cr_net w) in
      match batch with
      | [] => ((fetched, Ok tt), w)
      | _ =>
          match crawl_batch batch fetched [] w with
          | ((fetched, Err e), w) => ((fetched, Err e), w)
          | ((fetched, Ok nextBatch), w) =>
              crawl_rounds depth fetched
                (mkCrawl (set_queue (queue (cr_state w) ++ nextBatch) (cr_state w))
                   (cr_store w) (cr_net w))
          end
      end
  end.

(** [now] is what [time.Now()] returns at the end. *)
Definition Run (now : Z) (w : crawl) : (nat * result unit) * crawl :=
  let c := cr_state w in
  if running c then ((0, Err (E "crawl already in progress")), w)
  else
    let '(r, w) := crawl_rounds (Z.to_nat (maxDepth c)) 0
                     (mkCrawl (set_running true (lastRun c) c) (cr_store w) (cr_net w)) in
    (r, mkCrawl (set_running false (Some now) (cr_state w)) (cr_store w) (cr_net w)).
End run.
Arguments crawl {_} _.

Lemma filter_all {A} (P : A → Prop) `{∀ x, Decision (P x)} (l : list A) :
  (∀ x, P x) → filter P l = l.
Proof. intros HP. induction l as [|x l IH]; [done|]. rewrite filter_cons_True by done. by rewrite IH. Qed.

(** ** Bounds *)

Section facts.
Context `{BoltLaws, Blake3, !Blake3Laws, Ed25519, CborText, order : GoRange, !GoRangeLaws}.
Context `{!CborType Event, !CborLaws Event, !CborType SignedEvent, !CborLaws SignedEvent}.
Context `{Fetcher F}.
Implicit Types (w : crawl F) (c : crawler).

(** What a run may change: it visits more, at most up to the cache limit, and
    fetches each identity it visits at most once. *)
Record crawled (f : nat) w (f' : nat) w' : Prop := {
  crawled_more : visited (cr_state w) ⊆ visited (cr_state w');
  crawled_cache : size (visited (cr_state w')) ≤
    size (visited (cr_state w)) `max` Z.to_nat (maxCache (cr_state w));
  crawled_once : f ≤ f' ∧
    f' - f ≤ size (visited (cr_state w')) - size (visited (cr_state w));
  crawled_config : maxCache (cr_state w') = maxCache (cr_state w) ∧
    maxDepth (cr_state w') = maxDepth (cr_state w);
}.

Lemma crawled_refl f w w' :
  visited (cr_state w') = visited (cr_state w) → maxCache (cr_state w') = maxCache (cr_state w) →
  maxDepth (cr_state w') = maxDepth (cr_state w) → crawled f w f w'.
Proof. intros Hv Hm Hd. split; rewrite ?Hv; [done|lia|lia|done]. Qed.

Lemma crawled_trans f0 w0 f1 w1 f2 w2 :
  crawled f0 w0 f1 w1 → crawled f1 w1 f2 w2 → crawled f0 w0 f2 w2.
Proof.
  intros [Hm1 Hc1 Ho1 [Hg1 Hd1]] [Hm2 Hc2 Ho2 [Hg2 Hd2]].
  pose proof (subseteq_size _ _ Hm1). pose proof (subseteq_size _ _ Hm2).
  rewrite Hg1 in Hc2. split; [by etrans|lia|lia|split; congruence].
Qed.

Lemma fetch_one_crawled id f next w :
  id ∉ visited (cr_state w) → (Z.of_nat (size (visited (cr_state w))) < maxCache (cr_state w))%Z →
  crawled f w (fetch_one id f next w).1.1 (fetch_one id f next w).2.
Proof.
  intros Hid Hsize. unfold fetch_one.
  assert (Hs : size ({[id]} ∪ visited (cr_state w)) = S (size (visited (cr_state w)))).
  { rewrite size_union by set_solver. by rewrite size_singleton. }
  destruct (FetchProfileLog id (cr_net w)) as [[events|e] n]; cbn [fst snd].
  - destruct (fetch_followers id n) as [r n']. split; cbn; [set_solver|lia|lia|done].
  - split; cbn; [set_solver|lia|lia|done].
Qed.

Lemma crawl_batch_crawled batch f next w :
  crawled f w (crawl_batch batch f next w).1.1 (crawl_batch batch f next w).2.
Proof.
  revert f next w. induction batch as [|id batch IH]; intros f next w; cbn [crawl_batch].
  { by apply crawled_refl. }
  destruct (ctx_Err (cr_net w)); [by apply crawled_refl|].
  case_decide as Hskip; [apply IH|].
  pose proof (fetch_one_crawled id f next w) as Hone.
  destruct (fetch_one id f next w) as [[f' next'] w'].
  eapply crawled_trans; [apply Hone; [tauto|lia]|]. apply IH.
Qed.

Lemma crawl_rounds_crawled depth f w :
  crawled f w (crawl_rounds depth f w).1.1 (crawl_rounds depth f w).2.
Proof.
  revert f w. induction depth as [|depth IH]; intros f w; cbn [crawl_rounds].
  { by apply crawled_refl. }
  destruct (queue (cr_state w)) as [|id batch]; [by apply crawled_refl|].
  set (w0 := mkCrawl _ _ _).
  pose proof (crawl_batch_crawled (id :: batch) f [] w0) as Hb.
  destruct (crawl_batch (id :: batch) f [] w0) as [[f1 [next|e]] w1]; cbn [fst snd] in Hb.
  - eapply crawled_trans; [|apply IH]. destruct Hb as [? ? ? ?]. by split.
  - cbn. destruct Hb as [? ? ? ?]. by split.
Qed.
End facts.
