(* ===== verification/CrawlerFacts.v ===== *)
(** * The crawl as breadth-first search *)

From S2P Require Import Prelude Base32 External Identity Event Log Bolt Store StoreFacts Crawler.
#[local] Open Scope go_scope.

Section bfs.
Context `{Bolt, Blake3, Ed25519, order : GoRange}.
Context `{!CborType Event, !CborType SignedEvent}.
Context `{Fetcher F}.
Implicit Types (w : crawl F).

(** A network that answers every fetch, the same each time, and a context
    never cancelled. *)
Context (logs followers : bytes → list SignedEvent).
Definition steady : Prop := ∀ id (n : F),
  FetchProfileLog id n = (Ok (logs id), n) ∧ fetch_followers id n = (Ok (followers id), n) ∧
  ctx_Err n = None.
Context (Hnet : steady).

(** One step of the follow graph, out along a follow or back along a follow
    the other side has received. *)
Definition edge (x y : bytes) : Prop :=
  y ∈ follow_targets (logs x) ∅ ∨ y ∈ follow_authors (followers x) ∅.

(** Reached from the seeds in fewer than [n] steps. *)
Inductive reach (seeds : list bytes) : nat → bytes → Prop :=
  | reach_seed n x : x ∈ seeds → reach seeds (S n) x
  | reach_step n x y : reach seeds n x → edge x y → reach seeds (S n) y.

Lemma reach_S seeds n x : reach seeds n x → reach seeds (S n) x.
Proof. induction 1 as [n x Hx|n x y _ IH He]; [by apply reach_seed|by eapply reach_step]. Qed.

Lemma edge_next x y seen :
  edge x y ↔ y ∈ follow_targets (logs x) seen ++ follow_authors (followers x) seen ∨
             (edge x y ∧ y ∈ seen).
Proof.
  unfold edge, follow_targets, follow_authors. rewrite elem_of_app, !list_elem_of_filter.
  destruct (decide (y ∈ seen)); set_solver.
Qed.

(** A batch visits its identities and queues their neighbours. *)
Lemma crawl_batch_steady (U : gset bytes) batch f next w :
  (∀ x, x ∈ batch → x ∈ U) → visited (cr_state w) ⊆ U →
  (Z.of_nat (size U) ≤ maxCache (cr_state w))%Z →
  let V := visited (cr_state w) in let V' := V ∪ list_to_set batch in
  ∃ next' s, crawl_batch batch f next w =
      ((f + (size V' - size V), Ok next'), mkCrawl (set_visited V' (cr_state w)) s (cr_net w)) ∧
    (∀ y, y ∈ next → y ∈ next') ∧
    (∀ y, y ∈ next' → y ∈ next ∨ ∃ x, x ∈ batch ∧ edge x y) ∧
    (∀ x y, x ∈ batch → x ∉ V → edge x y → y ∈ next' ∨ y ∈ V').
Proof.
  revert f next w. induction batch as [|id batch IH]; intros f next w HU HV Hmax; cbn zeta.
  { exists next, (cr_store w). cbn [list_to_set crawl_batch]. rewrite (right_id_L ∅ (∪)), Nat.sub_diag, Nat.add_0_r.
    split_and!; [by destruct w as [[] ? ?]|done|by left|intros x y Hx; set_solver]. }
  cbn [crawl_batch]. destruct (Hnet id (cr_net w)) as (Hp & Hf & Hctx). rewrite Hctx.
  set (V := visited (cr_state w)) in *.
  assert (Hid : id ∈ U) by (apply HU; set_solver).
  case_decide as Hskip.
  - assert (Hin : id ∈ V).
    { destruct Hskip as [?|Hle]; [done|]. apply dec_stable. intros Hn.
      assert (Hlt : size V < size U) by (apply subset_size; set_solver). lia. }
    destruct (IH f next w) as (next' & s & Hrun & Hk & Hs & Hc); [set_solver|done|done|].
    fold V in Hrun, Hc. cbn [list_to_set].
    replace (V ∪ ({[id]} ∪ list_to_set batch)) with (V ∪ list_to_set batch) by set_solver.
    exists next', s. split_and!; [done|done|set_solver|].
    intros x y [->|Hx]%elem_of_cons; [done|by apply Hc].
  - assert (Hid' : id ∉ V) by tauto. unfold fetch_one. rewrite Hp, Hf. fold V.
    cbn [visited set_visited].
    set (w1 := mkCrawl _ _ _). set (n1 := _ ++ follow_authors _ _).
    destruct (IH (S f) n1 w1) as (next' & s & Hrun & Hk & Hs & Hc);
      [set_solver|cbn; set_solver|done|].
    cbn [cr_state w1 visited set_visited cr_net] in Hrun, Hc.
    exists next', s. cbn [list_to_set].
    replace (V ∪ ({[id]} ∪ list_to_set batch)) with ({[id]} ∪ V ∪ list_to_set batch) by set_solver.
    assert (Hsz : size ({[id]} ∪ V) = S (size V)) by (rewrite size_union by set_solver; by rewrite size_singleton).
    assert (Hle : size ({[id]} ∪ V) ≤ size ({[id]} ∪ V ∪ list_to_set batch))
      by (apply subseteq_size; set_solver).
    split_and!.
    + rewrite Hrun. f_equal. f_equal. lia.
    + intros y Hy. apply Hk. unfold n1. set_solver.
    + intros y [Hy|(x & Hx & He)]%Hs; [|right; exists x; set_solver].
      unfold n1 in Hy. rewrite <-(assoc_L (++)) in Hy. apply elem_of_app in Hy as [?|Hy]; [by left|].
      right. exists id. split; [set_solver|]. apply (edge_next id y ({[id]} ∪ V)). by left.
    + intros x y [->|Hx]%elem_of_cons Hn He.
      * apply (edge_next id y ({[id]} ∪ V)) in He as [He|[_ Hin]]; [|right; set_solver].
        left. apply Hk. unfold n1. rewrite <-(assoc_L (++)). apply elem_of_app. by right.
      * destruct (decide (x = id)) as [->|Hne]; [|apply (Hc x); set_solver].
        apply (edge_next id y ({[id]} ∪ V)) in He as [He|[_ Hin]]; [|right; set_solver].
        left. apply Hk. unfold n1. rewrite <-(assoc_L (++)). apply elem_of_app. by right.
Qed.

(** After [k] rounds the crawler has visited what is fewer than [k] steps away
    and queues what is exactly [k] away. *)
Definition frontier (seeds : list bytes) (k : nat) (c : crawler) : Prop :=
  (∀ x, x ∈ visited c ↔ reach seeds k x) ∧
  (∀ x, x ∈ queue c → reach seeds (S k) x) ∧
  (∀ x, reach seeds (S k) x → x ∈ visited c ∨ x ∈ queue c).

Lemma frontier_start seeds c : visited c = ∅ → queue c = seeds → frontier seeds 0 c.
Proof.
  intros Hv Hq. split_and!; rewrite ?Hv, ?Hq.
  - intros x. split; [set_solver|]. inversion 1.
  - intros x Hx. by apply reach_seed.
  - intros x Hx. right. inversion Hx as [|? y ? Hy]; [done|]. inversion Hy.
Qed.

(** With an empty queue nothing more can be reached. *)
Lemma frontier_empty seeds k n c :
  frontier seeds k c → queue c = [] → ∀ x, reach seeds (k + n) x → x ∈ visited c.
Proof.
  intros (Hv & _ & Hall) Hq. induction n as [|n IH]; intros x Hx.
  { apply Hv. by rewrite Nat.add_0_r in Hx. }
  rewrite Nat.add_succ_r in Hx. inversion Hx as [m s Hs|m y z Hy He]; subst.
  - destruct (Hall x) as [|Hin]; [by apply reach_seed|done|by rewrite Hq in Hin; apply elem_of_nil in Hin].
  - apply IH, Hv in Hy. destruct (Hall x) as [|Hin]; [by eapply reach_step|done|].
    by rewrite Hq in Hin; apply elem_of_nil in Hin.
Qed.

Lemma frontier_next seeds k c V' next :
  frontier seeds k c → V' = visited c ∪ list_to_set (queue c) →
  (∀ y, y ∈ next → ∃ x, x ∈ queue c ∧ edge x y) →
  (∀ x y, x ∈ queue c → x ∉ visited c → edge x y → y ∈ next ∨ y ∈ V') →
  frontier seeds (S k) (set_queue next (set_visited V' c)).
Proof.
  intros (Hv & Hq & Hall) -> Hnext Hclosed.
  assert (HV : ∀ x, x ∈ visited c ∪ list_to_set (queue c) ↔ reach seeds (S k) x).
  { intros x. rewrite elem_of_union, elem_of_list_to_set. split; [|apply Hall].
    intros [?%Hv|?%Hq]; [by apply reach_S|done]. }
  split_and!; cbn [visited set_visited queue set_queue].
  - exact HV.
  - intros y (x & Hx & He)%Hnext. eapply reach_step; [|exact He]. by apply Hq.
  - intros y Hy. inversion Hy as [m s Hs|m x z Hx He]; subst.
    + left. apply HV. by apply reach_seed.
    + apply Hall in Hx as [Hx|Hx].
      * left. apply HV. apply Hv in Hx. by eapply reach_step.
      * destruct (decide (x ∈ visited c)) as [Hin%Hv|Hn]; [left; apply HV; by eapply reach_step|].
        destruct (Hclosed x y Hx Hn He); [by right|by left].
Qed.

Lemma crawl_rounds_steady (U : gset bytes) seeds d k f w :
  (∀ x, reach seeds (k + d) x → x ∈ U) → (Z.of_nat (size U) ≤ maxCache (cr_state w))%Z →
  frontier seeds k (cr_state w) →
  ∃ w', crawl_rounds d f w =
      ((f + (size (visited (cr_state w')) - size (visited (cr_state w))), Ok tt), w') ∧
    visited (cr_state w) ⊆ visited (cr_state w') ∧
    ∀ x, x ∈ visited (cr_state w') ↔ reach seeds (k + d) x.
Proof.
  revert k f w. induction d as [|d IH]; intros k f w HU Hmax Hfr.
  { exists w. cbn. rewrite Nat.sub_diag, !Nat.add_0_r. split_and!; [done|done|]. apply Hfr. }
  cbn [crawl_rounds].
  assert (Hmono : ∀ n m x, reach seeds n x → reach seeds (n + m) x).
  { intros n m x Hx. induction m as [|m IHm]; [by rewrite Nat.add_0_r|].
    rewrite Nat.add_succ_r. by apply reach_S. }
  destruct (queue (cr_state w)) as [|id batch] eqn:Hq.
  { exists (mkCrawl (set_queue [] (cr_state w)) (cr_store w) (cr_net w)).
    cbn [cr_state visited set_queue]. rewrite Nat.sub_diag, Nat.add_0_r. split_and!; [done|done|].
    intros x. split; [|by apply (frontier_empty _ _ _ _ Hfr)].
    intros Hx. apply Hmono. by apply Hfr. }
  rewrite <-Hq. set (w0 := mkCrawl _ _ _).
  destruct (crawl_batch_steady U (queue (cr_state w)) f [] w0) as (next & s & Hrun & _ & Hnext & Hcl).
  { intros x Hx. apply HU. rewrite Nat.add_succ_r. apply (Hmono (S k) d). by apply Hfr. }
  { cbn. intros x Hx. apply HU. apply Hmono. by apply Hfr. }
  { done. }
  cbn zeta in Hrun, Hcl. rewrite Hrun. cbn [cr_state w0 visited set_queue] in Hrun, Hcl |- *.
  set (V' := visited (cr_state w) ∪ list_to_set (queue (cr_state w))) in *.
  destruct (IH (S k) (f + (size V' - size (visited (cr_state w))))
    (mkCrawl (set_queue next (set_visited V' (cr_state w))) s (cr_net w)))
    as (w' & Hrun' & Hsub & Hreach).
  { intros x. rewrite Nat.add_succ_l, <-Nat.add_succ_r. apply HU. }
  { done. }
  { apply frontier_next; [done|done| |done].
    intros y Hy. destruct (Hnext y Hy) as [Hn|?]; [by apply elem_of_nil in Hn|done]. }
  exists w'. cbn [cr_state visited set_visited set_queue] in Hrun', Hsub.
  assert (Hle : size (visited (cr_state w)) ≤ size V') by (apply subseteq_size; set_solver).
  assert (Hle' : size V' ≤ size (visited (cr_state w'))) by (by apply subseteq_size).
  split_and!.
  - cbn [set_visited visited queue app maxDepth maxCache running lastRun] in Hrun' |- *.
    unfold set_queue, set_visited in Hrun' |- *. cbn in Hrun' |- *. rewrite Hrun'.
    f_equal. f_equal. lia.
  - set_solver.
  - intros x. rewrite Nat.add_succ_r, <-Nat.add_succ_l. apply Hreach.
Qed.
End bfs.

(** ** What a crawl stores *)

Section cache.
Context `{BoltLaws, Blake3, !Blake3Laws, Ed25519, CborText, order : GoRange}.
Context `{!CborType Event, !CborLaws Event, !CborType SignedEvent, !CborLaws SignedEvent}.
Context `{Fetcher F}.
Implicit Types (w : crawl F).

(** The caches of [p'] hold the IDs that [p] holds, and what is not in [p] is
    a verified event of a profile log, under its own ID. *)
Definition profiles_added (p p' : bucket (bucket bytes)) : Prop :=
  subs_ok p' ∧ ∀ a k,
    (is_Some (subview p a !! k) → is_Some (subview p' a !! k)) ∧
    ∀ se, subview p' a !! k = Some se → subview p a !! k = Some se ∨
      Verify se = Ok tt ∧ e_Log (se_Event se) = ProfileLog ∧ ID se = Ok k.

Lemma profiles_added_refl p : subs_ok p → profiles_added p p.
Proof. intros Hp. split; [done|]. intros a k. split; [done|]. by left. Qed.

Lemma PutCrawledProfile_any a se s r s' :
  wf se = true → subs_ok (bucketCrawl s) → PutCrawledProfile a se s = (r, s') →
  s' = s ∨ ∃ id crawl, ID se = Ok id ∧ s' = set_crawl crawl s ∧ subs_ok crawl ∧
    ∀ n, subview crawl n = if decide (n = a) then <[id := se]> (subview (bucketCrawl s) n)
                           else subview (bucketCrawl s) n.
Proof.
  intros Hwf Hok. unfold PutCrawledProfile, wrapM, lift, Update, mbind, stM_bind.
  destruct (ID se) as [id|e] eqn:HID; [|destruct e; intros [= _ <-]; by left]. cbn [wrap].
  destruct (CanonicalEncode se) as [v|e] eqn:Hv; [|destruct e; intros [= _ <-]; by left]. cbn [wrap].
  destruct (bk_CreateBucketIfNotExists _ _) as [[b p]|] eqn:Hc; [|intros [= _ <-]; by left].
  destruct (bk_Put id v b) as [b'|] eqn:Hput; [|intros [= _ <-]; by left].
  intros [= _ <-]. right. exists id, (bk_set a b' p).
  apply bk_Put_Ok in Hput as (_ & Hvok & ->).
  assert (Hse : storable se) by (split; [done|by exists v]).
  pose proof (storable_decode _ _ Hse Hv) as Hdec.
  destruct (create_subview _ _ _ _ Hok Hc) as (Hb & Hview & Hp' & Hn).
  split_and!; [done|done|apply subs_ok_set; [done|by eapply bucket_ok_set]|].
  intros n. rewrite subview_set, Hn. destruct (decide (n = a)) as [->|Hne].
  - rewrite decide_True by done. by rewrite (view_set _ _ _ _ Hdec), Hview.
  - by rewrite decide_False.
Qed.

Lemma store_profile_added p0 id s se :
  wf se = true → profiles_added p0 (bucketCrawl s) →
  profiles_added p0 (bucketCrawl (store_profile id s se)).
Proof.
  intros Hwf [Hok Hadd]. unfold store_profile. case_decide as Hgood; [|done].
  destruct Hgood as [Hlog Hver]. destruct (PutCrawledProfile id se s) as [r s'] eqn:Hrun.
  destruct (PutCrawledProfile_any _ _ _ _ _ Hwf Hok Hrun) as [-> |(i & cr & HID & -> & Hcr & Hview)];
    [done|]. cbn [snd bucketCrawl set_crawl]. split; [done|]. intros a k. rewrite Hview.
  destruct (Hadd a k) as [Hkeep Hnew]. case_decide as Ha; [|done].
  destruct (decide (i = k)) as [->|Hne].
  - rewrite lookup_insert_eq. split; [by intros _; eexists|]. intros se' [= <-]. by right.
  - by rewrite lookup_insert_ne.
Qed.

Lemma decodable_singleton k v se : decode_event v = Ok se → decodable (bk_set k v bk_new) = [(k, se)].
Proof.
  intros Hv. pose proof (decodable_view (bk_set k v bk_new)) as Hp.
  rewrite (view_set _ _ _ _ Hv), view_new in Hp.
  rewrite map_to_list_insert in Hp by apply lookup_empty. rewrite map_to_list_empty in Hp.
  by apply Permutation_singleton_r in Hp.
Qed.

(** Events come off the wire, so they are well formed. *)
Definition decoded_net : Prop := ∀ id (n : F) events,
  (FetchProfileLog id n).1 = Ok events → Forall (λ se : SignedEvent, wf se = true) events.
Context (Hnet : decoded_net).

(** Whatever holds of the store and is kept by storing one profile event is
    kept by a crawl. *)
Section keeps.
Context (P : store → Prop).
Context (HP : ∀ id s (se : SignedEvent), wf se = true → P s → P (store_profile id s se)).

Lemma store_profiles_keep id events s :
  Forall (λ se : SignedEvent, wf se = true) events → P s → P (foldl (store_profile id) s events).
Proof.
  intros He. revert s. induction He as [|se events Hwf He IH]; intros s Hs; [done|].
  cbn. apply IH. by apply HP.
Qed.

Lemma fetch_one_keeps id f next w : P (cr_store w) → P (cr_store (fetch_one id f next w).2).
Proof.
  intros Hs. unfold fetch_one. pose proof (Hnet id (cr_net w)) as Hn.
  destruct (FetchProfileLog id (cr_net w)) as [[events|e] n]; cbn [fst] in Hn; [|done].
  destruct (fetch_followers id n) as [r n']. cbn. apply store_profiles_keep; [by apply Hn|done].
Qed.

Lemma crawl_batch_keeps batch f next w :
  P (cr_store w) → P (cr_store (crawl_batch batch f next w).2).
Proof.
  revert f next w. induction batch as [|id batch IH]; intros f next w Hs; cbn [crawl_batch]; [done|].
  destruct (ctx_Err (cr_net w)); [done|]. case_decide; [by apply IH|].
  pose proof (fetch_one_keeps id f next w Hs) as Hone.
  destruct (fetch_one id f next w) as [[f' next'] w']. by apply IH.
Qed.

Lemma crawl_rounds_keep depth f w : P (cr_store w) → P (cr_store (crawl_rounds depth f w).2).
Proof.
  revert f w. induction depth as [|depth IH]; intros f w Hs; cbn [crawl_rounds]; [done|].
  destruct (queue (cr_state w)) as [|id batch]; [done|]. set (w0 := mkCrawl _ _ _).
  pose proof (crawl_batch_keeps (id :: batch) f [] w0 Hs) as Hb.
  destruct (crawl_batch (id :: batch) f [] w0) as [[f1 [next|e]] w1]; [by apply IH|done].
Qed.

Lemma Run_keeps now w : P (cr_store w) → P (cr_store (Run now w).2).
Proof.
  intros Hs. unfold Run. destruct (running (cr_state w)); [done|]. set (w0 := mkCrawl _ _ _).
  pose proof (crawl_rounds_keep (Z.to_nat (maxDepth (cr_state w))) 0 w0 Hs) as Ha.
  by destruct (crawl_rounds _ 0 w0) as [[f res] w'].
Qed.
End keeps.

Lemma Run_added now w :
  subs_ok (bucketCrawl (cr_store w)) →
  profiles_added (bucketCrawl (cr_store w)) (bucketCrawl (cr_store (Run now w).2)).
Proof.
  intros Hok. apply (Run_keeps (λ s, profiles_added (bucketCrawl (cr_store w)) (bucketCrawl s))).
  - intros id s se. apply store_profile_added.
  - by apply profiles_added_refl.
Qed.
End cache.
