(* ===== verification/Bootstrap.v ===== *)
(** * The bootstrap file

    Models [internal/bootstrap/bootstrap.go]: the signed list of first zens,
    its signature text and hexadecimal. *)

From S2P Require Import Prelude Base32 External Identity.
#[local] Open Scope go_scope.

Module Bootstrap.

Record SeedRelay := mkSeedRelay { relay_URL : bytes; relay_Kind : bytes }.
Record DERPRelay := mkDERPRelay { derp_Region : bytes; derp_URL : bytes }.
Record SeedZen := mkSeedZen { zen_Token : bytes; zen_Kind : bytes }.

Record File := mkFile {
  Version : Z;
  Signature : bytes;
  SeedRelays : list SeedRelay;
  DERPRelays : list DERPRelay;
  SeedZens : list SeedZen;
  CrawlSeeds : list bytes;
}.

Record signedContent := mkContent {
  sc_Version : Z;
  sc_SeedRelays : list SeedRelay;
  sc_DERPRelays : list DERPRelay;
  sc_SeedZens : list SeedZen;
  sc_CrawlSeeds : list bytes;
}.

Definition content (f : File) : signedContent :=
  mkContent (Version f) (SeedRelays f) (DERPRelays f) (SeedZens f) (CrawlSeeds f).

Definition set_Signature (sig : bytes) (f : File) : File :=
  mkFile (Version f) sig (SeedRelays f) (DERPRelays f) (SeedZens f) (CrawlSeeds f).

(** [gopkg.in/yaml.v3]. *)
Class Yaml := {
  yaml_Marshal : signedContent → result bytes;
  yaml_Unmarshal : bytes → result File;
}.

(** ** Hexadecimal *)

Definition hexChars : bytes := # "0123456789abcdef".

(** [hexChars[v>>4]] and [hexChars[v&0xf]]; the index is below 16. *)
Definition hex_digit (n : N) : byte := nth (N.to_nat n) hexChars Byte.x00.
Definition encode_byte (v : byte) : bytes :=
  [hex_digit (N.shiftr (Byte.to_N v) 4); hex_digit (N.land (Byte.to_N v) 15)].
Definition encodeHex (b : bytes) : bytes := mjoin (encode_byte <$> b).

Definition hexVal (c : byte) : option N :=
  let n := Byte.to_N c in
  if (48 <=? n)%N && (n <=? 57)%N then Some (n - 48)%N
  else if (97 <=? n)%N && (n <=? 102)%N then Some (n - 97 + 10)%N
  else if (65 <=? n)%N && (n <=? 70)%N then Some (n - 65 + 10)%N
  else None.

(** The loop of [decodeHex], two characters at a time. *)
Fixpoint decode_pairs (s : bytes) : result bytes :=
  match s with
  | a :: b :: s =>
      match hexVal a, hexVal b with
      | Some hi, Some lo =>
          out ← decode_pairs s;
          Ok (byte_of (N.lor (N.shiftl hi 4) lo) :: out)
      | _, _ => Err (E "invalid hex character")
      end
  | _ => Ok []
  end.

Definition decodeHex (s : bytes) : result bytes :=
  if Nat.odd (length s) then Err (E "odd-length hex") else decode_pairs s.

(** ** Signature *)

Definition sig_prefix : bytes := # "ed25519:".

Definition parseSig (s : bytes) : result bytes :=
  if decide (length s < length sig_prefix ∨ take (length sig_prefix) s ≠ sig_prefix) then
    Err (E "signature missing ed25519: prefix")
  else decodeHex (drop (length sig_prefix) s).

Section file.
Context `{Yaml, Ed25519}.

Definition marshalContent (f : File) : result bytes := yaml_Marshal (content f).

(** [f.Sign(priv)]: the file with its [Signature] set. *)
Definition Sign (priv : bytes) (f : File) : result File :=
  content ← wrap "marshal content" (marshalContent f);
  sig ← ed25519_Sign priv content;
  Ok (set_Signature (sig_prefix ++ encodeHex sig) f).

Definition Verify (pub : bytes) (f : File) : result unit :=
  sig ← parseSig (Signature f);
  content ← wrap "marshal content" (marshalContent f);
  ok ← ed25519_Verify pub content sig;
  if negb ok then Err (E "bootstrap signature does not verify") else Ok tt.

Definition Parse (data : bytes) : result File := wrap "parse bootstrap yaml" (yaml_Unmarshal data).
End file.

(** ** Facts *)

Lemma hexVal_digit a n : hexVal a = Some n → (n < 16)%N ∧ hex_digit n = lower_byte a.
Proof. destruct a; try discriminate; intros Heq; injection Heq as <-; by split. Qed.

Lemma join_digits hi lo :
  (hi < 16)%N → (lo < 16)%N →
  encode_byte (byte_of (N.lor (N.shiftl hi 4) lo)) = [hex_digit hi; hex_digit lo].
Proof.
  intros Hhi Hlo.
  assert (Hall : ∀ n, (n < 16)%N → n ∈ N.of_nat <$> seq 0 16).
  { intros n Hn. apply list_elem_of_fmap. exists (N.to_nat n). rewrite N2Nat.id.
    split; [done|]. apply elem_of_seq. lia. }
  apply Hall in Hhi, Hlo. cbn [seq fmap list_fmap] in Hhi, Hlo.
  repeat (apply elem_of_cons in Hhi as [->|Hhi];
    [repeat (apply elem_of_cons in Hlo as [->|Hlo]; [reflexivity|]); by apply elem_of_nil in Hlo|]).
  by apply elem_of_nil in Hhi.
Qed.

Lemma decode_encode_byte v rest :
  decode_pairs (encode_byte v ++ rest) = (out ← decode_pairs rest; Ok (v :: out)).
Proof. destruct v; reflexivity. Qed.

Lemma encodeHex_length b : length (encodeHex b) = 2 * length b.
Proof.
  induction b as [|v b IH]; [done|]. change (encodeHex (v :: b)) with (encode_byte v ++ encodeHex b).
  rewrite length_app, IH. cbn [length encode_byte]. lia.
Qed.

Lemma decodeHex_encodeHex b : decodeHex (encodeHex b) = Ok b.
Proof.
  unfold decodeHex. rewrite encodeHex_length. rewrite Nat.odd_mul. cbn [Nat.odd Nat.even negb andb].
  induction b as [|v b IH]; [done|]. change (encodeHex (v :: b)) with (encode_byte v ++ encodeHex b).
  rewrite decode_encode_byte. by rewrite IH.
Qed.

(** Length-two induction. *)
Lemma pairs_ind (P : bytes → Prop) :
  P [] → (∀ a, P [a]) → (∀ a b s, P s → P (a :: b :: s)) → ∀ s, P s.
Proof.
  intros Hnil Hone Hstep s. enough (P s ∧ ∀ a, P (a :: s)) by tauto.
  induction s as [|b s [IH1 IH2]]; split; auto.
Qed.

Lemma decodeHex_Ok s b : decodeHex s = Ok b → length s = 2 * length b ∧ encodeHex b = lower_byte <$> s.
Proof.
  unfold decodeHex. destruct (Nat.odd (length s)) eqn:Hodd; [done|]. revert b Hodd.
  induction s as [|a|a c s IH] using pairs_ind; intros b Hodd.
  - intros [= <-]. done.
  - done.
  - cbn [decode_pairs]. destruct (hexVal a) as [hi|] eqn:Ha; [|done].
    destruct (hexVal c) as [lo|] eqn:Hc; [|done].
    destruct (decode_pairs s) as [out|] eqn:Hs; [|done]. intros [= <-].
    destruct (hexVal_digit _ _ Ha) as [Hhi Hda]. destruct (hexVal_digit _ _ Hc) as [Hlo Hdc].
    destruct (IH out Hodd eq_refl) as [Hlen Henc]. split; [cbn [length]; lia|].
    cbn [fmap list_fmap]. change (encodeHex (?x :: out)) with (encode_byte x ++ encodeHex out).
    rewrite join_digits by done. by rewrite Henc, Hda, Hdc.
Qed.

Lemma parseSig_prefix s : parseSig (sig_prefix ++ s) = decodeHex s.
Proof.
  unfold parseSig. rewrite take_app_length, drop_app_length. rewrite decide_False; [done|].
  rewrite length_app. intros [?|?]; [lia|done].
Qed.

Lemma parseSig_Ok s sig : parseSig s = Ok sig ↔ ∃ h, s = sig_prefix ++ h ∧ decodeHex h = Ok sig.
Proof.
  split; [|by intros (h & -> & Hh); rewrite parseSig_prefix].
  unfold parseSig. case_decide as Hc; [done|]. intros Hd.
  apply Decidable.not_or in Hc as [_ Hp]. apply dec_stable in Hp.
  exists (drop (length sig_prefix) s). split; [|done]. rewrite <-Hp at 1. by rewrite take_drop.
Qed.
End Bootstrap.
