(* ===== verification/Daemon.v ===== *)
(** * The daemon: state, push events, zens, feed

    Models the in-memory half of [internal/daemon/daemon.go]: the subscriber
    queues, the map of known zens, the name and feed caches and the pages of
    the feed. Fields that hold network handles are reduced to what the
    modelled code reads of them. *)

From S2P Require Import Prelude Base32 External Identity Event Log Bolt Store StoreFollow StoreQuery Wire Crawler.
#[local] Open Scope go_scope.

(** ** State *)

Record zenInfo := mkZenInfo {
  z_ID : bytes;
  z_Identity : bytes;
  z_Name : bytes;
  z_Kind : bytes;
  z_Status : bytes;
  z_Verified : bool;
}.

Record feedItem := mkFeedItem {
  fi_ID : bytes;
  fi_Timestamp : Z;
  fi_Author : bytes;
  fi_Name : bytes;
  fi_Text : bytes;
  fi_LikeCount : Z;
  fi_Likers : list bytes;
}.

(** One row of the follows and followers lists. *)
Record entry := mkEntry {
  en_Identity : bytes;
  en_Name : bytes;
  en_Verified : bool;
  en_Pinned : bool;
}.

Record StatusDiff := mkStatusDiff { Zens_ : nat; Transport : bool; Unlocked : bool }.

Inductive event :=
  | ZenUpsert (z : zenInfo)
  | ZenRemove (id : bytes)
  | FollowsAdd (e : entry)
  | FollowsRemove (identity : bytes)
  | FollowersAdd (e : entry)
  | FeedAdd (items : list feedItem)
  | Status (s : StatusDiff).

#[export] Instance zenInfo_eq_dec : EqDecision zenInfo. Proof. solve_decision. Defined.
#[export] Instance feedItem_eq_dec : EqDecision feedItem. Proof. solve_decision. Defined.

(** [events] is a channel of capacity [subscribeQueue]; [done] is closed to
    drop the subscriber. [sub_id] is the pointer [removeSubscriber] compares. *)
Record subscriber := mkSubscriber { sub_id : nat; sub_events : list event; sub_done : bool }.

Definition subscribeQueue : nat := 256.
Definition newSubscriber (id : nat) : subscriber := mkSubscriber id [] false.

Record dstate := mkDstate {
  zens : gmap bytes zenInfo;
  knownTokens : gset bytes;
  tcAddr : option bytes;          (* tcListener and its Addr() *)
  unlocked : option KeyPair;
  lastSignAt : Z;
  idleLock : Z;
  feedGen : Z;
  feedCache : option (list SignedEvent);
  nameCache : gmap bytes bytes;
  subs : list subscriber;
  syncNow : bool;                 (* a signal is queued *)
  d_crawler : option crawler;
  bootstrapPath : bytes;
  bootstrapDone : bool;
  spawned : nat;                  (* dialBootstrapSeeds goroutines started *)
}.

Definition set_zens v d := mkDstate v (knownTokens d) (tcAddr d) (unlocked d) (lastSignAt d)
  (idleLock d) (feedGen d) (feedCache d) (nameCache d) (subs d) (syncNow d) (d_crawler d)
  (bootstrapPath d) (bootstrapDone d) (spawned d).
Definition set_knownTokens v d := mkDstate (zens d) v (tcAddr d) (unlocked d) (lastSignAt d)
  (idleLock d) (feedGen d) (feedCache d) (nameCache d) (subs d) (syncNow d) (d_crawler d)
  (bootstrapPath d) (bootstrapDone d) (spawned d).
Definition set_unlocked v d := mkDstate (zens d) (knownTokens d) (tcAddr d) v (lastSignAt d)
  (idleLock d) (feedGen d) (feedCache d) (nameCache d) (subs d) (syncNow d) (d_crawler d)
  (bootstrapPath d) (bootstrapDone d) (spawned d).
Definition set_lastSignAt v d := mkDstate (zens d) (knownTokens d) (tcAddr d) (unlocked d) v
  (idleLock d) (feedGen d) (feedCache d) (nameCache d) (subs d) (syncNow d) (d_crawler d)
  (bootstrapPath d) (bootstrapDone d) (spawned d).
Definition set_feed g c d := mkDstate (zens d) (knownTokens d) (tcAddr d) (unlocked d)
  (lastSignAt d) (idleLock d) g c (nameCache d) (subs d) (syncNow d) (d_crawler d)
  (bootstrapPath d) (bootstrapDone d) (spawned d).
Definition set_nameCache v d := mkDstate (zens d) (knownTokens d) (tcAddr d) (unlocked d)
  (lastSignAt d) (idleLock d) (feedGen d) (feedCache d) v (subs d) (syncNow d) (d_crawler d)
  (bootstrapPath d) (bootstrapDone d) (spawned d).
Definition set_subs v d := mkDstate (zens d) (knownTokens d) (tcAddr d) (unlocked d)
  (lastSignAt d) (idleLock d) (feedGen d) (feedCache d) (nameCache d) v (syncNow d) (d_crawler d)
  (bootstrapPath d) (bootstrapDone d) (spawned d).
Definition set_syncNow v d := mkDstate (zens d) (knownTokens d) (tcAddr d) (unlocked d)
  (lastSignAt d) (idleLock d) (feedGen d) (feedCache d) (nameCache d) (subs d) v (d_crawler d)
  (bootstrapPath d) (bootstrapDone d) (spawned d).
Definition set_crawler v d := mkDstate (zens d) (knownTokens d) (tcAddr d) (unlocked d)
  (lastSignAt d) (idleLock d) (feedGen d) (feedCache d) (nameCache d) (subs d) (syncNow d) v
  (bootstrapPath d) (bootstrapDone d) (spawned d).
Definition set_spawned v d := mkDstate (zens d) (knownTokens d) (tcAddr d) (unlocked d)
  (lastSignAt d) (idleLock d) (feedGen d) (feedCache d) (nameCache d) (subs d) (syncNow d)
  (d_crawler d) (bootstrapPath d) (bootstrapDone d) v.

(** [New]. *)
Definition daemon_New : dstate :=
  mkDstate ∅ ∅ None None 0 0 0 None ∅ [] false None [] false 0.

(** [SetIdleLock] and [SetUnlockedKey]. *)
Definition SetIdleLock (dur : Z) (d : dstate) : dstate :=
  mkDstate (zens d) (knownTokens d) (tcAddr d) (unlocked d) (lastSignAt d) dur (feedGen d)
    (feedCache d) (nameCache d) (subs d) (syncNow d) (d_crawler d) (bootstrapPath d)
    (bootstrapDone d) (spawned d).
Definition SetUnlockedKey (kp : KeyPair) (now : Z) (d : dstate) : dstate :=
  set_lastSignAt now (set_unlocked (Some kp) d).

(** ** Push events *)

(** One iteration of [broadcast]: a full queue drops its subscriber. *)
Definition offer (ev : event) (s : subscriber) : subscriber :=
  if length (sub_events s) <? subscribeQueue
  then mkSubscriber (sub_id s) (sub_events s ++ [ev]) (sub_done s)
  else mkSubscriber (sub_id s) (sub_events s) true.

Definition broadcast (ev : event) (d : dstate) : dstate := set_subs (offer ev <$> subs d) d.

Definition addSubscriber (s : subscriber) (d : dstate) : dstate := set_subs (subs d ++ [s]) d.

(** The first entry that is [s] goes. *)
Fixpoint remove_first (id : nat) (l : list subscriber) : list subscriber :=
  match l with
  | [] => []
  | s :: l => if decide (sub_id s = id) then l else s :: remove_first id l
  end.
Definition removeSubscriber (id : nat) (d : dstate) : dstate :=
  set_subs (remove_first id (subs d)) d.

Definition emitZenRemove (id : bytes) : dstate → dstate := broadcast (ZenRemove id).
Definition emitFollowsAdd (e : entry) : dstate → dstate := broadcast (FollowsAdd e).
Definition emitFollowsRemove (i : bytes) : dstate → dstate := broadcast (FollowsRemove i).
Definition emitFollowersAdd (e : entry) : dstate → dstate := broadcast (FollowersAdd e).
Definition emitFeedAdd (items : list feedItem) (d : dstate) : dstate :=
  match items with [] => d | _ => broadcast (FeedAdd items) d end.

Definition status_of (d : dstate) : StatusDiff :=
  mkStatusDiff (size (zens d)) (bool_decide (tcAddr d ≠ None)) (bool_decide (unlocked d ≠ None)).
Definition emitStatus (d : dstate) : dstate := broadcast (Status (status_of d)) d.

Definition touchSignAt (now : Z) : dstate → dstate := set_lastSignAt now.

(** A send on a channel of capacity one that drops when full. *)
Definition triggerSyncNow (d : dstate) : dstate := set_syncNow true d.

Section daemon.
Context `{Bolt, Blake3, Ed25519, order : GoRange}.
Context `{!CborType Event, !CborType SignedEvent}.

(** ** Zens *)

Definition zenToProto (s : store) (z : zenInfo) : zenInfo :=
  match RoutingByToken (z_ID z) s with
  | Some id =>
      let name := match Store_DisplayName id s with Ok n => n | Err _ => [] end in
      mkZenInfo (z_ID z) id (if decide (name = []) then z_Name z else name) (z_Kind z) (z_Status z)
        (IsVerified id s)
  | None => mkZenInfo (z_ID z) (z_Identity z) (z_Name z) (z_Kind z) (z_Status z) false
  end.

Definition emitZenUpsert (s : store) (z : zenInfo) : dstate → dstate :=
  broadcast (ZenUpsert (zenToProto s z)).

Definition upsertZen (s : store) (id kind status : bytes) (d : dstate) : dstate :=
  let z := mkZenInfo id [] [] kind status false in
  emitZenUpsert s z (set_zens (<[id := z]> (zens d)) d).

Definition removeZen (id : bytes) (d : dstate) : dstate :=
  emitZenRemove id (set_zens (delete id (zens d)) d).

Definition setZenStatus (s : store) (id status : bytes) (d : dstate) : dstate :=
  match zens d !! id with
  | None => d
  | Some p =>
      let p := mkZenInfo (z_ID p) (z_Identity p) (z_Name p) (z_Kind p) status (z_Verified p) in
      emitZenUpsert s p (set_zens (<[id := p]> (zens d)) d)
  end.

(** [learnZenRef]. [ParseIdentity] accepts every spelling of an identity, so
    the crawler is seeded with the spelling received. *)
Definition learnZenRef (ref : ZenRef) (s : store) (d : dstate) : dstate :=
  if decide (zr_Token ref = []) then d
  else
    let tok := zr_Token ref in
    let d := set_knownTokens ({[tok]} ∪ knownTokens d) d in
    let d := match zens d !! tok with
             | None => upsertZen s tok (# "native_zen") (# "discovered") d
             | Some _ => d
             end in
    if decide (zr_Identity ref = []) then d
    else
      let d := match d_crawler d, ParseIdentity (zr_Identity ref) with
               | Some c, Ok id => set_crawler (Some (Seed [id] c)) d
               | _, _ => d
               end in
      match zens d !! tok with
      | None => d
      | Some p =>
          let name := if decide (zr_Name ref = []) then z_Name p else zr_Name ref in
          set_zens (<[tok := mkZenInfo (z_ID p) (zr_Identity ref) name (z_Kind p) (z_Status p)
                               (z_Verified p)]> (zens d)) d
      end.

Definition display (id : bytes) (s : store) : bytes :=
  match Store_DisplayName id s with Ok n => n | Err _ => [] end.

(** [knownRefsList]; a map lookup of a token that names no zen gives nothing. *)
Definition known_ref (s : store) (d : dstate) (tok : bytes) : ZenRef :=
  match RoutingByToken tok s with
  | Some id => mkZenRef tok id (display id s)
  | None => match zens d !! tok with
            | Some p => mkZenRef tok (z_Identity p) (z_Name p)
            | None => mkZenRef tok [] []
            end
  end.

Definition knownRefsList (s : store) (d : dstate) : list ZenRef :=
  let ownID := default [] (Store_Identity s) in
  match tcAddr d with
  | None => known_ref s d <$> range_set (knownTokens d)
  | Some addr =>
      (if decide (ownID = []) then mkZenRef addr [] [] else mkZenRef addr ownID (display ownID s))
      :: (known_ref s d <$> filter (λ tok, tok ≠ addr) (range_set (knownTokens d)))
  end.

(** [for tok, p := range d.zens]: the first match in the order of the map. *)
Definition tokenForIdentity (identity : bytes) (d : dstate) : option bytes :=
  head (filter (λ tok, z_Identity <$> (zens d !! tok) = Some identity) (range_set (dom (zens d)))).

(** The body of [rehydrateZens]. *)
Definition rehydrate_one (s : store) (m : gmap bytes zenInfo) (p : bytes * bytes)
    : gmap bytes zenInfo :=
  let '(id, tok) := p in
  match m !! tok with
  | Some _ => m
  | None => <[tok := mkZenInfo tok id (display id s) (# "native_zen") (# "connecting")
                       (IsVerified id s)]> m
  end.
Definition rehydrateZens (s : store) (d : dstate) : dstate :=
  set_zens (foldl (rehydrate_one s) (zens d) (AllRouting s)) d.

(** ** Caches *)

(** [cachedPosts]; when the store cannot be read it returns nil and caches
    nothing. Of no posts [Posts] makes a nil slice, which [d.feedCache != nil]
    takes for no cache: an empty timeline is read again each time. The check of
    [feedGen] under the second lock concerns a concurrent rebuild. *)
Definition cachedPosts (s : store) (d : dstate) : list SignedEvent * dstate :=
  match feedCache d with
  | Some posts => (posts, d)
  | None =>
      match AllPostsOneTx s with
      | Err _ => ([], d)
      | Ok allPosts => let posts := Posts allPosts in (posts, set_feed (feedGen d) (appended posts) d)
      end
  end.

Definition invalidateFeed (d : dstate) : dstate := set_feed (wrap_u64 (feedGen d + 1)) None d.
Definition invalidateNames (d : dstate) : dstate := set_nameCache ∅ d.

Definition displayName (id : bytes) (s : store) (d : dstate) : bytes * dstate :=
  match nameCache d !! id with
  | Some name => (name, d)
  | None => let name := display id s in (name, set_nameCache (<[id := name]> (nameCache d)) d)
  end.

(** ** Follow lists *)

Fixpoint name_entries (mk : bytes → bytes → entry) (s : store) (ids : list bytes) (d : dstate)
    : list entry * dstate :=
  match ids with
  | [] => ([], d)
  | id :: ids =>
      let '(name, d) := displayName id s d in
      let '(out, d) := name_entries mk s ids d in
      (mk id name :: out, d)
  end.

Definition followEntries (s : store) (d : dstate) : list entry * dstate :=
  match FollowGraph s with
  | Err _ => ([], d)
  | Ok ids => name_entries (λ id name, mkEntry id name (IsVerified id s) (IsPinned id s)) s ids d
  end.

Definition followerEntries (s : store) (d : dstate) : list entry * dstate :=
  match ReceivedFollowers s with
  | Err _ => ([], d)
  | Ok ids => name_entries (λ id name, mkEntry id name (IsVerified id s) false) s ids d
  end.

(** ** Feed items *)

Definition reply_text (p : Post) : bytes :=
  if EventID_IsZero (ParentID p) then Text p else # "(reply) " ++ Text p.

(** [p.Event.Post.Text] panics when the payload is nil. *)
Definition feedItemFor (p : SignedEvent) (s : store) (d : dstate) : result feedItem * dstate :=
  match e_Post (se_Event p) with
  | None => (Err (Panic "nil pointer dereference"), d)
  | Some post =>
      let '(name, d) := displayName (se_Author p) s d in
      let id := match ID p with Ok id => id | Err _ => zero_hash end in
      (Ok (mkFeedItem (EventID_String id) (e_Timestamp (se_Event p)) (se_Author p) name
             (reply_text post) 0 []), d)
  end.

Fixpoint feedItemsFor (posts : list SignedEvent) (s : store) (d : dstate)
    : result (list feedItem) * dstate :=
  match posts with
  | [] => (Ok [], d)
  | p :: posts =>
      match feedItemFor p s d with
      | (Err e, d) => (Err e, d)
      | (Ok it, d) =>
          match feedItemsFor posts s d with
          | (Err e, d) => (Err e, d)
          | (Ok items, d) => (Ok (it :: items), d)
          end
      end
  end.

(** ** Likes *)

(** [ids[i]], the zero ID where the text does not parse, and [idToIdx]. *)
Definition item_id (it : feedItem) : bytes :=
  match ParseEventID (fi_ID it) with Ok id => id | Err _ => zero_hash end.
Definition id_index (items : list feedItem) : gmap bytes nat :=
  foldl (λ m '(i, it), match ParseEventID (fi_ID it) with Ok id => <[id := i]> m | Err _ => m end)
    ∅ (zip (seq 0 (length items)) items).

Definition add_liker (name : bytes) (it : feedItem) : feedItem :=
  mkFeedItem (fi_ID it) (fi_Timestamp it) (fi_Author it) (fi_Name it) (fi_Text it)
    (fi_LikeCount it + 1) (fi_Likers it ++ [name]).

Definition like_step (s : store) (idx : gmap bytes nat) (st : list feedItem * dstate)
    (se : SignedEvent) : list feedItem * dstate :=
  match e_Like (se_Event se) with
  | None => st
  | Some lk =>
      match idx !! like_TargetID lk with
      | None => st
      | Some i =>
          let '(name, d) := displayName (se_Author se) s st.2 in
          (alter (add_liker (if decide (name = []) then se_Author se else name)) i st.1, d)
      end
  end.

Definition populateLikes (items : list feedItem) (s : store) (d : dstate)
    : list feedItem * dstate :=
  match items with
  | [] => ([], d)
  | _ =>
      match LikesForPosts (item_id <$> items) s with
      | Err _ => (items, d)
      | Ok likes => foldl (like_step s (id_index items)) (items, d) likes
      end
  end.

(** ** Feed pages *)

Definition feedPageLimit : Z := 200.

(** [view[start:end]] with [end <= len(view)]. *)
Definition slice {A} (l : list A) (start stop : Z) : result (list A) :=
  if (start <? 0)%Z || (stop <? start)%Z then Err (Panic "slice bounds out of range")
  else Ok (take (Z.to_nat (stop - start)) (drop (Z.to_nat start) l)).

(** [fetch] is [d.handleFetchLikes], whose result is discarded. *)
Definition handleFeedPage (fetch : list bytes → store → dstate → store * dstate)
    (page : Z) (mine allLikes : bool) (s : store) (d : dstate)
    : result (list feedItem * bool) * (store * dstate) :=
  let '(posts, d) := cachedPosts s d in
  let ownID := default [] (Store_Identity s) in
  let start := wrap_i64 (page * feedPageLimit) in
  let stop := wrap_i64 (start + feedPageLimit) in
  let view := if mine then filter (λ p, se_Author p = ownID) posts else posts in
  let n := Z.of_nat (length view) in
  if (n <=? start)%Z then (Ok ([], false), (s, d))
  else
    let stop := if (n <? stop)%Z then n else stop in
    match slice view start stop with
    | Err e => (Err e, (s, d))
    | Ok shown =>
        match feedItemsFor shown s d with
        | (Err e, d) => (Err e, (s, d))
        | (Ok items, d) =>
            let ids := if allLikes
                       then item_id <$> filter (λ it, fi_Author it = ownID ∧
                                                 is_ok (ParseEventID (fi_ID it)) = true) items
                       else [] in
            let '(s, d) := match ids with [] => (s, d) | _ => fetch ids s d end in
            let '(items, d) := populateLikes items s d in
            (Ok (items, (stop <? n)%Z), (s, d))
        end
    end.
End daemon.
