(* ===== verification/DaemonOps.v ===== *)
(** * The daemon: requests and sessions

    Models the request handlers of [internal/daemon/daemon.go]: unlocking and
    the signing key, posting, liking, profiles, following, and the session
    run over a connection. A handler answers [Ok] with the fields of its
    result or [Err] with its error text. *)

From S2P Require Import Prelude Base32 External Identity Event Log Bolt Store StoreFollow StoreQuery Wire Session SessionCursor Crawler Daemon.
#[local] Open Scope go_scope.

Section ops.
Context `{Bolt, Blake3, Ed25519, Aead, order : GoRange}.
Context `{!CborType Event, !CborType SignedEvent, !CborType EncryptedKey, !CborType Message}.

(** What the handlers work on. *)
Definition daemon : Type := store * dstate.
Definition Response : Type := result (list (bytes * bytes)).

Definition on_mem (f : dstate → dstate) (w : daemon) : daemon := (w.1, f w.2).

(** ** The signing key *)

(** [unlockResult]: the key, or the error text. *)
Definition handleUnlock (passphrase : bytes) (now : Z) (w : daemon) : result KeyPair * daemon :=
  match wrap "read key" (Store_EncryptedKey w.1) with
  | Err e => (Err e, w)
  | Ok ek =>
      match Decrypt ek passphrase with
      | Err (Panic p) => (Err (Panic p), w)
      | Err _ => (Err (E "decrypt key: invalid passphrase"), w)
      | Ok priv =>
          match wrap "keypair" (KeyPairFromBytes priv) with
          | Err e => (Err e, w)
          | Ok kp =>
              let d := set_lastSignAt now (set_unlocked (Some kp) w.2) in
              let d := if negb (bootstrapDone d) && bool_decide (bootstrapPath d ≠ [])
                       then set_spawned (S (spawned d)) d else d in
              (Ok kp, (w.1, emitStatus d))
          end
      end
  end.

(** The cached key, or nil once the idle lock has elapsed, which clears it. *)
Definition signingKey (passphrase : bytes) (now : Z) (w : daemon) : result KeyPair * daemon :=
  if decide (passphrase ≠ []) then handleUnlock passphrase now w
  else
    let d := w.2 in
    match unlocked d with
    | None => (Err (E "key is locked; run 'driftnode daemon unlock'"), w)
    | Some kp =>
        if (0 <? idleLock d)%Z && (idleLock d <? now - lastSignAt d)%Z
        then (Err (E "key is locked; run 'driftnode daemon unlock'"), (w.1, set_unlocked None d))
        else (Ok kp, w)
    end.

(** ** Posts, likes, profiles *)

(** A signed append whose error is the handler's answer. *)
Definition sign_append (kp : KeyPair) (log : bytes) (ev : Event) (now : Z) (w : daemon)
    : result (option SignedEvent * bytes) * daemon :=
  let '(r, s) := SignAndAppend kp log ev now w.1 in (r, (s, w.2)).

Definition post_event (text parent : bytes) : Event :=
  mkEvent KindPost [] 0 0 None None (Some (mkPost text [] parent)) None None None.
Definition like_event (target : bytes) : Event :=
  mkEvent KindLike [] 0 0 None None None (Some (mkLike target)) None None.
Definition profile_event (name : bytes) : Event :=
  mkEvent KindProfile [] 0 0 (Some (mkProfile name None)) None None None None None.
Definition detail_event (bio firstName lastName location : bytes) : Event :=
  mkEvent KindDetail [] 0 0 None None None None None
    (Some (mkDetail bio firstName lastName location)).

Definition event_id (id : bytes) : list (bytes * bytes) := [(# "event_id", EventID_String id)].

(** [post := &core.Post{Text: text}]: a parent that parses to zero is none. *)
Definition handlePost (text parentID : bytes) (kp : KeyPair) (now : Z) (w : daemon)
    : Response * daemon :=
  match (if decide (parentID = []) then Ok zero_hash
         else wrap "parent id" (ParseEventID parentID)) with
  | Err e => (Err e, w)
  | Ok parent =>
      match sign_append kp PostLog (post_event text parent) now w with
      | (Err e, w) => (Err e, w)
      | (Ok (se, id), w) =>
          let w := on_mem (λ d, triggerSyncNow (touchSignAt now (invalidateFeed d))) w in
          let ownID := default [] (Store_Identity w.1) in
          let '(name, d) := displayName ownID w.1 w.2 in
          match se with
          | None => (Err (Panic "nil pointer dereference"), (w.1, d))
          | Some se =>
              (Ok (event_id id), (w.1, emitFeedAdd
                 [mkFeedItem (EventID_String id) (e_Timestamp (se_Event se)) ownID name text 0 []] d))
          end
      end
  end.

Definition handleLike (postID : bytes) (kp : KeyPair) (now : Z) (w : daemon) : Response * daemon :=
  match wrap "post id" (ParseEventID postID) with
  | Err e => (Err e, w)
  | Ok target =>
      if EventID_IsZero target then (Err (E "post id required"), w)
      else
        match sign_append kp PostLog (like_event target) now w with
        | (Err e, w) => (Err e, w)
        | (Ok (_, id), w) =>
            (Ok (event_id id),
             on_mem (λ d, triggerSyncNow (touchSignAt now (invalidateFeed d))) w)
        end
  end.

Definition handleProfile (name : bytes) (kp : KeyPair) (now : Z) (w : daemon) : Response * daemon :=
  match sign_append kp ProfileLog (profile_event name) now w with
  | (Err e, w) => (Err e, w)
  | (Ok (_, id), w) =>
      (Ok (event_id id), on_mem (λ d, triggerSyncNow (touchSignAt now (invalidateNames d))) w)
  end.

Definition handleDetail (bio firstName lastName location : bytes) (kp : KeyPair) (now : Z)
    (w : daemon) : Response * daemon :=
  match sign_append kp DetailLog (detail_event bio firstName lastName location) now w with
  | (Err e, w) => (Err e, w)
  | (Ok (_, id), w) => (Ok (event_id id), on_mem (λ d, triggerSyncNow (touchSignAt now d)) w)
  end.

(** ** Following *)

Definition writeFollow (target : bytes) (kp : KeyPair) (now : Z) (w : daemon) : Response * daemon :=
  match Store_Follow kp target now w.1 with
  | (Err e, s) => (Err e, (s, w.2))
  | (Ok (_, _, id), s) =>
      (Ok [(# "followed", id)],
       (s, emitFollowsAdd (mkEntry id (display id s) false false)
             (triggerSyncNow (touchSignAt now w.2))))
  end.

Definition handleUnfollow (targetStr : bytes) (kp : KeyPair) (now : Z) (w : daemon)
    : Response * daemon :=
  match wrap "resolve target" (ResolvePubkey targetStr) with
  | Err e => (Err e, w)
  | Ok target =>
      match Store_Unfollow kp target now w.1 with
      | (Err e, s) => (Err e, (s, w.2))
      | (Ok (_, _, id), s) =>
          let token := Routing id s in
          let s := (DeleteRouting id s).2 in
          let d := removeZen (default id token) w.2 in
          (Ok [(# "unfollowed", id)],
           (s, triggerSyncNow (touchSignAt now (emitFollowsRemove id d))))
      end
  end.

(** ** Sessions *)

(** What the callbacks of [runSession] close over. *)
Record senv := mkSenv {
  se_mem : dstate;
  mergedPosts : list SignedEvent;
  newFollowers : list bytes;
  zenID : bytes;
}.
Definition set_mem (d : dstate) (e : senv) : senv :=
  mkSenv d (mergedPosts e) (newFollowers e) (zenID e).

(** [ownPub]: the zero array when there is no usable identity. *)
Definition own_array (s : store) : bytes :=
  match PubkeyBytes (default [] (Store_Identity s)) with
  | Ok pub => array32 pub
  | Err _ => zero_hash
  end.

Definition onMerge (ownPub : bytes) (se : SignedEvent) (inserted : bool) (s : store) (e : senv)
    : store * senv :=
  if negb inserted then (s, e)
  else if decide (e_Log (se_Event se) = PostLog) then
    if decide (e_Kind (se_Event se) = KindPost)
    then (s, mkSenv (se_mem e) (mergedPosts e ++ [se]) (newFollowers e) (zenID e))
    else (s, e)
  else if decide (e_Log (se_Event se) = ProfileLog) then
    match e_Follow (se_Event se) with
    | Some fl =>
        if decide (e_Kind (se_Event se) = KindFollow ∧ ownPub ≠ zero_hash ∧
                   TargetPubkey fl = ownPub)
        then (s, mkSenv (se_mem e) (mergedPosts e) (newFollowers e ++ [se_Author se]) (zenID e))
        else (s, e)
    | None => (s, e)
    end
  else (s, e).

Definition session_callbacks (kp : KeyPair) (ownPub : bytes) : callbacks senv :=
  mkCallbacks (Some kp)
    (Some (λ s e, knownRefsList s (se_mem e)))
    (Some (λ ref s e, (s, set_mem (learnZenRef ref s (se_mem e)) e)))
    (Some (λ id s e, (s, mkSenv (se_mem e) (mergedPosts e) (newFollowers e) id)))
    (Some (onMerge ownPub))
    (Some store_source) (Some store_sink).

(** The pushes after a session: new posts, then new followers. *)
Definition push_followers (ids : list bytes) (s : store) (d : dstate) : dstate :=
  foldl (λ d id, let '(name, d) := displayName id s d in
                 emitFollowersAdd (mkEntry id name false false) d) d ids.

Definition runSession (c : conn) (initiator : bool) (nonce : result bytes) (w : daemon)
    : (nat * result unit) * bytes * daemon :=
  let ownPub := own_array w.1 in
  match unlocked w.2 with
  | None => ((0, Err (E "key is locked; cannot authenticate session")), [], w)
  | Some kp =>
      let cb := session_callbacks kp ownPub in
      let world := mkWorld w.1 c (mkSenv w.2 [] [] []) [] in
      let '(r, world) := (if initiator then RunInitiator cb nonce world
                          else RunListener cb nonce world) in
      let s := w_store world in
      let e := w_env world in
      let '(r, d) :=
        match mergedPosts e with
        | [] => (r, se_mem e)
        | posts =>
            match feedItemsFor posts s (invalidateFeed (se_mem e)) with
            | (Err p, d) => ((r.1, Err p), d)
            | (Ok items, d) => (r, emitFeedAdd items d)
            end
        end in
      (* a panic in feedItemFor unwinds before the followers are pushed *)
      let d := if is_panic r.2 then d else push_followers (newFollowers e) s d in
      (r, zenID e, (s, d))
  end.

(** [transport] is nil or dials a token; the nonce is that of the session. *)
Context (transport : option (bytes → result conn)).

Definition followByToken (token : bytes) (kp : KeyPair) (nonce : result bytes) (now : Z) (w : daemon)
    : Response * daemon :=
  let w := on_mem (λ d,
    let p := match zens d !! token with
             | Some p => mkZenInfo (z_ID p) (z_Identity p) (z_Name p) (z_Kind p) (# "connecting")
                           (z_Verified p)
             | None => mkZenInfo token [] [] (# "native_zen") (# "connecting") false
             end in
    set_zens (<[token := p]> (zens d)) d) w in
  match transport with
  | None => (Err (E "no transport configured"), w)
  | Some dial =>
      match wrap "dial" (dial token) with
      | Err e => (Err e, on_mem (setZenStatus w.1 token (# "error")) w)
      | Ok c =>
          let w := on_mem (setZenStatus w.1 token (# "connected")) w in
          let '((_, r), zenID, w) := runSession c true nonce w in
          match wrap "session" r with
          | Err e => (Err e, w)
          | Ok _ =>
              if decide (zenID = []) then (Err (E "session: zen did not authenticate"), w)
              else
                match wrap "zen identity" (PubkeyBytes zenID) with
                | Err e => (Err e, w)
                | Ok pub =>
                    match wrapM "routing" (PutRouting zenID token) w.1 with
                    | (Err e, s) => (Err e, (s, w.2))
                    | (Ok _, s) =>
                        let d := set_knownTokens ({[token]} ∪ knownTokens w.2) w.2 in
                        match writeFollow pub kp now (s, d) with
                        | (Err e, w) => (Err e, w)
                        | (Ok _, w) => (Ok [(# "followed", zenID)], w)
                        end
                    end
                end
          end
      end
  end.

Definition followByPubkey (target : bytes) (kp : KeyPair) (nonce : result bytes) (now : Z)
    (w : daemon) : Response * daemon :=
  match tokenForIdentity (IdentityFromPubkey target) w.2 with
  | Some tok => followByToken tok kp nonce now w
  | None => writeFollow target kp now w
  end.

Definition handleFollow (targetStr : bytes) (kp : KeyPair) (nonce : result bytes) (now : Z)
    (w : daemon) : Response * daemon :=
  match ResolvePubkey targetStr with
  | Ok target => followByPubkey target kp nonce now w
  | Err _ => followByToken targetStr kp nonce now w
  end.

(** ** Likes on demand *)

(** One goroutine of [handleFetchLikes]: the likes a zen answers with. *)
Definition likes_from (dial : bytes → result conn) (kp : KeyPair) (nonce : bytes → result bytes)
    (targetIDs : list bytes) (s : store) (ref : ZenRef) : result (list SignedEvent) :=
  c ← dial (zr_Token ref);
  let cb := mkCallbacks (D := unit) (Some kp) None None None None None None in
  match Handshake cb (nonce (zr_Token ref)) (mkWorld s c tt []) with
  | (Err e, _) => Err e
  | (Ok _, w) => let '((likes, r), _) := FetchLikes targetIDs w in _ ← r; Ok likes
  end.

Fixpoint store_likes (events all : list SignedEvent) (s : store) : list SignedEvent * store :=
  match events with
  | [] => (all, s)
  | se :: events =>
      match PutCrawledEvent se s with
      | ((inserted, Ok _), s) => store_likes events (if inserted then all ++ [se] else all) s
      | ((_, Err _), s) => store_likes events all s
      end
  end.

(** [arrival] is the order the goroutines finish in. A goroutine reads nothing
    of the store, so it does not matter what earlier results have written. *)
Definition handleFetchLikes (arrival : list (result (list SignedEvent)) → list (result (list SignedEvent)))
    (nonce : bytes → result bytes) (targetIDs : list bytes) (w : daemon)
    : result (list SignedEvent) * daemon :=
  match transport, unlocked w.2 with
  | None, _ => (Err (E "no transport configured"), w)
  | Some _, None => (Err (E "key is locked; run 'driftnode daemon unlock'"), w)
  | Some dial, Some kp =>
      let results := arrival (likes_from dial kp nonce targetIDs w.1 <$> knownRefsList w.1 w.2) in
      let '(all, s) := foldl (λ '(all, s) r, match r with
                                             | Ok events => store_likes events all s
                                             | Err _ => (all, s)
                                             end) ([], w.1) results in
      (Ok all, (s, match all with [] => w.2 | _ => invalidateFeed w.2 end))
  end.

(** ** Snapshots *)

Record Snapshot := mkSnapshot {
  sn_Feed : list feedItem;
  sn_Zens : list zenInfo;
  sn_Follows : list entry;
  sn_Followers : list entry;
  sn_Status : StatusDiff;
}.

Definition snapshot (s : store) (d : dstate) : result Snapshot * dstate :=
  let status := status_of d in
  let zs := zenToProto s <$> omap (λ tok, zens d !! tok) (range_set (dom (zens d))) in
  match handleFeedPage (λ _ s d, (s, d)) 0 false false s d with
  | (Err e, (_, d)) => (Err e, d)
  | (Ok (feed, _), (_, d)) =>
      let '(follows, d) := followEntries s d in
      let '(followers, d) := followerEntries s d in
      (Ok (mkSnapshot feed zs follows followers status), d)
  end.
End ops.
