(* ===== verification/DaemonFacts.v ===== *)
(** * The daemon: lemmas

    Feed pages are slices, likes are counted per item, and the caches say what
    the store says. *)

From S2P Require Import Prelude Base32 External Identity Event Log Bolt Store StoreFacts StoreFollow StoreFollowFacts StoreQuery StoreQueryFacts Wire Session SessionCursor Crawler Daemon DaemonOps.
#[local] Open Scope go_scope.

Section feed.
Context `{Bolt, Blake3, Ed25519, order : GoRange}.
Context `{!CborType Event, !CborType SignedEvent}.
Implicit Types (d : dstate) (s : store) (items cur : list feedItem) (likes pre : list SignedEvent).

(** ** Items of posts *)

Definition post_key (p : SignedEvent) : bytes * Z * bytes :=
  (EventID_String (match ID p with Ok id => id | Err _ => zero_hash end),
   e_Timestamp (se_Event p), se_Author p).
Definition item_key (it : feedItem) : bytes * Z * bytes := (fi_ID it, fi_Timestamp it, fi_Author it).

(** The part of the state the feed code may change: the name cache. *)
Definition same_but_names d d' : Prop := d' = set_nameCache (nameCache d') d.

Lemma same_but_names_refl d : same_but_names d d.
Proof. by destruct d. Qed.

Lemma same_but_names_trans d1 d2 d3 :
  same_but_names d1 d2 → same_but_names d2 d3 → same_but_names d1 d3.
Proof. unfold same_but_names. intros H12 H23. rewrite H23, H12. by destruct d1. Qed.

Lemma displayName_same id s d : same_but_names d (displayName id s d).2.
Proof.
  unfold displayName. destruct (nameCache d !! id); [apply same_but_names_refl|]. by destruct d.
Qed.

Definition has_post (p : SignedEvent) : Prop := is_Some (e_Post (se_Event p)).

Lemma feedItemsFor_ok posts s d :
  Forall has_post posts →
  ∃ items d', feedItemsFor posts s d = (Ok items, d') ∧ item_key <$> items = post_key <$> posts ∧
    Forall (λ it, fi_LikeCount it = 0%Z ∧ fi_Likers it = []) items ∧ same_but_names d d'.
Proof.
  intros Hp. revert d. induction Hp as [|p posts [post Hpost] Hp IH]; intros d.
  { exists [], d. split_and!; [done|done|constructor|apply same_but_names_refl]. }
  cbn [feedItemsFor]. unfold feedItemFor. rewrite Hpost.
  pose proof (displayName_same (se_Author p) s d) as Hsame.
  destruct (displayName (se_Author p) s d) as [name d1]. cbn [snd] in Hsame.
  destruct (IH d1) as (items & d2 & -> & Hkeys & Hzero & Hsame2).
  do 2 eexists. split_and!; [done| | |by eapply same_but_names_trans].
  - cbn. by rewrite Hkeys.
  - by constructor.
Qed.

(** ** Likes *)

(** [b] is [a] with [n] more likes. *)
Definition liked_by (n : nat) (a b : feedItem) : Prop :=
  item_key b = item_key a ∧ fi_Name b = fi_Name a ∧ fi_Text b = fi_Text a ∧
  fi_LikeCount b = (fi_LikeCount a + Z.of_nat n)%Z ∧
  length (fi_Likers b) = length (fi_Likers a) + n.

Lemma liked_by_0 a : liked_by 0 a a.
Proof. unfold liked_by. split_and!; [done|done|done|lia|lia]. Qed.

Lemma liked_by_S n a b name : liked_by n a b → liked_by (S n) a (add_liker name b).
Proof.
  intros (Hk & Hn & Ht & Hc & Hl). unfold liked_by. cbn [add_liker fi_LikeCount fi_Likers].
  split_and!; [by rewrite <-Hk|done|done|lia|rewrite length_app; cbn; lia].
Qed.

(** The item a like goes to, and the likes that go to the item at [i]. *)
Definition target_of (idx : gmap bytes nat) (se : SignedEvent) : option nat :=
  match e_Like (se_Event se) with Some lk => idx !! like_TargetID lk | None => None end.
Definition to_item (idx : gmap bytes nat) (i : nat) (se : SignedEvent) : Prop :=
  target_of idx se = Some i.

#[export] Instance to_item_dec idx i se : Decision (to_item idx i se) := decide (_ = _).

Lemma like_step_target s idx st se :
  like_step s idx st se =
    match target_of idx se with
    | None => st
    | Some i => let '(name, d) := displayName (se_Author se) s st.2 in
        (alter (add_liker (if decide (name = []) then se_Author se else name)) i st.1, d)
    end.
Proof. unfold like_step, target_of. by destruct (e_Like (se_Event se)). Qed.

Lemma filter_snoc {A} (P : A → Prop) `{∀ x, Decision (P x)} (l : list A) x :
  length (filter P (l ++ [x])) = length (filter P l) + (if decide (P x) then 1 else 0).
Proof. rewrite filter_app, length_app, filter_cons, filter_nil. by case_decide. Qed.

Lemma like_step_counts s idx items cur d l likes :
  (∀ i a, items !! i = Some a → ∃ b, cur !! i = Some b ∧
     liked_by (length (filter (to_item idx i) likes)) a b) →
  let st := like_step s idx (cur, d) l in
  (∀ i a, items !! i = Some a → ∃ b, st.1 !! i = Some b ∧
     liked_by (length (filter (to_item idx i) (likes ++ [l]))) a b) ∧
  same_but_names d st.2.
Proof.
  intros Hcur. cbn zeta. rewrite like_step_target.
  destruct (target_of idx l) as [j|] eqn:Hj.
  2:{ split; [|apply same_but_names_refl]. intros i a Ha. rewrite filter_snoc, decide_False.
      - rewrite Nat.add_0_r. by apply Hcur.
      - unfold to_item. by rewrite Hj. }
  cbn [fst snd]. pose proof (displayName_same (se_Author l) s d) as Hsame.
  destruct (displayName (se_Author l) s d) as [name d1]. cbn [fst snd] in *.
  split; [|exact Hsame]. intros i a Ha. destruct (Hcur i a Ha) as (b & Hb & Hlk).
  rewrite filter_snoc. destruct (decide (to_item idx i l)) as [Hi|Hi]; unfold to_item in Hi.
  - rewrite Hj in Hi. injection Hi as ->. rewrite list_lookup_alter_eq, Hb.
    eexists; split; [done|]. rewrite Nat.add_1_r. by apply liked_by_S.
  - rewrite list_lookup_alter_ne by congruence. rewrite Nat.add_0_r. by exists b.
Qed.

Lemma populate_counts s idx items d likes cur d0 pre :
  (∀ i a, items !! i = Some a → ∃ b, cur !! i = Some b ∧
     liked_by (length (filter (to_item idx i) pre)) a b) → same_but_names d0 d →
  let st := foldl (like_step s idx) (cur, d) likes in
  (∀ i a, items !! i = Some a → ∃ b, st.1 !! i = Some b ∧
     liked_by (length (filter (to_item idx i) (pre ++ likes))) a b) ∧ same_but_names d0 st.2.
Proof.
  revert cur d pre. induction likes as [|l likes IH]; intros cur d pre Hcur Hsame; cbn zeta.
  { rewrite app_nil_r. by split. }
  cbn [foldl]. destruct (like_step_counts s idx items cur d l pre Hcur) as [Hnext Hsame'].
  destruct (like_step s idx (cur, d) l) as [cur' d'] eqn:Hst.
  replace (pre ++ l :: likes) with ((pre ++ [l]) ++ likes) by (by rewrite <-(assoc_L (++))).
  apply IH; [exact Hnext|]. by eapply same_but_names_trans.
Qed.

Lemma like_step_length s idx st l : length (like_step s idx st l).1 = length st.1.
Proof.
  rewrite like_step_target. destruct (target_of idx l); [|done]. destruct (displayName _ _ _).
  apply length_alter.
Qed.

Lemma foldl_like_length s idx likes st : length (foldl (like_step s idx) st likes).1 = length st.1.
Proof.
  revert st. induction likes as [|l likes IH]; intros st; [done|]. cbn. by rewrite IH, like_step_length.
Qed.

(** Where the like of an ID goes, when no two items have the same ID. *)
Definition item_named (id : bytes) (it : feedItem) : Prop := ParseEventID (fi_ID it) = Ok id.
Definition distinct_items items : Prop := ∀ i j a b id,
  items !! i = Some a → items !! j = Some b → item_named id a → item_named id b → i = j.

Lemma distinct_items_app items it : distinct_items (items ++ [it]) → distinct_items items.
Proof.
  intros Hd i j a b id Ha Hb. apply Hd; by apply lookup_app_l_Some.
Qed.

Lemma id_index_snoc items it :
  id_index (items ++ [it]) =
    match ParseEventID (fi_ID it) with
    | Ok id => <[id := length items]> (id_index items)
    | Err _ => id_index items
    end.
Proof.
  unfold id_index. rewrite length_app, seq_app. cbn [length Nat.add seq].
  rewrite zip_with_app by (by rewrite length_seq). by rewrite foldl_app.
Qed.

Lemma id_index_spec items :
  distinct_items items →
  ∀ id i, id_index items !! id = Some i ↔ ∃ it, items !! i = Some it ∧ item_named id it.
Proof.
  induction items as [|it items IH] using rev_ind; intros Hd id i.
  { cbn. rewrite lookup_empty. split; [done|]. by intros (it & ? & _). }
  rewrite id_index_snoc. specialize (IH (distinct_items_app _ _ Hd) id i).
  destruct (ParseEventID (fi_ID it)) as [id'|e] eqn:Hp.
  - destruct (decide (id' = id)) as [->|Hne].
    + rewrite lookup_insert_eq. split.
      * intros [= <-]. exists it. split; [by apply list_lookup_middle|done].
      * intros (it' & Hit & Hn). f_equal.
        apply (Hd _ _ it it' id); [by apply list_lookup_middle|done|done|done].
    + rewrite lookup_insert_ne, IH by done. split; intros (it' & Hit & Hn); exists it'.
      * split; [by apply lookup_app_l_Some|done].
      * split; [|done]. apply lookup_app_Some in Hit as [?|[_ Hit]]; [done|].
        apply list_lookup_singleton_Some in Hit as [_ <-].
        unfold item_named in Hn. rewrite Hp in Hn. by injection Hn.
  - rewrite IH. split; intros (it' & Hit & Hn); exists it'.
    * split; [by apply lookup_app_l_Some|done].
    * split; [|done]. apply lookup_app_Some in Hit as [?|[_ Hit]]; [done|].
      apply list_lookup_singleton_Some in Hit as [_ <-].
      unfold item_named in Hn. by rewrite Hp in Hn.
Qed.

(** The likes of one event. *)
Definition likes_id (id : bytes) (se : SignedEvent) : Prop :=
  like_TargetID <$> e_Like (se_Event se) = Some id.

#[export] Instance likes_id_dec id se : Decision (likes_id id se) := decide (_ = _).

Lemma to_item_likes items i it id se :
  distinct_items items → items !! i = Some it → item_named id it →
  to_item (id_index items) i se ↔ likes_id id se.
Proof.
  intros Hd Hit Hn. unfold to_item, target_of, likes_id.
  destruct (e_Like (se_Event se)) as [lk|]; cbn; [|done].
  rewrite id_index_spec by done. split.
  - intros (it' & Hit' & Hn'). rewrite Hit in Hit'. injection Hit' as <-.
    unfold item_named in Hn, Hn'. rewrite Hn in Hn'. by injection Hn' as ->.
  - intros [= <-]. by exists it.
Qed.

Lemma populateLikes_counts items s d likes :
  distinct_items items → LikesForPosts (item_id <$> items) s = Ok likes →
  let r := populateLikes items s d in
  length r.1 = length items ∧ same_but_names d r.2 ∧
  ∀ i it, items !! i = Some it → ∃ it', r.1 !! i = Some it' ∧
    ∀ id, item_named id it → liked_by (length (filter (likes_id id) likes)) it it'.
Proof.
  intros Hd Hl. cbn zeta. unfold populateLikes.
  destruct items as [|it0 rest] eqn:Hitems.
  { split_and!; [done|apply same_but_names_refl|]. by intros i it ?. }
  rewrite <-Hitems in *. rewrite Hl. split_and!.
  - by rewrite foldl_like_length.
  - by apply (populate_counts s (id_index items) items d likes items d []);
      [intros i a Ha; exists a; split; [done|apply liked_by_0]|apply same_but_names_refl].
  - intros i it Hit.
    destruct (populate_counts s (id_index items) items d likes items d []) as [Hc _];
      [intros j a Ha; exists a; split; [done|apply liked_by_0]|apply same_but_names_refl|].
    destruct (Hc i it Hit) as (it' & Hit' & Hlk). exists it'. split; [done|].
    intros id Hn. cbn [app] in Hlk.
    rewrite (list_filter_iff (to_item (id_index items) i) (likes_id id)) in Hlk; [done|].
    intros se. by eapply to_item_likes.
Qed.
End feed.

(** ** Pages *)

Section pages.
Context `{BoltLaws, Blake3, !Blake3Laws, Ed25519, order : GoRange}.
Context `{!CborType Event, !CborType SignedEvent}.
Implicit Types (d : dstate) (s : store).

Definition page_of {A} (view : list A) (p : nat) : list A := take 200 (drop (200 * p) view).

Lemma join_pages {A} (view : list A) k :
  length view ≤ 200 * k → mjoin (page_of view <$> seq 0 k) = view.
Proof.
  intros Hk. assert (Hj : mjoin (page_of view <$> seq 0 k) = take (200 * k) view).
  { clear Hk. induction k as [|k IH]; [done|].
    rewrite seq_S, fmap_app, join_app, IH. cbn [fmap list_fmap mjoin list_join Nat.add].
    rewrite app_nil_r. unfold page_of. rewrite take_take_drop. f_equal. lia. }
  rewrite Hj. by apply take_ge.
Qed.

Lemma populateLikes_keys items s d : item_key <$> (populateLikes items s d).1 = item_key <$> items.
Proof.
  unfold populateLikes. destruct items as [|it rest] eqn:Hi; [done|]. rewrite <-Hi. clear Hi it rest.
  destruct (LikesForPosts _ s) as [likes|]; [|done].
  assert (Hg : ∀ st : list feedItem * dstate, item_key <$> (foldl (like_step s (id_index items)) st likes).1
    = item_key <$> st.1); [|by rewrite Hg].
  induction likes as [|l likes IH]; intros st; [done|]. cbn [foldl]. rewrite IH, like_step_target.
  destruct (target_of _ l) as [i|]; [|done]. destruct (displayName _ _ _) as [name d']. cbn [fst].
  apply list_eq. intros j. rewrite !list_lookup_fmap.
  destruct (decide (i = j)) as [->|Hne].
  - rewrite list_lookup_alter_eq. by destruct (st.1 !! j).
  - by rewrite list_lookup_alter_ne.
Qed.

Lemma handleFeedPage_ok fetch page (mine : bool) s d :
  let posts := (cachedPosts s d).1 in
  let ownID := default [] (Store_Identity s) in
  let view := if mine then filter (λ p, se_Author p = ownID) posts else posts in
  Forall has_post view → (0 ≤ page < 2 ^ 50)%Z →
  ∃ items d', handleFeedPage fetch page mine false s d =
      (Ok (items, bool_decide (200 * (Z.to_nat page + 1) < length view)), (s, d')) ∧
    item_key <$> items = post_key <$> page_of view (Z.to_nat page).
Proof.
  intros posts ownID view Hv Hp. unfold handleFeedPage. unfold posts in *.
  destruct (cachedPosts s d) as [ps d1]. cbn [fst] in *. fold ownID. fold view.
  rewrite (wrap_i64_id (page * feedPageLimit)) by (unfold in_i64, feedPageLimit; lia).
  rewrite wrap_i64_id by (unfold in_i64, feedPageLimit; lia). unfold feedPageLimit.
  destruct (Z.leb_spec (Z.of_nat (length view)) (page * 200)) as [Hle|Hgt].
  { exists [], d1. unfold page_of. rewrite drop_ge by lia. split; [|done].
    rewrite bool_decide_false by lia. done. }
  set (stop := if (Z.of_nat (length view) <? page * 200 + 200)%Z then Z.of_nat (length view)
               else (page * 200 + 200)%Z).
  assert (Hstop : stop = Z.min (Z.of_nat (length view)) (page * 200 + 200)).
  { unfold stop. destruct (Z.ltb_spec (Z.of_nat (length view)) (page * 200 + 200)); lia. }
  unfold slice.
  destruct (Z.ltb_spec (page * 200) 0); [lia|]. destruct (Z.ltb_spec stop (page * 200)); [lia|].
  cbn [orb].
  match goal with |- context [feedItemsFor ?l s d1] => set (shown := l) end.
  assert (Hshown : shown = page_of view (Z.to_nat page)).
  { unfold shown, page_of. replace (Z.to_nat (page * 200)) with (200 * Z.to_nat page) by lia.
    destruct (Z.le_gt_cases (page * 200 + 200) (Z.of_nat (length view))).
    - f_equal. lia.
    - rewrite !take_ge; [done|rewrite length_drop; lia..]. }
  destruct (feedItemsFor_ok shown s d1) as (items & d2 & -> & Hkeys & _ & _).
  { rewrite Hshown. unfold page_of. by apply Forall_take, Forall_drop. }
  pose proof (populateLikes_keys items s d2) as Hpk.
  destruct (populateLikes items s d2) as [items' d3]. exists items', d3. split.
  - do 3 f_equal. destruct (Z.ltb_spec stop (Z.of_nat (length view))).
    + rewrite bool_decide_true; [done|lia].
    + rewrite bool_decide_false; [done|lia].
  - cbn [fst] in Hpk. by rewrite Hpk, Hkeys, Hshown.
Qed.

Lemma handleFeedPage_negative fetch page (mine : bool) s d :
  let posts := (cachedPosts s d).1 in
  let ownID := default [] (Store_Identity s) in
  let view := if mine then filter (λ p, se_Author p = ownID) posts else posts in
  (- 2 ^ 50 < page < 0)%Z → view ≠ [] →
  ∃ w', handleFeedPage fetch page mine false s d =
    (Err (Panic "slice bounds out of range"), w').
Proof.
  intros posts ownID view Hp Hne. unfold handleFeedPage. unfold posts in *.
  destruct (cachedPosts s d) as [ps d1]. cbn [fst] in *. fold ownID. fold view.
  rewrite (wrap_i64_id (page * feedPageLimit)) by (unfold in_i64, feedPageLimit; lia).
  rewrite wrap_i64_id by (unfold in_i64, feedPageLimit; lia). unfold feedPageLimit.
  assert (Hlen : 0 < length view) by (destruct view; [done|cbn; lia]).
  destruct (Z.leb_spec (Z.of_nat (length view)) (page * 200)); [lia|].
  unfold slice. destruct (Z.ltb_spec (page * 200) 0); [|lia]. by eexists.
Qed.

(** ** Held likes *)

Definition held_likes s (id : bytes) : nat :=
  length (filter (λ se, like_ref se = Some id) (own_posts s ++ crawl_scan s)).

Lemma LikesForPosts_filter ids s :
  own_ok s → ∃ likes, LikesForPosts ids s = Ok likes ∧
    ∀ id, id ∈ ids → length (filter (likes_id id) likes) = held_likes s id.
Proof.
  intros Hok. unfold LikesForPosts. rewrite decode_own_bucket by done. cbn [mbind result_bind].
  fold (own_posts s). eexists. split; [done|]. intros id Hid. rewrite <-filter_app.
  unfold held_likes. generalize (own_posts s ++ crawl_scan s) as l. intros l.
  induction l as [|se l IH]; [done|]. rewrite !filter_cons.
  assert (Href : ∀ t, like_ref se = Some t → like_TargetID <$> e_Like (se_Event se) = Some t).
  { intros t. unfold like_ref. by case_decide. }
  destruct (decide (like_ref se = Some id)) as [Hr|Hr].
  - assert (Hone : likes_one_of (list_to_set ids) se = true).
    { unfold likes_one_of. rewrite Hr. apply bool_decide_true. by apply elem_of_list_to_set. }
    rewrite decide_True by done. rewrite filter_cons, decide_True by (by apply Href).
    cbn [length]. by rewrite IH.
  - case_decide as Hone; [|done]. rewrite filter_cons, decide_False; [done|]. intros Hlk. apply Hr.
    unfold likes_one_of in Hone. destruct (like_ref se) as [t|]; [|done].
    unfold likes_id in Hlk. rewrite (Href t eq_refl) in Hlk. exact Hlk.
Qed.

(** ** The feed cache *)

Definition fresh (w : daemon) : Prop := ∀ posts, feedCache w.2 = Some posts →
  ∃ all, AllPostsOneTx w.1 = Ok all ∧ posts = Posts all.

Lemma fresh_empty s d : feedCache d = None → fresh (s, d).
Proof. intros Hn posts. cbn [snd]. by rewrite Hn. Qed.

Lemma fresh_cache s d d' : feedCache d' = feedCache d → fresh (s, d) → fresh (s, d').
Proof. intros Heq Hf posts. cbn [snd]. rewrite Heq. apply Hf. Qed.

Lemma appended_Some {A} (posts ps : list A) : appended posts = Some ps → ps = posts.
Proof. destruct posts; [done|]. by intros [= <-]. Qed.

Lemma cachedPosts_fresh (w : daemon) : fresh w → fresh (w.1, (cachedPosts w.1 w.2).2).
Proof.
  intros Hf. unfold cachedPosts. destruct (feedCache w.2) as [posts|] eqn:Hc.
  { by destruct w. }
  destruct (AllPostsOneTx w.1) as [all|] eqn:Ha; [|by destruct w].
  intros posts ->%appended_Some. by exists all.
Qed.

Lemma cachedPosts_posts (w : daemon) all :
  fresh w → AllPostsOneTx w.1 = Ok all → (cachedPosts w.1 w.2).1 = Posts all.
Proof.
  intros Hf Ha. unfold cachedPosts. destruct (feedCache w.2) as [posts|] eqn:Hc.
  - destruct (Hf posts Hc) as (all' & Ha' & ->). rewrite Ha in Ha'. by injection Ha' as <-.
  - by rewrite Ha.
Qed.

Lemma displayName_feed id s d : feedCache (displayName id s d).2 = feedCache d.
Proof. unfold displayName. by destruct (nameCache d !! id). Qed.

(** A failed append changes nothing, a successful one only the named log. *)
Lemma AppendOwnEvent_Err log se s e s' : AppendOwnEvent log se s = (Err e, s') → s' = s.
Proof.
  unfold AppendOwnEvent, wrapM, lift, Update, mbind, stM_bind.
  destruct (ID se) as [id|e1]; [|destruct e1; by intros [= _ <-]]. cbn [wrap].
  destruct (CanonicalEncode se) as [v|e1]; [|destruct e1; by intros [= _ <-]]. cbn [wrap].
  destruct (bk_CreateBucketIfNotExists _ _) as [[b p]|]; [|by intros [= _ <-]].
  destruct (bk_get b id); [done|]. destruct (like_dup se b); [done|].
  by destruct (bk_Put id v b); [|intros [= _ <-]].
Qed.

Lemma AppendOwnEvent_other log se s u s' :
  AppendOwnEvent log se s = (Ok u, s') →
  bucketCrawl s' = bucketCrawl s ∧
  ∀ n, n ≠ log → bk_get (bucketOwn s') n = bk_get (bucketOwn s) n.
Proof.
  unfold AppendOwnEvent, wrapM, lift, Update, mbind, stM_bind.
  destruct (ID se) as [id|e1]; [|by destruct e1]. cbn [wrap].
  destruct (CanonicalEncode se) as [v|e1]; [|by destruct e1]. cbn [wrap].
  destruct (bk_CreateBucketIfNotExists _ _) as [[b p]|] eqn:Hc; [|done].
  apply bk_Create_Ok in Hc as (_ & _ & Hget & _).
  assert (Hp : ∀ n, n ≠ log → bk_get p n = bk_get (bucketOwn s) n).
  { intros n Hn. by rewrite Hget, decide_False. }
  destruct (bk_get b id); [by intros [= _ <-]|]. destruct (like_dup se b); [by intros [= _ <-]|].
  destruct (bk_Put id v b) as [b'|]; [|done]. intros [= _ <-]. cbn. split; [done|].
  intros n Hn. rewrite bk_get_set, decide_False by done. by apply Hp.
Qed.

(** The append touches nothing but the own logs. *)
Lemma AppendOwnEvent_own log se s r s' :
  AppendOwnEvent log se s = (r, s') → ∃ own, s' = set_own own s.
Proof.
  assert (Hs : ∃ own, s = set_own own s) by (exists (bucketOwn s); by destruct s).
  unfold AppendOwnEvent, wrapM, lift, Update, mbind, stM_bind.
  destruct (ID se) as [id|e1]; [|destruct e1; by intros [= _ <-]]. cbn [wrap].
  destruct (CanonicalEncode se) as [v|e1]; [|destruct e1; by intros [= _ <-]]. cbn [wrap].
  destruct (bk_CreateBucketIfNotExists _ _) as [[b p]|]; [|by intros [= _ <-]].
  destruct (bk_get b id); [intros [= _ <-]; by eexists|].
  destruct (like_dup se b); [intros [= _ <-]; by eexists|].
  destruct (bk_Put id v b); intros [= _ <-]; [by eexists|done].
Qed.

Lemma SignAndAppend_any kp log ev now s r s' :
  SignAndAppend kp log ev now s = (r, s') →
  match r with
  | Err _ => s' = s
  | Ok _ => bucketCrawl s' = bucketCrawl s ∧
            ∀ n, n ≠ log → bk_get (bucketOwn s') n = bk_get (bucketOwn s) n
  end.
Proof.
  unfold SignAndAppend. match goal with |- context [match ?x with Some _ => _ | None => _ end] =>
    destruct x as [id|] end; [by intros [= <- <-]|].
  unfold wrapM, lift, mbind, stM_bind. destruct (Sign _ _) as [se|e]; cbn [wrap];
    [|destruct e; by intros [= <- <-]].
  destruct (AppendOwnEvent log se s) as [[u|e] s1] eqn:Ha; cbn [wrap].
  - assert (Hid : is_Ok (ID se)).
    { revert Ha. unfold AppendOwnEvent, wrapM, lift, mbind, stM_bind.
      destruct (ID se) as [id|e]; [by eexists|by destruct e]. }
    destruct Hid as [id ->]. cbn. intros [= <- <-]. by eapply AppendOwnEvent_other.
  - apply AppendOwnEvent_Err in Ha as ->. destruct e; by intros [= <- <-].
Qed.

Lemma AllPostsOneTx_other s s' :
  bucketCrawl s' = bucketCrawl s →
  (∀ n, n ≠ DetailLog → bk_get (bucketOwn s') n = bk_get (bucketOwn s) n) →
  AllPostsOneTx s' = AllPostsOneTx s.
Proof.
  intros Hc Ho. unfold AllPostsOneTx, own_bucket. by rewrite Hc, !Ho.
Qed.

Section handlers.
Context `{!CborType EncryptedKey, !CborType Message, Aead}.

Lemma handlePost_fresh text parentID kp now (w : daemon) :
  fresh w → fresh (handlePost text parentID kp now w).2.
Proof.
  intros Hf. unfold handlePost.
  match goal with |- context [if decide ?P then ?a else ?b] =>
    destruct (if decide P then a else b) as [parent|e]; [|done] end.
  unfold sign_append. destruct (SignAndAppend kp PostLog _ now w.1) as [[[se id]|e] s] eqn:Hr.
  2:{ apply SignAndAppend_any in Hr as ->. by destruct w. }
  unfold on_mem. cbn [fst snd]. set (d0 := triggerSyncNow _).
  pose proof (displayName_feed (default [] (Store_Identity s)) s d0) as Hc.
  destruct (displayName _ s d0) as [name d1]. cbn [snd] in Hc.
  destruct se; by apply fresh_empty.
Qed.

Lemma handleLike_fresh postID kp now (w : daemon) :
  fresh w → fresh (handleLike postID kp now w).2.
Proof.
  intros Hf. unfold handleLike. destruct (wrap "post id" (ParseEventID postID)) as [t|e]; [|done].
  destruct (EventID_IsZero t); [done|]. unfold sign_append.
  destruct (SignAndAppend kp PostLog _ now w.1) as [[[se id]|e] s] eqn:Hr.
  - by apply fresh_empty.
  - apply SignAndAppend_any in Hr as ->. by destruct w.
Qed.

Lemma handleDetail_fresh bio first last location kp now (w : daemon) :
  fresh w → fresh (handleDetail bio first last location kp now w).2.
Proof.
  intros Hf. unfold handleDetail, sign_append.
  destruct (SignAndAppend kp DetailLog _ now w.1) as [[[se id]|e] s] eqn:Hr.
  - apply SignAndAppend_any in Hr as [Hc Ho]. intros posts Hp. destruct (Hf posts Hp) as (all & Ha & ->).
    exists all. split; [|done]. cbn [fst]. by rewrite (AllPostsOneTx_other w.1).
  - apply SignAndAppend_any in Hr as ->. by destruct w.
Qed.

Lemma handleUnfollow_feed targetStr kp now (w w' : daemon) posts fields :
  feedCache w.2 = Some posts → handleUnfollow targetStr kp now w = (Ok fields, w') →
  (cachedPosts w'.1 w'.2).1 = posts ∧
  ∃ target, ResolvePubkey targetStr = Ok target ∧ IsFollowed (IdentityFromPubkey target) w'.1 = false.
Proof.
  intros Hc. unfold handleUnfollow.
  destruct (ResolvePubkey targetStr) as [target|e]; [|by destruct e]. cbn [wrap].
  destruct (Store_Unfollow kp target now w.1) as [[[[se eid] id]|e] s] eqn:Hu; [|done].
  intros [= <- <-]. split.
  - unfold cachedPosts. cbn [fst snd feedCache triggerSyncNow set_syncNow touchSignAt set_lastSignAt
      emitFollowsRemove removeZen emitZenRemove broadcast set_subs set_zens]. by rewrite Hc.
  - exists target. split; [done|]. revert Hu. unfold Store_Unfollow, mbind, stM_bind.
    destruct (SignAndAppend kp ProfileLog _ now w.1) as [[r|e] s1]; [|done].
    unfold wrapM, deleteFollowState, Update, delete_in, modify. cbn.
    intros [= <- <- <- <-]. unfold IsFollowed, getFollowState. cbn.
    by rewrite bk_get_del, decide_True.
Qed.

(** ** The signing key *)

Lemma signingKey_live (w : daemon) kp now :
  unlocked w.2 = Some kp →
  (idleLock w.2 ≤ 0 ∨ now - lastSignAt w.2 ≤ idleLock w.2)%Z → signingKey [] now w = (Ok kp, w).
Proof.
  intros Hk Hidle. unfold signingKey. rewrite decide_False by (by intros ?). rewrite Hk.
  destruct (Z.ltb_spec 0 (idleLock w.2)), (Z.ltb_spec (idleLock w.2) (now - lastSignAt w.2));
    cbn [andb]; [lia|done..].
Qed.

Lemma signingKey_expired (w : daemon) kp now :
  unlocked w.2 = Some kp → (0 < idleLock w.2 < now - lastSignAt w.2)%Z →
  ∃ w1, signingKey [] now w = (Err (E "key is locked; run 'driftnode daemon unlock'"), w1) ∧
        ∀ later, is_ok (signingKey [] later w1).1 = false.
Proof.
  intros Hk Hidle. unfold signingKey at 1. rewrite decide_False by (by intros ?). rewrite Hk.
  destruct (Z.ltb_spec 0 (idleLock w.2)), (Z.ltb_spec (idleLock w.2) (now - lastSignAt w.2));
    cbn [andb]; try lia.
  eexists. split; [done|]. intros later. unfold signingKey. by rewrite decide_False by (by intros ?).
Qed.

Lemma displayName_key id s d :
  unlocked (displayName id s d).2 = unlocked d ∧ idleLock (displayName id s d).2 = idleLock d ∧
  lastSignAt (displayName id s d).2 = lastSignAt d.
Proof. unfold displayName. by destruct (nameCache d !! id). Qed.

Lemma handlePost_key text kp now (w : daemon) :
  is_ok (handlePost text [] kp now w).1 = true →
  let d := (handlePost text [] kp now w).2.2 in
  unlocked d = unlocked w.2 ∧ idleLock d = idleLock w.2 ∧ lastSignAt d = now.
Proof.
  unfold handlePost. rewrite decide_True by done. unfold sign_append.
  destruct (SignAndAppend kp PostLog _ now w.1) as [[[se id]|e] s]; [|done].
  unfold on_mem. cbn [fst snd]. set (d0 := triggerSyncNow _).
  destruct (displayName_key (default [] (Store_Identity s)) s d0) as (Hu & Hi & Hl).
  destruct (displayName _ s d0) as [name d1]. cbn [snd] in Hu, Hi, Hl.
  destruct se as [se|]; [|done]. intros _. cbn. by rewrite Hu, Hi, Hl.
Qed.

Lemma signingKey_renewed (w : daemon) kp text now later :
  unlocked w.2 = Some kp → (later - now ≤ idleLock w.2)%Z →
  is_ok (handlePost text [] kp now w).1 = true →
  (signingKey [] later (handlePost text [] kp now w).2).1 = Ok kp.
Proof.
  intros Hk Hl Hok. destruct (handlePost_key text kp now w Hok) as (Hu & Hi & Hs).
  rewrite (signingKey_live _ kp); [done|by rewrite Hu|]. rewrite Hi, Hs. by right.
Qed.

Lemma emitStatus_key d :
  unlocked (emitStatus d) = unlocked d ∧ lastSignAt (emitStatus d) = lastSignAt d.
Proof. done. Qed.

Lemma signingKey_unlock (w w1 : daemon) pass now r :
  pass ≠ [] → signingKey pass now w = (r, w1) →
  match r with
  | Ok kp => unlocked w1.2 = Some kp ∧ lastSignAt w1.2 = now
  | Err _ => w1 = w
  end.
Proof.
  intros Hp. unfold signingKey. rewrite decide_True by done. unfold handleUnlock.
  destruct (wrap "read key" (Store_EncryptedKey w.1)) as [ek|e]; [|by intros [= <- <-]].
  destruct (Decrypt ek pass) as [priv|e]; [|destruct e; by intros [= <- <-]].
  destruct (wrap "keypair" (KeyPairFromBytes priv)) as [kp|e]; [|by intros [= <- <-]].
  intros [= <- <-]. cbn. by case_match.
Qed.
End handlers.

(** ** Queues *)

(** What a subscriber nobody reads ends with: as much as fits. *)
Lemma offers sb evs :
  length (sub_events sb) ≤ subscribeQueue →
  let room := subscribeQueue - length (sub_events sb) in
  foldl (λ sb ev, offer ev sb) sb evs =
    mkSubscriber (sub_id sb) (sub_events sb ++ take room evs)
      (sub_done sb || (room <? length evs)).
Proof.
  intros Hle. cbn zeta. revert sb Hle. induction evs as [|ev evs IH]; intros sb Hle.
  { cbn [foldl]. rewrite take_nil, app_nil_r. cbn. rewrite orb_false_r. by destruct sb. }
  cbn [foldl]. unfold offer at 2.
  destruct (Nat.ltb_spec (length (sub_events sb)) subscribeQueue) as [Hlt|Hge].
  - rewrite IH by (cbn [sub_events]; rewrite length_app; cbn; lia).
    cbn [sub_events sub_id sub_done]. rewrite length_app. cbn [length].
    replace (subscribeQueue - length (sub_events sb)) with
      (S (subscribeQueue - (length (sub_events sb) + 1))) by lia.
    cbn [take]. by rewrite <-(assoc_L (++)).
  - rewrite IH by done. cbn [sub_events sub_id sub_done].
    replace (subscribeQueue - length (sub_events sb)) with 0 by lia. cbn [take length].
    by rewrite orb_true_r.
Qed.

Lemma broadcasts evs d :
  subs (foldl (λ d ev, broadcast ev d) d evs) =
    (λ sb, foldl (λ sb ev, offer ev sb) sb evs) <$> subs d.
Proof.
  revert d. induction evs as [|ev evs IH]; intros d; cbn [foldl]; [by rewrite list_fmap_id|].
  rewrite IH. unfold broadcast. cbn [subs set_subs]. by rewrite <-list_fmap_compose.
Qed.
End pages.
