(* ===== verification/DaemonMachine.v ===== *)
(** * The daemon: following, and its memory as a state machine

    What an accepted follow leaves behind, and the invariant of the in-memory
    state over everything that changes it. *)

From S2P Require Import Prelude Base32 External Identity Event Log Bolt Store StoreFacts StoreFollow StoreFollowFacts StoreQuery Wire Session Crawler Daemon DaemonOps.
#[local] Open Scope go_scope.

(** ** Following by token *)

Section following.
Context `{BoltLaws, Blake3, !Blake3Laws, Ed25519, Aead, order : GoRange}.
Context `{!CborType Event, !CborType SignedEvent, !CborType EncryptedKey, !CborType Message}.

Lemma AppendOwnEvent_routing log se s r s' :
  AppendOwnEvent log se s = (r, s') → bucketRouting s' = bucketRouting s.
Proof.
  unfold AppendOwnEvent, wrapM, lift, Update, mbind, stM_bind.
  destruct (ID se) as [id|e]; [|destruct e; by intros [= _ <-]]. cbn [wrap].
  destruct (CanonicalEncode se) as [v|e]; [|destruct e; by intros [= _ <-]]. cbn [wrap].
  destruct (bk_CreateBucketIfNotExists _ _) as [[b p]|]; [|by intros [= _ <-]].
  destruct (bk_get b id); [by intros [= _ <-]|]. destruct (like_dup se b); [by intros [= _ <-]|].
  destruct (bk_Put id v b); by intros [= _ <-].
Qed.

Lemma SignAndAppend_routing kp log ev now s r s' :
  SignAndAppend kp log ev now s = (r, s') → bucketRouting s' = bucketRouting s.
Proof.
  unfold SignAndAppend. match goal with |- context [match ?x with Some _ => _ | None => _ end] =>
    destruct x as [id|] end; [by intros [= _ <-]|].
  unfold wrapM, lift, mbind, stM_bind. destruct (Sign _ _) as [se|e]; cbn [wrap];
    [|destruct e; by intros [= _ <-]].
  destruct (AppendOwnEvent log se s) as [[u|e] s1] eqn:Ha; cbn [wrap];
    apply AppendOwnEvent_routing in Ha.
  - destruct (ID se) as [id|e]; [|destruct e]; cbn; by intros [= _ <-].
  - destruct e; by intros [= _ <-].
Qed.

Lemma Store_Follow_state kp target now s r s' :
  Store_Follow kp target now s = (Ok r, s') →
  r.2 = IdentityFromPubkey target ∧ IsFollowed (IdentityFromPubkey target) s' = true ∧
  bucketRouting s' = bucketRouting s.
Proof.
  unfold Store_Follow, mbind, stM_bind.
  destruct (SignAndAppend kp ProfileLog _ now s) as [[r0|e] s1] eqn:Hr; [|done].
  assert (Hrt : bucketRouting s1 = bucketRouting s) by by eapply SignAndAppend_routing.
  unfold wrapM, putFollowState, Update, put_follow, put_in.
  destruct (bk_Put _ _ _) as [b|e] eqn:Hput; [|by destruct e]. cbn.
  intros [= <- <-]. split_and!; [done| |done]. unfold IsFollowed, getFollowState. cbn.
  apply bk_Put_Ok in Hput as (_ & _ & ->). by rewrite bk_get_set, decide_True.
Qed.

Lemma writeFollow_Ok target kp now (w w' : daemon) fields :
  writeFollow target kp now w = (Ok fields, w') →
  fields = [(# "followed", IdentityFromPubkey target)] ∧
  IsFollowed (IdentityFromPubkey target) w'.1 = true ∧
  bucketRouting w'.1 = bucketRouting w.1 ∧ knownTokens w'.2 = knownTokens w.2.
Proof.
  unfold writeFollow. destruct (Store_Follow kp target now w.1) as [[[[se eid] id]|e] s] eqn:Hf; [|done].
  intros [= <- <-]. destruct (Store_Follow_state _ _ _ _ _ _ Hf) as (Hid & Hfol & Hrt).
  cbn [snd] in Hid. subst id. split_and!; [done|exact Hfol|exact Hrt|done].
Qed.

(** An accepted follow by token: the session authenticated [zenID], which is
    what is followed and bound to the token. *)
Lemma followByToken_Ok transport token kp nonce now (w w' : daemon) fields :
  followByToken transport token kp nonce now w = (Ok fields, w') →
  ∃ dial c n zenID pub w1 w2, transport = Some dial ∧ dial token = Ok c ∧
    runSession c true nonce w1 = ((n, Ok tt), zenID, w2) ∧ zenID ≠ [] ∧
    PubkeyBytes zenID = Ok pub ∧ fields = [(# "followed", zenID)] ∧
    IsFollowed (IdentityFromPubkey pub) w'.1 = true ∧
    Routing zenID w'.1 = Some token ∧ token ∈ knownTokens w'.2.
Proof.
  unfold followByToken. destruct transport as [dial|]; [|done].
  destruct (dial token) as [c|e] eqn:Hd; [|by destruct e]. cbn [wrap].
  set (w1 := on_mem (setZenStatus _ _ _) _).
  destruct (runSession c true nonce w1) as [[[n r] zenID] w2] eqn:Hrun.
  destruct r as [[]|e]; [|by destruct e]. cbn [wrap].
  destruct (decide (zenID = [])) as [|Hz]; [done|].
  destruct (PubkeyBytes zenID) as [pub|e] eqn:Hpub; [|by destruct e]. cbn [wrap].
  unfold wrapM, PutRouting, Update, put_in.
  destruct (bk_Put zenID token (bucketRouting w2.1)) as [b|e] eqn:Hput; [|by destruct e]. cbn [wrap].
  destruct (writeFollow pub kp now _) as [[fs|e] w3] eqn:Hwf; [|done].
  intros [= <- <-]. destruct (writeFollow_Ok _ _ _ _ _ _ Hwf) as (_ & Hfol & Hrt & Hkt).
  exists dial, c, n, zenID, pub, w1, w2. split_and!; try done.
  - unfold Routing. rewrite Hrt. cbn. apply bk_Put_Ok in Hput as (_ & _ & ->).
    by rewrite bk_get_set, decide_True.
  - rewrite Hkt. cbn. set_solver.
Qed.
End following.

(** ** Zen exchange *)

Section learning.
Context `{Bolt, Blake3, Ed25519, order : GoRange}.
Context `{!CborType Event, !CborType SignedEvent}.

Lemma upsertZen_zens s id kind status d :
  let d' := upsertZen s id kind status d in
  zens d' = <[id := mkZenInfo id [] [] kind status false]> (zens d) ∧
  knownTokens d' = knownTokens d ∧ unlocked d' = unlocked d ∧ feedCache d' = feedCache d.
Proof. done. Qed.

Lemma learnZenRef_spec (ref : ZenRef) s d :
  zr_Token ref ≠ [] →
  let d' := learnZenRef ref s d in
  let before := default (mkZenInfo (zr_Token ref) [] [] (# "native_zen") (# "discovered") false)
                  (zens d !! zr_Token ref) in
  zr_Token ref ∈ knownTokens d' ∧ knownTokens d ⊆ knownTokens d' ∧
  (∀ tok, tok ≠ zr_Token ref → zens d' !! tok = zens d !! tok) ∧
  zens d' !! zr_Token ref = Some
    (if decide (zr_Identity ref = []) then before
     else mkZenInfo (z_ID before) (zr_Identity ref)
            (if decide (zr_Name ref = []) then z_Name before else zr_Name ref)
            (z_Kind before) (z_Status before) (z_Verified before)) ∧
  unlocked d' = unlocked d ∧ feedCache d' = feedCache d.
Proof.
  intros Htok. cbv zeta. unfold learnZenRef. rewrite (decide_False _ _ Htok).
  set (tok := zr_Token ref) in *. set (d1 := set_knownTokens ({[tok]} ∪ knownTokens d) d).
  set (before := default _ (zens d !! tok)).
  set (d2 := match zens d1 !! tok with Some _ => d1 | None => _ end).
  assert (Hd2 : zens d2 !! tok = Some before ∧ (∀ t, t ≠ tok → zens d2 !! t = zens d !! t) ∧
    knownTokens d2 = {[tok]} ∪ knownTokens d ∧ unlocked d2 = unlocked d ∧
    feedCache d2 = feedCache d).
  { unfold d2, before. cbn [zens set_knownTokens d1].
    destruct (zens d !! tok) as [z|] eqn:Hz; cbn [default]; [done|].
    split_and!; [apply lookup_insert_eq| |done..]. intros t Ht. by apply lookup_insert_ne. }
  clearbody d2. destruct Hd2 as (Hb & Hother & Hk & Hu & Hf).
  destruct (decide (zr_Identity ref = [])) as [Hid|Hid].
  { rewrite Hk. split_and!; [set_solver|set_solver|done|done|done|done]. }
  assert (Hstep : ∀ d3, zens d3 = zens d2 → knownTokens d3 = knownTokens d2 →
    unlocked d3 = unlocked d2 → feedCache d3 = feedCache d2 →
    let p' := mkZenInfo (z_ID before) (zr_Identity ref)
                (if decide (zr_Name ref = []) then z_Name before else zr_Name ref)
                (z_Kind before) (z_Status before) (z_Verified before) in
    let d4 := match zens d3 !! tok with
      | None => d3
      | Some p => set_zens (<[tok := mkZenInfo (z_ID p) (zr_Identity ref)
          (if decide (zr_Name ref = []) then z_Name p else zr_Name ref) (z_Kind p) (z_Status p)
          (z_Verified p)]> (zens d3)) d3
      end in
    tok ∈ knownTokens d4 ∧ knownTokens d ⊆ knownTokens d4 ∧
    (∀ t, t ≠ tok → zens d4 !! t = zens d !! t) ∧ zens d4 !! tok = Some p' ∧
    unlocked d4 = unlocked d ∧ feedCache d4 = feedCache d).
  { intros d3 Hz3 Hk3 Hu3 Hf3. cbv zeta. rewrite Hz3, Hb. cbn [zens set_zens knownTokens unlocked feedCache].
    rewrite Hk3, Hk, Hu3, Hf3. split_and!; [set_solver|set_solver| |apply lookup_insert_eq|done|done].
    intros t Ht. rewrite lookup_insert_ne by done. by apply Hother. }
  destruct (d_crawler d2); [destruct (ParseIdentity _)|]; by apply Hstep.
Qed.
End learning.

(** ** The memory of the daemon as a state machine

    Everything that changes the in-memory state outside a request, and a
    subscriber's pump taking an event from its queue. *)

Section machine.
Context `{Bolt, Blake3, Ed25519, order : GoRange}.
Context `{!CborType Event, !CborType SignedEvent}.

Inductive op :=
  | OpLearn (ref : ZenRef)
  | OpUpsert (id kind status : bytes)
  | OpRemove (id : bytes)
  | OpStatus (id status : bytes)
  | OpRehydrate
  | OpPush (ev : event)
  | OpSubscribe (id : nat)
  | OpUnsubscribe (id : nat)
  | OpPump (i : nat)
  | OpFeed
  | OpName (id : bytes)
  | OpInvalidate.

(** The pump of the [i]-th subscriber takes the oldest event. *)
Definition pump (sb : subscriber) : subscriber :=
  mkSubscriber (sub_id sb) (tail (sub_events sb)) (sub_done sb).

Definition run_op (s : store) (o : op) (d : dstate) : dstate :=
  match o with
  | OpLearn ref => learnZenRef ref s d
  | OpUpsert id kind status => upsertZen s id kind status d
  | OpRemove id => removeZen id d
  | OpStatus id status => setZenStatus s id status d
  | OpRehydrate => rehydrateZens s d
  | OpPush ev => broadcast ev d
  | OpSubscribe id => addSubscriber (newSubscriber id) d
  | OpUnsubscribe id => removeSubscriber id d
  | OpPump i => set_subs (alter pump i (subs d)) d
  | OpFeed => (cachedPosts s d).2
  | OpName id => (displayName id s d).2
  | OpInvalidate => invalidateFeed d
  end.

(** One step, with whatever the store holds at that moment. *)
Inductive mem_step (d : dstate) : dstate → Prop :=
  mem_step_op s o : mem_step d (run_op s o d).

(** Zens are filed under their token, the tokens offered to others are not
    empty, and no queue is over its bound. *)
Record mem_ok (d : dstate) : Prop := {
  mem_zens tok z : zens d !! tok = Some z → z_ID z = tok;
  mem_tokens : [] ∉ knownTokens d;
  mem_queues : Forall (λ sb, length (sub_events sb) ≤ subscribeQueue) (subs d);
}.

Lemma mem_ok_New : mem_ok daemon_New.
Proof. split; [intros tok z; cbn; by rewrite lookup_empty|cbn; set_solver|constructor]. Qed.

Lemma offer_bounded ev sb :
  length (sub_events sb) ≤ subscribeQueue → length (sub_events (offer ev sb)) ≤ subscribeQueue.
Proof.
  intros Hle. unfold offer. destruct (Nat.ltb_spec (length (sub_events sb)) subscribeQueue); [|done].
  cbn [sub_events]. rewrite length_app. cbn. lia.
Qed.

Lemma broadcast_ok ev d : mem_ok d → mem_ok (broadcast ev d).
Proof.
  intros [Hz Ht Hq]. split; [exact Hz|exact Ht|]. cbn [broadcast subs set_subs].
  apply Forall_fmap. eapply Forall_impl; [exact Hq|]. intros sb. apply offer_bounded.
Qed.

Lemma set_zen_ok tok z d : mem_ok d → z_ID z = tok → mem_ok (set_zens (<[tok := z]> (zens d)) d).
Proof.
  intros [Hz Ht Hq] Hid. split; [|exact Ht|exact Hq]. intros tok' z'. cbn [zens set_zens].
  rewrite lookup_insert_Some. intros [[<- <-]|[_ Hl]]; [done|by apply Hz].
Qed.

Lemma upsertZen_ok s id kind status d : mem_ok d → mem_ok (upsertZen s id kind status d).
Proof. intros Hd. unfold upsertZen, emitZenUpsert. by apply broadcast_ok, set_zen_ok. Qed.

Lemma learnZenRef_ok ref s d : mem_ok d → mem_ok (learnZenRef ref s d).
Proof.
  intros Hd. unfold learnZenRef. case_decide as Htok; [done|].
  set (d1 := set_knownTokens _ d).
  assert (Hd1 : mem_ok d1).
  { destruct Hd as [Hz Ht Hq]. split; [exact Hz| |exact Hq]. cbn. set_solver. }
  match goal with |- context [match zens d1 !! ?t with Some _ => d1 | None => ?x end] =>
    set (d2 := match zens d1 !! t with Some _ => d1 | None => x end) end.
  assert (Hd2 : mem_ok d2).
  { unfold d2. destruct (zens d1 !! _); [done|]. by apply upsertZen_ok. }
  case_decide; [done|].
  assert (Hlast : ∀ d3 (f : zenInfo → zenInfo), (∀ p, z_ID (f p) = z_ID p) → mem_ok d3 →
    mem_ok match zens d3 !! zr_Token ref with
           | None => d3
           | Some p => set_zens (<[zr_Token ref := f p]> (zens d3)) d3
           end).
  { intros d3 f Hf Hd3. destruct (zens d3 !! zr_Token ref) as [p|] eqn:Hp; [|done].
    apply set_zen_ok; [done|]. rewrite Hf. by eapply mem_zens. }
  destruct (d_crawler d2); [destruct (ParseIdentity _)|];
    apply (Hlast _ (λ p, mkZenInfo (z_ID p) (zr_Identity ref)
      (if decide (zr_Name ref = []) then z_Name p else zr_Name ref) (z_Kind p) (z_Status p)
      (z_Verified p))); try done. by destruct Hd2.
Qed.

Lemma remove_first_sub id l : ∀ sb, sb ∈ remove_first id l → sb ∈ l.
Proof.
  induction l as [|x l IH]; intros sb; cbn; [done|]. case_decide; [set_solver|].
  intros [->|Hin]%elem_of_cons; [set_solver|]. apply elem_of_cons. right. by apply IH.
Qed.

Lemma rehydrate_keyed s l m :
  (∀ tok z, m !! tok = Some z → z_ID z = tok) →
  ∀ tok z, foldl (rehydrate_one s) m l !! tok = Some z → z_ID z = tok.
Proof.
  revert m. induction l as [|[id t] l IH]; intros m Hm; [exact Hm|]. cbn [foldl]. apply IH.
  unfold rehydrate_one. destruct (m !! t) eqn:Ht; [exact Hm|]. intros tok z.
  rewrite lookup_insert_Some. intros [[<- <-]|[_ Hl]]; [done|by apply Hm].
Qed.

Lemma mem_ok_same d d' :
  zens d' = zens d → knownTokens d' = knownTokens d → subs d' = subs d → mem_ok d → mem_ok d'.
Proof. intros Hz Ht Hs [Hz0 Ht0 Hs0]. split; by rewrite ?Hz, ?Ht, ?Hs. Qed.

Lemma run_op_ok s o d : mem_ok d → mem_ok (run_op s o d).
Proof.
  intros Hd. destruct o as [ref|id kind status|id|id status| |ev|id|id|i| |id|]; cbn [run_op].
  - by apply learnZenRef_ok.
  - by apply upsertZen_ok.
  - unfold removeZen, emitZenRemove. apply broadcast_ok. destruct Hd as [Hz Ht Hq].
    split; [|exact Ht|exact Hq]. intros tok z. cbn [zens set_zens].
    rewrite lookup_delete_Some. intros [_ Hl]. by apply Hz.
  - unfold setZenStatus. destruct (zens d !! id) as [p|] eqn:Hp; [|done].
    unfold emitZenUpsert. apply broadcast_ok, set_zen_ok; [done|]. cbn [z_ID]. by eapply (mem_zens d).
  - destruct Hd as [Hz Ht Hq]. split; [|exact Ht|exact Hq]. by apply rehydrate_keyed.
  - by apply broadcast_ok.
  - destruct Hd as [Hz Ht Hq]. split; [exact Hz|exact Ht|]. cbn [addSubscriber subs set_subs].
    apply Forall_app. split; [done|]. constructor; [|constructor]. cbn. unfold subscribeQueue. lia.
  - destruct Hd as [Hz Ht Hq]. split; [exact Hz|exact Ht|]. cbn [removeSubscriber subs set_subs].
    rewrite Forall_forall in Hq |- *. intros sb Hin. apply Hq. by eapply remove_first_sub.
  - destruct Hd as [Hz Ht Hq]. split; [exact Hz|exact Ht|]. cbn [subs set_subs].
    apply Forall_alter; [done|]. intros sb _ Hle. cbn. destruct (sub_events sb); cbn in *; lia.
  - unfold cachedPosts. destruct (feedCache d); [done|]. destruct (AllPostsOneTx s); [|done].
    by apply (mem_ok_same d).
  - unfold displayName. destruct (nameCache d !! id); [done|]. by apply (mem_ok_same d).
  - by apply (mem_ok_same d).
Qed.

Lemma mem_reachable d : rtc mem_step daemon_New d → mem_ok d.
Proof.
  intros Hr. assert (Hg : ∀ d0, rtc mem_step d0 d → mem_ok d0 → mem_ok d).
  { induction 1 as [|d0 d1 d2 [s o] _ IH]; [done|]. intros Hok. by apply IH, run_op_ok. }
  eapply Hg; [exact Hr|apply mem_ok_New].
Qed.
End machine.
