(* ===== verification/FeedRace.v ===== *)
(** * The feed under concurrency

    The handlers of the daemon take [feedMu] for one access at a time, so a
    post being written and a subscriber being served interleave. Here each
    access is a step: the write to the store, [invalidateFeed], the push, the
    registration of a subscriber and the two locked sections of [cachedPosts].
    Whatever the interleaving, no post falls between the snapshot and the
    pushes. The name cache has no such luck: a name read before a profile is
    written can be cached after the cache was dropped. *)

From S2P Require Import Prelude Base32 External Identity Event Log Bolt Store StoreFacts StoreFollow StoreFollowFacts StoreQuery StoreQueryFacts Wire Crawler Daemon DaemonOps DaemonFacts.
#[local] Open Scope go_scope.

Section machine.
Context `{Bolt, Blake3, Ed25519, CborText, order : GoRange}.
Context `{!CborType Event, !CborType SignedEvent}.

(** ** The two sections of [cachedPosts] *)

(** Under the first lock: the cache, or the generation to go on with. *)
Definition cached_lock1 (d : dstate) : list SignedEvent + Z :=
  match feedCache d with Some posts => inl posts | None => inr (feedGen d) end.

(** Under the second: a cache of that generation, or a rebuild from the
    store. *)
Definition cached_lock2 (gen : Z) (s : store) (d : dstate) : list SignedEvent * dstate :=
  match feedCache d with
  | Some posts => if (feedGen d =? gen)%Z then (posts, d)
                  else match AllPostsOneTx s with
                       | Err _ => ([], d)
                       | Ok all => (Posts all, set_feed (feedGen d) (appended (Posts all)) d)
                       end
  | None => match AllPostsOneTx s with
            | Err _ => ([], d)
            | Ok all => (Posts all, set_feed (feedGen d) (appended (Posts all)) d)
            end
  end.

(** With nothing in between they are [cachedPosts]. *)
Lemma cachedPosts_sections s d :
  cachedPosts s d = match cached_lock1 d with
                    | inl posts => (posts, d)
                    | inr gen => cached_lock2 gen s d
                    end.
Proof.
  unfold cachedPosts, cached_lock1. destruct (feedCache d) as [posts|] eqn:Hc; [done|].
  unfold cached_lock2. by rewrite Hc.
Qed.

(** ** The machine *)

Inductive thread :=
  (* handlePost, by what it has done *)
  | PostStart (text parent : bytes) (kp : KeyPair) (now : Z)
  | PostWritten (se : SignedEvent) (id : bytes) (now : Z)
  | PostInvalidated (se : SignedEvent) (id : bytes) (now : Z)
  | PostDone (se : SignedEvent) (id : bytes)
  (* Subscribe: registering, the snapshot, pumping *)
  | SubStart
  | SubRegistered
  | SubMissed (gen : Z)
  | SubOn (posts : list SignedEvent) (got : list event).

Record sys := mkSys { y_store : store; y_mem : dstate; y_threads : list thread }.

Definition goes (y : sys) (i : nat) (s : store) (d : dstate) (t : thread) : sys :=
  mkSys s d (<[i := t]> (y_threads y)).

(** The push of [handlePost]. *)
Definition push_post (se : SignedEvent) (id : bytes) (now : Z) (s : store) (d : dstate) : dstate :=
  let ownID := default [] (Store_Identity s) in
  let '(name, d) := displayName ownID s (triggerSyncNow (touchSignAt now d)) in
  let text := match e_Post (se_Event se) with Some p => Text p | None => [] end in
  emitFeedAdd [mkFeedItem (EventID_String id) (e_Timestamp (se_Event se)) ownID name text 0 []] d.

Definition take_event (sb : subscriber) (rest : list event) : subscriber :=
  mkSubscriber (sub_id sb) rest (sub_done sb).

(** The timeline a store holds. *)
Definition held_timeline (s : store) : list SignedEvent :=
  match AllPostsOneTx s with Ok all => all | Err _ => [] end.

(** Thread [i] is subscriber [i]. A post is signed into a log that does not
    have its ID. Whatever else the daemon does at the same time adds to the
    timeline, drops the cache or pushes events. *)
Inductive sys_step (y : sys) : sys → Prop :=
  | post_write i text parent kp now se id s' :
      y_threads y !! i = Some (PostStart text parent kp now) →
      SignAndAppend kp PostLog (post_event text parent) now (y_store y) = (Ok (Some se, id), s') →
      storable se → subview (bucketOwn (y_store y)) PostLog !! id = None →
      sys_step y (goes y i s' (y_mem y) (PostWritten se id now))
  | post_invalidate i se id now :
      y_threads y !! i = Some (PostWritten se id now) →
      sys_step y (goes y i (y_store y) (invalidateFeed (y_mem y)) (PostInvalidated se id now))
  | post_push i se id now :
      y_threads y !! i = Some (PostInvalidated se id now) →
      sys_step y (goes y i (y_store y) (push_post se id now (y_store y) (y_mem y)) (PostDone se id))
  | sub_register i :
      y_threads y !! i = Some SubStart →
      sys_step y (goes y i (y_store y) (addSubscriber (newSubscriber i) (y_mem y)) SubRegistered)
  | sub_hit i posts :
      y_threads y !! i = Some SubRegistered → cached_lock1 (y_mem y) = inl posts →
      sys_step y (goes y i (y_store y) (y_mem y) (SubOn posts []))
  | sub_miss i gen :
      y_threads y !! i = Some SubRegistered → cached_lock1 (y_mem y) = inr gen →
      sys_step y (goes y i (y_store y) (y_mem y) (SubMissed gen))
  | sub_rebuild i gen posts d' :
      y_threads y !! i = Some (SubMissed gen) →
      cached_lock2 gen (y_store y) (y_mem y) = (posts, d') →
      sys_step y (goes y i (y_store y) d' (SubOn posts []))
  | sub_pump i k posts got sb ev rest :
      y_threads y !! i = Some (SubOn posts got) → subs (y_mem y) !! k = Some sb → sub_id sb = i →
      sub_events sb = ev :: rest →
      sys_step y (goes y i (y_store y) (set_subs (<[k := take_event sb rest]> (subs (y_mem y))) (y_mem y))
                    (SubOn posts (got ++ [ev])))
  | other_write s' :
      all_ok s' → held_timeline (y_store y) ⊆ held_timeline s' →
      sys_step y (mkSys s' (y_mem y) (y_threads y))
  | other_invalidate :
      sys_step y (mkSys (y_store y) (invalidateFeed (y_mem y)) (y_threads y))
  | other_push ev :
      sys_step y (mkSys (y_store y) (broadcast ev (y_mem y)) (y_threads y)).

(** Before any handler has begun. *)
Definition idle (t : thread) : Prop :=
  match t with PostStart _ _ _ _ | SubStart => True | _ => False end.

(** The post of [id] was pushed to subscriber [i], who has [got] some pushes
    and has others queued, or was dropped for not keeping up. *)
Definition reached (d : dstate) (i : nat) (got : list event) (id : bytes) : Prop :=
  ∃ sb, sb ∈ subs d ∧ sub_id sb = i ∧
    (sub_done sb = true ∨
     ∃ it, fi_ID it = EventID_String id ∧ FeedAdd [it] ∈ got ++ sub_events sb).
End machine.

(** ** The invariant *)

Section invariant.
Context `{BoltLaws, Blake3, !Blake3Laws, Ed25519, !Ed25519Laws, order : GoRange, !GoRangeLaws}.
Context `{CborText, !CborTextLaws, !CborType Event, !CborType SignedEvent, !CborLaws Event, !CborLaws SignedEvent}.

Definition written_of (t : thread) : option (SignedEvent * bytes) :=
  match t with
  | PostWritten se id _ | PostInvalidated se id _ | PostDone se id => Some (se, id)
  | _ => None
  end.
(** Posts written before the cache was last dropped. *)
Definition settled_of (t : thread) : option (SignedEvent * bytes) :=
  match t with PostInvalidated se id _ | PostDone se id => Some (se, id) | _ => None end.
Definition pushed_of (t : thread) : option (SignedEvent * bytes) :=
  match t with PostDone se id => Some (se, id) | _ => None end.
Definition registered (t : thread) : Prop :=
  match t with SubRegistered | SubMissed _ | SubOn _ _ => True | _ => False end.

(** A timeline that has the posts [f] picks, and nothing the store has not. *)
Definition covers (f : thread → option (SignedEvent * bytes)) (y : sys) (all0 : list SignedEvent) : Prop :=
  all0 ⊆ held_timeline (y_store y) ∧
  ∀ j t se id, y_threads y !! j = Some t → f t = Some (se, id) → se ∈ all0.

Record inv (y : sys) : Prop := {
  inv_ok : all_ok (y_store y);
  inv_written : ∀ j t se id, y_threads y !! j = Some t → written_of t = Some (se, id) →
    se ∈ held_timeline (y_store y);
  inv_cache : ∀ ps, feedCache (y_mem y) = Some ps → ∃ all0, ps = Posts all0 ∧ covers settled_of y all0;
  inv_sub : ∀ i t, y_threads y !! i = Some t → registered t → ∃ sb, sb ∈ subs (y_mem y) ∧ sub_id sb = i;
  inv_on : ∀ i posts got, y_threads y !! i = Some (SubOn posts got) →
    ∃ all0, posts = Posts all0 ∧ all0 ⊆ held_timeline (y_store y) ∧
      ∀ j t se id, y_threads y !! j = Some t → pushed_of t = Some (se, id) →
        se ∈ all0 ∨ reached (y_mem y) i got id;
}.

Lemma pushed_settled t p : pushed_of t = Some p → settled_of t = Some p.
Proof. by destruct t. Qed.
Lemma settled_written t p : settled_of t = Some p → written_of t = Some p.
Proof. by destruct t. Qed.

Lemma goes_at y i s d t j t' : y_threads (goes y i s d t) !! j = Some t' →
  (j = i ∧ t' = t) ∨ y_threads y !! j = Some t'.
Proof. cbn. rewrite list_lookup_insert_Some. naive_solver. Qed.

(** Subscribers stay, and keep what is queued. *)
Definition subs_grow (d d' : dstate) : Prop :=
  ∀ sb, sb ∈ subs d → ∃ sb', sb' ∈ subs d' ∧ sub_id sb' = sub_id sb ∧
    (sub_done sb = true → sub_done sb' = true) ∧ sub_events sb ⊆ sub_events sb'.

Lemma subs_grow_same d d' : subs d' = subs d → subs_grow d d'.
Proof. intros Hd sb Hsb. exists sb. by rewrite Hd. Qed.

Lemma offer_keeps ev sb : sub_id (offer ev sb) = sub_id sb ∧
  (sub_done sb = true → sub_done (offer ev sb) = true) ∧ sub_events sb ⊆ sub_events (offer ev sb) ∧
  (sub_done (offer ev sb) = true ∨ ev ∈ sub_events (offer ev sb)).
Proof.
  unfold offer. case_match; cbn; split_and!; try done; [set_solver|right; set_solver|by left].
Qed.

Lemma broadcast_grows ev d : subs_grow d (broadcast ev d).
Proof.
  intros sb Hsb. exists (offer ev sb). destruct (offer_keeps ev sb) as (? & ? & ? & _). split_and!; [|done..].
  cbn. apply list_elem_of_fmap. by exists sb.
Qed.

Lemma addSubscriber_grows sb d : subs_grow d (addSubscriber sb d).
Proof. intros sb' Hsb. exists sb'. cbn. split_and!; try done. set_solver. Qed.

Lemma reached_grow d d' i got id : subs_grow d d' → reached d i got id → reached d' i got id.
Proof.
  intros Hg (sb & Hsb & Hi & Hr). destruct (Hg sb Hsb) as (sb' & Hsb' & Hid & Hd & He).
  exists sb'. split_and!; [done|congruence|]. destruct Hr as [Hr|(it & Hit & Hin)]; [left; auto|].
  right. exists it. split; [done|]. set_solver.
Qed.

(** Every subscriber gets a push or is dropped. *)
Lemma push_post_reaches se id now s d i got :
  (∃ sb, sb ∈ subs d ∧ sub_id sb = i) → reached (push_post se id now s d) i got id.
Proof.
  intros (sb & Hsb & Hi). unfold push_post.
  pose proof (displayName_same (default [] (Store_Identity s)) s (triggerSyncNow (touchSignAt now d))) as Hd.
  destruct (displayName _ s _) as [name d1]. cbn [snd] in Hd. cbn [emitFeedAdd].
  match goal with |- reached (broadcast (FeedAdd [?it]) _) _ _ _ => set (item := it) end.
  exists (offer (FeedAdd [item]) sb). destruct (offer_keeps (FeedAdd [item]) sb) as (Ho & _ & _ & Hor).
  split_and!; [|congruence|].
  - cbn. apply list_elem_of_fmap. exists sb. split; [done|]. by rewrite Hd.
  - destruct Hor as [?|Hin]; [by left|]. right. exists item. split; [done|]. set_solver.
Qed.

Lemma push_post_grows se id now s d : subs_grow d (push_post se id now s d).
Proof.
  unfold push_post.
  pose proof (displayName_same (default [] (Store_Identity s)) s (triggerSyncNow (touchSignAt now d))) as Hd.
  destruct (displayName _ s _) as [name d1]. cbn [snd] in Hd. cbn [emitFeedAdd].
  intros sb Hsb. apply (broadcast_grows _ d1 sb). by rewrite Hd.
Qed.

Lemma push_post_cache se id now s d : feedCache (push_post se id now s d) = feedCache d.
Proof.
  unfold push_post. pose proof (displayName_feed (default [] (Store_Identity s)) s (triggerSyncNow (touchSignAt now d))) as Hd.
  by destruct (displayName _ s _) as [name d1].
Qed.

(** A step of thread [i], from its new state. *)
Lemma inv_move y i t s' d' :
  inv y → all_ok s' → held_timeline (y_store y) ⊆ held_timeline s' → subs_grow (y_mem y) d' →
  (∀ se id, written_of t = Some (se, id) → se ∈ held_timeline s') →
  (∀ ps, feedCache d' = Some ps → ∃ all0, ps = Posts all0 ∧ all0 ⊆ held_timeline s' ∧
     (∀ j t' se id, y_threads y !! j = Some t' → settled_of t' = Some (se, id) → se ∈ all0) ∧
     ∀ se id, settled_of t = Some (se, id) → se ∈ all0) →
  (registered t → ∃ sb, sb ∈ subs d' ∧ sub_id sb = i) →
  (∀ posts got, t = SubOn posts got → ∃ all0, posts = Posts all0 ∧ all0 ⊆ held_timeline s' ∧
     ∀ j t' se id, y_threads y !! j = Some t' → pushed_of t' = Some (se, id) →
       se ∈ all0 ∨ reached d' i got id) →
  (∀ se id, pushed_of t = Some (se, id) → ∀ k t' got, y_threads y !! k = Some t' → registered t' →
     reached d' k got id) →
  inv (goes y i s' d' t).
Proof.
  intros [Hok Hwr Hca Hsub Hon] Hok' Htl Hg Hw Hc Hr Hnew Hpush. split.
  - done.
  - intros j t' se id [[-> ->]|Hj]%goes_at Hse; [by eapply Hw|]. by eapply Htl, Hwr.
  - intros ps Hps. destruct (Hc ps Hps) as (all0 & -> & Hall & Hold & Ht).
    exists all0. split; [done|]. split; [done|]. intros j t' se id [[-> ->]|Hj]%goes_at Hse; eauto.
  - intros j t' [[-> ->]|Hj]%goes_at Hreg; [by apply Hr|].
    destruct (Hsub j t' Hj Hreg) as (sb & Hsb & Hid). destruct (Hg sb Hsb) as (sb' & Hsb' & Hid' & _).
    exists sb'. split; [done|congruence].
  - intros k posts got [[-> <-]|Hk]%goes_at.
    + destruct (Hnew posts got eq_refl) as (all0 & -> & Hall & Hold). exists all0. split_and!; [done|done|].
      intros j t' se id [[-> ->]|Hj]%goes_at Hse; [done|by eapply Hold].
    + destruct (Hon k posts got Hk) as (all0 & -> & Hall & Hold). exists all0.
      split_and!; [done|set_solver|]. intros j t' se id [[-> ->]|Hj]%goes_at Hse.
      * right. by eapply Hpush.
      * destruct (Hold j t' se id Hj Hse) as [?|Hre]; [by left|]. right. by eapply reached_grow.
Qed.

(** A step of the daemon besides the threads. *)
Lemma inv_other y s' d' :
  inv y → all_ok s' → held_timeline (y_store y) ⊆ held_timeline s' → subs_grow (y_mem y) d' →
  (feedCache d' = feedCache (y_mem y) ∨ feedCache d' = None) →
  inv (mkSys s' d' (y_threads y)).
Proof.
  intros [Hok Hwr Hca Hsub Hon] Hok' Htl Hg Hc. split; cbn.
  - done.
  - intros j t se id Hj Hse. by eapply Htl, Hwr.
  - intros ps Hps. destruct Hc as [Hc|Hc]; rewrite Hc in Hps; [|done].
    destruct (Hca ps Hps) as (all0 & -> & Hall & Hcov). exists all0. split; [done|].
    split; [cbn; set_solver|done].
  - intros i t Hi Hreg. destruct (Hsub i t Hi Hreg) as (sb & Hsb & Hid).
    destruct (Hg sb Hsb) as (sb' & Hsb' & Hid' & _). exists sb'. split; [done|congruence].
  - intros k posts got Hk. destruct (Hon k posts got Hk) as (all0 & -> & Hall & Hold). exists all0.
    split_and!; [done|set_solver|]. intros j t' se id Hj Hse.
    destruct (Hold j t' se id Hj Hse) as [?|Hre]; [by left|]. right. by eapply reached_grow.
Qed.

(** What a post written by [SignAndAppend] adds. *)
Lemma post_added kp text parent now s se id s' :
  all_ok s → SignAndAppend kp PostLog (post_event text parent) now s = (Ok (Some se, id), s') →
  storable se → subview (bucketOwn s) PostLog !! id = None →
  all_ok s' ∧ held_timeline s ⊆ held_timeline s' ∧ se ∈ held_timeline s'.
Proof.
  intros [Hown Hcrawl] Hrun Hst Hnew. revert Hrun. unfold SignAndAppend.
  rewrite decide_False by by vm_compute. unfold wrapM, lift, mbind, stM_bind.
  destruct (Sign kp _) as [se0|er] eqn:Hs; cbn [wrap]; [|by destruct er].
  destruct (ID se0) as [id0|er] eqn:HID.
  2:{ destruct (AppendOwnEvent PostLog se0 s) as [[[]|er'] s1]; cbn [wrap]; [by destruct er|by destruct er']. }
  destruct (AppendOwnEvent PostLog se0 s) as [[[]|er] s1] eqn:Ha; cbn [wrap]; [|by destruct er].
  intros [= -> -> ->]. assert (bk_key_ok PostLog = true) as Hlog.
  { apply bk_key_fits; [done|]. apply Nat.leb_le. by vm_compute. }
  destruct (AppendOwnEvent_adds PostLog se id s Hown Hst HID Hlog) as (own & Hrun & Hsubs & Hview).
  rewrite Hrun in Ha. injection Ha as <-.
  assert (all_ok (set_own own s)) as Hok' by by split.
  assert (log_add id se (subview (bucketOwn s) PostLog) = <[id := se]> (subview (bucketOwn s) PostLog)) as Hadd.
  { unfold log_add. rewrite decide_False; [done|]. intros [Hid|(p & Hp & _)].
    - rewrite Hnew in Hid. by destruct Hid.
    - revert Hp. unfold like_of. apply Sign_inv in Hs as (-> & _). by rewrite decide_False. }
  unfold held_timeline. rewrite !AllPostsOneTx_ok by done.
  assert (own_follows (set_own own s) = own_follows s) as ->.
  { unfold own_follows, own_profile. f_equal. apply subevents_ext. cbn. by rewrite Hview. }
  split_and!; [done| |].
  - intros x. rewrite !elem_of_timeline. intros [Hx|Hx]; [left|right; exact Hx].
    apply elem_of_subevents in Hx as [k Hk]. apply elem_of_subevents. exists k. cbn [bucketOwn set_own].
    rewrite Hview, decide_True, Hadd by done. rewrite lookup_insert_ne; [done|]. congruence.
  - apply elem_of_timeline. left. apply elem_of_subevents. exists id. cbn [bucketOwn set_own].
    rewrite Hview, decide_True, Hadd by done. apply lookup_insert_eq.
Qed.

Lemma rebuild_covers y : inv y → AllPostsOneTx (y_store y) = Ok (held_timeline (y_store y)).
Proof. intros Hy. unfold held_timeline. by rewrite AllPostsOneTx_ok by apply Hy. Qed.

(** The pump moves the head of one queue to the events that subscriber got. *)
Lemma reached_pump d k sb ev rest i got id :
  subs d !! k = Some sb → sub_events sb = ev :: rest →
  reached d i got id →
  reached (set_subs (<[k := take_event sb rest]> (subs d)) d) i
    (if decide (sub_id sb = i) then got ++ [ev] else got) id.
Proof.
  intros Hk Hev (sb0 & Hsb & Hi & Hr). apply list_elem_of_lookup in Hsb as [k0 Hk0].
  destruct (decide (k0 = k)) as [->|Hne].
  - rewrite Hk0 in Hk. injection Hk as ->. exists (take_event sb rest). split_and!; [|done|].
    + apply list_elem_of_lookup. exists k. cbn. apply list_lookup_insert_eq. by eapply lookup_lt_Some.
    + rewrite decide_True by done. cbn. destruct Hr as [?|(it & Hit & Hin)]; [by left|right].
      exists it. split; [done|]. rewrite Hev in Hin. set_solver.
  - exists sb0. split_and!; [|done|].
    + apply list_elem_of_lookup. exists k0. cbn. by rewrite list_lookup_insert_ne.
    + destruct Hr as [?|(it & Hit & Hin)]; [by left|right]. exists it. split; [done|].
      case_decide; [set_solver|done].
Qed.

Lemma inv_pump y i k posts got sb ev rest :
  inv y → y_threads y !! i = Some (SubOn posts got) → subs (y_mem y) !! k = Some sb → sub_id sb = i →
  sub_events sb = ev :: rest →
  inv (goes y i (y_store y) (set_subs (<[k := take_event sb rest]> (subs (y_mem y))) (y_mem y))
         (SubOn posts (got ++ [ev]))).
Proof.
  intros [Hok Hwr Hca Hsub Hon] Hi Hk Hid Hev.
  assert (Hpump := reached_pump (y_mem y) k sb ev rest). split; cbn [y_store y_mem goes].
  - done.
  - intros j t' se id [[-> ->]|Hj]%goes_at Hse; [done|by eapply Hwr].
  - intros ps Hps. destruct (Hca ps Hps) as (all0 & -> & Hall & Hcov). exists all0. split; [done|].
    split; [done|]. intros j t' se id [[-> ->]|Hj]%goes_at Hse; [done|by eapply Hcov].
  - assert (Hsame : ∀ j, (∃ sb, sb ∈ subs (y_mem y) ∧ sub_id sb = j) →
      ∃ sb', sb' ∈ <[k := take_event sb rest]> (subs (y_mem y)) ∧ sub_id sb' = j).
    { intros j (sb0 & [k0 Hk0]%list_elem_of_lookup & Hj). destruct (decide (k0 = k)) as [->|Hne].
      - rewrite Hk0 in Hk. injection Hk as ->. exists (take_event sb rest). split; [|done].
        apply list_elem_of_lookup. exists k. apply list_lookup_insert_eq. by eapply lookup_lt_Some.
      - exists sb0. split; [|done]. apply list_elem_of_lookup. exists k0. by rewrite list_lookup_insert_ne. }
    intros j t' [[-> ->]|Hj]%goes_at Hreg; cbn; apply Hsame; [by eapply Hsub|by eapply Hsub].
  - intros m ps g Hm. assert (∃ g0, y_threads y !! m = Some (SubOn ps g0) ∧
      g = if decide (sub_id sb = m) then g0 ++ [ev] else g0) as (g0 & Hm0 & ->).
    { revert Hm. cbn. rewrite list_lookup_insert_Some. intros [(-> & [= <- <-] & _)|[Hne Hm]].
      - exists got. by rewrite decide_True.
      - exists g. rewrite decide_False by congruence. done. }
    destruct (Hon m ps g0 Hm0) as (all0 & -> & Hall & Hold). exists all0. split_and!; [done|done|].
    intros j t' se id [[-> ->]|Hj]%goes_at Hse; [done|].
    destruct (Hold j t' se id Hj Hse) as [?|Hr]; [by left|]. right. by apply Hpump.
Qed.

Lemma inv_step y y' : inv y → sys_step y y' → inv y'.
Proof.
  intros Hy Hstep. pose proof Hy as [Hok Hwr Hca Hsub Hon]. pose proof (rebuild_covers y Hy) as Hre.
  assert (Hcov : ∀ ps, feedCache (y_mem y) = Some ps → ∃ all0, ps = Posts all0 ∧
    all0 ⊆ held_timeline (y_store y) ∧
    (∀ j t' se id, y_threads y !! j = Some t' → settled_of t' = Some (se, id) → se ∈ all0)).
  { intros ps Hps. destruct (Hca ps Hps) as (all0 & ? & ? & ?). by exists all0. }
  assert (Hset : ∀ j t' se id, y_threads y !! j = Some t' → settled_of t' = Some (se, id) →
    se ∈ held_timeline (y_store y)) by eauto using settled_written.
  destruct Hstep as [i text parent kp now se id s' Hi Hrun Hst Hnew|i se id now Hi|i se id now Hi|i Hi
    |i posts Hi Hl|i gen Hi Hl|i gen posts d' Hi Hl|i k posts got sb ev rest Hi Hk Hid Hev|s' Hok' Htl| |ev].
  - destruct (post_added _ _ _ _ _ _ _ _ Hok Hrun Hst Hnew) as (Hok' & Htl & Hin).
    apply inv_move; try done; [by apply subs_grow_same|by intros ? ? [= <- <-]|].
    intros ps Hps. destruct (Hcov ps Hps) as (all0 & -> & Hall & Hold). exists all0.
    split_and!; [done|set_solver|done|done].
  - apply inv_move; try done; [by apply subs_grow_same|]. intros ? ? [= <- <-]. by eapply Hwr.
  - apply inv_move; try done; [apply push_post_grows|intros ? ? [= <- <-]; by eapply Hwr| |].
    + intros ps. rewrite push_post_cache. intros Hps. destruct (Hcov ps Hps) as (all0 & -> & Hall & Hold).
      exists all0. split_and!; [done|done|done|]. intros ? ? [= <- <-]. by eapply (Hold i).
    + intros ? ? [= <- <-] k t' got Hk Hreg. apply push_post_reaches. by eapply Hsub.
  - apply inv_move; try done; [apply addSubscriber_grows| |].
    + intros ps Hps. destruct (Hcov ps Hps) as (all0 & ? & ? & ?). by exists all0.
    + intros _. exists (newSubscriber i). cbn. split; [set_solver|done].
  - unfold cached_lock1 in Hl. destruct (feedCache (y_mem y)) as [ps|] eqn:Hps; [|done]. injection Hl as ->.
    apply inv_move; try done; [by apply subs_grow_same| | |].
    + rewrite Hps. intros ? [= <-]. destruct (Hcov posts eq_refl) as (all0 & ? & ? & ?). by exists all0.
    + intros _. by eapply Hsub.
    + intros ? ? [= <- <-]. destruct (Hcov posts eq_refl) as (all0 & ? & ? & Hold). exists all0.
      split_and!; [done|done|]. intros j t' se id Hj Hse%pushed_settled. left. by eapply Hold.
  - apply inv_move; try done; [by apply subs_grow_same| |].
    + intros ps Hps. destruct (Hcov ps Hps) as (all0 & ? & ? & ?). by exists all0.
    + intros _. by eapply Hsub.
  - (* a cache that covers what is settled, or a rebuild that covers what is written *)
    assert (∃ all0, posts = Posts all0 ∧ all0 ⊆ held_timeline (y_store y) ∧
      (∀ j t' se id, y_threads y !! j = Some t' → settled_of t' = Some (se, id) → se ∈ all0) ∧
      (∀ ps, feedCache d' = Some ps → ps = Posts all0) ∧
      subs d' = subs (y_mem y)) as (all0 & -> & Hall & Hold & Hc & Hs).
    { revert Hl. unfold cached_lock2. rewrite Hre. destruct (feedCache (y_mem y)) as [ps|] eqn:Hps.
      - destruct (_ =? _)%Z; intros [= <- <-].
        + destruct (Hcov ps eq_refl) as (all0 & -> & ? & ?). exists all0.
          split_and!; [done..| |done]. rewrite Hps. by intros ? [= <-].
        + exists (held_timeline (y_store y)). split_and!; [done..| |done]. apply appended_Some.
      - intros [= <- <-]. exists (held_timeline (y_store y)). split_and!; [done..| |done].
        apply appended_Some. }
    apply inv_move; try done; [by apply subs_grow_same| | |].
    + intros ps ->%Hc. by exists all0.
    + intros _. rewrite Hs. by eapply Hsub.
    + intros ? ? [= <- <-]. exists all0. split_and!; [done|done|].
      intros j t' se id Hj Hse%pushed_settled. left. by eapply Hold.
  - by eapply inv_pump.
  - by apply inv_other; [..|apply subs_grow_same|left].
  - by apply inv_other; [..|apply subs_grow_same|right].
  - by apply inv_other; [..|apply broadcast_grows|left].
Qed.

(** Where the machine starts: handlers that have done nothing, and a cache
    that is current. *)
Definition starts (y : sys) : Prop :=
  all_ok (y_store y) ∧ fresh (y_store y, y_mem y) ∧
  ∀ i t, y_threads y !! i = Some t → idle t.

Lemma inv_starts y : starts y → inv y.
Proof.
  intros (Hok & Hf & Hidle).
  assert (Hno : ∀ j t p, y_threads y !! j = Some t → written_of t = Some p → False).
  { intros j t p Hj. specialize (Hidle j t Hj). by destruct t. }
  split.
  - done.
  - intros j t se id Hj Hse. by destruct (Hno j t _ Hj Hse).
  - intros ps Hps. destruct (Hf ps Hps) as (all & Hall & ->). cbn [fst] in Hall. exists all.
    split; [done|]. split; [unfold held_timeline; by rewrite Hall|].
    intros j t se id Hj Hse%settled_written. by destruct (Hno j t _ Hj Hse).
  - intros i t Hi Hr. specialize (Hidle i t Hi). by destruct t.
  - intros i posts got Hi. by specialize (Hidle i _ Hi).
Qed.

Lemma inv_reachable y y' : starts y → rtc sys_step y y' → inv y'.
Proof. intros Hs%inv_starts Hr. induction Hr as [|y1 y2 y3 Hst Hr IH]; [done|]. by eapply IH, inv_step. Qed.

(** A post of a timeline is one of every part of it that has it. *)
Lemma Posts_part se l l' : l ⊆ l' → se ∈ l → se ∈ Posts l' → se ∈ Posts l.
Proof.
  rewrite !elem_of_Posts. intros Hl Hse (_ & Hk & id & Hid & Hd). split; [done|]. split; [done|].
  exists id. split; [done|]. intros x Hx. apply Hd. by apply Hl.
Qed.
End invariant.

(** ** The sections of [displayName] *)

Section names.
Context `{Bolt, Blake3, Ed25519, order : GoRange}.
Context `{!CborType Event, !CborType SignedEvent, !CborType EncryptedKey, !CborType Message, Aead}.

Definition name_lock1 (id : bytes) (d : dstate) : option bytes := nameCache d !! id.
Definition name_lock2 (id name : bytes) (d : dstate) : dstate :=
  set_nameCache (<[id := name]> (nameCache d)) d.

Lemma displayName_sections id s d :
  displayName id s d = match name_lock1 id d with
                       | Some name => (name, d)
                       | None => (display id s, name_lock2 id (display id s) d)
                       end.
Proof. done. Qed.
End names.
