(* ===== verification/AppendRace.v ===== *)
(** * Appending under concurrency

    [SignAndAppend] of [internal/store/events.go] looks for a like already
    there in one transaction, counts the log for the sequence number in another,
    signs, and appends in a third. Nothing holds the store in between, so writers
    of the same log interleave there, with one another and with sessions that
    merge the user's own events from a zen. *)

From S2P Require Import Prelude Base32 External Identity Event Log Bolt Store StoreFacts.
#[local] Open Scope go_scope.

Section machine.
Context `{Bolt, Blake3, Ed25519, CborText, !CborType Event, !CborType SignedEvent}.
Context (kp : KeyPair) (log : bytes).

(** ** The three transactions *)

(** The ID of a like already there. *)
Definition check_like (ev : Event) (s : store) : option bytes :=
  if decide (e_Kind ev = KindLike) then
    match e_Like ev with
    | Some lk =>
        match bk_get (bucketOwn s) PostLog with
        | Some b => existingLikeID (Identity kp) (like_TargetID lk) b
        | None => None
        end
    | None => None
    end
  else None.

(** The next event of the log, signed. *)
Definition sign_next (ev : Event) (now : Z) (s : store) : result SignedEvent :=
  let seq := OwnEventCount log s in
  wrap "sign" (Sign kp (set_stamp ev log now (wrap_u64 (seq + 1)))).

Definition finish (se : SignedEvent) : stM store (option SignedEvent * bytes) :=
  _ ← wrapM "append" (AppendOwnEvent log se);
  id ← wrapM "event id" (lift (ID se));
  mret (Some se, id).

(** With nothing in between they are [SignAndAppend]. *)
Lemma SignAndAppend_sections ev now s :
  SignAndAppend kp log ev now s =
    match check_like ev s with
    | Some id => (Ok (None, id), s)
    | None => match sign_next ev now s with Ok se => finish se s | Err e => (Err e, s) end
    end.
Proof.
  unfold SignAndAppend. fold (check_like ev s). destruct (check_like ev s) as [id|]; [done|].
  unfold sign_next. cbn zeta. unfold wrapM, lift, mbind, stM_bind. by destruct (Sign kp _) as [se|[]].
Qed.

(** ** The machine *)

Inductive writer :=
  | Asked (ev : Event) (now : Z)
  | Checked (ev : Event) (now : Z)
  | Signed (se : SignedEvent)
  | Answered (r : result (option SignedEvent * bytes)).

Record race := mkRace { rc_store : store; rc_writers : list writer }.
Definition writes (y : race) (i : nat) (s : store) (w : writer) : race :=
  mkRace s (<[i := w]> (rc_writers y)).

Inductive race_step (y : race) : race → Prop :=
  | race_found i ev now id :
      rc_writers y !! i = Some (Asked ev now) → check_like ev (rc_store y) = Some id →
      race_step y (writes y i (rc_store y) (Answered (Ok (None, id))))
  | race_check i ev now :
      rc_writers y !! i = Some (Asked ev now) → check_like ev (rc_store y) = None →
      race_step y (writes y i (rc_store y) (Checked ev now))
  | race_sign i ev now se :
      rc_writers y !! i = Some (Checked ev now) → sign_next ev now (rc_store y) = Ok se →
      storable se →
      race_step y (writes y i (rc_store y) (Signed se))
  | race_refuse i ev now e :
      rc_writers y !! i = Some (Checked ev now) → sign_next ev now (rc_store y) = Err e →
      race_step y (writes y i (rc_store y) (Answered (Err e)))
  | race_finish i se res s' :
      rc_writers y !! i = Some (Signed se) → finish se (rc_store y) = (res, s') →
      race_step y (writes y i s' (Answered res))
  | race_merge se s' :
      storable se → AppendOwnEvent log se (rc_store y) = (Ok tt, s') →
      race_step y (mkRace s' (rc_writers y)).

Definition asks (w : writer) : Prop := match w with Asked _ _ => True | _ => False end.
End machine.

(** ** The invariant *)

Section invariant.
Context `{BoltLaws, Blake3, !Blake3Laws, Ed25519, CborText}.
Context `{!CborType Event, !CborType SignedEvent, !CborLaws Event, !CborLaws SignedEvent}.
Context (kp : KeyPair) (log : bytes) (Hlog : bk_key_ok log = true).

Definition log_view (s : store) : elog := subview (bucketOwn s) log.

(** What a writer has to show for itself. *)
Definition accounted (m : elog) (w : writer) : Prop :=
  match w with
  | Asked _ _ | Checked _ _ => True
  | Signed se => storable se
  | Answered (Ok (Some se, id)) => ID se = Ok id ∧ skips id se m
  | Answered _ => True
  end.

Record race_inv (s0 : store) (y : race) : Prop := {
  ri_ok : subs_ok (bucketOwn (rc_store y));
  ri_kept : log_view s0 ⊆ log_view (rc_store y);
  ri_like : one_like (log_view (rc_store y));
  ri_all : Forall (accounted (log_view (rc_store y))) (rc_writers y);
}.

Lemma accounted_mono m m' w : m ⊆ m' → accounted m w → accounted m' w.
Proof.
  intros Hm. destruct w as [| | |[[[se|] id]|]]; try done.
  intros [Hid Hs]. split; [done|]. by eapply skips_mono.
Qed.

(** One append, by a writer or a session. *)
Lemma append_keeps s0 (y : race) se id s' :
  race_inv s0 y → storable se → ID se = Ok id → AppendOwnEvent log se (rc_store y) = (Ok tt, s') →
  race_inv s0 (mkRace s' (rc_writers y)) ∧ skips id se (log_view s').
Proof.
  intros [Hok Hk Hl Hall] Hse HID Happ.
  destruct (AppendOwnEvent_adds log se id (rc_store y) Hok Hse HID Hlog) as (own & Hrun & Hok' & Hadd).
  rewrite Hrun in Happ. assert (s' = set_own own (rc_store y)) as -> by congruence.
  assert (log_view (set_own own (rc_store y)) = log_add id se (log_view (rc_store y))) as Hv.
  { unfold log_view. cbn [bucketOwn set_own]. rewrite Hadd. by rewrite decide_True. }
  split.
  - split; cbn [rc_store rc_writers]; rewrite ?Hv.
    + done.
    + etrans; [exact Hk|apply log_add_mono].
    + by apply log_add_one_like.
    + eapply Forall_impl; [exact Hall|]. intros w. apply accounted_mono, log_add_mono.
  - rewrite Hv. unfold log_add. case_decide; [done|]. left. by rewrite lookup_insert_eq.
Qed.

Lemma race_inv_write s0 (y : race) i w :
  race_inv s0 y → accounted (log_view (rc_store y)) w → race_inv s0 (writes y i (rc_store y) w).
Proof. intros [Hok Hk Hl Hall] Hw. split; [done..|]. by apply Forall_insert. Qed.

Lemma race_step_inv s0 (y y' : race) : race_inv s0 y → race_step kp log y y' → race_inv s0 y'.
Proof.
  intros Hinv Hstep.
  destruct Hstep as [i ev now id Hi Hc|i ev now Hi Hc|i ev now se Hi Hs Hse|i ev now e Hi Hs
    |i se res s' Hi Hf|se s' Hse Ha].
  1-4: by apply race_inv_write.
  - pose proof (ri_all _ _ Hinv) as Hall. rewrite Forall_lookup in Hall. specialize (Hall i _ Hi).
    cbn [accounted] in Hall. destruct (storable_ID se Hall) as (id & HID & _).
    destruct (AppendOwnEvent_adds log se id (rc_store y) (ri_ok _ _ Hinv) Hall HID Hlog) as (own & Hrun & _).
    revert Hf. unfold finish, wrapM, lift, mbind, stM_bind. rewrite Hrun. cbn [wrap]. rewrite HID. cbn.
    intros [= <- <-].
    destruct (append_keeps s0 y se id _ Hinv Hall HID Hrun) as [Hinv' Hs].
    exact (race_inv_write s0 (mkRace (set_own own (rc_store y)) (rc_writers y)) i
             (Answered (Ok (Some se, id))) Hinv' (conj HID Hs)).
  - destruct (storable_ID se Hse) as (id & HID & _). by eapply append_keeps.
Qed.

Lemma race_reachable s0 ws (y : race) :
  subs_ok (bucketOwn s0) → one_like (log_view s0) → Forall asks ws →
  rtc (race_step kp log) (mkRace s0 ws) y → race_inv s0 y.
Proof.
  intros Hok Hl Hws Hrun.
  assert (race_inv s0 (mkRace s0 ws)) as Hinv.
  { split; [done..|]. eapply Forall_impl; [exact Hws|]. by intros []. }
  revert Hinv. induction Hrun as [|y y1 y2 Hstep _ IH]; [done|].
  intros Hinv. by eapply IH, race_step_inv.
Qed.

(** ** Overlapping writers *)

Lemma sign_next_sequence ev now s se :
  sign_next kp log ev now s = Ok se → e_Sequence (se_Event se) = wrap_u64 (OwnEventCount log s + 1).
Proof.
  unfold sign_next. destruct (Sign kp _) as [se'|[]] eqn:Hs; try done. cbn. intros [= <-].
  destruct (Sign_inv _ _ _ Hs) as (-> & _). done.
Qed.

Lemma finish_adds s se id :
  subs_ok (bucketOwn s) → storable se → ID se = Ok id →
  ∃ s', finish log se s = (Ok (Some se, id), s') ∧ subs_ok (bucketOwn s') ∧
    log_view s' = log_add id se (log_view s).
Proof.
  intros Hok Hse HID.
  destruct (AppendOwnEvent_adds log se id s Hok Hse HID Hlog) as (own & Hrun & Hok' & Hadd).
  exists (set_own own s). split_and!.
  - unfold finish, wrapM, lift, mbind, stM_bind. rewrite Hrun. cbn [wrap]. by rewrite HID.
  - done.
  - unfold log_view. cbn [bucketOwn set_own]. rewrite Hadd. by rewrite decide_True.
Qed.

(** Two likes of one target, both signed before either is appended. *)
Lemma second_like_lost s se se' id id' p :
  subs_ok (bucketOwn s) → storable se → storable se' → ID se = Ok id → ID se' = Ok id' → id ≠ id' →
  like_of se = Some p → like_of se' = Some p → log_view s !! id = None → log_view s !! id' = None →
  ∃ s1 s2, finish log se s = (Ok (Some se, id), s1) ∧
    finish log se' s1 = (Ok (Some se', id'), s2) ∧ log_view s2 !! id' = None.
Proof.
  intros Hok Hse Hse' HID HID' Hne Hlk Hlk' Hn Hn'.
  destruct (finish_adds s se id Hok Hse HID) as (s1 & Hf1 & Hok1 & Hv1).
  destruct (finish_adds s1 se' id' Hok1 Hse' HID') as (s2 & Hf2 & _ & Hv2).
  exists s1, s2. split_and!; [done..|]. rewrite Hv2.
  assert (has_like p (log_view s1) ∧ log_view s1 !! id' = None) as [Hhas Hfree].
  { rewrite Hv1. unfold log_add. case_decide as Hs.
    - destruct Hs as [[e He]|(p' & Hp1 & Hp2)]; [by rewrite Hn in He|].
      by assert (p' = p) as -> by congruence.
    - split; [exists id, se; by rewrite lookup_insert_eq|by rewrite lookup_insert_ne]. }
  unfold log_add. rewrite decide_True; [done|]. right. by exists p.
Qed.
End invariant.
