(* ===== verification/FollowRace.v ===== *)
(** * Following under concurrency

    [Follow] and [Unfollow] of [internal/store/events.go] sign, append to the
    Profile log, and then write the cache of follows in a transaction of its own.
    Nothing holds the store in between, so calls for several targets, or for one,
    interleave there, with one another and with pins. *)

From S2P Require Import Prelude Base32 External Identity Event Log Bolt Store StoreFacts StoreFollow StoreFollowFacts AppendRace.
#[local] Open Scope go_scope.

Section machine.
Context `{Bolt, Blake3, Ed25519, CborText, !CborType Event, !CborType SignedEvent}.
Context (kp : KeyPair).

Definition kind_of (add : bool) : Z := if add then KindFollow else KindUnfollow.

(** The last transaction of [Follow] and of [Unfollow]. *)
Definition cache_edge (add : bool) (target : bytes) : stM store unit :=
  let identity := IdentityFromPubkey target in
  wrapM "follow state"
    (if add then putFollowState identity (mkFollowState true false) else deleteFollowState identity).

(** ** The machine *)

(** A call of [Follow] ([add]) or [Unfollow]: made, with its event signed, with
    the event in the log, with the cache written; or refused. *)
Inductive edge_call :=
  | Wanted (add : bool) (target : bytes) (now : Z)
  | Stamped (add : bool) (target : bytes) (se : SignedEvent)
  | Logged (add : bool) (target : bytes)
  | Cached (add : bool) (target : bytes)
  | Refused (add : bool) (target : bytes) (e : error).

Record edges := mkEdges { eg_store : store; eg_calls : list edge_call }.
Definition calls_on (y : edges) (i : nat) (s : store) (c : edge_call) : edges :=
  mkEdges s (<[i := c]> (eg_calls y)).

(** An event is appended under an ID that no other event of the log has. *)
Inductive edges_step (y : edges) : edges → Prop :=
  | edges_sign i add target now se :
      eg_calls y !! i = Some (Wanted add target now) →
      sign_next kp ProfileLog (follow_ev (kind_of add) target) now (eg_store y) = Ok se → storable se →
      edges_step y (calls_on y i (eg_store y) (Stamped add target se))
  | edges_refuse i add target now e :
      eg_calls y !! i = Some (Wanted add target now) →
      sign_next kp ProfileLog (follow_ev (kind_of add) target) now (eg_store y) = Err e →
      edges_step y (calls_on y i (eg_store y) (Refused add target e))
  | edges_append i add target se res s' :
      eg_calls y !! i = Some (Stamped add target se) →
      (∀ e, e ∈ subevents (bucketOwn (eg_store y)) ProfileLog → ID e ≠ ID se) →
      finish ProfileLog se (eg_store y) = (Ok res, s') →
      edges_step y (calls_on y i s' (Logged add target))
  | edges_cache i add target s' :
      eg_calls y !! i = Some (Logged add target) → cache_edge add target (eg_store y) = (Ok tt, s') →
      edges_step y (calls_on y i s' (Cached add target))
  | edges_pin id : bk_key_ok id = true →
      edges_step y (mkEdges (PinIdentity id (eg_store y)).2 (eg_calls y))
  | edges_unpin id : bk_key_ok id = true →
      edges_step y (mkEdges (UnpinIdentity id (eg_store y)).2 (eg_calls y)).

Definition target_of (c : edge_call) : bytes :=
  match c with Wanted _ t _ | Stamped _ t _ | Logged _ t | Cached _ t | Refused _ t _ => t end.
Definition ended (c : edge_call) : Prop := match c with Cached _ _ | Refused _ _ _ => True | _ => False end.

(** A call that has only been made, and is stamped later than everything the
    log says about its target. *)
Definition wants (s0 : store) (c : edge_call) : Prop :=
  match c with
  | Wanted _ t now => length t = 32 ∧
      ∀ e, e ∈ subevents (bucketOwn s0) ProfileLog → follow_action t e ≠ None →
        (e_Timestamp (se_Event e) < now)%Z
  | _ => False
  end.
End machine.

(** ** One call among others *)

Section facts.
Context `{BoltLaws, Blake3, !Blake3Laws, Ed25519, !Ed25519Laws, GoRange, !GoRangeLaws}.
Context `{CborText, !CborTextLaws}.
Context `{!CborType Event, !CborType SignedEvent, !CborLaws Event, !CborLaws SignedEvent}.
Context (kp : KeyPair).

(** [Follow] and [Unfollow] are their sections, one after the other. *)
Definition sections (add : bool) (target : bytes) (now : Z) (s : store) : result bytes * store :=
  match sign_next kp ProfileLog (follow_ev (kind_of add) target) now s with
  | Err e => (Err e, s)
  | Ok se =>
      match finish ProfileLog se s with
      | (Err e, s) => (Err e, s)
      | (Ok r, s) =>
          match cache_edge add target s with
          | (Err e, s) => (Err e, s)
          | (Ok _, s) => (Ok r.2, s)
          end
      end
  end.

Lemma Follow_sections (add : bool) target now s :
  let run := if add then Store_Follow kp target now s else Store_Unfollow kp target now s in
  (snd ∘ fst <$> run.1, run.2) = sections add target now s.
Proof.
  unfold sections, cache_edge. destruct add; unfold Store_Follow, Store_Unfollow, mbind, stM_bind; cbn zeta;
    rewrite SignAndAppend_sections; unfold check_like; rewrite decide_False by done; cbn [kind_of];
    (destruct (sign_next _ _ _ _ _) as [se|e]; [|done]);
    (destruct (finish ProfileLog se s) as [[r|e] s1]; [|done]);
    by destruct (wrapM _ _ s1) as [[u|e] s2].
Qed.

(** Nothing that concerns following [t] changes. *)
Record undisturbed (t : bytes) (s s' : store) : Prop := {
  ud_log : t ∈ own_follows s' ↔ t ∈ own_follows s;
  ud_flag : IsFollowed (IdentityFromPubkey t) s' = IsFollowed (IdentityFromPubkey t) s;
  ud_about e : e ∈ own_profile s' → about t e → e ∈ own_profile s;
}.

(** The event a call signs. *)
Definition edge_event (add : bool) (t : bytes) (se : SignedEvent) : Prop :=
  storable se ∧ se_Event se = set_stamp (follow_ev (kind_of add) t) ProfileLog
    (e_Timestamp (se_Event se)) (e_Sequence (se_Event se)).

Lemma edge_event_action add t se t' :
  edge_event add t se → follow_action t' se = if decide (t = t') then Some add else None.
Proof.
  intros [_ Hev]. unfold follow_action. rewrite Hev. cbn.
  case_decide; [|done]. by destruct add.
Qed.

Lemma edge_event_like add t se : edge_event add t se → like_of se = None.
Proof. intros [_ Hev]. unfold like_of. rewrite Hev. by destruct add. Qed.

Lemma sign_next_edge add t now s se :
  sign_next kp ProfileLog (follow_ev (kind_of add) t) now s = Ok se → storable se →
  edge_event add t se ∧ e_Timestamp (se_Event se) = now.
Proof.
  unfold sign_next. destruct (Sign kp _) as [se'|[]] eqn:Hs; try done. cbn. intros [= <-] Hse.
  destruct (Sign_inv _ _ _ Hs) as (Hev & _). rewrite Hev. split; [split; [done|]|done]. by rewrite Hev.
Qed.

(** The append leaves the follows of others alone, and decides its own when
    it is the latest about it. *)
Lemma append_edge add t se s res s' :
  own_ok s → edge_event add t se → (∀ e, e ∈ own_profile s → ID e ≠ ID se) →
  finish ProfileLog se s = (Ok res, s') →
  own_ok s' ∧ (∀ id, getFollowState id s' = getFollowState id s) ∧
  (∀ t', t' ≠ t → undisturbed t' s s') ∧
  ((∀ e, e ∈ own_profile s → about t e → time_less e se = true) → t ∈ own_follows s' ↔ add = true).
Proof.
  intros Hok Hev Hfresh Hrun.
  destruct (storable_ID se (proj1 Hev)) as (id & HID & _).
  destruct (AppendOwnEvent_adds ProfileLog se id s Hok (proj1 Hev) HID) as (own & Happ & Hadds).
  { by apply bk_key_fits; vm_compute; [|lia]. }
  assert (s' = set_own own s) as ->.
  { revert Hrun. unfold finish, wrapM, lift, mbind, stM_bind. rewrite Happ. cbn [wrap]. rewrite HID. cbn [wrap]. by intros [= _ <-]. }
  assert (∃ l1 l2, own_profile s = l1 ++ l2 ∧ own_profile (set_own own s) = l1 ++ se :: l2) as (l1 & l2 & Hl & Hl').
  { apply (own_profile_insert se id); [done|done|done| |exact Hadds]. by eapply edge_event_like. }
  pose proof (edge_event_action add t se) as Hact. split_and!.
  - apply Hadds.
  - done.
  - intros t' Hne. assert (follow_action t' se = None) as Hnone.
    { rewrite Hact by done. by rewrite decide_False by done. }
    split; [|done|].
    + unfold own_follows. rewrite Hl, Hl'. by apply FollowSet_others.
    + rewrite Hl, Hl'. intros e He Ha. rewrite elem_of_app, elem_of_cons in He.
      destruct He as [?|[->|?]]; [set_solver|by destruct Ha|set_solver].
  - intros Hold. unfold own_follows. rewrite Hl'. apply FollowSet_latest.
    + rewrite Hact by done. by rewrite decide_True.
    + intros e He. apply Hold. by rewrite Hl.
Qed.

(** Writing the cache changes one edge of it. *)
Lemma cache_edge_run add t s :
  length t = 32 →
  ∃ s', cache_edge add t s = (Ok tt, s') ∧ bucketOwn s' = bucketOwn s ∧
    IsFollowed (IdentityFromPubkey t) s' = add ∧
    ∀ id, id ≠ IdentityFromPubkey t → getFollowState id s' = getFollowState id s.
Proof.
  intros Ht. unfold cache_edge, wrapM. destruct add.
  - unfold putFollowState, Update. rewrite put_follow_ok by (by apply identity_key_ok). eexists. split_and!; [done|done| |].
    + unfold IsFollowed. rewrite getFollowState_set. by rewrite decide_True.
    + intros id Hne. rewrite getFollowState_set. by rewrite decide_False by congruence.
  - unfold deleteFollowState, Update. eexists. split_and!; [done|done| |].
    + unfold IsFollowed. cbn. rewrite getFollowState_del. by rewrite decide_True.
    + intros id Hne. cbn. rewrite getFollowState_del. by rewrite decide_False by congruence.
Qed.

(** ** The invariant of calls for different targets *)

Definition stands (s0 s : store) (c : edge_call) : Prop :=
  match c with
  | Wanted _ t now => length t = 32 ∧ undisturbed t s0 s ∧
      ∀ e, e ∈ own_profile s0 → about t e → (e_Timestamp (se_Event e) < now)%Z
  | Stamped add t se => length t = 32 ∧ undisturbed t s0 s ∧ edge_event add t se ∧
      ∀ e, e ∈ own_profile s0 → about t e → time_less e se = true
  | Logged add t => length t = 32 ∧ (t ∈ own_follows s ↔ add = true)
  | Cached add t => (t ∈ own_follows s ↔ add = true) ∧ IsFollowed (IdentityFromPubkey t) s = add
  | Refused _ t _ => undisturbed t s0 s
  end.

Lemma undisturbed_refl t s : undisturbed t s s.
Proof. by split. Qed.

Lemma undisturbed_trans t s1 s2 s3 : undisturbed t s1 s2 → undisturbed t s2 s3 → undisturbed t s1 s3.
Proof.
  intros [Hl Hf Ha] [Hl' Hf' Ha']. split; [by rewrite Hl', Hl|by rewrite Hf', Hf|].
  intros e He Hab. apply Ha; [|done]. by apply Ha'.
Qed.

Lemma same_follows_undisturbed t s s' : same_follows s s' → undisturbed t s s'.
Proof.
  intros [Hown Hf]. assert (own_profile s' = own_profile s) as Hp by (unfold own_profile; by rewrite Hown).
  split; [unfold own_follows; by rewrite Hp|by apply Hf|by rewrite Hp].
Qed.

Lemma stands_on s0 s s' c : stands s0 s c → undisturbed (target_of c) s s' → stands s0 s' c.
Proof.
  intros Hc Hu. destruct c as [add t now|add t se|add t|add t|add t e]; cbn in *.
  - destruct Hc as (? & ? & ?). split_and!; [done|by eapply undisturbed_trans|done].
  - destruct Hc as (? & ? & ? & ?). split_and!; [done|by eapply undisturbed_trans|done..].
  - destruct Hc as (? & Hl). split; [done|]. by rewrite (ud_log _ _ _ Hu).
  - destruct Hc as (Hl & Hf). by rewrite (ud_log _ _ _ Hu), (ud_flag _ _ _ Hu).
  - by eapply undisturbed_trans.
Qed.

Lemma time_less_older e se :
  (e_Timestamp (se_Event e) < e_Timestamp (se_Event se))%Z → time_less e se = true.
Proof.
  intros Hlt. unfold time_less, lex2_lt, time_key. cbn. rewrite decide_False by lia. by apply Z.ltb_lt.
Qed.

(** A step is one call's, or one that changes no follow. *)
Lemma edges_step_one s0 (y y' : edges) :
  edges_step kp y y' → own_ok (eg_store y) → (∀ i c, eg_calls y !! i = Some c → stands s0 (eg_store y) c) →
  (∃ s', y' = mkEdges s' (eg_calls y) ∧ same_follows (eg_store y) s') ∨
  ∃ i c c' s', eg_calls y !! i = Some c ∧ y' = calls_on y i s' c' ∧ target_of c' = target_of c ∧
    stands s0 s' c' ∧ own_ok s' ∧ (∀ t, t ≠ target_of c → undisturbed t (eg_store y) s') ∧
    ∀ id, id ≠ IdentityFromPubkey (target_of c) → IsFollowed id s' = IsFollowed id (eg_store y).
Proof.
  intros Hstep Hok Hall.
  destruct Hstep as [i add t now se Hi Hs Hse|i add t now e Hi Hs|i add t se res s' Hi Hnew Hf|i add t s' Hi Hc|id Hid|id Hid].
  - right. do 4 eexists. split_and!; [exact Hi|done|done| |done|by intros; apply undisturbed_refl|done].
    destruct (Hall _ _ Hi) as (Ht & Hu & Hold). destruct (sign_next_edge _ _ _ _ _ Hs Hse) as [Hev <-].
    split_and!; [done..|]. intros e He Ha. by apply time_less_older, Hold.
  - right. do 4 eexists. split_and!; [exact Hi|done|done| |done|by intros; apply undisturbed_refl|done].
    by destruct (Hall _ _ Hi) as (_ & Hu & _).
  - right. do 4 eexists. destruct (Hall _ _ Hi) as (Ht & Hu & Hev & Hold).
    destruct (append_edge add t se (eg_store y) res s') as (Hok' & Hflag & Hothers & Hown); [done..|].
    split_and!; [exact Hi|done|done| |done|exact Hothers|intros id _; unfold IsFollowed; by rewrite Hflag].
    split; [done|]. apply Hown. intros e He Ha. apply Hold; [|done]. by apply (ud_about _ _ _ Hu).
  - right. destruct (Hall _ _ Hi) as (Ht & Hl). destruct (cache_edge_run add t (eg_store y) Ht) as (s1 & Hrun & Hown & Hf & Hoth).
    assert (s1 = s') as -> by congruence.
    assert (own_profile s' = own_profile (eg_store y)) as Hp by (unfold own_profile; by rewrite Hown).
    do 4 eexists. split_and!; [exact Hi|done|done| |by unfold own_ok; rewrite Hown| |].
    + split; [|done]. unfold own_follows. by rewrite Hp.
    + intros t' Hne. split; [unfold own_follows; by rewrite Hp| |by rewrite Hp].
      unfold IsFollowed. rewrite Hoth; [done|]. by intros ?%(inj _).
    + intros id Hne. unfold IsFollowed. by rewrite Hoth.
  - left. eexists. split; [done|]. by apply PinIdentity_follows.
  - left. eexists. split; [done|]. by apply UnpinIdentity_follows.
Qed.

Record edges_inv (s0 : store) (ts : list bytes) (y : edges) : Prop := {
  ei_ok : own_ok (eg_store y);
  ei_targets : target_of <$> eg_calls y = ts;
  ei_calls i c : eg_calls y !! i = Some c → stands s0 (eg_store y) c;
  ei_log t : t ∉ ts → t ∈ own_follows (eg_store y) ↔ t ∈ own_follows s0;
  ei_flags id : (∀ t, t ∈ ts → id ≠ IdentityFromPubkey t) → IsFollowed id (eg_store y) = IsFollowed id s0;
}.

Lemma edges_step_inv s0 ts (y y' : edges) :
  NoDup ts → edges_inv s0 ts y → edges_step kp y y' → edges_inv s0 ts y'.
Proof.
  intros Hnd [Hok Hts Hcs Hlog Hfl] Hstep.
  destruct (edges_step_one s0 y y' Hstep Hok Hcs)
    as [(s' & -> & Hsame)|(i & c & c' & s' & Hi & -> & Htc & Hst & Hok' & Hoth & Hids)].
  - split; cbn [eg_store eg_calls]; [|done| | |].
    + unfold own_ok. destruct Hsame as [-> _]. exact Hok.
    + intros i c Hi. eapply stands_on; [by eapply Hcs|by apply same_follows_undisturbed].
    + intros t Ht. rewrite (ud_log _ _ _ (same_follows_undisturbed t _ _ Hsame)). by apply Hlog.
    + intros id Hid. destruct Hsame as [_ ->]. by apply Hfl.
  - assert (target_of c ∈ ts) as Hin.
    { subst ts. apply list_elem_of_fmap. exists c. split; [done|by eapply list_elem_of_lookup_2]. }
    split; cbn [eg_store eg_calls calls_on]; [done| | | |].
    + rewrite list_fmap_insert, Htc. subst ts. apply list_insert_id. by rewrite list_lookup_fmap, Hi.
    + intros j d Hj. destruct (decide (i = j)) as [->|Hne].
      { rewrite list_lookup_insert_eq in Hj by (by eapply lookup_lt_Some). by simplify_eq. }
      rewrite list_lookup_insert_ne in Hj by done. eapply stands_on; [by eapply Hcs|]. apply Hoth.
      intros Heq. apply Hne. subst ts. eapply (NoDup_lookup _ i j); [exact Hnd|rewrite list_lookup_fmap, Hi; done|].
      rewrite list_lookup_fmap, Hj. cbn. by rewrite Heq.
    + intros t Ht. rewrite (ud_log _ _ _ (Hoth t ltac:(by intros ->))). by apply Hlog.
    + intros id Hid. rewrite Hids by (by apply Hid). by apply Hfl.
Qed.

Lemma edges_reachable s0 cs (y : edges) :
  own_ok s0 → NoDup (target_of <$> cs) → Forall (wants s0) cs →
  rtc (edges_step kp) (mkEdges s0 cs) y → edges_inv s0 (target_of <$> cs) y.
Proof.
  intros Hok Hnd Hcs Hrun. assert (edges_inv s0 (target_of <$> cs) (mkEdges s0 cs)) as Hinv.
  { split; try done. intros i c Hi. cbn in Hi. rewrite Forall_lookup in Hcs. specialize (Hcs i c Hi).
    destruct c; try done. destruct Hcs as [? ?]. split_and!; [done|apply undisturbed_refl|done]. }
  revert Hinv. induction Hrun as [|y y1 y2 Hstep _ IH]; [done|]. intros Hinv. by eapply IH, edges_step_inv.
Qed.

(** Once every call has ended the cache is in step again. *)
Lemma edges_ended_cache s0 cs (y : edges) :
  edges_inv s0 (target_of <$> cs) y → cache_ok s0 → (∀ c, c ∈ eg_calls y → ended c) → cache_ok (eg_store y).
Proof.
  intros Hy Hc Hend id.
  destruct (decide (Exists (λ c, id = IdentityFromPubkey (target_of c)) (eg_calls y))) as [He|Hn].
  - apply Exists_exists in He as (c & Hin & ->). pose proof (Hend c Hin) as Hec.
    apply list_elem_of_lookup in Hin as [i Hi]. pose proof (ei_calls _ _ _ Hy i c Hi) as Hst.
    assert (∀ P : bytes → Prop, (∃ t, P t ∧ IdentityFromPubkey (target_of c) = IdentityFromPubkey t) ↔ P (target_of c)) as ->.
    { intros P. split; [by intros (t & Ht & ->%(inj _))|by eexists]. }
    destruct c as [| | |add t|add t e]; try done; cbn in Hst |- *.
    + destruct Hst as [-> ->]. done.
    + rewrite (ud_flag _ _ _ Hst), (ud_log _ _ _ Hst), (Hc _).
      split; [by intros (t' & Ht & ->%(inj _))|by eexists].
  - assert (∀ t, t ∈ target_of <$> cs → id ≠ IdentityFromPubkey t) as Hid.
    { intros t Ht ->. apply Hn, Exists_exists. rewrite <-(ei_targets _ _ _ Hy) in Ht.
      apply list_elem_of_fmap in Ht as (c & -> & Hc'). by exists c. }
    rewrite (ei_flags _ _ _ Hy id Hid), (Hc id). split; intros (t & Ht & ->); exists t; (split; [|done]);
      apply (ei_log _ _ _ Hy); try done; intros Hin; by apply (Hid t).
Qed.

(** ** Two calls for one target *)

Lemma cache_step i add t (y : edges) :
  eg_calls y !! i = Some (Logged add t) → length t = 32 →
  ∃ s', edges_step kp y (calls_on y i s' (Cached add t)) ∧ own_follows s' = own_follows (eg_store y) ∧
    IsFollowed (IdentityFromPubkey t) s' = add.
Proof.
  intros Hi Ht. destruct (cache_edge_run add t (eg_store y) Ht) as (s' & Hrun & Hown & Hf & _).
  exists s'. split_and!; [by eapply edges_cache|unfold own_follows, own_profile; by rewrite Hown|done].
Qed.

Lemma last_writer i j add add' t (y : edges) :
  i ≠ j → eg_calls y !! i = Some (Logged add t) → eg_calls y !! j = Some (Logged add' t) → length t = 32 →
  ∃ y', rtc (edges_step kp) y y' ∧ eg_calls y' = <[i := Cached add t]> (<[j := Cached add' t]> (eg_calls y)) ∧
    own_follows (eg_store y') = own_follows (eg_store y) ∧ IsFollowed (IdentityFromPubkey t) (eg_store y') = add.
Proof.
  intros Hne Hi Hj Ht. destruct (cache_step j add' t y Hj Ht) as (s1 & Hs1 & Hown1 & _).
  destruct (cache_step i add t (calls_on y j s1 (Cached add' t))) as (s2 & Hs2 & Hown2 & Hf2); [|done|].
  { cbn. by rewrite list_lookup_insert_ne. }
  exists (calls_on (calls_on y j s1 (Cached add' t)) i s2 (Cached add t)).
  split_and!; [by eapply rtc_l, rtc_once|done|by rewrite <-Hown1|done].
Qed.
End facts.
