(* ===== verification/DaemonNet.v ===== *)
(** * The daemon: lifecycle, sync rounds and crawls

    Models what [internal/daemon/daemon.go] does on the network by itself: the
    transport key, sync rounds over the follow graph, the resolution of
    follows without a token, bootstrap seeds and the crawler's fetcher. A
    goroutine's dial runs to its end before the next one starts; a panic in
    one ends the program. *)

From S2P Require Import Prelude Base32 External Identity Event Log Bolt Store StoreFollow StoreQuery Wire Session SessionCursor Crawler Bootstrap Daemon DaemonOps.
#[local] Open Scope go_scope.

(** ** More of the state *)

Definition set_tcAddr v d := mkDstate (zens d) (knownTokens d) v (unlocked d) (lastSignAt d)
  (idleLock d) (feedGen d) (feedCache d) (nameCache d) (subs d) (syncNow d) (d_crawler d)
  (bootstrapPath d) (bootstrapDone d) (spawned d).
Definition set_bootstrapDone v d := mkDstate (zens d) (knownTokens d) (tcAddr d) (unlocked d)
  (lastSignAt d) (idleLock d) (feedGen d) (feedCache d) (nameCache d) (subs d) (syncNow d)
  (d_crawler d) (bootstrapPath d) v (spawned d).

Section transport.
Context `{Bolt, Blake3, Ed25519, Aead, order : GoRange}.
Context `{!CborType Event, !CborType SignedEvent, !CborType EncryptedKey, !CborType Message}.

(** ** The transport key

    [listen] is [NewListenerWithKey] of [internal/net]: from a stored key, or
    from a fresh one, the address of the listener and its [KeyBytes]. *)
Context (listen : option bytes → result (bytes * result bytes)).

Definition startTransport (ephemeral : bool) : stM daemon unit := λ w,
  let keyCfg := if ephemeral then None else TransportKey w.1 in
  match listen keyCfg with
  | Err e => (Err e, w)
  | Ok (addr, keyBytes) =>
      let d := set_tcAddr (Some addr) w.2 in
      match ephemeral, keyCfg, keyBytes with
      | false, None, Ok kb => (Ok tt, ((PutTransportKey kb w.1).2, d))
      | _, _, _ => (Ok tt, (w.1, d))
      end
  end.

(** The listener is closed before its key is deleted, and stays in the state
    until [startTransport] replaces it. *)
Definition rotateKey (ephemeral : bool) : stM daemon bytes := λ w,
  if ephemeral then (Err (E "cannot rotate an ephemeral key"), w)
  else
    match wrapM "delete old transport key" DeleteTransportKey w.1 with
    | (Err e, s) => (Err e, (s, w.2))
    | (Ok _, s) =>
        match wrapM "restart transport" (startTransport false) (s, w.2) with
        | (Err e, w) => (Err e, w)
        | (Ok _, w) => (Ok (default [] (tcAddr w.2)), w)
        end
    end.

(** [Start] after the control socket is open. *)
Definition Start (ephemeral : bool) : daemon → daemon := λ w,
  let w := match startTransport ephemeral w with
           | (Ok _, w) => on_mem emitStatus w
           | (Err _, w) => w
           end in
  let d := set_crawler (Some Crawler_New) (triggerSyncNow w.2) in
  let d := rehydrateZens w.1 d in
  (w.1, if decide (bootstrapPath d = []) then d else set_spawned (S (spawned d)) d).

Definition close_done (sb : subscriber) : subscriber :=
  mkSubscriber (sub_id sb) (sub_events sb) true.

(** [Stop]: the subscribers, dropped, and the daemon left. *)
Definition Stop (d : dstate) : list subscriber * dstate :=
  (close_done <$> subs d, set_subs [] (set_tcAddr None (set_unlocked None d))).
End transport.

Section net.
Context `{Bolt, Blake3, Ed25519, Aead, order : GoRange}.
Context `{!CborType Event, !CborType SignedEvent, !CborType EncryptedKey, !CborType Message}.

(** ** Dialing

    [dial] is the transport, nil before [Start]: what the [k]-th dial of a
    token gives. [nonce] is the random nonce of the session that follows. *)
Context (transport : option (nat → bytes → result conn)) (nonce : nat → result bytes).

(** The daemon, and how often it has dialed. *)
Definition node : Type := daemon * nat.

Definition nil_transport {A} : result A := Err (Panic "nil pointer dereference").

(** The handshake of a session that only has a key. *)
Definition keyed (kp : KeyPair) : callbacks unit := mkCallbacks (Some kp) None None None None None None.
Definition handshake_on (kp : KeyPair) (c : conn) (s : store) (k : nat) : result bytes * world unit :=
  Handshake (keyed kp) (nonce k) (mkWorld s c tt []).

(** ** Sync rounds *)

(** An error of the session is logged; the identity it authenticated is bound
    all the same. *)
Definition connectAndSync (token : bytes) : stM node unit := λ '(w, k),
  match transport with
  | None => (Ok tt, (on_mem (setZenStatus w.1 token (# "error")) w, k))
  | Some dial =>
      match dial k token with
      | Err _ => (Ok tt, (on_mem (setZenStatus w.1 token (# "error")) w, S k))
      | Ok c =>
          let w := on_mem (setZenStatus w.1 token (# "connected")) w in
          let '((_, r), zenID, w) := runSession c true (nonce k) w in
          match r with
          | Err (Panic p) => (Err (Panic p), (w, S k))
          | _ =>
              let s := if decide (zenID = []) then w.1 else (PutRouting zenID token w.1).2 in
              (Ok tt, ((s, w.2), S k))
          end
      end
  end.

(** The loop of [resolvePendingFollows] over the known tokens. *)
Fixpoint resolve_tokens (kp : KeyPair) (pending : list bytes) (refs : list ZenRef) : stM node unit :=
  λ '(w, k),
  match refs with
  | [] => (Ok tt, (w, k))
  | ref :: refs =>
      match transport with
      | None => (nil_transport, (w, k))
      | Some dial =>
          match dial k (zr_Token ref) with
          | Err _ => resolve_tokens kp pending refs (w, S k)
          | Ok c =>
              match (handshake_on kp c w.1 k).1 with
              | Err _ => resolve_tokens kp pending refs (w, S k)
              | Ok zenID =>
                  if decide (zenID ∈ pending) then
                    match PutRouting zenID (zr_Token ref) w.1 with
                    | (Err _, _) => resolve_tokens kp pending refs (w, S k)
                    | (Ok _, s) =>
                        match connectAndSync (zr_Token ref) ((s, w.2), S k) with
                        | (Err e, wk) => (Err e, wk)
                        | (Ok _, wk) => resolve_tokens kp pending refs wk
                        end
                    end
                  else resolve_tokens kp pending refs (w, S k)
              end
          end
      end
  end.

Definition resolvePendingFollows (pending : list bytes) : stM node unit := λ '(w, k),
  match unlocked w.2 with
  | None => (Ok tt, (w, k))
  | Some kp => resolve_tokens kp pending (knownRefsList w.1 w.2) (w, k)
  end.

Definition bound_ids (s : store) (ids : list bytes) : list bytes :=
  filter (λ id, Routing id s ≠ None) ids.
Definition pending_ids (s : store) (ids : list bytes) : list bytes :=
  filter (λ id, Routing id s = None) ids.

(** The token is read when the identity's turn comes. *)
Definition sync_one (id : bytes) : stM node unit := λ '(w, k),
  connectAndSync (default [] (Routing id w.1)) (w, k).

Definition syncAllZens : stM node unit := λ '(w, k),
  match FollowGraph w.1 with
  | Err _ => (Ok tt, (w, k))
  | Ok ids =>
      match forM_ (bound_ids w.1 ids) sync_one (w, k) with
      | (Err e, wk) => (Err e, wk)
      | (Ok _, wk) =>
          match pending_ids w.1 ids with
          | [] => (Ok tt, wk)
          | pending => resolvePendingFollows pending wk
          end
      end
  end.

(** ** The crawler's fetcher *)

(** [crawlFetch]: the first zen that has events of the identity. *)
Fixpoint fetch_profile (kp : KeyPair) (id : bytes) (refs : list ZenRef) : stM node (list SignedEvent) :=
  λ '(w, k),
  match refs with
  | [] => (Ok [], (w, k))
  | ref :: refs =>
      match transport with
      | None => (nil_transport, (w, k))
      | Some dial =>
          match dial k (zr_Token ref) with
          | Err _ => fetch_profile kp id refs (w, S k)
          | Ok c =>
              match handshake_on kp c w.1 k with
              | (Err _, _) => fetch_profile kp id refs (w, S k)
              | (Ok _, wd) =>
                  match (SyncLogRaw ProfileLog 0 id wd).1 with
                  | (se :: events, Ok _) => (Ok (se :: events), (w, S k))
                  | _ => fetch_profile kp id refs (w, S k)
                  end
              end
          end
      end
  end.

Definition crawlFetch (id : bytes) : stM node (list SignedEvent) := λ '(w, k),
  match unlocked w.2 with
  | None => (Err (E "key is locked; cannot authenticate crawl session"), (w, k))
  | Some kp => fetch_profile kp id (knownRefsList w.1 w.2) (w, k)
  end.

Definition fetchFollowersOverConn (kp : KeyPair) (c : conn) (s : store) (k : nat)
    : result (list SignedEvent) :=
  match handshake_on kp c s k with
  | (Err e, _) => Err e
  | (Ok _, wd) => match (FetchFollowers wd).1 with
                  | (_, Err e) => Err e
                  | (events, Ok _) => Ok events
                  end
  end.

(** The loop of [crawlFetchFollowers]: probe until a zen proves to be [id]. *)
Fixpoint probe_followers (kp : KeyPair) (id : bytes) (refs : list ZenRef) : stM node (list SignedEvent) :=
  λ '(w, k),
  match refs with
  | [] => (Ok [], (w, k))
  | ref :: refs =>
      match transport with
      | None => (nil_transport, (w, k))
      | Some dial =>
          match dial k (zr_Token ref) with
          | Err _ => probe_followers kp id refs (w, S k)
          | Ok c =>
              match handshake_on kp c w.1 k with
              | (Err _, _) => probe_followers kp id refs (w, S k)
              | (Ok zenID, wd) =>
                  if decide (zenID = id) then
                    match (FetchFollowers wd).1 with
                    | (_, Err _) => probe_followers kp id refs (w, S k)
                    | (events, Ok _) => (Ok events, (w, S k))
                    end
                  else probe_followers kp id refs (w, S k)
              end
          end
      end
  end.

(** A bound token is used without looking at who answers. *)
Definition crawlFetchFollowers (id : bytes) : stM node (list SignedEvent) := λ '(w, k),
  match unlocked w.2 with
  | None => (Err (E "key is locked; cannot authenticate crawl session"), (w, k))
  | Some kp =>
      let refs := knownRefsList w.1 w.2 in
      match Routing id w.1 with
      | None => probe_followers kp id refs (w, k)
      | Some tok =>
          match transport with
          | None => (nil_transport, (w, k))
          | Some dial =>
              match dial k tok with
              | Err _ => probe_followers kp id refs (w, S k)
              | Ok c =>
                  match fetchFollowersOverConn kp c w.1 k with
                  | Ok events => (Ok events, (w, S k))
                  | Err _ => probe_followers kp id refs (w, S k)
                  end
              end
          end
      end
  end.

(** [crawlFetcher]; [ctx] is when the context is cancelled, counted in dials.
    What the crawl itself stores is in no bucket these reads look at. *)
Definition crawlFetcher (ctx : nat → option error) : Fetcher node := {|
  FetchProfileLog id n := crawlFetch id n;
  fetch_followers id n := crawlFetchFollowers id n;
  ctx_Err n := ctx n.2;
|}.

Definition runCrawl (ctx : nat → option error) (now : Z) : node → node := λ '(w, k),
  match d_crawler w.2 with
  | None => (w, k)
  | Some c =>
      let fetcher := crawlFetcher ctx in
      let cw := (Run now (mkCrawl c w.1 (w, k))).2 in
      ((cr_store cw, set_crawler (Some (cr_state cw)) w.2), (cr_net cw).2)
  end.

(** ** Bootstrap *)

(** The loop over the seed zens; a failed follow is logged. *)
Fixpoint follow_seeds (kp : KeyPair) (now : Z) (seeds : list Bootstrap.SeedZen) : stM node unit :=
  λ '(w, k),
  match seeds with
  | [] => (Ok tt, (w, k))
  | sp :: seeds =>
      let tok := Bootstrap.zen_Token sp in
      if decide (tok = [] ∨ tok ∈ knownTokens w.2) then follow_seeds kp now seeds (w, k)
      else
        let w := on_mem (upsertZen w.1 tok (Bootstrap.zen_Kind sp) (# "connecting")) w in
        let at_k := (λ dial, dial k) <$> transport in
        match handleFollow at_k tok kp (nonce k) now w with
        | (Err (Panic p), w) => (Err (Panic p), (w, S k))
        | (_, w) => follow_seeds kp now seeds (w, S k)
        end
  end.

Definition crawl_seeds (bf : Bootstrap.File) : list bytes :=
  omap (λ s, match ParseIdentity s with Ok id => Some id | Err _ => None end)
    (Bootstrap.CrawlSeeds bf).

(** The file is checked when there is a key to check it with. *)
Definition check_file `{!Bootstrap.Yaml} (verifyKey : option bytes) (bf : Bootstrap.File) : result unit :=
  match verifyKey with Some pub => Bootstrap.Verify pub bf | None => Ok tt end.

Definition seed_crawler (bf : Bootstrap.File) (d : dstate) : dstate :=
  match d_crawler d with
  | Some c => set_crawler (Some (Seed (crawl_seeds bf) c)) d
  | None => d
  end.

(** [file] is what [bootstrap.Load] returns. *)
Definition dialBootstrapSeeds `{!Bootstrap.Yaml} (file : result Bootstrap.File)
    (verifyKey : option bytes) (now : Z) : stM node unit := λ '(w, k),
  match file with
  | Err _ => (Ok tt, (w, k))
  | Ok bf =>
      match check_file verifyKey bf with
      | Err _ => (Ok tt, (w, k))
      | Ok _ =>
          let w := on_mem (seed_crawler bf) w in
          match unlocked w.2 with
          | None => (Ok tt, (w, k))
          | Some kp =>
              match follow_seeds kp now (Bootstrap.SeedZens bf) (w, k) with
              | (Err e, wk) => (Err e, wk)
              | (Ok _, (w, k)) => (Ok tt, (on_mem (set_bootstrapDone true) w, k))
              end
          end
      end
  end.
End net.
