(* ===== verification/Shutdown.v ===== *)
(** * Shutting down under load

    [Stop], [broadcast] and the streams of [Subscribe] run at once and share
    channels. Here each operation on the shared state is a step: copying or
    taking [d.subs], a select, a close. The subscribers lie in a heap, since the
    same one is in [d.subs], in the copies of broadcasts and in the list that
    [Stop] took. A Go channel closed twice panics. *)

From S2P Require Import Prelude Base32 External Identity Event Log Bolt Store StoreFollow StoreQuery Wire Crawler Daemon.
#[local] Open Scope go_scope.

(** ** The shared state

    [sh_open] is what the gRPC server counts, the streams whose handler has not
    returned; [sh_cancelled] says that it was stopped hard, which cancels the
    context of every stream; [sh_server] that [d.grpcServer] is not nil. *)
Record shared := mkShared {
  sh_heap : list subscriber;
  sh_subs : list nat;
  sh_server : bool;
  sh_open : nat;
  sh_cancelled : bool;
  sh_done : bool;
  sh_crashed : bool;
}.

Definition set_heap v h := mkShared v (sh_subs h) (sh_server h) (sh_open h) (sh_cancelled h) (sh_done h) (sh_crashed h).
Definition set_sh_subs v h := mkShared (sh_heap h) v (sh_server h) (sh_open h) (sh_cancelled h) (sh_done h) (sh_crashed h).
Definition set_server v h := mkShared (sh_heap h) (sh_subs h) v (sh_open h) (sh_cancelled h) (sh_done h) (sh_crashed h).
Definition set_open v h := mkShared (sh_heap h) (sh_subs h) (sh_server h) v (sh_cancelled h) (sh_done h) (sh_crashed h).
Definition set_cancelled v h := mkShared (sh_heap h) (sh_subs h) (sh_server h) (sh_open h) v (sh_done h) (sh_crashed h).
Definition set_sh_done v h := mkShared (sh_heap h) (sh_subs h) (sh_server h) (sh_open h) (sh_cancelled h) v (sh_crashed h).
Definition crash h := mkShared (sh_heap h) (sh_subs h) (sh_server h) (sh_open h) (sh_cancelled h) (sh_done h) true.

(** ** The goroutines *)

Inductive goroutine :=
  (* broadcast: called; at the head of its loop; the queue was full; the
     channel was open *)
  | Cast (ev : event)
  | Casting (ev : event) (rest : list nat)
  | CastFull (ev : event) (s : nat) (rest : list nat)
  | CastClose (ev : event) (s : nat) (rest : list nat)
  (* Stop: called; at the head of its loop; the channel was open; waiting for
     the server; cleaning up; d.done was open *)
  | StopCalled
  | StopClosing (rest : list nat) (srv : bool)
  | StopClose (s : nat) (rest : list nat) (srv : bool)
  | StopWaiting
  | StopCleanup
  | StopCloseDone
  (* Subscribe: accepted; sending the snapshot; in its select; sending an
     event; in its deferred removeSubscriber *)
  | SubCalled
  | SubSnapshot (s : nat)
  | SubPumping (s : nat)
  | SubSending (s : nat)
  | SubLeaving (s : nat)
  | Finished.

Definition queue_of (s : nat) (h : shared) : list event := default [] (sub_events <$> sh_heap h !! s).
Definition closed (s : nat) (h : shared) : bool := default false (sub_done <$> sh_heap h !! s).
Definition alter_sub (f : subscriber → subscriber) (s : nat) (h : shared) : shared :=
  set_heap (alter f s (sh_heap h)) h.

(** What [removeSubscriber] does to [d.subs]. *)
Fixpoint remove_id (s : nat) (l : list nat) : list nat :=
  match l with
  | [] => []
  | x :: l => if decide (x = s) then l else x :: remove_id s l
  end.

Definition pop (sb : subscriber) : subscriber := mkSubscriber (sub_id sb) (tail (sub_events sb)) (sub_done sb).
Definition close_sub (sb : subscriber) : subscriber := mkSubscriber (sub_id sb) (sub_events sb) true.

(** [close(s.done)]. *)
Definition close_chan (s : nat) (g : goroutine) (h : shared) : shared * goroutine :=
  if closed s h then (crash h, Finished) else (alter_sub close_sub s h, g).

Definition is_stop (g : goroutine) : bool :=
  match g with
  | StopCalled | StopClosing _ _ | StopClose _ _ _ | StopWaiting | StopCleanup | StopCloseDone => true
  | _ => false
  end.
Definition is_cast (g : goroutine) : bool :=
  match g with Cast _ | Casting _ _ | CastFull _ _ _ | CastClose _ _ _ => true | _ => false end.

(** Each function gives what a goroutine can do next of its own: the state and
    the goroutine after. The cases of a select that are ready are alternatives.

    [broadcast]: it copies [d.subs], and offers the event to each. *)
Definition cast_step (g : goroutine) (h : shared) : list (shared * goroutine) :=
  match g with
  | Cast ev => [(h, Casting ev (sh_subs h))]
  | Casting ev [] => [(h, Finished)]
  | Casting ev (s :: rest) =>
      if length (queue_of s h) <? subscribeQueue then [(alter_sub (offer ev) s h, Casting ev rest)]
      else [(h, CastFull ev s rest)]
  | CastFull ev s rest => [(h, if closed s h then Casting ev rest else CastClose ev s rest)]
  | CastClose ev s rest => [close_chan s (Casting ev rest) h]
  | _ => []
  end.

(** [Stop]. [GracefulStop] returns when no stream is open, and the deadline may
    come before. *)
Definition stop_step (g : goroutine) (h : shared) : list (shared * goroutine) :=
  match g with
  | StopCalled => [(set_server false (set_sh_subs [] h), StopClosing (sh_subs h) (sh_server h))]
  | StopClosing [] srv => [(h, if srv then StopWaiting else StopCleanup)]
  | StopClosing (s :: rest) srv => [(h, if closed s h then StopClosing rest srv else StopClose s rest srv)]
  | StopClose s rest srv => [close_chan s (StopClosing rest srv) h]
  | StopWaiting =>
      (if sh_open h =? 0 then [(h, StopCleanup)] else []) ++ [(set_cancelled true h, StopCleanup)]
  | StopCleanup => [(h, if sh_done h then Finished else StopCloseDone)]
  | StopCloseDone => [if sh_done h then (crash h, Finished) else (set_sh_done true h, Finished)]
  | _ => []
  end.

(** [Subscribe], with its deferred [removeSubscriber]. A [Send] that waits for
    the client fails when the stream's context is cancelled. *)
Definition subscribe_step (g : goroutine) (h : shared) : list (shared * goroutine) :=
  match g with
  | SubCalled =>
      let s := length (sh_heap h) in
      [(set_sh_subs (sh_subs h ++ [s]) (set_heap (sh_heap h ++ [newSubscriber s]) h), SubSnapshot s)]
  | SubSnapshot s | SubSending s => if sh_cancelled h then [(h, SubLeaving s)] else []
  | SubPumping s =>
      (if queue_of s h is _ :: _ then [(alter_sub pop s h, SubSending s)] else []) ++
      (if closed s h || sh_cancelled h then [(h, SubLeaving s)] else [])
  | SubLeaving s =>
      [(set_open (pred (sh_open h)) (set_sh_subs (remove_id s (sh_subs h)) h), Finished)]
  | _ => []
  end.

Definition advance (g : goroutine) (h : shared) : list (shared * goroutine) :=
  if is_cast g then cast_step g h else if is_stop g then stop_step g h else subscribe_step g h.

(** What the client at the other end of a stream does: it takes what is sent,
    or it goes away, which fails a [Send] and cancels the stream's context. *)
Definition client (g : goroutine) (h : shared) : list (shared * goroutine) :=
  match g with
  | SubSnapshot s | SubSending s => [(h, SubPumping s); (h, SubLeaving s)]
  | SubPumping s => [(h, SubLeaving s)]
  | _ => []
  end.

(** One goroutine moves at a time; after a panic none does. *)
Definition system : Type := shared * list goroutine.

Definition own_step (x y : system) : Prop :=
  sh_crashed x.1 = false ∧
  ∃ i g r, x.2 !! i = Some g ∧ r ∈ advance g x.1 ∧ y = (r.1, <[i := r.2]> x.2).

Definition client_step (x y : system) : Prop :=
  sh_crashed x.1 = false ∧
  ∃ i g r, x.2 !! i = Some g ∧ r ∈ client g x.1 ∧ y = (r.1, <[i := r.2]> x.2).

Definition sys_step (x y : system) : Prop := own_step x y ∨ client_step x y.
Definition quiet (x : system) : Prop := sh_crashed x.1 = false ∧ ∀ y, ¬ own_step x y.

(** ** Classifying the goroutines *)

Definition stream_of (g : goroutine) : option nat :=
  match g with SubSnapshot s | SubPumping s | SubSending s | SubLeaving s => Some s | _ => None end.
Definition is_stream (g : goroutine) : bool :=
  match g with SubCalled => true | _ => bool_decide (stream_of g ≠ None) end.
Definition is_called (g : goroutine) : bool := if g is SubCalled then true else false.
Definition is_closer (g : goroutine) : bool := is_cast g || is_stop g.
(** The [Stop] that took the server, on its way to it. *)
Definition has_server (g : goroutine) : bool :=
  match g with StopClosing _ srv | StopClose _ _ srv => srv | StopWaiting => true | _ => false end.

Definition count (p : goroutine → bool) : list goroutine → nat := sum_list_with (λ g, Nat.b2n (p g)).

(** Where every run begins: a daemon that serves, calls that have been made. *)
Definition serving (ts : list goroutine) : shared := mkShared [] [] true (count is_called ts) false false false.
Definition called (g : goroutine) : bool :=
  match g with Cast _ | StopCalled | SubCalled => true | _ => false end.
