(* ===== verification/ShutdownFacts.v ===== *)
(** * Facts of shutting down under load: runs end, and what holds in them *)

From S2P Require Import Prelude Base32 External Identity Event Log Bolt Store StoreFollow StoreQuery Wire Crawler Daemon Shutdown.
#[local] Open Scope go_scope.

(** ** Lists *)

Lemma sum_insert {A} (f : A → nat) l i x y :
  l !! i = Some x → sum_list_with f (<[i := y]> l) + f x = sum_list_with f l + f y.
Proof. revert i. induction l as [|z l IH]; intros [|i] Hi; simplify_eq/=; [lia|]. specialize (IH i Hi). lia. Qed.

Lemma sum_alter {A} (f : A → nat) g l i x :
  l !! i = Some x → sum_list_with f (alter g i l) + f x = sum_list_with f l + f (g x).
Proof.
  intros Hi. pose proof (sum_insert f l i x (g x) Hi) as <-. do 2 f_equal. clear f. revert i Hi.
  induction l as [|y l IH]; intros [|i] Hi; simplify_eq/=; [done|]. unfold alter in *. cbn. f_equal. by apply IH.
Qed.

Lemma alter_none {A} g (l : list A) i : l !! i = None → alter g i l = l.
Proof. intros Hi. rewrite (list_alter_ext g id l l i); [by apply list_alter_id|congruence|done]. Qed.

Lemma count_insert p ts i g g' :
  ts !! i = Some g → count p (<[i := g']> ts) + Nat.b2n (p g) = count p ts + Nat.b2n (p g').
Proof. unfold count. exact (sum_insert (λ g, Nat.b2n (p g)) ts i g g'). Qed.

Lemma count_pos p ts : 0 < count p ts ↔ ∃ i g, ts !! i = Some g ∧ p g = true.
Proof.
  unfold count. induction ts as [|t ts IH]; cbn; [split; [lia|intros (i&g&Hi&?); by rewrite lookup_nil in Hi]|].
  destruct (p t) eqn:Ht; cbn.
  - split; [intros _; by exists 0, t|lia].
  - rewrite IH. split.
    + intros (i & g & ? & ?). by exists (S i), g.
    + intros ([|i] & g & Hi & Hp); cbn in Hi; [congruence|by exists i, g].
Qed.

Lemma count_elem p ts g : g ∈ ts → p g = true → 0 < count p ts.
Proof. intros [i Hi]%list_elem_of_lookup Hp. apply count_pos. by exists i, g. Qed.

Lemma remove_id_sublist s l : sublist (remove_id s l) l.
Proof. induction l as [|x l IH]; cbn; [done|]. case_decide; by constructor. Qed.

Lemma remove_id_elem s l x : NoDup l → x ∈ remove_id s l → x ∈ l ∧ x ≠ s.
Proof.
  induction l as [|y l IH]; cbn; [intros _ []%elem_of_nil|]. intros [Hy Hl]%NoDup_cons.
  case_decide; subst.
  - intros Hx. split; [by right|]. by intros ->.
  - intros [->|Hx]%elem_of_cons; [split; [by left|done]|]. destruct (IH Hl Hx). split; [by right|done].
Qed.

(** ** Every run ends *)

Definition queued (v : list subscriber) : nat := sum_list_with (λ sb, length (sub_events sb)) v.
#[global] Arguments queued : simpl never.
(** No copy of [d.subs] made from here on is longer. *)
Definition room (x : system) : nat := length (sh_subs x.1) + count is_called x.2.

Definition weight (P : nat) (g : goroutine) : nat :=
  match g with
  | Cast _ => 3 * P + 2 | Casting _ rest => 3 * length rest + 1
  | CastFull _ _ rest => 3 * length rest + 3 | CastClose _ _ rest => 3 * length rest + 2
  | StopCalled => 2 * P + 6 | StopClosing rest _ => 2 * length rest + 5
  | StopClose _ rest _ => 2 * length rest + 6 | StopWaiting => 4 | StopCleanup => 3 | StopCloseDone => 2
  | SubCalled => 5 | SubSnapshot _ => 4 | SubSending _ => 3 | SubPumping _ => 2 | SubLeaving _ => 1
  | Finished => 0
  end.
(** How many steps are left at most. *)
Definition fuel (x : system) : nat := 2 * queued (sh_heap x.1) + sum_list_with (weight (room x)) x.2.

Lemma weight_mono P Q g : P ≤ Q → weight P g ≤ weight Q g.
Proof. destruct g; cbn; lia. Qed.

Lemma weights_mono P Q ts : P ≤ Q → sum_list_with (weight P) ts ≤ sum_list_with (weight Q) ts.
Proof. intros HP. induction ts as [|t ts IH]; cbn; [lia|]. pose proof (weight_mono P Q t HP). lia. Qed.

Lemma queued_alter f s v k :
  (∀ sb, length (sub_events (f sb)) ≤ length (sub_events sb) + k) →
  queued (alter f s v) ≤ queued v + k.
Proof.
  intros Hf. unfold queued. destruct (v !! s) as [sb|] eqn:Hs.
  - pose proof (sum_alter (λ sb, length (sub_events sb)) f _ _ _ Hs) as Hsum. cbn in Hsum.
    specialize (Hf sb). lia.
  - rewrite alter_none by done. lia.
Qed.

Lemma queued_offer ev s v : queued (alter (offer ev) s v) ≤ queued v + 1.
Proof. apply queued_alter. intros sb. unfold offer. destruct (_ <? _); cbn; rewrite ?length_app; cbn; lia. Qed.

Lemma queued_close s v : queued (alter close_sub s v) ≤ queued v.
Proof. rewrite <-(Nat.add_0_r (queued v)). apply queued_alter. cbn. lia. Qed.

Lemma queued_pop s h ev q : queue_of s h = ev :: q → S (queued (alter pop s (sh_heap h))) = queued (sh_heap h).
Proof.
  unfold queue_of, queued. destruct (sh_heap h !! s) as [sb|] eqn:Hs; [|done].
  cbn. intros Hq. pose proof (sum_alter (λ sb, length (sub_events sb)) pop _ _ _ Hs) as Hsum. cbn in Hsum.
  rewrite Hq in Hsum. cbn in Hsum. lia.
Qed.

Lemma queued_new v s : queued (v ++ [newSubscriber s]) = queued v.
Proof. unfold queued. rewrite sum_list_with_app. cbn. lia. Qed.

Lemma remove_id_length s l : length (remove_id s l) ≤ length l.
Proof. apply sublist_length, remove_id_sublist. Qed.

(** What a goroutine's step does to the bound, seen from the goroutine. *)
Definition descends P (h : shared) (g : goroutine) (r : shared * goroutine) : Prop :=
  length (sh_subs r.1) + Nat.b2n (is_called r.2) ≤ length (sh_subs h) + Nat.b2n (is_called g) ∧
  2 * queued (sh_heap r.1) + weight P r.2 < 2 * queued (sh_heap h) + weight P g.

Lemma advance_descends P h g r :
  length (sh_subs h) + Nat.b2n (is_called g) ≤ P → r ∈ advance g h → descends P h g r.
Proof.
  intros HP Hr. unfold descends.
  destruct g as [ev|ev [|s rest]|ev s rest|ev s rest| |[|s rest] srv|s rest srv| | | | |s|s|s|s|];
    cbn [advance cast_step stop_step subscribe_step is_cast is_stop] in Hr; unfold close_chan in Hr; repeat case_match; set_unfold; destruct_or?; simplify_eq;
    cbn in HP |- *; rewrite ?queued_new, ?length_app; cbn;
    repeat match goal with
    | |- context [queued (alter (offer ?ev) ?s ?v)] => pose proof (queued_offer ev s v); generalize dependent (queued (alter (offer ev) s v)); intros
    | |- context [queued (alter close_sub ?s ?v)] => pose proof (queued_close s v); generalize dependent (queued (alter close_sub s v)); intros
    | H : queue_of ?s _ = _ :: _ |- _ => apply queued_pop in H
    | |- context [remove_id ?s ?l] => pose proof (remove_id_length s l); generalize dependent (length (remove_id s l)); intros
    end; lia.
Qed.

Lemma client_descends P h g r : r ∈ client g h → descends P h g r.
Proof.
  intros Hr. unfold descends. destruct g; cbn [client] in Hr; set_unfold; destruct_or?; simplify_eq; cbn; lia.
Qed.

(** Every step spends some of the fuel. *)
Lemma step_fuel x y : sys_step x y → fuel y < fuel x.
Proof.
  assert (∀ i g r, x.2 !! i = Some g → (∀ P, room x ≤ P → descends P x.1 g r) →
            fuel (r.1, <[i := r.2]> x.2) < fuel x) as Hmain.
  { intros i g r Hi Hd. destruct (Hd (room x) (le_n _)) as [Hroom Hw]. unfold fuel, room in *. cbn [fst snd].
    pose proof (count_insert is_called _ _ _ r.2 Hi).
    set (P := length (sh_subs x.1) + count is_called x.2) in *.
    set (Q := length (sh_subs r.1) + count is_called (<[i:=r.2]> x.2)).
    pose proof (weights_mono Q P (<[i:=r.2]> x.2) ltac:(lia)).
    pose proof (sum_insert (weight P) x.2 i g r.2 Hi). lia. }
  intros [(_ & i & g & r & Hi & Hr & ->)|(_ & i & g & r & Hi & Hr & ->)]; apply (Hmain i g r Hi); intros P HP.
  - apply advance_descends; [|done]. unfold room in HP.
    pose proof (count_insert is_called _ _ _ Finished Hi) as Hc. cbn in Hc. lia.
  - by apply client_descends.
Qed.

Lemma steps_fuel n x y : nsteps sys_step n x y → n + fuel y ≤ fuel x.
Proof. induction 1 as [|n x y z Hstep _ IH]; [lia|]. apply step_fuel in Hstep. lia. Qed.

(** ** What a step is *)

Definition can (g : goroutine) (h : shared) (r : shared * goroutine) : Prop := r ∈ advance g h ∨ r ∈ client g h.

Lemma sys_step_inv x y :
  sys_step x y →
  sh_crashed x.1 = false ∧ ∃ i g r, x.2 !! i = Some g ∧ can g x.1 r ∧ y = (r.1, <[i := r.2]> x.2).
Proof.
  intros [(Hc & i & g & r & Hi & Hr & ->)|(Hc & i & g & r & Hi & Hr & ->)];
    (split; [done|]; exists i, g, r; split_and!; [done| |done]); [by left|by right].
Qed.

Ltac step_cases g H :=
  destruct H as [H|H];
  destruct g as [?ev|?ev [|?s ?rest]|?ev ?s ?rest|?ev ?s ?rest| |[|?s ?rest] ?srv|?s ?rest ?srv| | | | |?s|?s|?s|?s|];
  cbn [advance cast_step stop_step subscribe_step is_cast is_stop client] in H; unfold close_chan in H; repeat case_match; set_unfold; destruct_or?; simplify_eq.

(** The four things that happen to [d.subs]. *)
Lemma step_registry g h r :
  can g h r →
  sh_subs r.1 = sh_subs h ∧ length (sh_heap r.1) = length (sh_heap h) ∧ stream_of r.2 = stream_of g ∨
  sh_subs r.1 = [] ∧ length (sh_heap r.1) = length (sh_heap h) ∧ stream_of g = None ∨
  (let s := length (sh_heap h) in
   sh_subs r.1 = sh_subs h ++ [s] ∧ length (sh_heap r.1) = S s ∧ stream_of g = None ∧ stream_of r.2 = Some s) ∨
  (∃ s, sh_subs r.1 = remove_id s (sh_subs h) ∧ length (sh_heap r.1) = length (sh_heap h) ∧ stream_of g = Some s).
Proof.
  intros Hr. step_cases g Hr; cbn;
    first [solve [left; rewrite ?length_alter; done]|solve [right; left; done]
          |solve [right; right; left; rewrite length_app; cbn; split_and!; [done|lia|done|done]]
          |solve [do 3 right; eexists; split_and!; done]].
Qed.

Lemma step_open g h r :
  can g h r → Nat.b2n (is_stream r.2) ≤ Nat.b2n (is_stream g) ∧
  sh_open r.1 = sh_open h - (Nat.b2n (is_stream g) - Nat.b2n (is_stream r.2)).
Proof. intros Hr. step_cases g Hr; cbn; lia. Qed.

Lemma step_server g h r :
  can g h r →
  sh_server r.1 = sh_server h ∧
    (has_server g = true → has_server r.2 = true ∨ sh_open h = 0 ∨ sh_cancelled r.1 = true ∨ sh_crashed r.1 = true) ∨
  has_server g = false ∧ sh_server r.1 = false ∧ has_server r.2 = sh_server h.
Proof.
  intros Hr. step_cases g Hr; cbn;
    repeat match goal with H : (_ =? _) = true |- _ => apply Nat.eqb_eq in H end;
    first [by right|left; split; [done|]; intros ?; subst; by auto].
Qed.

Lemma step_cancelled g h r : can g h r → sh_cancelled h = true → sh_cancelled r.1 = true.
Proof. intros Hr. step_cases g Hr; cbn; done. Qed.

Definition past_call (g : goroutine) : bool := if g is StopCalled then false else is_stop g.

Lemma step_done g h r :
  can g h r →
  (sh_done h = true → sh_done r.1 = true) ∧
  (is_stop g = true → is_stop r.2 = true ∨ sh_done r.1 = true ∨ sh_crashed r.1 = true) ∧
  (past_call r.2 = true → past_call g = true ∨ sh_server r.1 = false) ∧
  (sh_done r.1 = true → sh_done h = true ∨ past_call g = true) ∧
  (sh_server h = false → sh_server r.1 = false).
Proof. intros Hr. step_cases g Hr; cbn; split_and!; intros; subst; first [done|auto]. Qed.

(** ** The invariant *)

Record shut_inv (x : system) : Prop := {
  si_nodup : NoDup (sh_subs x.1);
  si_bound s : s ∈ sh_subs x.1 → s < length (sh_heap x.1);
  si_reg s : s ∈ sh_subs x.1 → ∃ i g, x.2 !! i = Some g ∧ stream_of g = Some s;
  si_open : sh_open x.1 = count is_stream x.2;
  si_server : sh_crashed x.1 = true ∨ sh_server x.1 = true ∨ 0 < count has_server x.2 ∨ sh_open x.1 = 0 ∨ sh_cancelled x.1 = true;
  si_done : sh_crashed x.1 = true ∨ sh_done x.1 = true ∨ 0 < count is_stop x.2;
  si_late : sh_done x.1 = true ∨ 0 < count past_call x.2 → sh_server x.1 = false;
}.

Lemma reg_elsewhere (ts : list goroutine) i g g' s :
  ts !! i = Some g → stream_of g ≠ Some s ∨ stream_of g' = stream_of g →
  (∃ j t, ts !! j = Some t ∧ stream_of t = Some s) → ∃ j t, <[i := g']> ts !! j = Some t ∧ stream_of t = Some s.
Proof.
  intros Hi Hg (j & t & Hj & Ht). pose proof (lookup_lt_Some _ _ _ Hi). destruct (decide (i = j)) as [->|].
  - exists j, g'. rewrite list_lookup_insert_eq by done. split; [done|]. destruct Hg; congruence.
  - exists j, t. by rewrite list_lookup_insert_ne.
Qed.

Ltac pick_with tac := first [solve [tac]|left; pick_with tac|right; pick_with tac].
Tactic Notation "pick" := pick_with ltac:(first [congruence|cbn in *; lia]).
Tactic Notation "pick" "by" tactic3(t) := pick_with ltac:(by t).

Lemma step_inv x y : sys_step x y → shut_inv x → shut_inv y.
Proof.
  intros (Hcr & i & g & r & Hi & Hr & ->)%sys_step_inv Hx.
  pose proof (lookup_lt_Some _ _ _ Hi) as Hlt.
  assert (NoDup (sh_subs r.1) ∧ (∀ s, s ∈ sh_subs r.1 → s < length (sh_heap r.1)) ∧
          ∀ s, s ∈ sh_subs r.1 → ∃ j t, <[i := r.2]> x.2 !! j = Some t ∧ stream_of t = Some s) as (Hn & Hb & Hg).
  { pose proof (si_nodup x Hx) as Hnd. pose proof (si_bound x Hx) as Hbd. pose proof (si_reg x Hx) as Hrg.
    destruct (step_registry _ _ _ Hr) as [(-> & -> & Hs)|[(-> & -> & Hs)|[(-> & -> & Hs & Hs')|(s & -> & -> & Hs)]]].
    - split_and!; [done..|]. intros s Hin. apply (reg_elsewhere x.2 i g); [done|by right|by apply Hrg].
    - split_and!; [constructor|by intros s []%elem_of_nil..].
    - split_and!.
      + apply NoDup_app. split_and!; [done| |apply NoDup_singleton].
        intros s Hin ->%list_elem_of_singleton. apply Hbd in Hin. lia.
      + intros s [Hin| ->%list_elem_of_singleton]%elem_of_app; [apply Hbd in Hin|]; lia.
      + intros s [Hin| ->%list_elem_of_singleton]%elem_of_app.
        * apply (reg_elsewhere x.2 i g); [done|left; congruence|by apply Hrg].
        * exists i, r.2. by rewrite list_lookup_insert_eq.
    - split_and!.
      + eapply sublist_NoDup; [exact Hnd|apply remove_id_sublist].
      + intros t Ht. by apply Hbd, (remove_id_elem s).
      + intros t [Ht Hne]%remove_id_elem; [|done]. apply (reg_elsewhere x.2 i g); [done|left; congruence|by apply Hrg]. }
  pose proof (count_insert is_stream _ _ _ r.2 Hi) as Cst. pose proof (count_insert has_server _ _ _ r.2 Hi) as Csv.
  pose proof (count_insert is_stop _ _ _ r.2 Hi) as Csp. pose proof (count_insert past_call _ _ _ r.2 Hi) as Cpc.
  destruct (step_open _ _ _ Hr) as [Ho1 Ho2]. pose proof (step_server _ _ _ Hr) as Hsrv. pose proof (step_cancelled _ _ _ Hr) as Hca.
  destruct (step_done _ _ _ Hr) as (Hd1 & Hd2 & Hd3 & Hd4 & Hd5).
  destruct Hx as [_ _ _ Ho Hs Hd Hl].
  split; cbn [fst snd]; [done..|lia| | |].
  - destruct Hsrv as [[-> Hk]|(Hg' & -> & Hsv)].
    + destruct Hs as [?|[?|[?|[?|?]]]]; [congruence|pick| |pick|pick by auto].
      destruct (has_server g); [|pick]. destruct (Hk eq_refl) as [E|[?|[?|?]]]; [rewrite E in Csv; pick|pick..].
    + rewrite Hg', Hsv in Csv. destruct (sh_server x.1); [pick|].
      destruct Hs as [?|[?|[?|[?|?]]]]; [congruence|congruence|pick|pick|pick by auto].
  - destruct Hd as [?|[?|?]]; [congruence|pick by auto|].
    destruct (is_stop g); [|pick]. destruct Hd2 as [E|[?|?]]; [done|rewrite E in Csp; pick|pick..].
  - intros [Hdn|Hp].
    + destruct (Hd4 Hdn) as [?|Hpg]; [by auto|]. apply Hd5, Hl. right. apply count_pos. eauto.
    + destruct (past_call r.2) eqn:Hp2; [|apply Hd5, Hl; right; cbn in *; lia].
      destruct (Hd3 eq_refl) as [Hpg|?]; [|done]. apply Hd5, Hl. right. apply count_pos. eauto.
Qed.

Lemma shut_start ts :
  forallb called ts = true → StopCalled ∈ ts → shut_inv (serving ts, ts).
Proof.
  intros Hts Hstop. assert (∀ p, (∀ g, called g = true → p g = true → False) → count p ts = 0) as Hnone.
  { intros p Hp. destruct (count p ts) eqn:Hc; [done|]. destruct (proj1 (count_pos p ts)) as (i & g & Hi & Hg); [lia|].
    exfalso. apply (Hp g); [|done]. rewrite forallb_forall in Hts.
    apply Hts, list_elem_of_In. by eapply list_elem_of_lookup_2. }
  split; cbn [fst snd sh_subs sh_heap sh_open sh_server sh_done sh_crashed serving].
  - constructor.
  - by intros s []%elem_of_nil.
  - by intros s []%elem_of_nil.
  - clear Hstop Hnone. induction ts as [|t ts IH]; [done|]. cbn in Hts. apply andb_prop in Hts as [Ht Hts].
    unfold count in *. cbn. rewrite IH by done. by destruct t.
  - by right; left.
  - right; right. by apply (count_elem _ _ StopCalled).
  - intros [?|Hp]; [done|]. rewrite (Hnone past_call) in Hp; [lia|]. by intros [].
Qed.

(** ** Nothing left to do *)

Lemma advance_none g h :
  advance g h = [] → g = Finished ∨ is_stream g = true ∧ sh_cancelled h = false.
Proof.
  destruct g as [ev|ev [|s rest]|ev s rest|ev s rest| |[|s rest] srv|s rest srv| | | | |s|s|s|s|];
    cbn [advance cast_step stop_step subscribe_step is_cast is_stop]; repeat case_match; intros Ha; simplify_list_eq; try by auto.
  all: right; split; [done|]. by destruct (sh_cancelled h); rewrite ?orb_true_r in *.
Qed.

Lemma quiet_over x :
  shut_inv x → quiet x → sh_done x.1 = true ∧ sh_subs x.1 = [] ∧ ∀ g, g ∈ x.2 → g = Finished.
Proof.
  intros Hx [Hcr Hq].
  assert (∀ i g, x.2 !! i = Some g → advance g x.1 = []) as Hstuck.
  { intros i g Hi. destruct (advance g x.1) as [|r rs] eqn:Ha; [done|]. exfalso.
    apply (Hq (r.1, <[i := r.2]> x.2)). split; [done|]. exists i, g, r. split_and!; [done| |done].
    rewrite Ha. by left. }
  assert (∀ p, (∀ g, is_stream g = true → p g = false) → p Finished = false → count p x.2 = 0) as Hnone.
  { intros p Hp Hf. destruct (count p x.2) eqn:Hc; [done|]. destruct (proj1 (count_pos p x.2)) as (i & g & Hi & Hg); [lia|].
    destruct (advance_none g x.1) as [->|[? _]]; [by eapply Hstuck|congruence|]. rewrite Hp in Hg; congruence. }
  pose proof (Hnone is_stop ltac:(by intros []) eq_refl) as Hstop.
  pose proof (Hnone has_server ltac:(by intros []) eq_refl) as Hserver.
  destruct (si_done x Hx) as [?|[Hdone|?]]; [congruence| |lia].
  pose proof (si_late x Hx (or_introl Hdone)) as Hsv.
  assert (∀ g, g ∈ x.2 → g = Finished) as Hfin.
  { intros g [i Hi]%list_elem_of_lookup. destruct (advance_none g x.1) as [?|[Hst Hca]]; [by eapply Hstuck|done|].
    pose proof (count_elem is_stream x.2 g ltac:(by eapply list_elem_of_lookup_2) Hst) as Hpos.
    rewrite <-(si_open x Hx) in Hpos. destruct (si_server x Hx) as [?|[?|[?|[?|?]]]]; first [congruence|lia]. }
  split_and!; [done| |done].
  destruct (sh_subs x.1) as [|s l] eqn:Hs; [done|]. exfalso.
  destruct (si_reg x Hx s) as (i & g & Hi & Hg); [rewrite Hs; by left|].
  rewrite (Hfin g) in Hg; [done|by eapply list_elem_of_lookup_2].
Qed.

(** ** Who closes alone closes once *)

Definition ready (g : goroutine) (h : shared) : Prop :=
  match g with
  | CastClose _ s _ | StopClose s _ _ => closed s h = false
  | StopCloseDone => sh_done h = false
  | _ => True
  end.

Definition safe (x : system) : Prop :=
  sh_crashed x.1 = false ∧ count is_closer x.2 ≤ 1 ∧ ∀ i g, x.2 !! i = Some g → ready g x.1.

Lemma step_ready g h r :
  can g h r → sh_crashed h = false → ready g h → sh_crashed r.1 = false ∧ ready r.2 r.1.
Proof. intros Hr Hc Hg. step_cases g Hr; cbn in Hg |- *; split; first [done|congruence]. Qed.

Lemma closed_pop s t h : closed t (alter_sub pop s h) = closed t h.
Proof.
  unfold closed, alter_sub. cbn. destruct (decide (t = s)) as [->|].
  - rewrite list_lookup_alter_eq. by destruct (sh_heap h !! s).
  - by rewrite list_lookup_alter_ne.
Qed.

Lemma closed_new t v h s :
  sh_heap h = v → closed t (set_heap (v ++ [newSubscriber s]) h) = closed t h.
Proof.
  intros <-. unfold closed. cbn. destruct (decide (t < length (sh_heap h))).
  - by rewrite lookup_app_l.
  - rewrite lookup_app_r, (lookup_ge_None_2 (sh_heap h)) by lia.
    by destruct (t - length (sh_heap h)) as [|[|?]].
Qed.

Lemma step_aside g h r :
  can g h r → is_closer g = false →
  (∀ s, closed s r.1 = closed s h) ∧ sh_done r.1 = sh_done h ∧ is_closer r.2 = false.
Proof.
  intros Hr Hg. step_cases g Hr; try discriminate; split_and!; try done; intros t.
  - by apply (closed_new t _ h).
  - apply closed_pop.
  - apply closed_pop.
Qed.

Lemma step_closers g h r : can g h r → Nat.b2n (is_closer r.2) ≤ Nat.b2n (is_closer g).
Proof. intros Hr. step_cases g Hr; cbn; lia. Qed.

Lemma step_safe x y : sys_step x y → safe x → safe y.
Proof.
  intros (Hcr & i & g & r & Hi & Hr & ->)%sys_step_inv (_ & Hone & Hrd).
  destruct (step_ready g x.1 r) as [Hcr' Hrd']; [done..|by apply (Hrd i)|].
  pose proof (step_closers _ _ _ Hr). pose proof (count_insert is_closer _ _ _ r.2 Hi).
  split_and!; cbn [fst snd]; [done|lia|]. intros j t Hj.
  destruct (decide (i = j)) as [->|Hne].
  - rewrite list_lookup_insert_eq in Hj by (by eapply lookup_lt_Some). by simplify_eq.
  - rewrite list_lookup_insert_ne in Hj by done. destruct (is_closer t) eqn:Ht.
    + destruct (step_aside g x.1 r) as (Hcl & Hdn & _); [done| |].
      * destruct (is_closer g) eqn:Hg; [|done]. exfalso.
        pose proof (count_insert is_closer x.2 i g Finished Hi) as Hg'. rewrite Hg in Hg'.
        assert (0 < count is_closer (<[i := Finished]> x.2)); [|cbn in Hg'; lia].
        apply count_pos. exists j, t. by rewrite list_lookup_insert_ne.
      * specialize (Hrd j t Hj). destruct t; cbn in *; congruence.
    + by destruct t.
Qed.

(** ** Runs chosen by a schedule: the goroutine that moves, and which of its
    alternatives; then its clients' *)

Definition run_one (x : system) (c : nat * nat) : option system :=
  if sh_crashed x.1 then None else
  g ← x.2 !! c.1; r ← (advance g x.1 ++ client g x.1) !! c.2; Some (r.1, <[c.1 := r.2]> x.2).

Definition run_all (cs : list (nat * nat)) (x : system) : option system :=
  foldl (λ o c, x ← o; run_one x c) (Some x) cs.

Lemma run_one_step x c y : run_one x c = Some y → sys_step x y.
Proof.
  unfold run_one. destruct (sh_crashed x.1) eqn:Hc; [done|].
  destruct (x.2 !! c.1) as [g|] eqn:Hg; [cbn|done].
  destruct ((advance g x.1 ++ client g x.1) !! c.2) as [r|] eqn:Hr; [cbn|done]. intros [= <-].
  apply list_elem_of_lookup_2, elem_of_app in Hr as [Hr|Hr]; [left|right]; (split; [done|]); by exists c.1, g, r.
Qed.

Lemma run_all_steps cs x y : run_all cs x = Some y → rtc sys_step x y.
Proof.
  unfold run_all. revert x. induction cs as [|c cs IH]; cbn; intros x Hx; [by simplify_eq|].
  destruct (run_one x c) as [z|] eqn:Hz.
  - eapply rtc_l; [by eapply run_one_step|by apply IH].
  - exfalso. clear -Hx. induction cs; cbn in Hx; [done|auto].
Qed.

(** ** A goroutine left alone gets somewhere *)

Lemma own_steps_sys x y : rtc own_step x y → rtc sys_step x y.
Proof. apply rtc_subrel. by left. Qed.

Lemma quiet_or_step x : sh_crashed x.1 = false → quiet x ∨ ∃ y, own_step x y.
Proof.
  intros Hc. destruct (decide (Exists (λ g, advance g x.1 ≠ []) x.2)) as [He|Hn].
  - right. apply Exists_exists in He as (g & [i Hi]%list_elem_of_lookup & Ha).
    destruct (advance g x.1) as [|r rs] eqn:Hr; [done|].
    exists (r.1, <[i := r.2]> x.2). split; [done|]. exists i, g, r. split_and!; [done| |done]. rewrite Hr. by left.
  - left. split; [done|]. intros y (_ & i & g & r & Hi & Hr & _). apply Hn, Exists_exists.
    exists g. split; [by eapply list_elem_of_lookup_2|]. intros Hnil. rewrite Hnil in Hr. by apply elem_of_nil in Hr.
Qed.

Lemma own_steps_end n x : fuel x ≤ n → ∃ y, rtc own_step x y ∧ (sh_crashed y.1 = true ∨ quiet y).
Proof.
  revert x. induction n as [|n IH]; intros x Hn; (destruct (sh_crashed x.1) eqn:Hc; [exists x; by auto using rtc_refl|]).
  all: destruct (quiet_or_step x Hc) as [Hq|[y Hy]]; [exists x; by auto using rtc_refl|].
  all: pose proof (step_fuel x y (or_introl Hy)) as Hf. 1: lia.
  destruct (IH y) as (z & Hz & ?); [lia|]. exists z. split; [by eapply rtc_l|done].
Qed.

(** ** The loops of [Daemon.v] *)

Definition cast_heap (ev : event) (rest : list nat) (v : list subscriber) : list subscriber :=
  foldl (λ v s, alter (offer ev) s v) v rest.
Definition close_heap (rest : list nat) (v : list subscriber) : list subscriber :=
  foldl (λ v s, alter close_sub s v) v rest.
Definition subs_in (v : list subscriber) (l : list nat) : list subscriber := omap (λ s, v !! s) l.

Lemma own_run i g g' h h' ts y :
  i < length ts → sh_crashed h = false → (h', g') ∈ advance g h →
  rtc own_step (h', <[i := g']> ts) y → rtc own_step (h, <[i := g]> ts) y.
Proof.
  intros Hi Hc Hg Hr. eapply rtc_l; [|exact Hr]. split; [done|]. exists i, g, (h', g').
  split_and!; [by apply list_lookup_insert_eq|done|]. cbn. by rewrite list_insert_insert_eq.
Qed.

Lemma alter_same {A} (f : A → A) i (l : list A) x : l !! i = Some x → f x = x → alter f i l = l.
Proof.
  intros Hi Hf. rewrite (list_alter_ext f id l l i); [by apply list_alter_id| |done].
  intros y Hy. simplify_eq. exact Hf.
Qed.

Lemma offer_full ev s h sb :
  sh_heap h !! s = Some sb → (length (sub_events sb) <? subscribeQueue) = false →
  alter (offer ev) s (sh_heap h) = if closed s h then sh_heap h else alter close_sub s (sh_heap h).
Proof.
  intros Hs Hf. unfold closed. rewrite Hs. cbn. destruct (sub_done sb) eqn:Hd.
  - apply (alter_same _ _ _ sb Hs). unfold offer. rewrite Hf. destruct sb. cbn in *. by subst.
  - apply list_alter_ext; [|done]. intros sb' Hs'. simplify_eq. unfold offer. by rewrite Hf.
Qed.

Lemma alter_sub_same s f h : alter f s (sh_heap h) = sh_heap h → alter_sub f s h = h.
Proof. unfold alter_sub, set_heap. intros ->. by destruct h. Qed.

(** One iteration of [broadcast] on its own: [offer]. *)
Lemma casting_one ev s rest h ts i y :
  i < length ts → sh_crashed h = false →
  rtc own_step (alter_sub (offer ev) s h, <[i := Casting ev rest]> ts) y →
  rtc own_step (h, <[i := Casting ev (s :: rest)]> ts) y.
Proof.
  intros Hi Hc Hr. destruct (length (queue_of s h) <? subscribeQueue) eqn:Hf.
  { eapply own_run; [done|done| |exact Hr]. cbn [advance cast_step stop_step subscribe_step is_cast is_stop]. rewrite Hf. by left. }
  destruct (sh_heap h !! s) as [sb|] eqn:Hs; [|by unfold queue_of in Hf; rewrite Hs in Hf].
  assert (alter (offer ev) s (sh_heap h) = if closed s h then sh_heap h else alter close_sub s (sh_heap h)) as Ho.
  { apply (offer_full ev s h sb Hs). unfold queue_of in Hf. by rewrite Hs in Hf. }
  apply (own_run i _ (CastFull ev s rest) h h); [done|done|cbn [advance cast_step stop_step subscribe_step is_cast is_stop]; rewrite Hf; by left|].
  destruct (closed s h) eqn:Hcl.
  - rewrite (alter_sub_same _ _ _ Ho) in Hr.
    apply (own_run i _ (Casting ev rest) h h); [done|done|cbn [advance cast_step stop_step subscribe_step is_cast is_stop]; rewrite Hcl; by left|done].
  - apply (own_run i _ (CastClose ev s rest) h h); [done|done|cbn [advance cast_step stop_step subscribe_step is_cast is_stop]; rewrite Hcl; by left|].
    apply (own_run i _ (Casting ev rest) h (alter_sub close_sub s h)); [done|done| |].
    + cbn [advance cast_step stop_step subscribe_step is_cast is_stop]. unfold close_chan. rewrite Hcl. by left.
    + unfold alter_sub in *. by rewrite <-Ho.
Qed.

Lemma casting_run ev rest h ts i :
  i < length ts → sh_crashed h = false →
  rtc own_step (h, <[i := Casting ev rest]> ts) (set_heap (cast_heap ev rest (sh_heap h)) h, <[i := Finished]> ts).
Proof.
  intros Hi. revert h. induction rest as [|s rest IH]; intros h Hc.
  - apply (own_run i _ Finished h h); [done|done|by left|]. by destruct h.
  - apply casting_one; [done|done|]. by apply (IH (alter_sub (offer ev) s h)).
Qed.

(** Of [Stop]: each subscriber's channel is closed, once. *)
Lemma closing_run rest srv h ts i :
  i < length ts → sh_crashed h = false →
  rtc own_step (h, <[i := StopClosing rest srv]> ts)
    (set_heap (close_heap rest (sh_heap h)) h, <[i := StopClosing [] srv]> ts).
Proof.
  intros Hi. revert h. induction rest as [|s rest IH]; intros h Hc; [by destruct h|].
  destruct (closed s h) eqn:Hcl.
  - apply (own_run i _ (StopClosing rest srv) h h); [done|done|cbn [advance cast_step stop_step subscribe_step is_cast is_stop]; rewrite Hcl; by left|].
    cbn [close_heap foldl]. assert (alter close_sub s (sh_heap h) = sh_heap h) as ->; [|by apply IH].
    unfold closed in Hcl. destruct (sh_heap h !! s) as [sb|] eqn:Hs; [|done]. cbn in Hcl.
    apply (alter_same _ _ _ sb Hs). destruct sb. cbn in *. by subst.
  - apply (own_run i _ (StopClose s rest srv) h h); [done|done|cbn [advance cast_step stop_step subscribe_step is_cast is_stop]; rewrite Hcl; by left|].
    apply (own_run i _ (StopClosing rest srv) h (alter_sub close_sub s h)); [done|done| |].
    + cbn [advance cast_step stop_step subscribe_step is_cast is_stop]. unfold close_chan. rewrite Hcl. by left.
    + by apply (IH (alter_sub close_sub s h)).
Qed.

(** What the loops do to the subscribers listed. *)
Lemma fold_alter_lookup f rest (v : list subscriber) s :
  NoDup rest → foldl (λ v s, alter f s v) v rest !! s = if decide (s ∈ rest) then f <$> v !! s else v !! s.
Proof.
  revert v. induction rest as [|x rest IH]; intros v; cbn [foldl].
  - intros _. by destruct (decide _) as [Hs|]; [apply elem_of_nil in Hs|].
  - intros [Hx Hr]%NoDup_cons. rewrite IH by done. destruct (decide (s = x)) as [->|Hne].
    + rewrite (decide_False _ _ Hx), decide_True by (by left). by rewrite list_lookup_alter_eq.
    + rewrite list_lookup_alter_ne by done. apply decide_ext. rewrite elem_of_cons. naive_solver.
Qed.

Lemma fold_alter_subs f rest (v : list subscriber) :
  NoDup rest → subs_in (foldl (λ v s, alter f s v) v rest) rest = f <$> subs_in v rest.
Proof.
  intros Hn. unfold subs_in. assert (∀ l, l ⊆ rest → omap (λ s, foldl (λ v s, alter f s v) v rest !! s) l =
    f <$> omap (λ s, v !! s) l) as Hl; [|by apply Hl].
  induction l as [|s l IH]; intros Hl; [done|]. cbn. rewrite fold_alter_lookup by done.
  rewrite decide_True by (apply Hl; by left). rewrite IH by (intros ??; apply Hl; by right).
  by destruct (v !! s).
Qed.

(** ** Along a run *)

Lemma shut_inv_run x y : rtc sys_step x y → shut_inv x → shut_inv y.
Proof. induction 1; eauto using step_inv. Qed.

Lemma safe_run x y : rtc sys_step x y → safe x → safe y.
Proof. induction 1; eauto using step_safe. Qed.

Lemma start_safe ts : forallb called ts = true → count is_closer ts ≤ 1 → safe (serving ts, ts).
Proof.
  intros Hts Hone. split_and!; [done|done|]. intros i g Hi. cbn in Hi.
  assert (called g = true) as Hg; [|by destruct g].
  rewrite forallb_forall in Hts. apply Hts, list_elem_of_In. by eapply list_elem_of_lookup_2.
Qed.

Lemma crash_run cs x :
  option_map (λ y : system, sh_crashed y.1) (run_all cs x) = Some true → ∃ y, rtc sys_step x y ∧ sh_crashed y.1 = true.
Proof.
  destruct (run_all cs x) as [y|] eqn:Hy; [|done]. intros [= Hc]. exists y. split; [by eapply run_all_steps|done].
Qed.

(** The broadcasts from the goroutine [i] on that fill a queue. *)
Definition full (i : nat) : list (nat * nat) := flat_map (λ j, [(j, 0); (j, 0); (j, 0)]) (seq i subscribeQueue).
