(* ===== verification/DaemonNetFacts.v ===== *)
(** * The daemon on the network: lemmas

    Sync rounds only add verified events, the crawler's fetcher only returns
    decoded ones, tokens that prove to be nobody pending change nothing. *)

From S2P Require Import Prelude Base32 External Identity Event Log Bolt Store StoreFacts StoreFollow StoreQuery Wire Session SessionFacts SessionRuns SessionInv SessionCursor Crawler CrawlerFacts Bootstrap Daemon DaemonOps DaemonNet.
#[local] Open Scope go_scope.

Section net.
Context `{BoltLaws, Blake3, !Blake3Laws, Ed25519, CborText, Aead, order : GoRange}.
Context `{!CborType Event, !CborLaws Event, !CborType SignedEvent, !CborLaws SignedEvent}.
Context `{!CborType EncryptedKey, !CborType Message, !CborLaws Message}.
Context (transport : option (nat → bytes → result conn)) (nonce : nat → result bytes).

(** ** Sessions of the daemon *)

(** A put in a bucket that holds no log. *)
Lemma put_in_logs get set k v s :
  (∀ b s, same_logs s (set b s)) → same_logs s (Store.Update (put_in get set k v) s).2.
Proof. intros Hset. unfold Store.Update, put_in. destruct (bk_Put k v (get s)); [apply Hset|done]. Qed.

Lemma PutRouting_logs id token s : same_logs s (PutRouting id token s).2.
Proof. by apply put_in_logs. Qed.

Lemma session_callbacks_neutral kp ownPub : neutral (session_callbacks kp ownPub).
Proof.
  split; intros f [= <-].
  - by intros r s d.
  - by intros i s d.
  - intros se i s d. unfold onMerge. by repeat case_match.
  - intros i l c s d. unfold store_sink.
    assert (same_logs s (PutSyncCursor i l c s).2) as Hs by by apply put_in_logs.
    by destruct (PutSyncCursor i l c s).
Qed.

Lemma runSession_grown old c init n (w : daemon) :
  grown old w.1 → grown old (runSession c init n w).2.1.
Proof.
  intros Hw. unfold runSession. destruct (unlocked w.2) as [kp|]; [|done]. cbn zeta.
  set (cb := session_callbacks kp (own_array w.1)).
  set (w0 := mkWorld w.1 c (mkSenv w.2 [] [] []) []).
  assert (grown old (w_store (if init then RunInitiator cb n w0 else RunListener cb n w0).2)) as Hg.
  { destruct init; [apply (safe_RunInitiator old cb)|apply (safe_RunListener old cb)];
      done || apply session_callbacks_neutral. }
  destruct (if init then RunInitiator cb n w0 else RunListener cb n w0) as [r w1]. cbn [snd] in Hg.
  repeat match goal with |- context [let '(_, _) := ?x in _] => destruct x end.
  done.
Qed.

Lemma connectAndSync_grown old token (wk : node) :
  grown old wk.1.1 → grown old (connectAndSync transport nonce token wk).2.1.1.
Proof.
  destruct wk as [w k]. cbn [fst]. intros Hw. unfold connectAndSync.
  destruct transport as [dial|]; [|done]. destruct (dial k token) as [c|e]; [|done].
  match goal with |- context [runSession c true (nonce k) ?w1] =>
    pose proof (runSession_grown old c true (nonce k) w1 Hw) as Hg;
    destruct (runSession c true (nonce k) w1) as [[[n r] zenID] w2] end.
  cbn [snd] in Hg.
  assert (grown old (if decide (zenID = []) then w2.1 else (PutRouting zenID token w2.1).2)) as Hr.
  { case_decide; [done|]. eapply grown_same; [apply PutRouting_logs|done]. }
  destruct r as [u|[]]; done.
Qed.

Lemma resolve_tokens_grown old kp pending refs (wk : node) :
  grown old wk.1.1 → grown old (resolve_tokens transport nonce kp pending refs wk).2.1.1.
Proof.
  revert wk. induction refs as [|ref refs IH]; intros [w k] Hw; [done|]. cbn [resolve_tokens].
  destruct transport as [dial|] eqn:Ht; [|done]. destruct (dial k _) as [c|e]; [|by apply IH].
  destruct (handshake_on nonce kp c w.1 k).1 as [zenID|e]; [|by apply IH].
  case_decide; [|by apply IH].
  pose proof (PutRouting_logs zenID (zr_Token ref) w.1) as Hs.
  destruct (PutRouting zenID (zr_Token ref) w.1) as [[u|e] s]; [|by apply IH]. cbn [snd] in Hs.
  pose proof (connectAndSync_grown old (zr_Token ref) ((s, w.2), S k)
    (grown_same _ _ _ Hs Hw)) as Hc. rewrite Ht in Hc.
  destruct (connectAndSync _ nonce _ _) as [[u'|e] wk]; [by apply IH|done].
Qed.

Lemma sync_bound_grown old ids (wk : node) :
  grown old wk.1.1 → grown old (forM_ ids (sync_one transport nonce) wk).2.1.1.
Proof.
  revert wk. induction ids as [|id ids IH]; intros [w k] Hw; [done|]. cbn [forM_].
  unfold mbind, stM_bind, sync_one at 1.
  pose proof (connectAndSync_grown old (default [] (Routing id w.1)) (w, k) Hw) as Hc.
  destruct (connectAndSync _ nonce _ (w, k)) as [[u|e] wk]; [by apply IH|done].
Qed.

Lemma syncAllZens_grown old (wk : node) :
  grown old wk.1.1 → grown old (syncAllZens transport nonce wk).2.1.1.
Proof.
  destruct wk as [w k]. cbn [fst]. intros Hw. unfold syncAllZens.
  destruct (FollowGraph w.1) as [ids|e]; [|done].
  pose proof (sync_bound_grown old (bound_ids w.1 ids) (w, k) Hw) as Hb.
  destruct (forM_ _ _ _) as [[u|e] [w1 k1]]; [|done]. cbn [snd fst] in Hb.
  destruct (pending_ids w.1 ids) as [|id pending]; [done|]. unfold resolvePendingFollows.
  destruct (unlocked w1.2); [|done]. by apply resolve_tokens_grown.
Qed.

(** ** Probing changes nothing *)

(** Nobody pending answers at any known token. *)
Definition nobody_pending (kp : KeyPair) (pending : list bytes) (s : store) : Prop :=
  ∀ dial k tok c id, transport = Some dial → dial k tok = Ok c →
    (handshake_on nonce kp c s k).1 = Ok id → id ∉ pending.

Lemma resolve_tokens_idle kp pending refs (w : daemon) k :
  is_Some transport → nobody_pending kp pending w.1 →
  resolve_tokens transport nonce kp pending refs (w, k) = (Ok tt, (w, k + length refs)).
Proof.
  intros [dial Ht] Hn. unfold nobody_pending in Hn. revert k.
  induction refs as [|ref refs IH]; intros k; cbn [resolve_tokens length].
  { by rewrite Nat.add_0_r. }
  rewrite Nat.add_succ_r. rewrite Ht at 1. destruct (dial k (zr_Token ref)) as [c|e] eqn:Hd; [|apply IH].
  destruct (handshake_on nonce kp c w.1 k).1 as [zenID|e] eqn:Hh; [|apply IH].
  rewrite decide_False; [apply IH|]. by eapply Hn.
Qed.

(** ** The crawler's fetcher *)

Lemma collect_wf {D} (w : world D) : Forall (λ se : SignedEvent, wf se = true) (collect w).1.1.
Proof.
  apply (loop_rule _ _ (λ out _, Forall (λ se : SignedEvent, wf se = true) out)
    (λ r _, Forall (λ se : SignedEvent, wf se = true) r.1) _ _ _
    (loop_sound collect_body read_stop ([], no_fuel) [] w collect_reads_nothing));
    [done| | |done|constructor].
  - intros out msg w1 out' w1' Hmsg Ho. unfold collect_body.
    repeat case_decide; [destruct (m_Events msg) as [evs|] eqn:He|..]; intros Heq; simplify_eq; try done.
    apply Forall_app; split; [done|]. apply Forall_forall. intros se.
    unfold verified. rewrite list_elem_of_filter. intros [_ Hse].
    pose proof (wf_events _ _ Hmsg He) as Hall. rewrite forallb_forall in Hall.
    apply Hall. by apply list_elem_of_In.
  - intros out msg w1 r w1' _ Ho. unfold collect_body.
    repeat case_decide; [destruct (m_Events msg) as [evs|]|..]; intros Heq; by simplify_eq.
Qed.

Lemma SyncLogRaw_wf {D} log after author (w : world D) :
  Forall (λ se : SignedEvent, wf se = true) (SyncLogRaw log after author w).1.1.
Proof.
  unfold SyncLogRaw. destruct (wrapM _ _ w) as [[u|e] w1]; [apply collect_wf|constructor].
Qed.

Lemma fetch_profile_wf kp id refs (wk : node) events :
  (fetch_profile transport nonce kp id refs wk).1 = Ok events →
  Forall (λ se : SignedEvent, wf se = true) events ∧ Forall (λ se, Verify se = Ok tt) events.
Proof.
  revert wk. induction refs as [|ref refs IH]; intros [w k]; cbn [fetch_profile].
  { intros [= <-]. split; constructor. }
  destruct transport as [dial|]; [|done]. destruct (dial k _) as [c|e]; [|apply IH].
  destruct (handshake_on nonce kp c w.1 k) as [[zenID|e] wd]; [|apply IH].
  pose proof (SyncLogRaw_wf ProfileLog 0 id wd) as Hwf.
  pose proof (request_collects "write request"
    (on_conn (WriteMsg (NewRequest ProfileLog 0 id))) wd) as Hver.
  change (Forall (λ se, Verify se = Ok tt) (SyncLogRaw ProfileLog 0 id wd).1.1) in Hver.
  destruct (SyncLogRaw ProfileLog 0 id wd).1 as [[|se evs] [u|e]]; try apply IH.
  by intros [= <-].
Qed.

Lemma crawlFetch_wf id (wk : node) events :
  (crawlFetch transport nonce id wk).1 = Ok events →
  Forall (λ se : SignedEvent, wf se = true) events ∧ Forall (λ se, Verify se = Ok tt) events.
Proof.
  destruct wk as [w k]. unfold crawlFetch. destruct (unlocked w.2); [|done]. apply fetch_profile_wf.
Qed.

Lemma runCrawl_added ctx now (w : daemon) k :
  subs_ok (bucketCrawl w.1) →
  profiles_added (bucketCrawl w.1) (bucketCrawl (runCrawl transport nonce ctx now (w, k)).1.1).
Proof.
  intros Hok. unfold runCrawl. destruct (d_crawler w.2) as [c|]; [|by apply profiles_added_refl].
  assert (@decoded_net _ _ (crawlFetcher transport nonce ctx)) as Hnet.
  { intros id n events He. exact (proj1 (crawlFetch_wf id n events He)). }
  exact (Run_added Hnet now (mkCrawl c w.1 (w, k)) Hok).
Qed.

(** While the key is locked, bootstrap at most seeds the crawler. *)
Lemma dialBootstrapSeeds_locked `{!Bootstrap.Yaml} file verifyKey now (w : daemon) k :
  unlocked w.2 = None →
  ∃ d, dialBootstrapSeeds transport nonce file verifyKey now (w, k) = (Ok tt, ((w.1, d), k)) ∧
    bootstrapDone d = bootstrapDone w.2 ∧ zens d = zens w.2.
Proof.
  intros Hl. destruct w as [s d]. cbn [fst snd] in *. unfold dialBootstrapSeeds.
  destruct file as [bf|]; [|by exists d]. destruct (check_file verifyKey bf); [|by exists d].
  exists (seed_crawler bf d). unfold on_mem, seed_crawler. cbn [fst snd].
  by destruct (d_crawler d); cbn; rewrite Hl.
Qed.
End net.

(** ** The transport key *)

Section key.
Context `{BoltLaws}.

Lemma transport_name_ok : bk_key_ok transportName = true.
Proof. apply bk_key_fits; [done|]. apply Nat.leb_le. by vm_compute. Qed.

Lemma PutTransportKey_ok kb s :
  bk_value_ok kb = true →
  ∃ s', PutTransportKey kb s = (Ok tt, s') ∧ TransportKey s' = Some kb.
Proof.
  intros Hkb. eexists. split.
  - unfold PutTransportKey, Store.Update, put_in, bk_Put. by rewrite transport_name_ok, Hkb.
  - unfold TransportKey. cbn. apply bk_get_set_eq.
Qed.

Lemma DeleteTransportKey_ok s :
  ∃ s', DeleteTransportKey s = (Ok tt, s') ∧ TransportKey s' = None.
Proof.
  eexists. split; [done|]. unfold TransportKey. cbn. by rewrite bk_get_del, decide_True.
Qed.
End key.
