(* ===== verification/Lifecycle.v ===== *)
(** * The daemon as a process

    Models the rest of [internal/daemon/daemon.go]'s lifecycle: what is set
    before [Start], and the background loop that syncs and crawls. *)

From S2P Require Import Prelude Base32 External Identity Event Log Bolt Store StoreFollow StoreQuery Wire Session Crawler Bootstrap Daemon DaemonOps DaemonNet.
#[local] Open Scope go_scope.

Section process.
Context `{Bolt, Blake3, Ed25519, Aead, order : GoRange}.
Context `{!CborType Event, !CborType SignedEvent, !CborType EncryptedKey, !CborType Message}.

(** A [Daemon] with the fields no handler writes. *)
Record server := mkServer {
  sv_mem : dstate;
  sv_ephemeral : bool;
  sv_verifyKey : option bytes;
  sv_concurrency : Z;
}.

Definition server_New : server := mkServer daemon_New false None 0.
Definition on_server (f : dstate → dstate) (sv : server) : server :=
  mkServer (f (sv_mem sv)) (sv_ephemeral sv) (sv_verifyKey sv) (sv_concurrency sv).

Definition SetEphemeralKey (sv : server) : server :=
  mkServer (sv_mem sv) true (sv_verifyKey sv) (sv_concurrency sv).

Definition set_bootstrapPath v d := mkDstate (zens d) (knownTokens d) (tcAddr d) (unlocked d)
  (lastSignAt d) (idleLock d) (feedGen d) (feedCache d) (nameCache d) (subs d) (syncNow d)
  (d_crawler d) v (bootstrapDone d) (spawned d).
Definition SetBootstrap (path : bytes) (verifyKey : option bytes) (sv : server) : server :=
  mkServer (set_bootstrapPath path (sv_mem sv)) (sv_ephemeral sv) verifyKey (sv_concurrency sv).

Definition SetSyncConcurrency (n : Z) (sv : server) : server :=
  mkServer (sv_mem sv) (sv_ephemeral sv) (sv_verifyKey sv) (if (n <=? 0)%Z then 8 else n)%Z.

(** ** [syncLoop] *)

Context (transport : option (nat → bytes → result conn)) (nonce : nat → result bytes).

(** What ends one wait of the loop: the signal of [triggerSyncNow], the
    minute's ticker, the ten minutes' ticker. *)
Inductive wake := SyncNow | SyncTick | CrawlTick.

(** A crawl gives its errors to the log. *)
Definition crawl_pass (ctx : nat → option error) (now : Z) : stM node unit := λ wk,
  (Ok tt, runCrawl transport nonce ctx now wk).

(** The signal is taken from its channel; without one [SyncNow] cannot
    happen. *)
Definition sync_iteration (ctx : nat → option error) (ev : wake * Z) : stM node unit := λ '(w, k),
  match ev.1 with
  | SyncNow =>
      if syncNow w.2 then
        (_ ← syncAllZens transport nonce; crawl_pass ctx ev.2) (on_mem (set_syncNow false) w, k)
      else (Ok tt, (w, k))
  | SyncTick => syncAllZens transport nonce (w, k)
  | CrawlTick => crawl_pass ctx ev.2 (w, k)
  end.

(** The loop over a sequence of wakes, each with the time it happens at; a
    panic in a goroutine of a round ends the program. *)
Definition syncLoop (ctx : nat → option error) (evs : list (wake * Z)) : stM node unit :=
  forM_ evs (sync_iteration ctx).
End process.
