(* ===== verification/LifecycleFacts.v ===== *)
(** * The background loop: lemmas

    What the rounds and the crawls of [syncLoop] keep of the store they
    started from, however they alternate. *)

From S2P Require Import Prelude Base32 External Identity Event Log Bolt Store StoreFacts StoreFollow StoreQuery Wire Session SessionFacts SessionRuns SessionInv SessionCursor Crawler CrawlerFacts Bootstrap Daemon DaemonOps DaemonNet DaemonNetFacts Lifecycle.
#[local] Open Scope go_scope.

Section loop.
Context `{BoltLaws, Blake3, !Blake3Laws, Ed25519, CborText, Aead, order : GoRange}.
Context `{!CborType Event, !CborLaws Event, !CborType SignedEvent, !CborLaws SignedEvent}.
Context `{!CborType EncryptedKey, !CborType Message, !CborLaws Message}.
Context (transport : option (nat → bytes → result conn)) (nonce : nat → result bytes).

(** What a background store [s] keeps of [old]: the identity, every own event
    with nothing foreign among them, and every ID of every cache; what is new
    in a cache verifies, has the ID it is filed under, and is either an event
    of the cache's author, not of the node itself, or a profile event. *)
Record kept (old s : store) : Prop := {
  kept_meta : bucketMeta s = bucketMeta old;
  kept_own : grows (own_place old) (bucketOwn old) (bucketOwn s);
  kept_crawl : subs_ok (bucketCrawl s);
  kept_ids : ∀ a k, is_Some (subview (bucketCrawl old) a !! k) → is_Some (subview (bucketCrawl s) a !! k);
  kept_new : ∀ a k se, subview (bucketCrawl s) a !! k = Some se →
    subview (bucketCrawl old) a !! k = Some se ∨
    Verify se = Ok tt ∧ ID se = Ok k ∧ (crawl_place old a se ∨ e_Log (se_Event se) = ProfileLog);
}.

Lemma kept_refl s : subs_ok (bucketOwn s) → subs_ok (bucketCrawl s) → kept s s.
Proof. intros Ho Hc. split; [done|by apply grows_refl|done|done|by left]. Qed.

Lemma kept_grown old s s' : kept old s → grown s s' → kept old s'.
Proof.
  intros [Hm [Ho Hown] Hc Hids Hnew] [Hm' [Ho' Hown'] [Hc' Hcrawl]].
  assert (own_id s = own_id old) as Hid by (unfold own_id, Store_Identity; by rewrite Hm).
  split; [congruence| |done| |].
  - split; [done|]. intros n k se. destruct (Hown n k se) as [Hk Hn], (Hown' n k se) as [Hk' Hn'].
    split; [by intros ?%Hk%Hk'|]. intros [Hs|(Hv & HI & Hp)]%Hn'; [by apply Hn|].
    right. split_and!; [done..|]. unfold own_place in *. by rewrite Hid in Hp.
  - intros a k [se Hse]%Hids. exists se. by apply Hcrawl.
  - intros a k se [Hs|(Hv & HI & Hp)]%Hcrawl; [by apply Hnew|].
    right. split_and!; [done..|]. left. unfold crawl_place in *. by rewrite Hid in Hp.
Qed.

Lemma store_profile_kept old id s se : wf se = true → kept old s → kept old (store_profile id s se).
Proof.
  intros Hwf [Hm Ho Hc Hids Hnew]. unfold store_profile. case_decide as Hgood; [|done].
  destruct Hgood as [Hlog Hver]. destruct (PutCrawledProfile id se s) as [r s'] eqn:Hrun.
  destruct (PutCrawledProfile_any _ _ _ _ _ Hwf Hc Hrun) as [-> |(i & cr & HID & -> & Hcr & Hview)];
    [done|]. cbn [snd]. split; cbn [bucketMeta bucketOwn bucketCrawl set_crawl]; [done..| |].
  - intros a k Hk%Hids. rewrite Hview. case_decide; [|done].
    destruct (decide (i = k)) as [->|]; [rewrite lookup_insert_eq; by eexists|by rewrite lookup_insert_ne].
  - intros a k se'. rewrite Hview. case_decide; [|apply Hnew].
    destruct (decide (i = k)) as [->|]; [|rewrite lookup_insert_ne by done; apply Hnew].
    rewrite lookup_insert_eq. intros Heq. assert (se' = se) as -> by congruence. right. auto.
Qed.

Lemma syncAllZens_kept old (wk : node) :
  subs_ok (bucketOwn wk.1.1) → kept old wk.1.1 → kept old (syncAllZens transport nonce wk).2.1.1.
Proof.
  intros Ho Hk. eapply kept_grown; [exact Hk|]. apply syncAllZens_grown, grown_refl; [done|apply Hk].
Qed.

Lemma runCrawl_kept old ctx now (wk : node) :
  kept old wk.1.1 → kept old (runCrawl transport nonce ctx now wk).1.1.
Proof.
  destruct wk as [w k]. cbn [fst]. intros Hk. unfold runCrawl.
  destruct (d_crawler w.2) as [c|]; [|done].
  assert (@decoded_net _ _ (crawlFetcher transport nonce ctx)) as Hnet.
  { intros id n events He. exact (proj1 (crawlFetch_wf transport nonce id n events He)). }
  exact (Run_keeps Hnet (kept old) (store_profile_kept old) now (mkCrawl c w.1 (w, k)) Hk).
Qed.

Lemma sync_iteration_kept old ctx ev (wk : node) :
  kept old wk.1.1 → kept old (sync_iteration transport nonce ctx ev wk).2.1.1.
Proof.
  destruct wk as [w k]. cbn [fst]. intros Hk.
  assert (∀ wk : node, kept old wk.1.1 → kept old (syncAllZens transport nonce wk).2.1.1) as Hsync.
  { intros wk Hwk. apply syncAllZens_kept; [apply Hwk|done]. }
  unfold sync_iteration. destruct ev.1.
  - destruct (syncNow w.2); [|done]. unfold mbind, stM_bind, crawl_pass.
    pose proof (Hsync (on_mem (set_syncNow false) w, k) Hk) as Hr.
    destruct (syncAllZens _ _ _) as [[u|e] wk]; [by apply runCrawl_kept|done].
  - by apply Hsync.
  - by apply runCrawl_kept.
Qed.

Lemma syncLoop_kept old ctx evs (wk : node) :
  kept old wk.1.1 → kept old (syncLoop transport nonce ctx evs wk).2.1.1.
Proof.
  revert wk. induction evs as [|ev evs IH]; intros wk Hk; [done|].
  unfold syncLoop. cbn [forM_]. unfold mbind, stM_bind.
  pose proof (sync_iteration_kept old ctx ev wk Hk) as Hi.
  destruct (sync_iteration _ _ _ _ _) as [[u|e] wk']; [by apply IH|done].
Qed.
End loop.
