(* ===== verification/Net.v ===== *)
(** * The transport

    Models [internal/net/transport.go]: a listener's key, its address token,
    and the port the sync protocol is served on. The tunnel itself is
    tailcat's. *)

From S2P Require Import Prelude Base32 External Identity Event Log Bolt Store Wire Daemon DaemonOps DaemonNet.
#[local] Open Scope go_scope.

(** [github.com/tailscale/tailcat]: private keys, their JSON form and address,
    a server on a key, and a client's dial of a port. *)
Class Tailcat := {
  PrivateKey : Type;
  tc_NewPrivateKey : bytes → PrivateKey;        (* from the random bytes drawn *)
  pk_Private : PrivateKey → bytes;
  pk_PresharedKey : PrivateKey → bytes;         (* Public.PresharedKey *)
  pk_Addr : PrivateKey → bytes;                 (* Public.Addr() *)
  pk_MarshalIndent : PrivateKey → result bytes; (* json.MarshalIndent *)
  pk_Unmarshal : bytes → result PrivateKey;     (* json.Unmarshal *)
  (* Start of a server with these keys, and then its TailcatAddr() *)
  tc_Start : bytes → bytes → result bytes;
  tc_DialTCPPort : bytes → Z → result conn;
}.

Class TailcatLaws `{Tailcat} : Prop := {
  pk_roundtrip k b : pk_MarshalIndent k = Ok b → b ≠ [] ∧ pk_Unmarshal b = Ok k;
  (* a server listens at the address of its key *)
  tc_Start_addr k addr : tc_Start (pk_Private k) (pk_PresharedKey k) = Ok addr → addr = pk_Addr k;
}.

Definition SyncPort : Z := 7421.

Section listener.
Context `{Tailcat}.

Record Listener := mkListener { ln_addr : bytes; ln_priv : PrivateKey }.

(** [keyCfg] is [KeyConfig.KeyBytes]; a nil config is [None]. The fresh key is
    drawn even when a stored one replaces it. *)
Definition NewListenerWithKey (random : bytes) (keyCfg : option bytes) : result Listener :=
  priv ← match keyCfg with
         | Some (c :: kb) => wrap "parse key" (pk_Unmarshal (c :: kb))
         | _ => Ok (tc_NewPrivateKey random)
         end;
  addr ← wrap "tailcat start" (tc_Start (pk_Private priv) (pk_PresharedKey priv));
  Ok (mkListener addr priv).

(** [OnTCP]: who serves a connection to a port. *)
Definition OnTCP {Handler} (handler : Handler) (port : Z) : option Handler :=
  if negb (port =? SyncPort)%Z then None else Some handler.

Definition KeyBytes (l : Listener) : result bytes := pk_MarshalIndent (ln_priv l).
Definition Addr (l : Listener) : bytes := ln_addr l.

Definition AddrFromKeyBytes (keyBytes : bytes) : result bytes :=
  if decide (keyBytes = []) then Ok []
  else pk ← wrap "parse key" (pk_Unmarshal keyBytes); Ok (pk_Addr pk).

(** [Dialer.Dial]. *)
Definition Dial (addr : bytes) : result conn := wrap "tailcat dial" (tc_DialTCPPort addr SyncPort).

(** What the daemon's [startTransport] does with a listener. *)
Definition listen_with (random : bytes) (keyCfg : option bytes) : result (bytes * result bytes) :=
  l ← NewListenerWithKey random keyCfg; Ok (Addr l, KeyBytes l).

(** ** Facts *)

Context `{!TailcatLaws}.

Lemma listen_fresh random addr kb :
  listen_with random None = Ok (addr, Ok kb) →
  addr = pk_Addr (tc_NewPrivateKey random) ∧ kb ≠ [] ∧
  pk_Unmarshal kb = Ok (tc_NewPrivateKey random).
Proof.
  unfold listen_with, NewListenerWithKey, KeyBytes. cbn.
  destruct (tc_Start _ _) as [a|e] eqn:Hs; cbn; [|by destruct e].
  intros [= <- Hm]. apply tc_Start_addr in Hs. by apply pk_roundtrip in Hm.
Qed.

(** A listener on stored key bytes is at the address they name. *)
Lemma listen_stored random kb a r :
  kb ≠ [] → listen_with random (Some kb) = Ok (a, r) → AddrFromKeyBytes kb = Ok a.
Proof.
  intros Hne. unfold listen_with, NewListenerWithKey, AddrFromKeyBytes. rewrite decide_False by done.
  destruct kb as [|c kb]; [done|].
  destruct (pk_Unmarshal (c :: kb)) as [k|e]; cbn; [|by destruct e].
  destruct (tc_Start _ _) as [a'|e] eqn:Hs; cbn; [|by destruct e].
  apply tc_Start_addr in Hs as ->. by intros [= <- <-].
Qed.
End listener.

(** ** An instance

    A key is the bytes it was drawn from, behind a mark in its JSON. *)

Module ToyTailcat.
Definition tailcat (dial : bytes → result conn) : Tailcat := {|
  PrivateKey := bytes;
  tc_NewPrivateKey := λ r, r;
  pk_Private := λ k, k;
  pk_PresharedKey := λ k, k;
  pk_Addr := λ k, # "tc" ++ k;
  pk_MarshalIndent := λ k, Ok (# "{" ++ k);
  pk_Unmarshal := λ b, match b with _ :: k => Ok k | [] => Err (E "unexpected end of JSON input") end;
  tc_Start := λ k _, Ok (# "tc" ++ k);
  tc_DialTCPPort := λ a p, if (p =? SyncPort)%Z then dial a else Err (E "connection refused");
|}.
Definition tailcat_laws dial : @TailcatLaws (tailcat dial).
Proof. split; cbn; [by intros k b [= <-]|by intros k addr [= <-]]. Qed.
End ToyTailcat.
