(* ===== verification/Server.v ===== *)
(** * The control API

    Models the request methods of [internal/daemon/server_grpc.go] over the
    daemon's handlers. Every refusal is a gRPC error with the code
    FailedPrecondition, so an error stands for its text. A method that signs
    reads the clock twice: for the idle lock and for the event. [Stop] runs
    [Stop] of [DaemonNet.v] in a goroutine of its own. *)

From S2P Require Import Prelude Base32 External Identity Event Log Bolt Store StoreFollow StoreQuery Wire Session Crawler Daemon DaemonOps DaemonNet.
#[local] Open Scope go_scope.

Section server.
Context `{Bolt, Blake3, Ed25519, Aead, order : GoRange}.
Context `{!CborType Event, !CborType SignedEvent, !CborType EncryptedKey, !CborType Message}.

(** [m[key]] of a handler's result. *)
Definition field (key : bytes) (fields : list (bytes * bytes)) : bytes :=
  default [] (snd <$> head (filter (λ p, p.1 = key) fields)).

(** ** Reading *)

Record WhoamiResp := mkWhoami {
  wh_Identity : bytes;
  wh_Token : bytes;
  wh_Stable : bool;
  wh_DisplayName : bytes;
  wh_HasAvatar : bool;
  wh_Bio : bytes;
  wh_FirstName : bytes;
  wh_LastName : bytes;
  wh_Location : bytes;
}.

(** [handleWhoami]; a log that cannot be read gives no fields. *)
Definition handleWhoami (ephemeral : bool) (id : bytes) (w : daemon) : WhoamiResp :=
  let prof := match OwnEvents ProfileLog w.1 with Ok l => Log_Profile l | Err _ => None end in
  let det := match OwnEvents DetailLog w.1 with Ok l => Log_Detail l | Err _ => None end in
  mkWhoami id (default [] (tcAddr w.2)) (negb ephemeral)
    (default [] (DisplayName <$> prof))
    (match prof ≫= AvatarHash with Some h => negb (ContentHash_IsZero h) | None => false end)
    (default [] (Bio <$> det)) (default [] (FirstName <$> det)) (default [] (LastName <$> det))
    (default [] (Location <$> det)).

Definition rpc_Whoami (ephemeral : bool) (w : daemon) : result WhoamiResp :=
  match Store_Identity w.1 with
  | None => Err (E "no identity")
  | Some id => Ok (handleWhoami ephemeral id w)
  end.

Definition on_state {A} (f : store → dstate → A * dstate) (w : daemon) : A * daemon :=
  let '(a, d) := f w.1 w.2 in (a, (w.1, d)).
Definition rpc_Follows : daemon → list entry * daemon := on_state followEntries.
Definition rpc_Followers : daemon → list entry * daemon := on_state followerEntries.

(** [Zens]: every known zen, in the order of the map. *)
Definition rpc_Zens (w : daemon) : list zenInfo :=
  zenToProto w.1 <$> omap (λ tok, zens w.2 !! tok) (range_set (dom (zens w.2))).

(** [Running], always true, and the path of the socket are left out. *)
Record StatusResp := mkStatusResp { sr_Zens : nat; sr_Transport : bool; sr_Unlocked : bool }.
Definition rpc_Status (w : daemon) : StatusResp :=
  mkStatusResp (size (zens w.2)) (bool_decide (tcAddr w.2 ≠ None)) (bool_decide (unlocked w.2 ≠ None)).

(** ** Marks on identities *)

(** [Verify], [Unverify], [Pin] and [Unpin]: the identity is checked and
    handed on in the spelling received. *)
Definition on_identity (op : bytes → stM store unit) (identity : bytes) (w : daemon)
    : result bytes * daemon :=
  if decide (identity = []) then (Err (E "identity required"), w)
  else
    match ParseIdentity identity with
    | Err e => (Err e, w)
    | Ok id =>
        match op id w.1 with
        | (Err e, s) => (Err e, (s, w.2))
        | (Ok _, s) => (Ok id, (s, w.2))
        end
    end.
Definition rpc_Verify := on_identity VerifyIdentity.
Definition rpc_Unverify := on_identity UnverifyIdentity.
Definition rpc_Pin := on_identity PinIdentity.
Definition rpc_Unpin := on_identity UnpinIdentity.

(** ** The key *)

Definition rpc_Unlock (passphrase : bytes) (now : Z) (w : daemon) : result bytes * daemon :=
  if decide (passphrase = []) then (Err (E "passphrase required"), w)
  else
    match handleUnlock passphrase now w with
    | (Err e, w) => (Err e, w)
    | (Ok kp, w) => (Ok (Identity kp), w)
    end.

Definition rpc_Lock (w : daemon) : daemon := on_mem (λ d, emitStatus (set_unlocked None d)) w.
Definition rpc_Sync (w : daemon) : daemon := on_mem triggerSyncNow w.

Definition rpc_RotateKey (listen : option bytes → result (bytes * result bytes)) (ephemeral : bool)
    : stM daemon bytes := rotateKey listen ephemeral.

(** ** Signing *)

(** The key or a refusal, then the handler. *)
Definition with_key {A} (passphrase : bytes) (now : Z)
    (f : KeyPair → daemon → result A * daemon) (w : daemon) : result A * daemon :=
  match signingKey passphrase now w with
  | (Err e, w) => (Err e, w)
  | (Ok kp, w) => f kp w
  end.

Definition answer_field (key : bytes) (r : Response * daemon) : result bytes * daemon :=
  match r with
  | (Err e, w) => (Err e, w)
  | (Ok fields, w) => (Ok (field key fields), w)
  end.
Definition answer_ok (r : Response * daemon) : result bytes * daemon :=
  match r with (Err e, w) => (Err e, w) | (Ok _, w) => (Ok (# "ok"), w) end.

Context (transport : option (bytes → result conn)) (nonce : result bytes).

Inductive signing :=
  | SPost (text parentID : bytes)
  | SLike (postID : bytes)
  | SProfile (name : bytes)
  | SDetail (bio firstName lastName location : bytes)
  | SFollow (target : bytes)
  | SUnfollow (target : bytes).

(** The field a request may not leave empty. *)
Definition missing (r : signing) : option string :=
  match r with
  | SPost [] _ => Some "text required"
  | SLike [] => Some "post id required"
  | SProfile [] => Some "name required"
  | SDetail [] [] [] [] => Some "at least one detail field required"
  | SFollow [] | SUnfollow [] => Some "target required"
  | _ => None
  end%string.

Definition handle (r : signing) (kp : KeyPair) (now : Z) (w : daemon) : result bytes * daemon :=
  match r with
  | SPost text parentID => answer_field (# "event_id") (handlePost text parentID kp now w)
  | SLike postID => answer_field (# "event_id") (handleLike postID kp now w)
  | SProfile name => answer_ok (handleProfile name kp now w)
  | SDetail bio firstName lastName location =>
      answer_ok (handleDetail bio firstName lastName location kp now w)
  | SFollow target => answer_field (# "followed") (handleFollow transport target kp nonce now w)
  | SUnfollow target => answer_field (# "unfollowed") (handleUnfollow target kp now w)
  end.

(** [Post], [Like], [Profile], [Detail], [Follow] and [Unfollow]. *)
Definition rpc_sign (r : signing) (passphrase : bytes) (now now' : Z) (w : daemon)
    : result bytes * daemon :=
  match missing r with
  | Some m => (Err (E m), w)
  | None => with_key passphrase now (λ kp, handle r kp now') w
  end.

(** ** The feed and likes *)

Definition rpc_FetchLikes
    (arrival : list (result (list SignedEvent)) → list (result (list SignedEvent)))
    (nonces : bytes → result bytes) (postIDs : list bytes) (w : daemon)
    : result (list bytes) * daemon :=
  match postIDs with
  | [] => (Err (E "at least one post id required"), w)
  | _ =>
      match mapM (λ s, wrap "post id" (ParseEventID s)) postIDs with
      | Err e => (Err e, w)
      | Ok ids =>
          match handleFetchLikes transport arrival nonces ids w with
          | (Err e, w) => (Err e, w)
          | (Ok got, w) =>
              (Ok ((λ se, EventID_String (match ID se with Ok id => id | Err _ => zero_hash end)) <$> got), w)
          end
      end
  end.

(** An error of [handleFetchLikes] is dropped by the feed. *)
Definition rpc_FeedPage
    (arrival : list (result (list SignedEvent)) → list (result (list SignedEvent)))
    (nonces : bytes → result bytes) (page : Z) (mine allLikes : bool) (w : daemon)
    : result (list feedItem * bool) * daemon :=
  handleFeedPage (λ ids s d, (handleFetchLikes transport arrival nonces ids (s, d)).2)
    page mine allLikes w.1 w.2.
End server.
