(* ===== verification/ServerFacts.v ===== *)
(** * The control API: lemmas

    Where a signing key comes from, and what a post does to the store, to the
    answer and to the subscribers. *)

From Stdlib Require Import Strings.Byte.
From S2P Require Import Prelude Base32 External Identity Event Log Bolt Store StoreFacts StoreFollow StoreQuery Wire Session Crawler Daemon DaemonOps DaemonFacts DaemonNet Server.
#[local] Open Scope go_scope.

Section lemmas.
Context `{BoltLaws, Blake3, Ed25519, Aead, CborText}.
Context `{!CborType Event, !CborType SignedEvent, !CborType EncryptedKey, !CborType Message}.

Lemma signingKey_store passphrase now (w : daemon) : (signingKey passphrase now w).2.1 = w.1.
Proof.
  unfold signingKey. case_decide.
  - unfold handleUnlock. by repeat case_match.
  - by repeat case_match.
Qed.

(** Where a key comes from: memory, within the idle lock, or the passphrase. *)
Definition key_available (passphrase : bytes) (now : Z) (w : daemon) (kp : KeyPair) : Prop :=
  (passphrase = [] ∧ unlocked w.2 = Some kp ∧
     (idleLock w.2 ≤ 0 ∨ now - lastSignAt w.2 ≤ idleLock w.2)%Z) ∨
  (∃ ek priv, passphrase ≠ [] ∧ Store_EncryptedKey w.1 = Ok ek ∧ Decrypt ek passphrase = Ok priv ∧
     KeyPairFromBytes priv = Ok kp).

Lemma signingKey_available passphrase now (w w1 : daemon) kp :
  signingKey passphrase now w = (Ok kp, w1) → key_available passphrase now w kp.
Proof.
  unfold signingKey. case_decide as Hp.
  - unfold handleUnlock. destruct (Store_EncryptedKey w.1) as [ek|e] eqn:He; cbn [wrap]; [|by destruct e].
    destruct (Decrypt ek passphrase) as [priv|e] eqn:Hd; [|by destruct e].
    destruct (KeyPairFromBytes priv) as [k|e] eqn:Hk; cbn [wrap]; [|by destruct e].
    intros [= <- _]. right. by exists ek, priv.
  - destruct (unlocked w.2) as [k|] eqn:Hk; [|done].
    destruct ((0 <? idleLock w.2)%Z && _) eqn:Hi; [done|]. intros [= <- _].
    left. split_and!; [by destruct (decide (passphrase = [])) | done | lia].
Qed.

(** Signing a new event that is not a like. *)
Lemma SignAndAppend_signed kp log ev now s se id s' :
  e_Kind ev ≠ KindLike → SignAndAppend kp log ev now s = (Ok (se, id), s') →
  ∃ se0 own, se = Some se0 ∧ Sign kp (stamped log ev now s) = Ok se0 ∧ ID se0 = Ok id ∧
             s' = set_own own s.
Proof.
  intros Hk. unfold SignAndAppend, stamped. rewrite decide_False by done.
  unfold wrapM, lift, mbind, stM_bind.
  destruct (Sign kp _) as [se0|e]; cbn [wrap]; [|by destruct e].
  destruct (AppendOwnEvent log se0 s) as [[[]|e] s1] eqn:Ha; cbn [wrap]; [|by destruct e].
  destruct (ID se0) as [id0|e] eqn:Hid; cbn [wrap]; [|by destruct e].
  intros [= <- <- <-]. apply AppendOwnEvent_own in Ha as [own ->]. by exists se0, own.
Qed.

(** A name once shown stays in the cache. *)
Lemma displayName_again id s d name d' (f : dstate → dstate) s' :
  displayName id s d = (name, d') → nameCache (f d') = nameCache d' →
  (displayName id s' (f d')).1 = name.
Proof.
  unfold displayName. intros Hd Hf. rewrite Hf.
  destruct (nameCache d !! id) as [n|] eqn:Hn; injection Hd as <- <-.
  - by rewrite Hn.
  - cbn. by rewrite lookup_insert_eq.
Qed.
End lemmas.

(** ** A post *)

Section post.
Context `{BoltLaws, Blake3, Ed25519, Aead, CborText, order : GoRange}.
Context `{!CborType Event, !CborType SignedEvent, !CborType EncryptedKey, !CborType Message}.

(** The item pushed for a new post. *)
Definition post_item (se : SignedEvent) (id : bytes) (kp : KeyPair) (name text : bytes) : feedItem :=
  mkFeedItem (EventID_String id) (e_Timestamp (se_Event se)) (Identity kp) name text 0 [].

Lemma handlePost_run text parentID kp now (w w' : daemon) fields :
  Store_Identity w.1 = Some (Identity kp) →
  handlePost text parentID kp now w = (Ok fields, w') →
  ∃ parent se id name d0 d,
    (if decide (parentID = []) then Ok zero_hash else ParseEventID parentID) = Ok parent ∧
    SignAndAppend kp PostLog (post_event text parent) now w.1 = (Ok (Some se, id), w'.1) ∧
    Sign kp (stamped PostLog (post_event text parent) now w.1) = Ok se ∧ ID se = Ok id ∧
    fields = event_id id ∧ displayName (Identity kp) w'.1 d0 = (name, d) ∧
    w'.2 = broadcast (FeedAdd [post_item se id kp name text]) d ∧
    subs w'.2 = offer (FeedAdd [post_item se id kp name text]) <$> subs w.2.
Proof.
  intros Hid. unfold handlePost.
  set (parse := if decide (parentID = []) then Ok zero_hash else ParseEventID parentID).
  assert (Hp : ∀ p, (if decide (parentID = []) then Ok zero_hash
     else wrap "parent id" (ParseEventID parentID)) = Ok p → parse = Ok p).
  { unfold parse. case_decide; [done|]. by destruct (ParseEventID parentID) as [|[]]. }
  match goal with |- context [match ?x with Ok _ => _ | Err _ => _ end] =>
    destruct x as [parent|e] end; [|done].
  unfold sign_append. destruct (SignAndAppend kp PostLog _ now w.1) as [[[se id]|e] s] eqn:Hsa; [|done].
  pose proof Hsa as (se0 & own & -> & Hsign & HID & ->)%SignAndAppend_signed; [|by vm_compute].
  cbn [on_mem fst snd]. replace (Store_Identity (set_own own w.1)) with (Store_Identity w.1) by done.
  rewrite Hid. cbn [default from_option]. change (Datatypes.id (Identity kp)) with (Identity kp).
  set (d0 := triggerSyncNow _).
  destruct (displayName (Identity kp) (set_own own w.1) d0) as [name d] eqn:Hd. intros [= <- <-].
  exists parent, se0, id, name, d0, d. split_and!; [by apply Hp|done..|].
  pose proof (displayName_same (Identity kp) (set_own own w.1) d0) as Hsame.
  rewrite Hd in Hsame. cbn [snd] in Hsame. unfold same_but_names in Hsame. rewrite Hsame. reflexivity.
Qed.
End post.
