(* ===== verification/Cli.v ===== *)
(** * The command line

    Models [internal/cli/root.go]. A command is a state transformer on a
    [host]: the database file of [--db], the daemon that holds it, other
    files, and what has been printed. A command asks the daemon over the
    control API when one runs and opens the database itself otherwise.

    Flags arrive parsed. A path other than [--db] is written or refused by
    [can_write]; the daemon does nothing of its own while a command runs. *)

From S2P Require Import Prelude Base32 Text External Identity Event Log Bolt Store StoreFollow StoreQuery Wire Session Crawler Bootstrap Daemon DaemonOps DaemonNet Lifecycle Net Server.
#[local] Open Scope go_scope.

Definition GlyphLike : bytes := # "💟".
Definition GlyphPin : bytes := # "✨".
Definition GlyphVerified : bytes := # "🪪".

Definition newline : bytes := [Byte.x0a].

(** [yaml.Marshal] of a whole bootstrap file. *)
Class YamlFile `{Bootstrap.Yaml} := { yaml_MarshalFile : Bootstrap.File → result bytes }.
Class YamlFileLaws `{YamlFile} : Prop := {
  yaml_file_roundtrip f b : yaml_MarshalFile f = Ok b → Bootstrap.yaml_Unmarshal b = Ok f;
}.

(** What a command finds: the path of the database, the paths that can be
    written, the clock, what it draws at random, the terminal, and the network
    of the daemon it talks to. *)
Record env := mkEnv {
  dbPath : bytes;
  can_write : bytes → bool;
  now : Z;                         (* the clock, read first *)
  now' : Z;                        (* and when an event is stamped *)
  seed : bytes;
  salt : bytes;
  gcm_nonce : bytes;
  stdin : result bytes;            (* readPassphrase *)
  is_terminal : bool;
  socket : bytes;                  (* SocketPathFor *)
  default_log : bytes;             (* defaultDaemonLogPath *)
  parse_duration : bytes → result Z;
  dial : option (bytes → result conn);
  session_nonce : result bytes;
  like_nonce : bytes → result bytes;
  arrival : list (result (list SignedEvent)) → list (result (list SignedEvent));
  listen : option bytes → result (bytes * result bytes);
}.

Record host `{Bolt} := mkHost {
  h_store : option store;          (* the database file *)
  h_server : option server;        (* the daemon that has it open *)
  h_files : gmap bytes bytes;
  h_out : bytes;                   (* standard output *)
  h_spawned : list (list bytes);   (* command lines of background processes *)
}.

(** [errors.Is] compares identity: an error that came over gRPC is a status
    error and never this one. *)
Definition ErrNotRunning : error := E "daemon not running (is 'driftnode daemon' started?)".
Definition status_error : error := E "rpc error: code = FailedPrecondition".
Definition unavailable : error := E "rpc error: code = Unavailable".

(** Go's [int32(x)]. *)
Definition wrap_i32 (z : Z) : Z := ((z + 2 ^ 31) mod 2 ^ 32 - 2 ^ 31)%Z.

Section cli.
Context `{Bolt, Blake3, Ed25519, Aead, order : GoRange, Tailcat, YamlFile}.
Context `{!CborType Event, !CborType SignedEvent, !CborType EncryptedKey, !CborType Message,
  !CborType BackupData}.
Context (e : env).

(** ** The host *)

Definition set_store s h := mkHost _ s (h_server h) (h_files h) (h_out h) (h_spawned h).
Definition set_server v h := mkHost _ (h_store h) v (h_files h) (h_out h) (h_spawned h).
Definition set_files f h := mkHost _ (h_store h) (h_server h) f (h_out h) (h_spawned h).

(** [cmd.Println] of the parts of one line. *)
Definition Println (line : bytes) : stM host unit := modify (λ h,
  mkHost _ (h_store h) (h_server h) (h_files h) (h_out h ++ line ++ newline) (h_spawned h)).
Definition Printlns (lines : list bytes) : stM host unit := forM_ lines Println.

Definition ReadFile (path : bytes) : stM host bytes := λ h,
  (match h_files h !! path with Some b => Ok b | None => Err (E "no such file") end, h).
Definition WriteFile (path b : bytes) : stM host unit := λ h,
  if can_write e path then (Ok tt, set_files (<[path := b]> (h_files h)) h)
  else (Err (E "permission denied"), h).

(** [openStoreAt]: a new file gets its buckets; the lock a daemon holds on the
    file runs into the timeout of [bolt.Open]. *)
Definition openStoreAt : stM host store := λ h,
  if decide (dbPath e = []) then (Err (E "no store path: pass --db <path>"), h)
  else if negb (can_write e (dbPath e)) then (Err (E "create data dir: permission denied"), h)
  else match h_server h with
       | Some _ => (Err (Wrap "open store" (E "timeout")), h)
       | None => let s := default empty_store (h_store h) in (Ok s, set_store (Some s) h)
       end.

(** [s, err := openStoreAt(dbPath)] and the work done on [s] till it is
    closed. *)
Definition with_store {A} (op : stM store A) : stM host A := λ h,
  match openStoreAt h with
  | (Err er, h) => (Err er, h)
  | (Ok s, h) => let '(r, s) := op s in (r, set_store (Some s) h)
  end.

Definition daemonSocketPath : result bytes :=
  if decide (dbPath e = []) then Err (E "no store path: pass --db <path>") else Ok (socket e).

(** [dialDaemon]: the probe of the control socket. *)
Definition dialDaemon (h : host) : result unit :=
  _ ← daemonSocketPath;
  match h_server h with Some _ => Ok tt | None => Err ErrNotRunning end.

(** A call of the control API. No handler recovers from a panic: the daemon
    dies with it. *)
Definition rpc {A} (f : bool → daemon → result A * daemon) : stM host A := λ h,
  match h_server h, h_store h with
  | Some sv, Some s =>
      match f (sv_ephemeral sv) (s, sv_mem sv) with
      | (Ok a, (s, d)) => (Ok a, set_server (Some (on_server (λ _, d) sv)) (set_store (Some s) h))
      | (Err (Panic _), (s, _)) => (Err unavailable, set_server None (set_store (Some s) h))
      | (Err _, (s, d)) =>
          (Err status_error, set_server (Some (on_server (λ _, d) sv)) (set_store (Some s) h))
      end
  | _, _ => (Err unavailable, h)
  end.

(** [if cl, cc, derr := dialDaemon(); derr == nil { ... }] and then offline:
    the shape of every command that works both ways. *)
Definition online_or {A} (call : stM host A) (show : A → stM host unit) (offline : stM host unit)
    : stM host unit := λ h,
  match dialDaemon h with
  | Err _ => offline h
  | Ok _ =>
      match call h with
      | (Ok a, h) => show a h
      | (Err er, h) => if error_is er ErrNotRunning then offline h else (Err er, h)
      end
  end.

(** A command only the daemon can serve. *)
Definition online {A} (call : stM host A) (show : A → stM host unit) : stM host unit := λ h,
  match dialDaemon h with
  | Err er => (Err er, h)
  | Ok _ => (a ← call; show a) h
  end.

Definition usage (m : string) : stM host unit := lift (Err (E m)).

(** ** The key *)

Definition loadKey (passphrase : bytes) (s : store) : result KeyPair :=
  ek ← wrap "read encrypted key" (Store_EncryptedKey s);
  priv ← wrap "decrypt key" (Decrypt ek passphrase);
  KeyPairFromBytes priv.

(** A write of the user's own, offline: the passphrase, the store, the key. *)
Definition offline_sign {A} (passphrase : bytes) (op : KeyPair → stM store A) : stM host A :=
  if decide (passphrase = []) then
    lift (Err (E "--passphrase is required when the daemon is not running"))
  else with_store (kp ← read (loadKey passphrase); op kp).

(** The same write by the daemon. *)
Definition call_sign (r : signing) (passphrase : bytes) : stM host bytes :=
  rpc (λ _, rpc_sign (dial e) (session_nonce e) r passphrase (now e) (now' e)).

(** ** [init] and [whoami] *)

Definition initCmd (passphrase : bytes) : stM host unit :=
  if decide (passphrase = []) then usage "--passphrase is required"
  else
    id ← with_store (
      let kp := NewKeyPair (seed e) in
      ek ← wrapM "encrypt key" (lift (Encrypt DefaultKeyEncryption (salt e) (gcm_nonce e)
             (kp_Private kp) passphrase));
      _ ← wrapM "init identity" (InitIdentity kp ek);
      mret (Identity kp));
    Println id.

Definition field_line (label value : bytes) : list bytes :=
  if decide (value = []) then [] else [label ++ value].

Definition printWhoami (r : WhoamiResp) : stM host unit := Printlns (
  [wh_Identity r] ++
  (if decide (wh_Token r = []) then []
   else [ # "address: " ++ wh_Token r ++ (if wh_Stable r then # " (stable)" else # " (ephemeral)")]) ++
  field_line (# "zen name: ") (wh_DisplayName r) ++
  (if wh_HasAvatar r then [ # "avatar: (present)"] else []) ++
  field_line (# "bio: ") (wh_Bio r) ++
  field_line (# "first name: ") (wh_FirstName r) ++
  field_line (# "last name: ") (wh_LastName r) ++
  field_line (# "location: ") (wh_Location r)).

(** The view read from the store: a token only from a stored key. *)
Definition whoami_offline (s : store) : result WhoamiResp :=
  match Store_Identity s with
  | None => Err (E "no identity found; run 'driftnode init' first")
  | Some id =>
      let token := match TransportKey s with
                   | Some tk => match AddrFromKeyBytes tk with Ok a => a | Err _ => [] end
                   | None => []
                   end in
      let prof := match OwnEvents ProfileLog s with Ok l => Log_Profile l | Err _ => None end in
      let det := match OwnEvents DetailLog s with Ok l => Log_Detail l | Err _ => None end in
      Ok (mkWhoami id token (bool_decide (token ≠ [])) (default [] (DisplayName <$> prof))
        (match prof ≫= AvatarHash with Some h => negb (ContentHash_IsZero h) | None => false end)
        (default [] (Bio <$> det)) (default [] (FirstName <$> det)) (default [] (LastName <$> det))
        (default [] (Location <$> det)))
  end.

Definition whoamiCmd : stM host unit :=
  online_or (rpc (λ ephemeral w, (rpc_Whoami ephemeral w, w))) printWhoami
    (r ← with_store (read whoami_offline); printWhoami r).

(** ** [post], [like], [profile], [detail] *)

Definition post_offline (text parentID : bytes) (kp : KeyPair) : stM store bytes :=
  parent ← (if decide (parentID = []) then mret zero_hash
            else wrapM "parent id" (lift (ParseEventID parentID)));
  r ← SignAndAppend kp PostLog (post_event text parent) (now' e);
  mret r.2.

Definition postCmd (text passphrase parentID : bytes) : stM host unit :=
  online_or (call_sign (SPost text parentID) passphrase) Println
    (id ← offline_sign passphrase (post_offline text parentID); Println (EventID_String id)).

Definition like_offline (postID : bytes) (kp : KeyPair) : stM store bytes :=
  target ← wrapM "post id" (lift (ParseEventID postID));
  if EventID_IsZero target then lift (Err (E "post id required"))
  else r ← SignAndAppend kp PostLog (like_event target) (now' e); mret r.2.

Definition likeCmd (postID passphrase : bytes) : stM host unit :=
  online_or (call_sign (SLike postID) passphrase) Println
    (id ← offline_sign passphrase (like_offline postID); Println (EventID_String id)).

Definition profile_offline (name : bytes) (kp : KeyPair) : stM store bytes :=
  r ← SignAndAppend kp ProfileLog (profile_event name) (now' e); mret r.2.

Definition profileCmd (name passphrase : bytes) : stM host unit :=
  if decide (name = []) then usage "--name is required"
  else online_or (call_sign (SProfile name) passphrase) Println
    (id ← offline_sign passphrase (profile_offline name); Println (EventID_String id)).

Definition detail_offline (bio firstName lastName location : bytes) (kp : KeyPair) : stM store bytes :=
  r ← SignAndAppend kp DetailLog (detail_event bio firstName lastName location) (now' e); mret r.2.

(** Offline the ID is printed twice. *)
Definition detailCmd (bio firstName lastName location passphrase : bytes) : stM host unit :=
  if decide (bio = [] ∧ firstName = [] ∧ lastName = [] ∧ location = []) then
    usage "provide at least one of --bio, --first-name, --last-name, --location"
  else online_or (call_sign (SDetail bio firstName lastName location) passphrase) Println
    (id ← offline_sign passphrase (detail_offline bio firstName lastName location);
     Printlns [EventID_String id; EventID_String id]).

(** ** [follow] and [unfollow] *)

Definition follow_offline (arg : bytes) (kp : KeyPair) : stM store bytes :=
  target ← lift (ResolvePubkey arg);
  r ← Store_Follow kp target (now' e);
  mret r.2.

Definition followCmd (arg passphrase : bytes) : stM host unit :=
  let show id := Println (# "followed " ++ id) in
  online_or (call_sign (SFollow arg) passphrase) show
    (id ← offline_sign passphrase (follow_offline arg); show id).

Definition unfollow_offline (arg : bytes) (kp : KeyPair) : stM store bytes :=
  target ← lift (ResolvePubkey arg);
  r ← Store_Unfollow kp target (now' e);
  mret r.2.

Definition unfollowCmd (arg passphrase : bytes) : stM host unit :=
  let show id := Println (# "unfollowed " ++ id) in
  online_or (call_sign (SUnfollow arg) passphrase) show
    (id ← offline_sign passphrase (unfollow_offline arg); show id).

(** ** [feed] *)

Definition short_author (author : bytes) : bytes :=
  if 16 <? length author then take 16 author else author.

(** One line of the feed, the same in both modes. *)
Definition feed_line (ts : Z) (author text : bytes) (likeCount : Z) (likers : list bytes) (id : bytes)
    : bytes :=
  FormatTime ts ++ # "  " ++ author ++ # "> " ++ text ++
  (if (0 <? likeCount)%Z
   then # "  " ++ show_Z likeCount ++ # " " ++ GlyphLike ++ # ": " ++ join (# ", ") likers else []) ++
  (if decide (id = []) then [] else # "  [" ++ id ++ # "]").

Definition item_line (it : feedItem) : bytes :=
  feed_line (fi_Timestamp it)
    (if decide (fi_Name it = []) then short_author (fi_Author it) else fi_Name it)
    (fi_Text it) (fi_LikeCount it) (fi_Likers it) (fi_ID it).
Definition printFeedItems (items : list feedItem) : stM host unit := Printlns (item_line <$> items).

(** The loop of [feedOnline]. [items[:limit-shown]] panics below zero. *)
Fixpoint feedOnline (fuel : nat) (limit : Z) (mine allLikes : bool) (page shown : Z) : stM host unit :=
  match fuel with
  | O => lift (Err (E "out of fuel"))
  | S fuel =>
      r ← wrapM "feed page" (rpc (λ _, rpc_FeedPage (dial e) (arrival e) (like_nonce e) (wrap_i32 page) mine allLikes));
      let n := Z.of_nat (length r.1) in
      items ← lift (if (0 <? limit)%Z && (limit <? shown + n)%Z then slice r.1 0 (limit - shown) else Ok r.1);
      _ ← printFeedItems items;
      let shown := (shown + Z.of_nat (length items))%Z in
      if negb r.2 then mret tt
      else if (0 <? limit)%Z && (limit <=? shown)%Z then mret tt
      else feedOnline fuel limit mine allLikes (page + 1) shown
  end.

(** The name a person goes by, or the identity. *)
Definition name_or_id (s : store) (id : bytes) : bytes :=
  if decide (display id s = []) then id else display id s.

(** [postLikes[pid]], in the order of the events read. *)
Definition post_likers (s : store) (events : list SignedEvent) (pid : bytes) : list bytes :=
  (λ se, name_or_id s (se_Author se)) <$> filter (λ se, like_ref se = Some pid) events.

Definition offline_line (s : store) (events : list SignedEvent) (p : SignedEvent) (post : Post) : bytes :=
  let pid := match ID p with Ok id => id | Err _ => zero_hash end in
  let likers := post_likers s events pid in
  feed_line (e_Timestamp (se_Event p))
    (if decide (display (se_Author p) s = []) then short_author (se_Author p)
     else display (se_Author p) s)
    (reply_text post) (Z.of_nat (length likers)) likers (EventID_String pid).

(** The loop that prints; a post without a payload is a nil dereference. *)
Fixpoint print_posts (s : store) (events : list SignedEvent) (mine : option bytes)
    (posts : list SignedEvent) : stM host unit :=
  match posts with
  | [] => mret tt
  | p :: posts =>
      if decide (mine ≠ None ∧ mine ≠ Some (se_Author p)) then print_posts s events mine posts
      else
        match e_Post (se_Event p) with
        | None => lift (Err (Panic "nil pointer dereference"))
        | Some post => _ ← Println (offline_line s events p post); print_posts s events mine posts
        end
  end.

(** The limit is taken before the posts of others are left out. *)
Definition feedOffline (limit : Z) (mine : bool) : stM host unit :=
  r ← with_store (s ← get; l ← wrapM "read posts" (read AllPosts); mret (s, l));
  let '(s, events) := r in
  let posts := Posts events in
  let posts := if (0 <? limit)%Z && (limit <? Z.of_nat (length posts))%Z
               then take (Z.to_nat limit) posts else posts in
  print_posts s events (if mine then Some (default [] (Store_Identity s)) else None) posts.

Definition feedCmd (fuel : nat) (limit : Z) (mine allLikes : bool) : stM host unit := λ h,
  match dialDaemon h with
  | Ok _ => feedOnline fuel limit mine allLikes 0 0 h
  | Err _ =>
      if allLikes then usage "--all-likes requires the daemon" h else feedOffline limit mine h
  end.

(** ** [follows] and [followers] *)

(** [subscribeSnapshot]: the subscriber goes when the connection closes. *)
Definition subscribeSnapshot : stM host Snapshot :=
  wrapM "subscribe" (rpc (λ _, on_state (λ s d, snapshot s d))).

Definition identitiesFromStore (ids : list bytes) (s : store) (withPinned : bool) : list entry :=
  (λ id, mkEntry id (display id s) (IsVerified id s) (withPinned && IsPinned id s)) <$> ids.

Definition identity_line (en : entry) : bytes :=
  (if en_Verified en then GlyphVerified ++ # " " else []) ++
  (if en_Pinned en then GlyphPin ++ # " " else []) ++
  en_Identity en ++ (if decide (en_Name en = []) then [] else [Byte.x09] ++ en_Name en).
Definition printIdentities (items : list entry) : stM host unit := Printlns (identity_line <$> items).

Definition followsCmd : stM host unit :=
  online_or subscribeSnapshot (λ snap, printIdentities (sn_Follows snap))
    (items ← with_store (s ← get; ids ← read FollowGraph; mret (identitiesFromStore ids s true));
     printIdentities items).

Definition followersCmd : stM host unit :=
  online_or subscribeSnapshot (λ snap, printIdentities (sn_Followers snap))
    (items ← with_store (s ← get; ids ← read ReceivedFollowers; mret (identitiesFromStore ids s false));
     printIdentities items).

(** ** [zens] *)

Definition zen_line (z : zenInfo) : bytes :=
  let identity := if decide (z_Identity z = []) then # "(unknown)" else z_Identity z in
  (if z_Verified z then GlyphVerified else # " ") ++ # " " ++ z_Status z ++ # "  " ++
  (if decide (z_Name z = []) then [] else z_Name z ++ # "  ") ++
  identity ++ # " (" ++ z_Kind z ++ # ")".

Definition zensListCmd : stM host unit :=
  online subscribeSnapshot (λ snap,
    match sn_Zens snap with
    | [] => Println (# "(no zens connected)")
    | zs => Printlns (zen_line <$> zs)
    end).

(** [zens verify], [unverify], [pin] and [unpin]: the daemon's method or the
    store's, on an identity checked first. *)
Definition mark_cmd (call : bytes → daemon → result bytes * daemon) (op : bytes → stM store unit)
    (word arg : bytes) : stM host unit :=
  id ← wrapM "invalid identity" (lift (ParseIdentity arg));
  let show := Println (word ++ id) in
  online_or (rpc (λ _, call id)) (λ _, show) (_ ← with_store (op id); show).

Definition zensVerifyCmd := mark_cmd rpc_Verify VerifyIdentity (# "verified ").
Definition zensUnverifyCmd := mark_cmd rpc_Unverify UnverifyIdentity (# "unverified ").
Definition zensPinCmd := mark_cmd rpc_Pin PinIdentity (# "pinned ").
Definition zensUnpinCmd := mark_cmd rpc_Unpin UnpinIdentity (# "unpinned ").

(** ** [key] and [backup] *)

Definition path_or (path : bytes) (d : bytes) : bytes := if decide (path = []) then d else path.

Definition keyExportCmd (outPath : bytes) : stM host unit :=
  ek ← with_store (wrapM "read key" (read Store_EncryptedKey));
  b ← wrapM "encode" (lift (CanonicalEncode ek));
  let outPath := path_or outPath (# "driftnode-key.cbor") in
  _ ← wrapM "write" (WriteFile outPath b);
  Println (# "exported encrypted key to " ++ outPath).

(** The database is opened first, then the file is read. *)
Definition read_input (path : bytes) : stM host bytes :=
  _ ← with_store (mret tt);
  wrapM "read" (ReadFile path).

(** What [key import] does to the store: the key is replaced before it is
    known to decrypt. *)
Definition import_key (b passphrase : bytes) : stM store bytes :=
  ek ← wrapM "decode" (lift (CanonicalDecode b));
  _ ← wrapM "store key" (PutEncryptedKey ek);
  priv ← wrapM "decrypt key" (lift (Decrypt ek passphrase));
  kp ← wrapM "reconstruct keypair" (lift (KeyPairFromBytes priv));
  _ ← wrapM "store identity" (SetIdentity (Identity kp));
  mret (Identity kp).

Definition keyImportCmd (path passphrase : bytes) : stM host unit :=
  if decide (passphrase = []) then
    usage "--passphrase is required (needed to derive and store the identity)"
  else
    b ← read_input path;
    id ← with_store (import_key b passphrase);
    Println (# "imported key for " ++ id).

Definition set_bd_TransportKey (k : EncryptedKey) (bd : BackupData) : BackupData :=
  mkBackupData (bd_Key bd) (bd_OwnLogs bd) (bd_Petnames bd) (bd_Verified bd) (bd_Pinned bd) (Some k).

(** The backup of the store; the transport key sealed under the passphrase. *)
Definition backup_data (passphrase : bytes) (s : store) : result BackupData :=
  bd ← wrap "export" (ExportBackup s);
  match TransportKey s with
  | None => Ok bd
  | Some tk =>
      if decide (passphrase = []) then
        Err (E "--passphrase is required to encrypt the transport key into the backup")
      else
        enc ← wrap "encrypt transport key"
                (EncryptBytes DefaultKeyEncryption (salt e) (gcm_nonce e) tk passphrase);
        Ok (set_bd_TransportKey enc bd)
  end.

Definition backupExportCmd (outPath passphrase : bytes) : stM host unit :=
  bd ← with_store (read (backup_data passphrase));
  b ← wrapM "encode" (lift (CanonicalEncode bd));
  let outPath := path_or outPath (# "driftnode-backup.cbor") in
  _ ← wrapM "write" (WriteFile outPath b);
  Println (# "exported backup to " ++ outPath).

Definition restore_backup (b passphrase : bytes) : stM store unit :=
  bd ← wrapM "decode" (lift (CanonicalDecode b));
  _ ← wrapM "import" (ImportBackup bd);
  match bd_TransportKey bd with
  | None => mret tt
  | Some sealed =>
      if decide (passphrase = []) then
        lift (Err (E "--passphrase is required to decrypt the transport key"))
      else
        tk ← wrapM "decrypt transport key" (lift (DecryptBytes sealed passphrase));
        wrapM "restore transport key" (PutTransportKey tk)
  end.

Definition backupImportCmd (path passphrase : bytes) : stM host unit :=
  b ← read_input path;
  _ ← with_store (restore_backup b passphrase);
  Println (# "imported backup").

(** ** [daemon] *)

(** The flags of [daemon]; the text of a flag that was not given is empty. *)
Record daemonFlags := mkFlags {
  f_detached : bool;
  f_detachedChild : bool;
  f_log : bytes;
  f_ephemeral : bool;
  f_bootstrap : bytes;
  f_bootstrapKey : bytes;
  f_idleLock : bytes;
  f_syncConcurrency : Z;
  f_changed : list (bytes * bytes);   (* the forwarded flags that were given, with their text *)
}.

Definition decodeBootstrapKey (keyFile : bytes) : stM host (option bytes) :=
  if decide (keyFile = []) then mret None
  else
    b ← wrapM "read bootstrap key" (ReadFile keyFile);
    raw ← wrapM "decode bootstrap key" (lift (b64_decode (TrimSpace b)));
    if negb (length raw =? PublicKeySize) then lift (Err (E "bootstrap key: wrong length"))
    else mret (Some raw).

(** The command line of the background process. A bool flag is forwarded as
    two words, which leaves its value a positional argument. *)
Definition childArgs (logPath : bytes) (changed : list (bytes * bytes)) : list bytes :=
  [ # "--db"; dbPath e; # "daemon"; # "--detached"; # "--detached-child"; # "--log"; logPath] ++
  mjoin ((λ '(f, v), [ # "--" ++ f; v]) <$> changed).

Definition mustSocketPath : bytes := match daemonSocketPath with Ok s => s | Err _ => # "(unknown)" end.

Definition spawnDetachedDaemon (logPath : bytes) (changed : list (bytes * bytes)) : stM host unit :=
  let logPath := path_or logPath (default_log e) in
  _ ← wrapM "open log file" (WriteFile logPath []);
  _ ← modify (λ h, mkHost _ (h_store h) (h_server h) (h_files h) (h_out h)
                     (h_spawned h ++ [childArgs logPath changed]));
  Printlns [ # "daemon started detached on " ++ mustSocketPath; # "logs: " ++ logPath;
             # "use 'driftnode daemon stop' to stop it"].

(** The daemon as it is before [Start]. *)
Definition configure (fl : daemonFlags) : stM host server :=
  let sv := if f_ephemeral fl then SetEphemeralKey server_New else server_New in
  sv ← (if decide (f_bootstrap fl = []) then mret sv
        else verifyKey ← decodeBootstrapKey (f_bootstrapKey fl);
             mret (SetBootstrap (f_bootstrap fl) verifyKey sv));
  sv ← (if decide (f_idleLock fl = []) then mret sv
        else dur ← wrapM "--idle-lock" (lift (parse_duration e (f_idleLock fl)));
             mret (on_server (SetIdleLock dur) sv));
  mret (SetSyncConcurrency (f_syncConcurrency fl) sv).

(** On a terminal the key is unlocked before [Start]. *)
Definition unlock_first (s : store) (sv : server) : stM host server :=
  if is_ok (Store_EncryptedKey s) && is_terminal e then
    passphrase ← lift (stdin e);
    if decide (passphrase = []) then mret sv
    else
      kp ← lift (loadKey passphrase s);
      _ ← Println (# "key unlocked");
      mret (on_server (SetUnlockedKey kp (now e)) sv)
  else mret sv.

(** From here the daemon runs; the command returns when it has stopped. *)
Definition daemonCmd (fl : daemonFlags) : stM host unit :=
  if f_detached fl && negb (f_detachedChild fl) then spawnDetachedDaemon (f_log fl) (f_changed fl)
  else
    s ← openStoreAt;
    sock ← lift daemonSocketPath;
    sv ← configure fl;
    sv ← unlock_first s sv;
    let '(s, d) := Start (listen e) (sv_ephemeral sv) (s, sv_mem sv) in
    _ ← modify (λ h, set_server (Some (on_server (λ _, d) sv)) (set_store (Some s) h));
    Printlns [ # "daemon started on " ++ sock;
               if f_detachedChild fl then # "logs: " ++ f_log fl else # "press Ctrl+C to stop"].

Definition daemonUnlockCmd (passphrase : bytes) : stM host unit :=
  passphrase ← (if decide (passphrase = []) then
                  p ← lift (stdin e);
                  if decide (p = []) then lift (Err (E "passphrase required")) else mret p
                else mret passphrase);
  online (rpc (λ _, rpc_Unlock passphrase (now e))) (λ _, Println (# "key unlocked")).

Definition daemonLockCmd : stM host unit :=
  online (rpc (λ _ w, (Ok tt, rpc_Lock w))) (λ _, Println (# "key locked")).

(** [Stop] of the control API: the answer, then the daemon lets go of the
    store. *)
Definition call_Stop : stM host unit := λ h,
  match h_server h with
  | Some _ => (Ok tt, set_server None h)
  | None => (Err unavailable, h)
  end.

Definition daemonStopCmd : stM host unit := online call_Stop (λ _, Println (# "daemon stopping")).

(** The old daemon is taken to be gone within the five seconds it gets. *)
Definition daemonRestartCmd (logPath : bytes) (changed : list (bytes * bytes)) : stM host unit :=
  _ ← lift daemonSocketPath;
  _ ← (λ h, match dialDaemon h with
            | Ok _ => (_ ← call_Stop; Println (# "daemon stopping")) h
            | Err _ => (Ok tt, h)
            end);
  spawnDetachedDaemon logPath changed.

Definition status_lines (r : StatusResp) : list bytes :=
  [ # "running: true"; # "socket: " ++ socket e;
    # "zens: " ++ decimal (N.of_nat (sr_Zens r));
    # "transport: " ++ bool_text (sr_Transport r);
    # "unlocked: " ++ bool_text (sr_Unlocked r)].
Definition daemonStatusCmd : stM host unit := λ h,
  match dialDaemon h with
  | Err _ => Println (# "not running") h
  | Ok _ => match rpc (λ _ w, (Ok (rpc_Status w), w)) h with
            | (Ok r, h) => Printlns (status_lines r) h
            | (Err _, h) => Println (# "not running") h
            end
  end.

Definition syncCmd : stM host unit :=
  online (rpc (λ _ w, (Ok tt, rpc_Sync w))) (λ _, Println (# "sync triggered")).

Definition rotateKeyCmd : stM host unit :=
  online (rpc (λ ephemeral, rpc_RotateKey (listen e) ephemeral)) (λ tok, Printlns
    [ # "rotated address token:"; # "address: " ++ tok ++ # " (stable)";
      # "followers must re-discover your identity to use the new token"]).

(** Up to [tui.Run], with the identity it is run for. *)
Definition tuiCmd : stM host bytes :=
  let down := "daemon not running; start it with 'driftnode daemon' first" in
  _ ← lift daemonSocketPath;
  _ ← wrapM down (read dialDaemon);
  whoami ← wrapM down (rpc (λ ephemeral w, (rpc_Whoami ephemeral w, w)));
  if decide (wh_Identity whoami = []) then
    lift (Err (E "no identity found; run 'driftnode init' first"))
  else λ h,
    match rpc (λ _ w, (Ok (rpc_Status w), w)) h with
    | (Ok st, h) =>
        if sr_Unlocked st then (Ok (wh_Identity whoami), h)
        else (passphrase ← lift (stdin e);
              _ ← rpc (λ _, rpc_Unlock passphrase (now e));
              mret (wh_Identity whoami)) h
    | (Err _, h) => (Ok (wh_Identity whoami), h)
    end.

(** ** [bootstrap] and [relay] *)

(** A raw private key read from a file. *)
Definition read_private (path : bytes) : stM host bytes :=
  keyData ← wrapM "read key" (ReadFile path);
  if negb (length keyData =? PrivateKeySize) then lift (Err (E "key file: wrong length"))
  else mret keyData.

Definition bootstrapKeygenCmd (keyOut keyIn : bytes) : stM host unit :=
  if decide (keyIn ≠ []) then
    priv ← read_private keyIn;
    Println (b64_encode (ed_public priv))
  else if decide (keyOut = []) then
    usage "--key-out is required (or use --key to derive a public key)"
  else
    let kp := NewKeyPair (seed e) in
    _ ← wrapM "write private key" (WriteFile keyOut (kp_Private kp));
    Println (b64_encode (kp_Public kp)).

(** [bootstrap.Load]. *)
Definition load_file (path : bytes) : stM host Bootstrap.File :=
  b ← wrapM "read bootstrap" (ReadFile path);
  lift (Bootstrap.Parse b).

Definition bootstrapSignCmd (file keyFile : bytes) : stM host unit :=
  bf ← load_file file;
  priv ← read_private keyFile;
  bf ← lift (Bootstrap.Sign priv bf);
  out ← lift (yaml_MarshalFile bf);
  _ ← WriteFile file out;
  Println (# "signed " ++ file).

Definition count_line {A} (label : bytes) (l : list A) : bytes :=
  label ++ show_Z (Z.of_nat (length l)).

Definition bootstrapVerifyCmd (file keyFile : bytes) : stM host unit :=
  bf ← load_file file;
  _ ← Printlns [ # "version: " ++ show_Z (Bootstrap.Version bf);
                 count_line (# "seed_relays: ") (Bootstrap.SeedRelays bf);
                 count_line (# "derp_relays: ") (Bootstrap.DERPRelays bf);
                 count_line (# "seed_zens: ") (Bootstrap.SeedZens bf);
                 count_line (# "crawl_seeds: ") (Bootstrap.CrawlSeeds bf)];
  if decide (Bootstrap.Signature bf = []) then Println (# "signature: (none)")
  else if decide (keyFile = []) then
    Println (# "signature: present (no --key provided to verify against)")
  else
    pub ← decodeBootstrapKey keyFile;
    (* a nil key cannot come from a non-empty path *)
    _ ← wrapM "signature verification failed" (lift (Bootstrap.Verify (default [] pub) bf));
    Println (# "signature: verified").

Definition relayStatusCmd : stM host unit :=
  Printlns [ # "relay role: not advertised";
             # "(use 'relay enable' to advertise as a bootstrap candidate)"].
Definition relayEnableCmd : stM host unit :=
  Println (# "relay enable: not yet implemented (requires DHT integration)").
Definition relayDisableCmd : stM host unit := Println (# "relay disable: not yet implemented").
End cli.
