(* ===== verification/CliFacts.v ===== *)
(** * The command line: lemmas

    What a command does on a host with and without a daemon, and what it
    prints. *)

From S2P Require Import Prelude Base32 Text External Identity Event Log Bolt Store StoreFacts StoreFollow StoreQuery Wire Session Crawler Bootstrap Daemon DaemonOps DaemonFacts DaemonNet Lifecycle Net Server Cli.
#[local] Open Scope go_scope.

Lemma error_is_E er m : error_is er (E m) = false.
Proof. by induction er. Qed.

Section cli.
Context `{Bolt, Blake3, Ed25519, Aead, order : GoRange, Tailcat, YamlFile}.
Context `{!CborType Event, !CborType SignedEvent, !CborType EncryptedKey, !CborType Message,
  !CborType BackupData}.
Context (e : env).

(** A host whose database holds [s]: no daemon runs, or [sv] does. *)
Definition offline_at (s : store) (h : host) : Prop :=
  dbPath e ≠ [] ∧ can_write e (dbPath e) = true ∧ h_server h = None ∧ h_store h = Some s.
Definition served_by (sv : server) (s : store) (h : host) : Prop :=
  dbPath e ≠ [] ∧ h_server h = Some sv ∧ h_store h = Some s.

Lemma with_store_at {A} (op : stM store A) s h :
  offline_at s h → with_store e op h = let '(r, s) := op s in (r, set_store (Some s) h).
Proof.
  intros (Hdb & Hw & Hsv & Hs). unfold with_store, openStoreAt.
  rewrite decide_False, Hw, Hsv, Hs by done. cbn. by destruct (op s).
Qed.

Lemma set_store_at s h : offline_at s h → set_store (Some s) h = h.
Proof. intros (_ & _ & _ & Hs). destruct h. cbn in *. by subst. Qed.

Lemma with_store_read {A} (f : store → result A) s h :
  offline_at s h → with_store e (read f) h = (f s, h).
Proof. intros Hoff. rewrite (with_store_at _ s) by done. cbn. by rewrite set_store_at. Qed.

Lemma read_input_at path b s h :
  offline_at s h → h_files h !! path = Some b → read_input e path h = (Ok b, h).
Proof.
  intros Hoff Hb. unfold read_input, mbind, stM_bind. rewrite (with_store_at _ s) by done.
  cbn. rewrite set_store_at by done. unfold wrapM, ReadFile. by rewrite Hb.
Qed.

Lemma offline_set s s' h : offline_at s h → offline_at s' (set_store (Some s') h).
Proof. by intros (? & ? & ? & _). Qed.

Lemma online_or_at {A} (call : stM host A) show offline s h :
  offline_at s h → online_or e call show offline h = offline h.
Proof.
  intros (Hdb & _ & Hsv & _). unfold online_or, dialDaemon, daemonSocketPath.
  rewrite decide_False, Hsv by done. done.
Qed.

(** An answer of the daemon is final: no error of a call is taken for a daemon
    that does not run. *)
Lemma online_or_by {A} (call : stM host A) show offline sv s h :
  served_by sv s h →
  online_or e call show offline h =
    match call h with (Ok a, h) => show a h | (Err er, h) => (Err er, h) end.
Proof.
  intros (Hdb & Hsv & _). unfold online_or, dialDaemon, daemonSocketPath.
  rewrite decide_False, Hsv by done. cbn. destruct (call h) as [[a|er] h']; [done|].
  unfold ErrNotRunning. by rewrite error_is_E.
Qed.

Definition after (sv : server) (w : daemon) (h : host) : host :=
  set_server (Some (on_server (λ _, w.2) sv)) (set_store (Some w.1) h).

Lemma rpc_by {A} (f : bool → daemon → result A * daemon) sv s h :
  served_by sv s h →
  rpc f h =
    match f (sv_ephemeral sv) (s, sv_mem sv) with
    | (Ok a, w) => (Ok a, after sv w h)
    | (Err (Panic _), w) => (Err unavailable, set_server None (set_store (Some w.1) h))
    | (Err _, w) => (Err status_error, after sv w h)
    end.
Proof.
  intros (_ & Hsv & Hs). unfold rpc, after. rewrite Hsv, Hs.
  destruct (f _ _) as [[a|[]] [s' d]]; done.
Qed.

Lemma served_after sv s w h :
  served_by sv s h → served_by (on_server (λ _, w.2) sv) w.1 (after sv w h).
Proof. by intros (? & _). Qed.

(** ** Printing *)

Definition say (lines : list bytes) (h : host) : host :=
  mkHost _ (h_store h) (h_server h) (h_files h)
    (h_out h ++ mjoin ((λ l, l ++ newline) <$> lines)) (h_spawned h).

Lemma Println_say l h : Println l h = (Ok tt, say [l] h).
Proof. unfold Println, modify, say. cbn. by rewrite app_nil_r. Qed.

Lemma say_say l1 l2 h : say l2 (say l1 h) = say (l1 ++ l2) h.
Proof. unfold say. cbn. by rewrite fmap_app, join_app, (assoc_L (++)). Qed.

Lemma say_nil h : say [] h = h.
Proof. unfold say. cbn. rewrite app_nil_r. by destruct h. Qed.

Lemma Printlns_say ls h : Printlns ls h = (Ok tt, say ls h).
Proof.
  unfold Printlns. revert h. induction ls as [|l ls IH]; intros h; [by rewrite say_nil|].
  cbn [forM_]. unfold mbind, stM_bind. rewrite Println_say, IH. by rewrite say_say.
Qed.

(** ** The signing key *)

(** The daemon decrypts the key as the command does. *)
Lemma signingKey_loadKey passphrase now s d :
  passphrase ≠ [] →
  ∃ d', signingKey passphrase now (s, d) =
    (match loadKey passphrase s with
     | Ok kp => Ok kp
     | Err er => (signingKey passphrase now (s, d)).1
     end, (s, d')) ∧
    is_ok (signingKey passphrase now (s, d)).1 = is_ok (loadKey passphrase s) ∧ zens d' = zens d.
Proof.
  intros Hp. unfold signingKey. rewrite decide_True by done.
  unfold handleUnlock, loadKey. cbn [fst snd].
  destruct (Store_EncryptedKey s) as [ek|er]; [|destruct er; by eexists]. cbn.
  destruct (Decrypt ek passphrase) as [priv|er]; [|destruct er; by eexists]. cbn.
  destruct (KeyPairFromBytes priv) as [kp|er]; [|destruct er; by eexists]. cbn. eexists.
  split_and!; [done|done|]. by destruct (negb _ && _).
Qed.

(** ** Both ways *)

(** An answer of the daemon against one computed from the store: the store as
    [g] leaves it, and the answer [f] of the same value, or an error of each. *)
Definition agrees {A B} (f : A → B) (g : store → store) (on : result B * store)
    (off : result A * store) : Prop :=
  on.2 = (if is_ok off.1 then g off.2 else off.2) ∧
  match on.1, off.1 with Ok b, Ok a => b = f a | Err _, Err _ => True | _, _ => False end.

(** The same of two commands: the database, and what was printed where [same]
    asks for it. *)
Definition host_agrees {A B} (same : bool) (f : A → B) (g : store → store) (on : result B * host)
    (off : result A * host) : Prop :=
  h_store on.2 = (if is_ok off.1 then g <$> h_store off.2 else h_store off.2) ∧
  (same = true → h_out on.2 = h_out off.2) ∧
  match on.1, off.1 with Ok b, Ok a => b = f a | Err _, Err _ => True | _, _ => False end.

Lemma rpc_agrees {A B} (f : A → B) g call (op : stM store A) sv s h :
  agrees f g ((call (sv_ephemeral sv) (s, sv_mem sv)).1, (call (sv_ephemeral sv) (s, sv_mem sv)).2.1) (op s) →
  offline_at s h →
  host_agrees true f g (rpc call (set_server (Some sv) h)) (with_store e op h).
Proof.
  intros [Hst Hres] Hoff. pose proof Hoff as (Hdb & _ & _ & Hs).
  assert (served_by sv s (set_server (Some sv) h)) as Hserved by done.
  rewrite (rpc_by _ _ _ _ Hserved), (with_store_at _ _ _ Hoff). cbn [fst snd] in *.
  destruct (call _ _) as [[b|[]] [s1 d1]], (op s) as [[a|er] s2]; cbn [fst snd is_ok] in *; subst; done.
Qed.

Definition answers (r : signing) (kp : KeyPair) (s : store) (d : dstate) : result bytes * store :=
  let out := handle (dial e) (session_nonce e) r kp (now' e) (s, d) in (out.1, out.2.1).

Lemma call_sign_agrees {A} (f : A → bytes) g r op passphrase sv s h :
  passphrase ≠ [] → missing r = None →
  (∀ kp d, zens d = zens (sv_mem sv) → agrees f g (answers r kp s d) (op kp s)) →
  offline_at s h →
  host_agrees true f g (call_sign e r passphrase (set_server (Some sv) h)) (offline_sign e passphrase op h).
Proof.
  intros Hp Hm Hag Hoff. unfold call_sign, offline_sign. rewrite decide_False by done.
  apply rpc_agrees with (s := s); [|done]. unfold rpc_sign. rewrite Hm. unfold with_key.
  destruct (signingKey_loadKey passphrase (now e) s (sv_mem sv) Hp) as (d' & Hsk & Hok & Hz).
  unfold read, mbind, stM_bind. rewrite Hsk.
  destruct (loadKey passphrase s) as [kp|er]; [by apply Hag|].
  destruct (signingKey passphrase (now e) (s, sv_mem sv)).1; [done|]. by split.
Qed.

(** Showing what both return. *)
Lemma online_or_agrees {A} same (f : A → bytes) g call show_on (off : stM host A)
    (show_off : A → stM host unit) sv s h :
  host_agrees true f g (call (set_server (Some sv) h)) (off h) →
  (∀ a, ∃ ls ls', (∀ h, show_on (f a) h = (Ok tt, say ls h)) ∧ (∀ h, show_off a h = (Ok tt, say ls' h)) ∧
     (same = true → ls = ls')) →
  offline_at s h →
  host_agrees same id g (online_or e call show_on (off ≫= show_off) (set_server (Some sv) h))
    (online_or e call show_on (off ≫= show_off) h).
Proof.
  intros (Hs & Ho & Hres) Hshow Hoff. pose proof Hoff as (Hdb & _ & _ & Hst).
  rewrite (online_or_at _ _ _ _ _ Hoff).
  rewrite (online_or_by _ _ _ sv s) by done. unfold mbind, stM_bind.
  destruct (call _) as [[b|er] h1], (off h) as [[a|er'] h2]; cbn [fst snd is_ok] in *; try done.
  - subst. destruct (Hshow a) as (ls & ls' & -> & -> & Hls). split_and!; cbn; [done| |done].
    intros Hsame. by rewrite Ho, Hls.
  - split_and!; [done|by intros _; apply Ho|done].
Qed.

(** ** Each request *)

Lemma SignAndAppend_some kp log ev now s se id s' :
  e_Kind ev ≠ KindLike → SignAndAppend kp log ev now s = (Ok (se, id), s') → is_Some se.
Proof.
  intros Hk. unfold SignAndAppend. rewrite decide_False by done.
  unfold wrapM, lift, mbind, stM_bind.
  destruct (Sign kp _) as [se0|er]; cbn [wrap]; [|by destruct er].
  destruct (AppendOwnEvent log se0 s) as [[[]|er] s1]; cbn [wrap]; [|by destruct er].
  destruct (ID se0) as [id0|er]; cbn [wrap]; [|by destruct er]. by intros [= <- <- <-].
Qed.

Lemma post_agrees text parentID kp s d :
  agrees EventID_String id (answers (SPost text parentID) kp s d) (post_offline e text parentID kp s).
Proof.
  unfold answers, handle, handlePost, post_offline, wrapM, lift, mbind, stM_bind, mret, stM_ret.
  assert (Hsa : ∀ parent,
    let on := match sign_append kp PostLog (post_event text parent) (now' e) (s, d) with
              | (Err er, w) => (Err er, w)
              | (Ok (se, id), w) =>
                  let w := on_mem (λ d, triggerSyncNow (touchSignAt (now' e) (invalidateFeed d))) w in
                  let ownID := default [] (Store_Identity w.1) in
                  let '(name, d) := displayName ownID w.1 w.2 in
                  match se with
                  | None => (Err (Panic "nil pointer dereference"), (w.1, d))
                  | Some se => (Ok (event_id id), (w.1, emitFeedAdd
                      [mkFeedItem (EventID_String id) (e_Timestamp (se_Event se)) ownID name text 0 []] d))
                  end
              end in
    agrees EventID_String id ((answer_field (# "event_id") on).1, (answer_field (# "event_id") on).2.1)
      (match SignAndAppend kp PostLog (post_event text parent) (now' e) s with
       | (Ok a, s') => (Ok a.2, s') | (Err er, s') => (Err er, s') end)).
  { intros parent on. unfold on, sign_append. cbn [fst snd].
    destruct (SignAndAppend kp PostLog _ _ s) as [[[se id]|er] s'] eqn:Hsa; [|done].
    apply SignAndAppend_some in Hsa as [se' ->]; [|by vm_compute].
    cbn [on_mem fst snd]. by destruct (displayName _ _ _). }
  destruct (decide (parentID = [])); [apply Hsa|].
  destruct (ParseEventID parentID) as [parent|er]; [apply Hsa|]. by destruct er.
Qed.

Lemma like_agrees postID kp s d :
  agrees EventID_String id (answers (SLike postID) kp s d) (like_offline e postID kp s).
Proof.
  unfold answers, handle, handleLike, like_offline, wrapM, lift, mbind, stM_bind, mret, stM_ret.
  destruct (ParseEventID postID) as [t|er]; [|by destruct er]. cbn [wrap].
  destruct (EventID_IsZero t); [done|]. unfold sign_append. cbn [fst snd].
  by destruct (SignAndAppend kp PostLog _ _ s) as [[[se id]|er] s'].
Qed.

Lemma profile_agrees name kp s d :
  agrees (λ _, # "ok") id (answers (SProfile name) kp s d) (profile_offline e name kp s).
Proof.
  unfold answers, handle, handleProfile, profile_offline, sign_append, mbind, stM_bind. cbn [fst snd].
  by destruct (SignAndAppend kp ProfileLog _ _ s) as [[[se id]|er] s'].
Qed.

Lemma detail_agrees bio first last loc kp s d :
  agrees (λ _, # "ok") id (answers (SDetail bio first last loc) kp s d)
    (detail_offline e bio first last loc kp s).
Proof.
  unfold answers, handle, handleDetail, detail_offline, sign_append, mbind, stM_bind. cbn [fst snd].
  by destruct (SignAndAppend kp DetailLog _ _ s) as [[[se id]|er] s'].
Qed.

(** A follow of a key nobody was seen with goes the offline way. *)
Lemma follow_agrees arg target kp s d :
  ResolvePubkey arg = Ok target → tokenForIdentity (IdentityFromPubkey target) d = None →
  agrees id id (answers (SFollow arg) kp s d) (follow_offline e arg kp s).
Proof.
  intros Hr Ht. unfold answers, handle, handleFollow, follow_offline. rewrite Hr.
  unfold followByPubkey. cbn [fst snd]. rewrite Ht. unfold writeFollow, lift, mbind, stM_bind.
  cbn [fst snd]. by destruct (Store_Follow kp target _ s) as [[[[o i] id]|er] s'].
Qed.

(** The daemon unbinds the token as well. *)
Definition unbind (arg : bytes) (s : store) : store :=
  match ResolvePubkey arg with
  | Ok target => (DeleteRouting (IdentityFromPubkey target) s).2
  | Err _ => s
  end.

Lemma unfollow_agrees arg kp s d :
  agrees id (unbind arg) (answers (SUnfollow arg) kp s d) (unfollow_offline e arg kp s).
Proof.
  unfold answers, handle, handleUnfollow, unfollow_offline, unbind, lift.
  destruct (ResolvePubkey arg) as [t|er]; [|by destruct er]. unfold Store_Unfollow, mbind, stM_bind.
  cbn [wrap fst snd]. destruct (SignAndAppend kp _ _ _ s) as [[r|er] s']; [|done].
  by destruct (wrapM _ _ _) as [[u|er] s2].
Qed.

Lemma mark_agrees op arg id s d :
  ParseIdentity arg = Ok id →
  agrees (λ _, id) Datatypes.id ((on_identity op id (s, d)).1, (on_identity op id (s, d)).2.1) (op id s).
Proof.
  intros Hid. apply ParseIdentity_Ok in Hid as [-> [pub Hpub]]. unfold on_identity.
  rewrite decide_False by (intros ->; by vm_compute in Hpub).
  assert (ParseIdentity arg = Ok arg) as -> by (apply ParseIdentity_Ok; split; [done|by eexists]).
  cbn [fst snd]. by destruct (op arg s) as [[[]|er] s'].
Qed.
End cli.
