(* ===== verification/CliFeed.v ===== *)
(** * The feed on the command line: lemmas

    The loop of [feedOnline] over the daemon's pages, and the loop that prints
    the feed of a store. *)

From S2P Require Import Prelude Base32 Text External Identity Event Log Bolt Store StoreFacts StoreFollow StoreFollowFacts StoreQuery StoreQueryFacts Wire Session Crawler Bootstrap Daemon DaemonOps DaemonFacts DaemonNet Lifecycle Net Server Cli CliFacts.
#[local] Open Scope go_scope.

Section names.
Context `{Bolt, Blake3, Ed25519, order : GoRange}.
Context `{!CborType Event, !CborType SignedEvent}.
Implicit Types (d : dstate) (s : store).

Lemma same_but_names_feed d d' : same_but_names d d' → feedCache d' = feedCache d.
Proof. unfold same_but_names. intros ->. by destruct d. Qed.

Lemma feedItemsFor_same posts s d : same_but_names d (feedItemsFor posts s d).2.
Proof.
  revert d. induction posts as [|p posts IH]; intros d; [apply same_but_names_refl|].
  cbn [feedItemsFor]. unfold feedItemFor. destruct (e_Post (se_Event p)); [|apply same_but_names_refl].
  pose proof (displayName_same (se_Author p) s d) as Hd. destruct (displayName _ s d) as [name d1].
  cbn [snd] in Hd. specialize (IH d1). destruct (feedItemsFor posts s d1) as [[items|er] d2];
    by eapply same_but_names_trans.
Qed.

Lemma like_step_same s idx st se : same_but_names st.2 (like_step s idx st se).2.
Proof.
  rewrite like_step_target. destruct (target_of idx se); [|apply same_but_names_refl].
  pose proof (displayName_same (se_Author se) s st.2). by destruct (displayName _ s st.2).
Qed.

Lemma populateLikes_same items s d : same_but_names d (populateLikes items s d).2.
Proof.
  unfold populateLikes. destruct items as [|it items]; [apply same_but_names_refl|].
  destruct (LikesForPosts _ s) as [likes|]; [|apply same_but_names_refl].
  change d with ((it :: items, d).2) at 1. generalize (it :: items, d) as st.
  generalize (id_index (it :: items)) as idx.
  induction likes as [|l likes IH]; intros idx st; [apply same_but_names_refl|].
  eapply same_but_names_trans; [apply like_step_same|apply IH].
Qed.

(** A page without likes to fetch writes the two caches only. *)
Lemma handleFeedPage_same fetch page mine s d :
  let out := (handleFeedPage fetch page mine false s d).2 in
  out.1 = s ∧ same_but_names (cachedPosts s d).2 out.2.
Proof.
  unfold handleFeedPage. destruct (cachedPosts s d) as [posts d1]. cbn [snd].
  assert (Hrefl := same_but_names_refl d1).
  destruct (_ <=? _)%Z; [done|]. destruct (slice _ _ _) as [shown|]; [|done].
  pose proof (feedItemsFor_same shown s d1) as Hf1.
  destruct (feedItemsFor shown s d1) as [[items|er] d2]; cbn [snd] in *; [|done].
  pose proof (populateLikes_same items s d2) as Hf2. destruct (populateLikes items s d2) as [out d3].
  split; [done|]. by eapply same_but_names_trans.
Qed.

Lemma cachedPosts_again s d all :
  AllPostsOneTx s = Ok all →
  ∀ d', same_but_names (cachedPosts s d).2 d' → cachedPosts s d' = ((cachedPosts s d).1, d').
Proof.
  intros Hall d' Hd. apply same_but_names_feed in Hd. revert Hd. unfold cachedPosts.
  destruct (feedCache d) as [posts|] eqn:Hc; cbn [fst snd].
  - rewrite Hc. by intros ->.
  - rewrite Hall. cbn [fst snd feedCache set_feed]. destruct (Posts all) as [|p ps]; [|by intros ->].
    cbn [appended]. intros Hd. rewrite Hd. unfold set_feed. rewrite <-Hd. by destruct d'.
Qed.
End names.

(** What is left of a list under a limit, zero for none. *)
Definition capped {A} (limit : Z) (l : list A) : list A :=
  if (0 <? limit)%Z then take (Z.to_nat limit) l else l.

Section feed.
Context `{BoltLaws, Blake3, !Blake3Laws, Ed25519, Aead, order : GoRange, Tailcat, YamlFile}.
Context `{!CborType Event, !CborType SignedEvent, !CborType EncryptedKey, !CborType Message,
  !CborType BackupData}.
Context (e : env).

Definition mine_only (s : store) (mine : bool) (posts : list SignedEvent) : list SignedEvent :=
  if mine then filter (λ p, se_Author p = default [] (Store_Identity s)) posts else posts.

(** One call for a page, on a host served by [sv]. *)
Lemma page_call sv s h posts (mine : bool) p all :
  served_by e sv s h → AllPostsOneTx s = Ok all → (cachedPosts s (sv_mem sv)).1 = posts →
  Forall has_post posts → (Z.of_nat p < 2 ^ 31)%Z →
  ∃ items sv' h', rpc (λ _, rpc_FeedPage (dial e) (arrival e) (like_nonce e) (wrap_i32 (Z.of_nat p)) mine false) h =
      (Ok (items, bool_decide (200 * (p + 1) < length (mine_only s mine posts))), h') ∧
    item_key <$> items = post_key <$> page_of (mine_only s mine posts) p ∧
    served_by e sv' s h' ∧ (cachedPosts s (sv_mem sv')).1 = posts ∧ h_out h' = h_out h.
Proof.
  intros Hsv Hall Hposts Hhas Hp. rewrite (rpc_by _ _ _ _ _ Hsv). unfold rpc_FeedPage.
  replace (wrap_i32 (Z.of_nat p)) with (Z.of_nat p)
    by (unfold wrap_i32; rewrite Z.mod_small; lia).
  cbn [fst snd].
  set (fetch := λ ids s d, (handleFetchLikes (dial e) (arrival e) (like_nonce e) ids (s, d)).2).
  destruct (handleFeedPage_ok fetch (Z.of_nat p) mine s (sv_mem sv)) as (items & d' & Hrun & Hkeys).
  { rewrite Hposts. fold (mine_only s mine posts). unfold mine_only. destruct mine; [|done].
    apply Forall_forall. intros q [_ Hq]%list_elem_of_filter. by eapply Forall_forall in Hhas. }
  { lia. }
  rewrite Hposts, Nat2Z.id in Hrun, Hkeys. fold (mine_only s mine posts) in Hrun, Hkeys.
  pose proof (handleFeedPage_same fetch (Z.of_nat p) mine s (sv_mem sv)) as [_ Hsame].
  rewrite Hrun in Hsame |- *. cbn [fst snd] in Hsame |- *.
  exists items, (on_server (λ _, d') sv), (after sv (s, d') h). split_and!; [done|done| | |done].
  - by apply served_after with (w := (s, d')) in Hsv.
  - cbn. by rewrite (cachedPosts_again s (sv_mem sv) all).
Qed.

(** What is still to print before page [p]. *)
Definition rest {A} (limit : Z) (p : nat) (view : list A) : list A :=
  let l := drop (200 * p) view in
  if (0 <? limit)%Z then take (Z.to_nat (limit - 200 * Z.of_nat p)) l else l.

(** The limit falls inside page [p]. *)
Lemma rest_cut {A} limit p (view : list A) :
  (0 < limit)%Z → (limit - 200 * Z.of_nat p ≤ Z.of_nat (length (page_of view p)))%Z →
  rest limit p view = take (Z.to_nat (limit - 200 * Z.of_nat p)) (page_of view p).
Proof.
  intros Hl Hk. unfold rest, page_of in *. rewrite (proj2 (Z.ltb_lt 0 limit) Hl), take_take.
  f_equal. rewrite length_take in Hk. lia.
Qed.

(** Page [p] is the last. *)
Lemma rest_last {A} limit p (view : list A) :
  length view ≤ 200 * (p + 1) →
  ((0 < limit)%Z → (200 * Z.of_nat p + Z.of_nat (length (page_of view p)) ≤ limit)%Z) →
  rest limit p view = page_of view p.
Proof.
  intros Hlast Hl. unfold rest. assert (drop (200 * p) view = page_of view p) as ->.
  { unfold page_of. symmetry. apply take_ge. rewrite length_drop. lia. }
  destruct (Z.ltb_spec 0 limit); [|done]. apply take_ge. lia.
Qed.

Lemma rest_next {A} limit p (view : list A) :
  ((0 < limit)%Z → (200 * (Z.of_nat p + 1) ≤ limit)%Z) →
  rest limit p view = page_of view p ++ rest limit (S p) view.
Proof.
  intros Hl. unfold rest, page_of.
  replace (drop (200 * S p) view) with (drop 200 (drop (200 * p) view))
    by (rewrite drop_drop; f_equal; lia).
  destruct (Z.ltb_spec 0 limit) as [Hpos|_]; [|by rewrite take_drop]. specialize (Hl Hpos).
  replace (Z.to_nat (limit - 200 * Z.of_nat p))
    with (200 + Z.to_nat (limit - 200 * Z.of_nat (S p))) by lia.
  by rewrite <-take_take_drop.
Qed.

Lemma slice_take {A} (l : list A) k : (0 ≤ k)%Z → slice l 0 k = Ok (take (Z.to_nat k) l).
Proof. intros Hk. unfold slice. destruct (Z.ltb_spec k 0); [lia|]. cbn. by rewrite Z.sub_0_r. Qed.

Lemma cut_inside limit shown n :
  (0 <? limit)%Z && (limit <? shown + n)%Z = true ↔ (0 < limit)%Z ∧ (limit < shown + n)%Z.
Proof. by rewrite andb_true_iff, !Z.ltb_lt. Qed.

(** Where the loop ends. *)
Definition go_on fuel limit (mine more : bool) p shown : stM host unit :=
  if negb more then mret tt
  else if (0 <? limit)%Z && (limit <=? shown)%Z then mret tt
  else feedOnline e fuel limit mine false (Z.of_nat p + 1) shown.

Lemma go_on_stops fuel limit mine more p shown h :
  (more = true → (0 < limit ≤ shown)%Z) → go_on fuel limit mine more p shown h = (Ok tt, h).
Proof.
  intros Hm. unfold go_on. destruct more; [|done]. cbn [negb]. specialize (Hm eq_refl).
  by rewrite (proj2 (Z.ltb_lt 0 limit)), (proj2 (Z.leb_le limit shown)) by lia.
Qed.

(** One iteration: a page, cut to the limit, is printed. *)
Lemma feedOnline_once limit (mine : bool) s posts all fuel p sv h :
  let view := mine_only s mine posts in
  AllPostsOneTx s = Ok all → Forall has_post posts → (Z.of_nat p < 2 ^ 31)%Z →
  served_by e sv s h → (cachedPosts s (sv_mem sv)).1 = posts →
  ((0 < limit)%Z → (200 * Z.of_nat p < limit)%Z) →
  ∃ items sv' h', item_key <$> items = post_key <$>
      (if (0 <? limit)%Z then take (Z.to_nat (limit - 200 * Z.of_nat p)) (page_of view p) else page_of view p) ∧
    served_by e sv' s h' ∧ (cachedPosts s (sv_mem sv')).1 = posts ∧
    h_out h' = h_out (say (item_line <$> items) h) ∧
    feedOnline e (S fuel) limit mine false (Z.of_nat p) (200 * Z.of_nat p) h =
      go_on fuel limit mine (bool_decide (200 * (p + 1) < length view)) p
        (200 * Z.of_nat p + Z.of_nat (length items)) h'.
Proof.
  intros view Hall Hhas Hp Hsv Hposts Hlim.
  destruct (page_call sv s h posts mine p all Hsv Hall Hposts Hhas Hp)
    as (items & sv' & h1 & Hrun & Hkeys & Hsv' & Hposts' & Hout).
  fold view in Hrun, Hkeys. cbn [feedOnline]. unfold mbind, stM_bind, wrapM. rewrite Hrun.
  cbn [wrap fst snd]. unfold printFeedItems.
  assert (length items = length (page_of view p)) as Hn.
  { apply (f_equal length) in Hkeys. by rewrite !length_fmap in Hkeys. }
  assert (Hdone : ∀ its, served_by e sv' s (say (item_line <$> its) h1) ∧
     h_out (say (item_line <$> its) h1) = h_out (say (item_line <$> its) h)).
  { intros its. split; [by destruct Hsv' as (? & ? & ?)|]. unfold say. cbn. by rewrite Hout. }
  destruct ((0 <? limit)%Z && (limit <? _)%Z) eqn:Hcut.
  - apply cut_inside in Hcut as [Hl0 Hl1]. specialize (Hlim Hl0).
    rewrite slice_take by lia. unfold lift. cbn beta iota. rewrite Printlns_say. cbn beta iota.
    rewrite (proj2 (Z.ltb_lt 0 limit) Hl0). eexists _, sv', _. split_and!; [|apply Hdone|done|apply Hdone|].
    + by rewrite fmap_take, Hkeys, fmap_take.
    + unfold go_on. by rewrite (proj2 (Z.ltb_lt 0 limit) Hl0).
  - unfold lift. cbn beta iota. rewrite Printlns_say. cbn beta iota.
    eexists items, sv', _. split_and!; [|apply Hdone|done|apply Hdone|done].
    destruct (Z.ltb_spec 0 limit); [|done]. cbn [andb] in Hcut. apply Z.ltb_ge in Hcut.
    rewrite take_ge by lia. done.
Qed.

(** The loop from page [p], every page before it full. *)
Lemma feedOnline_from limit (mine : bool) s posts all fuel p sv h :
  let view := mine_only s mine posts in
  AllPostsOneTx s = Ok all → Forall has_post posts → (Z.of_nat (length posts) < 2 ^ 31)%Z →
  served_by e sv s h → (cachedPosts s (sv_mem sv)).1 = posts →
  200 * p ≤ length view → length view < 200 * (p + fuel) →
  ((0 < limit)%Z → (200 * Z.of_nat p < limit)%Z) →
  ∃ items h', feedOnline e fuel limit mine false (Z.of_nat p) (200 * Z.of_nat p) h = (Ok tt, h') ∧
    h_store h' = Some s ∧ h_out h' = h_out (say (item_line <$> items) h) ∧
    item_key <$> items = post_key <$> rest limit p view.
Proof.
  intros view Hall Hhas Hlen. revert p sv h. assert (length view ≤ length posts) as Hv.
  { unfold view, mine_only. destruct mine; [apply length_filter|done]. }
  induction fuel as [|fuel IH]; intros p sv h Hsv Hposts Hp Hf Hlim; [lia|].
  destruct (feedOnline_once limit mine s posts all fuel p sv h Hall Hhas ltac:(lia) Hsv Hposts Hlim)
    as (items & sv' & h1 & Hkeys & Hsv' & Hposts' & Hout & Hrun).
  fold view in Hkeys, Hrun. rewrite Hrun. clear Hrun.
  assert (length (page_of view p) = Nat.min 200 (length view - 200 * p)) as Hpl.
  { unfold page_of. by rewrite length_take, length_drop. }
  assert (length items = if (0 <? limit)%Z then Nat.min (Z.to_nat (limit - 200 * Z.of_nat p)) (length (page_of view p))
          else length (page_of view p)) as Hn.
  { apply (f_equal length) in Hkeys. rewrite !length_fmap in Hkeys. rewrite Hkeys.
    destruct (0 <? limit)%Z; [by rewrite length_take|done]. }
  destruct (decide ((0 < limit)%Z ∧ (limit ≤ 200 * Z.of_nat p + Z.of_nat (length (page_of view p)))%Z)) as [[Hl0 Hl1]|Hall'].
  - rewrite (proj2 (Z.ltb_lt 0 limit) Hl0) in Hn, Hkeys. specialize (Hlim Hl0).
    rewrite go_on_stops by lia. exists items, h1. split_and!; [done|apply Hsv'|done|].
    by rewrite Hkeys, rest_cut by lia.
  - assert (item_key <$> items = post_key <$> page_of view p ∧ length items = length (page_of view p)) as [Hk1 Hn1].
    { destruct (Z.ltb_spec 0 limit); [|done]. rewrite take_ge in Hkeys by lia. split; [done|lia]. }
    case_bool_decide as Hmore.
    + unfold go_on. cbn [negb]. rewrite Hn1. assert (length (page_of view p) = 200) as Hfull by lia.
      rewrite Hfull in Hall' |- *.
      destruct ((0 <? limit)%Z && _) eqn:Hstop.
      { apply andb_true_iff in Hstop as [Hl0%Z.ltb_lt Hl1%Z.leb_le]. by destruct Hall'. }
      clear Hstop. assert (Hgo : (0 < limit)%Z → (200 * (Z.of_nat p + 1) < limit)%Z).
      { intros Hl. destruct (Z.le_gt_cases limit (200 * Z.of_nat p + 200)); [|lia].
        destruct Hall'. split; lia. }
      replace (Z.of_nat p + 1)%Z with (Z.of_nat (S p)) by lia.
      replace (200 * Z.of_nat p + Z.of_nat 200)%Z with (200 * Z.of_nat (S p))%Z by lia.
      destruct (IH (S p) sv' h1 Hsv' Hposts') as (items' & h3 & Hrun' & Hst & Ho3 & Hkeys'); [lia..|].
      rewrite Hrun'. exists (items ++ items'), h3. split_and!; [done|done| |].
      * rewrite Ho3. unfold say at 1. cbn [h_out]. rewrite Hout. unfold say. cbn [h_out].
        by rewrite !fmap_app, join_app, (assoc_L (++)).
      * by rewrite rest_next, !fmap_app, Hk1, Hkeys' by lia.
    + rewrite go_on_stops by done. exists items, h1. split_and!; [done|apply Hsv'|done|].
      by rewrite rest_last by lia.
Qed.

(** ** Offline *)

Lemma print_posts_say s events (mine : bool) own posts h :
  Forall has_post posts →
  print_posts s events (if mine then Some own else None) posts h =
    (Ok tt, say ((λ p, default [] (offline_line s events p <$> e_Post (se_Event p))) <$>
              (if mine then filter (λ p, se_Author p = own) posts else posts)) h).
Proof.
  intros Hhas. revert h. induction Hhas as [|p posts [post Hpost] Hhas IH]; intros h.
  { destruct mine; cbn [filter print_posts fmap list_fmap]; by rewrite say_nil. }
  cbn [print_posts]. destruct (decide (_ ∧ _)) as [[Hm Hne]|Hshow].
  - destruct mine; [|done]. rewrite filter_cons, decide_False by congruence. apply IH.
  - rewrite Hpost. unfold mbind, stM_bind. rewrite Println_say, IH, say_say. destruct mine.
    + rewrite (filter_cons _ p), decide_True.
      { cbn [fmap list_fmap]. by rewrite Hpost. }
      destruct (decide (se_Author p = own)); [done|]. destruct Hshow. split; congruence.
    + cbn [fmap list_fmap]. by rewrite Hpost.
Qed.
End feed.
