(* ===== verification/CliFiles.v ===== *)
(** * Files of the command line: lemmas

    The key file, the backup file and the bootstrap files: which values the
    encodings carry, and what a store holds after an import. *)

From S2P Require Import Prelude Base32 Text TextFacts External Identity Event Log Bolt Store StoreFacts StoreFollow StoreFollowFacts StoreQuery Wire Session Crawler Bootstrap Daemon DaemonOps DaemonFacts DaemonNet DaemonNetFacts Lifecycle Net Server Cli CliFacts.
#[local] Open Scope go_scope.

(** ** Values of [core.BackupData]

    A field with [omitempty] is absent when it is empty, and then decoded as
    nil. *)

Definition opt_list {A} (f : A → bool) (o : option (list A)) : bool :=
  opt_all (λ l, bool_decide (length l ≠ 0) && forallb f l) o.

#[export] Instance BackupData_wf `{CborText} : WellFormed BackupData := λ bd,
  opt_all (wf (A := EncryptedKey)) (bd_Key bd) && forallb (wf (A := SignedEvent)) (bd_OwnLogs bd)
  && opt_list (λ p, is_hash (petname_TargetPubkey p) && cbor_text (petname_Name p)) (bd_Petnames bd)
  && opt_list cbor_text (bd_Verified bd) && opt_list cbor_text (bd_Pinned bd)
  && opt_all (wf (A := EncryptedKey)) (bd_TransportKey bd).

Lemma opt_list_appended {A} (f : A → bool) l : forallb f l = true → opt_list f (appended l) = true.
Proof. by destruct l. Qed.

(** ** Keys *)

Section keys.
Context `{BoltLaws, Ed25519, Aead, !CborType EncryptedKey, !CborLaws EncryptedKey}.

Lemma key_names_ok : bk_key_ok keyName = true ∧ bk_key_ok metaKeyIdentity = true.
Proof. split; apply bk_key_fits; [done|apply Nat.leb_le; by vm_compute|done|apply Nat.leb_le; by vm_compute]. Qed.

Lemma identity_fits kp : length (kp_Public kp) = PublicKeySize → bk_value_ok (Identity kp) = true.
Proof.
  intros Hl. apply bk_value_fits. unfold Identity, IdentityFromPubkey.
  rewrite length_app. pose proof (base32NoPadLower_length (kp_Public kp)) as Hb. rewrite Hl in Hb.
  change (length IdentityPrefix) with 10. unfold PublicKeySize in Hb. lia.
Qed.

Lemma Store_EncryptedKey_wf s ek : Store_EncryptedKey s = Ok ek → wf ek = true.
Proof.
  unfold Store_EncryptedKey. destruct (bk_get _ _) as [raw|]; [|done].
  rewrite wrap_Ok. by apply CanonicalDecode_wf.
Qed.

(** A key put in is read back, and the identity is gone. *)
Lemma PutEncryptedKey_run ek b s :
  wf ek = true → CanonicalEncode ek = Ok b → bk_value_ok b = true →
  ∃ s', PutEncryptedKey ek s = (Ok tt, s') ∧ Store_EncryptedKey s' = Ok ek ∧ Store_Identity s' = None.
Proof.
  intros Hwf Hb Hv. eexists. split.
  - unfold PutEncryptedKey, Update, put_key, put_in, bk_Put, wrapM, lift, mbind, stM_bind.
    rewrite Hb. cbn [wrap]. by rewrite (proj1 key_names_ok), Hv.
  - unfold Store_EncryptedKey, Store_Identity. cbn.
    rewrite bk_get_set_eq, bk_get_del, decide_True by done. split; [|done].
    by rewrite (CanonicalDecode_Encode ek b).
Qed.

Lemma SetIdentity_run id s :
  bk_value_ok id = true →
  ∃ s', SetIdentity id s = (Ok tt, s') ∧ Store_EncryptedKey s' = Store_EncryptedKey s ∧
    Store_Identity s' = Some id.
Proof.
  intros Hv. eexists. split.
  - unfold SetIdentity, Update, put_meta, put_in, bk_Put. by rewrite (proj2 key_names_ok), Hv.
  - unfold Store_EncryptedKey, Store_Identity. cbn. split; [done|]. apply bk_get_set_eq.
Qed.

Lemma KeyPairFromBytes_public priv kp : KeyPairFromBytes priv = Ok kp → length (kp_Public kp) = PublicKeySize.
Proof.
  unfold KeyPairFromBytes. destruct (Nat.eqb_spec (length priv) PrivateKeySize) as [Hl|]; [|done].
  cbn. intros [= <-]. cbn. unfold ed_public. by rewrite length_take, length_drop, Hl.
Qed.

(** [key import] of the bytes of a key: with its passphrase, and without. *)
Lemma import_key_run ek b passphrase kp s :
  wf ek = true → CanonicalEncode ek = Ok b → bk_value_ok b = true →
  (priv ← Decrypt ek passphrase; KeyPairFromBytes priv) = Ok kp →
  ∃ s', import_key b passphrase s = (Ok (Identity kp), s') ∧ Store_EncryptedKey s' = Ok ek ∧
    Store_Identity s' = Some (Identity kp) ∧ loadKey passphrase s' = Ok kp.
Proof.
  intros Hwf Hb Hv Hkp. apply bind_Ok in Hkp as (priv & Hd & Hkp).
  pose proof (KeyPairFromBytes_public _ _ Hkp) as Hl.
  destruct (PutEncryptedKey_run ek b s Hwf Hb Hv) as (s1 & Hput & Hek1 & _).
  destruct (SetIdentity_run (Identity kp) s1 (identity_fits kp Hl)) as (s2 & Hset & Hek2 & Hid2).
  exists s2. rewrite Hek2, Hek1. split_and!; [|done|done|].
  - unfold import_key, wrapM, lift, mbind, stM_bind. rewrite (CanonicalDecode_Encode ek b) by done.
    cbn [wrap]. rewrite Hput. cbn [wrap]. rewrite Hd. cbn [wrap]. rewrite Hkp. cbn [wrap]. by rewrite Hset.
  - unfold loadKey. rewrite Hek2, Hek1. cbn. by rewrite Hd.
Qed.

Lemma import_key_wrong ek b passphrase er s :
  wf ek = true → CanonicalEncode ek = Ok b → bk_value_ok b = true →
  Decrypt ek passphrase = Err er →
  ∃ s', (import_key b passphrase s).2 = s' ∧ is_ok (import_key b passphrase s).1 = false ∧
    Store_EncryptedKey s' = Ok ek ∧ Store_Identity s' = None.
Proof.
  intros Hwf Hb Hv Hd. destruct (PutEncryptedKey_run ek b s Hwf Hb Hv) as (s1 & Hput & Hek1 & Hid1).
  exists s1. unfold import_key, wrapM, lift, mbind, stM_bind.
  rewrite (CanonicalDecode_Encode ek b) by done. cbn [wrap]. rewrite Hput. cbn [wrap]. rewrite Hd.
  by destruct er.
Qed.
End keys.

(** ** What an import leaves alone *)

Section kept.
Context `{Bolt, Blake3, Ed25519, order : GoRange, !CborType Event, !CborType SignedEvent}.

(** The key, the identity record and the transport key. *)
Definition same_keys (s s' : store) : Prop :=
  bucketKey s' = bucketKey s ∧ bucketMeta s' = bucketMeta s ∧ bucketTransport s' = bucketTransport s.

Definition keeps_keys {A} (op : stM store A) : Prop := ∀ s, same_keys s (op s).2.

Lemma same_keys_bind {A B} (m : stM store A) (f : A → stM store B) :
  keeps_keys m → (∀ a, keeps_keys (f a)) → keeps_keys (m ≫= f).
Proof.
  intros Hm Hf s. unfold mbind, stM_bind. specialize (Hm s). destruct (m s) as [[a|er] s1]; [|done].
  destruct Hm as (? & ? & ?), (Hf a s1) as (? & ? & ?). cbn in *. split_and!; congruence.
Qed.

Lemma same_keys_forM {A} (l : list A) (f : A → stM store unit) :
  (∀ x, keeps_keys (f x)) → keeps_keys (forM_ l f).
Proof. intros Hf. induction l as [|x l IH]; [done|]. cbn [forM_]. by apply same_keys_bind. Qed.

Lemma keeps_wrapM {A} m (op : stM store A) : keeps_keys op → keeps_keys (wrapM m op).
Proof. intros Hop s. unfold wrapM. specialize (Hop s). by destruct (op s). Qed.

Lemma keeps_Update {A} (op : stM store A) : keeps_keys op → keeps_keys (Update op).
Proof. intros Hop s. unfold Update. specialize (Hop s). by destruct (op s) as [[a|er] s']. Qed.

Lemma keeps_put get set k v : (∀ b s, same_keys s (set b s)) → keeps_keys (put_in get set k v).
Proof. intros Hset s. unfold put_in. destruct (bk_Put k v (get s)); [apply Hset|done]. Qed.

Lemma keeps_AppendOwnEvent log se : keeps_keys (AppendOwnEvent log se).
Proof. intros s. destruct (AppendOwnEvent log se s) eqn:Ha. by apply AppendOwnEvent_own in Ha as [own ->]. Qed.

Lemma keeps_rebuild : keeps_keys rebuildFollowState.
Proof.
  intros s. unfold rebuildFollowState. destruct (OwnEvents ProfileLog s) as [events|]; [|done].
  apply keeps_Update, same_keys_bind; [done|]. intros _. apply same_keys_forM. intros t.
  by apply keeps_put.
Qed.

Lemma ImportBackup_keeps bd : keeps_keys (ImportBackup bd).
Proof.
  unfold ImportBackup. destruct (bd_Key bd); [|done]. apply same_keys_bind.
  { apply same_keys_forM. intros se. apply keeps_AppendOwnEvent. }
  intros _. apply same_keys_bind.
  { destruct (bd_Verified bd) as [ids|]; [|done]. apply keeps_wrapM, keeps_Update, same_keys_bind; [done|].
    intros _. apply same_keys_forM. intros id. by apply keeps_put. }
  intros _. apply same_keys_bind; [apply keeps_wrapM, keeps_rebuild|]. intros _.
  destruct (bd_Pinned bd) as [ids|]; [|done]. apply keeps_wrapM, keeps_Update, same_keys_forM.
  intros id s. cbv beta zeta. destruct (negb (followed (getFollowState id s))); [by split|]. by apply keeps_put.
Qed.
End kept.

(** ** The backup file *)

Section backup.
Context `{BoltLaws, Blake3, !Blake3Laws, Ed25519, Aead, !AeadLaws, GoRange, !GoRangeLaws}.
Context `{CborText, !CborTextLaws}.
Context `{!CborType Event, !CborType SignedEvent, !CborLaws Event, !CborLaws SignedEvent}.
Context `{!CborType EncryptedKey, !CborLaws EncryptedKey, !CborType BackupData, !CborLaws BackupData}.

Lemma sealed_wf salt nonce plain pass ek :
  EncryptBytes DefaultKeyEncryption salt nonce plain pass = Ok ek → wf ek = true.
Proof.
  unfold EncryptBytes. destruct (length pass =? 0); [done|]. destruct (argon2_IDKey _ _ _ _ _); [|done].
  cbn. by intros [= <-].
Qed.

(** The identities of a store that the backup names are text. *)
Definition marks_text (s : store) : Prop :=
  ∀ k, is_Some (bk_get (bucketVerified s) k) ∨ is_Some (bk_get (bucketFollowState s) k) →
    bk_key_ok k = true ∧ cbor_text k = true.

Lemma ExportBackup_wf s bd :
  logs_ok s → pins_ok s → marks_text s → ExportBackup s = Ok bd → wf bd = true ∧ bd_TransportKey bd = None.
Proof.
  intros Hs Hp Hm Hex. destruct (Store_EncryptedKey s) as [ek|er] eqn:Hek; [|by unfold ExportBackup in Hex; rewrite Hek in Hex].
  pose proof (all_importable s Hs) as Himp. rewrite (ExportBackup_ok ek) in Hex by (done || apply Hs).
  injection Hex as <-. split; [|done]. unfold wf, BackupData_wf. cbn [bd_Key bd_OwnLogs bd_Petnames bd_Verified bd_Pinned bd_TransportKey].
  rewrite !andb_true_iff. split_and!; [|..|done].
  - by eapply Store_EncryptedKey_wf.
  - apply forallb_forall. intros se Hse%list_elem_of_In. rewrite Forall_forall in Himp. by apply (Himp se Hse).
  - done.
  - apply opt_list_appended, forallb_forall. intros id Hid%list_elem_of_In%elem_of_VerifiedIdentities%IsVerified_key.
    apply Hm. by left.
  - apply opt_list_appended, forallb_forall. intros id Hid%list_elem_of_In.
    apply Hm. right. by apply followed_key, Hp, elem_of_PinnedIdentities.
Qed.
End backup.

(** ** Bootstrap keys *)

Section bootstrap.
Context `{Bolt, Ed25519, !Ed25519Laws, yaml : Bootstrap.Yaml}.

Lemma ReadFile_at path b h : h_files h !! path = Some b → ReadFile path h = (Ok b, h).
Proof. intros Hb. unfold ReadFile. by rewrite Hb. Qed.

(** The line of a public key, saved to a file, is that key. *)
Lemma decode_saved_key path pub h :
  path ≠ [] → length pub = PublicKeySize →
  h_files h !! path = Some (b64_encode pub ++ newline) →
  decodeBootstrapKey path h = (Ok (Some pub), h).
Proof.
  intros Hp Hl Hf. unfold decodeBootstrapKey. rewrite decide_False by done.
  unfold wrapM, mbind, stM_bind, lift. rewrite (ReadFile_at _ _ _ Hf). cbn [wrap].
  unfold newline. rewrite b64_line_trim by by destruct pub. rewrite b64_decode_encode. cbn [wrap].
  by rewrite Hl.
Qed.

(** Signing keeps the content, and the signature verifies. *)
Lemma Sign_accepted kp bf c signed :
  valid_key kp → Bootstrap.marshalContent bf = Ok c →
  Bootstrap.Sign (kp_Private kp) bf = Ok signed →
  Bootstrap.content signed = Bootstrap.content bf ∧ Bootstrap.Signature signed ≠ [] ∧
  Bootstrap.Verify (kp_Public kp) signed = Ok tt.
Proof.
  intros Hvk Hc. unfold Bootstrap.Sign. rewrite Hc. cbn [wrap mbind result_bind].
  destruct (valid_key_sign kp c Hvk) as (sig & Hs & Hsl & Hver). rewrite Hs. cbn [mbind result_bind]. intros Heq.
  assert (signed = Bootstrap.set_Signature (Bootstrap.sig_prefix ++ Bootstrap.encodeHex sig) bf) as ->
    by congruence. clear Heq.
  split_and!; [done|done|]. unfold Bootstrap.Verify. cbn [Bootstrap.Signature Bootstrap.set_Signature].
  rewrite Bootstrap.parseSig_prefix, Bootstrap.decodeHex_encodeHex. cbn [mbind result_bind].
  change (Bootstrap.marshalContent (Bootstrap.set_Signature _ bf)) with (Bootstrap.marshalContent bf).
  rewrite Hc. cbn [wrap mbind result_bind]. unfold ed25519_Verify. rewrite decide_True by by apply valid_key_public.
  cbn. by rewrite Hver.
Qed.
End bootstrap.
