(* ===== verification/Request.v ===== *)
(** * Requests by name

    Models [SendRequest] of [internal/daemon/daemon.go] and its helpers: a
    method name and a map of parameters become a call of the control API, and
    its answer becomes the untyped result of the protocol that came before. *)

From S2P Require Import Prelude Base32 Text External Identity Event Log Bolt Store StoreFollow StoreQuery Wire Session Crawler Bootstrap Daemon DaemonOps DaemonNet Lifecycle Net Server Cli.
#[local] Open Scope go_scope.

(** What an [any] holds: the types that requests and answers are made of. *)
Inductive value :=
  | VString (s : bytes)
  | VBool (b : bool)
  | VInt (z : Z)
  | VNames (l : list (list (bytes * bytes)))   (* []map[string]string *)
  | VFeed (l : list feedItem)                  (* []feedItem *)
  | VList (l : list value)                     (* []any *)
  | VMap (m : list (bytes * value)).           (* map[string]any *)

(** [params[key].(string)]; a nil map reads like an empty one. *)
Definition paramString (params : gmap bytes value) (key : bytes) : bytes :=
  match params !! key with Some (VString s) => s | _ => [] end.

(** A like count crosses the wire as an [int32]. *)
Definition feedItemToProto (it : feedItem) : feedItem :=
  mkFeedItem (fi_ID it) (fi_Timestamp it) (fi_Author it) (fi_Name it) (fi_Text it)
    (wrap_i32 (fi_LikeCount it)) (fi_Likers it).
Definition feedItemsToProto (items : list feedItem) : list feedItem := feedItemToProto <$> items.

Definition identitiesFromProto (ids : list entry) : list (list (bytes * bytes)) :=
  (λ id, [(# "identity", en_Identity id); (# "name", en_Name id)]) <$> ids.
Definition feedItemsFromProto (items : list feedItem) : list feedItem :=
  (λ it, mkFeedItem (fi_ID it) (fi_Timestamp it) (fi_Author it) (fi_Name it) (fi_Text it)
           (fi_LikeCount it) (fi_Likers it)) <$> items.
Definition zensFromProto (zens : list zenInfo) : list value :=
  (λ z, VMap [(# "id", VString (z_ID z)); (# "identity", VString (z_Identity z));
              (# "name", VString (z_Name z)); (# "kind", VString (z_Kind z));
              (# "status", VString (z_Status z)); (# "verified", VBool (z_Verified z))]) <$> zens.

Section request.
Context `{Bolt, Blake3, Ed25519, Aead, order : GoRange, Tailcat, YamlFile}.
Context `{!CborType Event, !CborType SignedEvent, !CborType EncryptedKey, !CborType Message,
  !CborType BackupData}.
Context (e : env).

(** The probe of [Dial] and [DialClient]. *)
Definition DialClient (socketPath : bytes) (h : host) : result unit :=
  if decide (socketPath = socket e ∧ h_server h ≠ None) then Ok tt else Err ErrNotRunning.

Definition status_value (s : bytes) : value := VMap [(# "status", VString s)].

Definition whoami_value (r : WhoamiResp) : value := VMap
  [(# "identity", VString (wh_Identity r)); (# "token", VString (wh_Token r));
   (# "stable", VBool (wh_Stable r)); (# "display_name", VString (wh_DisplayName r));
   (# "has_avatar", VBool (wh_HasAvatar r)); (# "bio", VString (wh_Bio r));
   (# "first_name", VString (wh_FirstName r)); (# "last_name", VString (wh_LastName r));
   (# "location", VString (wh_Location r))].

Definition status_result (r : StatusResp) : value := VMap
  [(# "running", VBool true); (# "zens", VInt (wrap_i32 (Z.of_nat (sr_Zens r))));
   (# "socket", VString (socket e)); (# "transport", VBool (sr_Transport r));
   (# "unlocked", VBool (sr_Unlocked r))].

(** [SendRequest], after the dial: the case of the method. *)
Definition dispatch (method : bytes) (params : gmap bytes value) : stM host value :=
  let p k := paramString params k in
  let sign r := call_sign e r (p (# "passphrase")) in
  let named m := bool_decide (method = m) in
  if named (# "whoami") then r ← rpc (λ ephemeral w, (rpc_Whoami ephemeral w, w)); mret (whoami_value r)
  else if named (# "follows") then
    r ← rpc (λ _ w, let '(l, w) := rpc_Follows w in (Ok l, w)); mret (VMap [(# "follows", VNames (identitiesFromProto r))])
  else if named (# "followers") then
    r ← rpc (λ _ w, let '(l, w) := rpc_Followers w in (Ok l, w)); mret (VMap [(# "followers", VNames (identitiesFromProto r))])
  else if named (# "feed") then
    let mine := match params !! (# "mine") with Some (VBool b) => b | _ => false end in
    r ← rpc (λ _, rpc_FeedPage (dial e) (arrival e) (like_nonce e) 0 mine false);
    mret (VFeed (feedItemsFromProto (feedItemsToProto r.1)))
  else if named (# "post") then r ← sign (SPost (p (# "text")) []); mret (VMap [(# "event_id", VString r)])
  else if named (# "profile") then _ ← sign (SProfile (p (# "name"))); mret (status_value (# "ok"))
  else if named (# "detail") then
    _ ← sign (SDetail (p (# "bio")) (p (# "first_name")) (p (# "last_name")) (p (# "location")));
    mret (status_value (# "ok"))
  else if named (# "zens") then r ← rpc (λ _ w, (Ok (rpc_Zens w), w)); mret (VList (zensFromProto r))
  else if named (# "verify") then
    r ← rpc (λ _, rpc_Verify (p (# "identity"))); mret (VMap [(# "verified", VString r)])
  else if named (# "unverify") then
    r ← rpc (λ _, rpc_Unverify (p (# "identity"))); mret (VMap [(# "unverified", VString r)])
  else if named (# "follow") then r ← sign (SFollow (p (# "target"))); mret (VMap [(# "followed", VString r)])
  else if named (# "unfollow") then r ← sign (SUnfollow (p (# "target"))); mret (VMap [(# "unfollowed", VString r)])
  else if named (# "unlock") then
    r ← rpc (λ _, rpc_Unlock (p (# "passphrase")) (now e));
    mret (VMap [(# "status", VString (# "unlocked")); (# "identity", VString r)])
  else if named (# "lock") then _ ← rpc (λ _ w, (Ok tt, rpc_Lock w)); mret (status_value (# "locked"))
  else if named (# "sync") then _ ← rpc (λ _ w, (Ok tt, rpc_Sync w)); mret (status_value (# "triggered"))
  else if named (# "stop") then _ ← call_Stop; mret (status_value (# "stopping"))
  else if named (# "status") then r ← rpc (λ _ w, (Ok (rpc_Status w), w)); mret (status_result r)
  else if named (# "rotate-key") then
    r ← rpc (λ ephemeral, rpc_RotateKey (listen e) ephemeral); mret (VMap [(# "token", VString r)])
  else lift (Err (E "unknown method")).

Definition SendRequest (socketPath method : bytes) (params : gmap bytes value) : stM host value := λ h,
  match DialClient socketPath h with
  | Err er => (Err er, h)
  | Ok _ => dispatch method params h
  end.
End request.

(** ** Facts *)

Lemma feedItems_roundtrip items :
  Forall (λ it, (- 2 ^ 31 ≤ fi_LikeCount it < 2 ^ 31)%Z) items →
  feedItemsFromProto (feedItemsToProto items) = items.
Proof.
  unfold feedItemsFromProto, feedItemsToProto. induction 1 as [|it items Hit _ IH]; [done|].
  cbn [fmap list_fmap]. f_equal; [|exact IH]. destruct it. unfold feedItemToProto, wrap_i32. cbn in *.
  f_equal. rewrite Z.mod_small; lia.
Qed.

Section facts.
Context `{Bolt, Blake3, Ed25519, Aead, order : GoRange, Tailcat, YamlFile}.
Context `{!CborType Event, !CborType SignedEvent, !CborType EncryptedKey, !CborType Message,
  !CborType BackupData}.
Context (e : env).

(** A request that no daemon answers changes nothing, and neither does one
    whose method there is not. *)
Lemma SendRequest_refused path method params h :
  h_server h = None ∨
  method ∉ (lit <$> ["whoami"; "follows"; "followers"; "feed"; "post"; "profile"; "detail"; "zens"; "verify";
    "unverify"; "follow"; "unfollow"; "unlock"; "lock"; "sync"; "stop"; "status"; "rotate-key"]%string) →
  ∃ er, SendRequest e path method params h = (Err er, h).
Proof.
  intros Hr. unfold SendRequest, DialClient. case_decide as Hd; [|by eexists].
  destruct Hr as [Hr|Hm]; [by destruct Hd|]. exists (E "unknown method"). unfold dispatch.
  repeat (rewrite bool_decide_eq_false_2 by (intros ->; apply Hm; cbn; set_solver)). done.
Qed.

(** A text that is not a string counts as missing. *)
Lemma SendRequest_text path params sv s h :
  h_server h = Some sv → h_store h = Some s → path = socket e →
  paramString params (# "text") = [] →
  (SendRequest e path (# "post") params h).1 = Err status_error.
Proof.
  intros Hsv Hs -> Ht. unfold SendRequest, DialClient. rewrite decide_True by (split; [done|by rewrite Hsv]).
  unfold dispatch. repeat (rewrite bool_decide_eq_false_2 by done). rewrite bool_decide_eq_true_2 by done.
  unfold call_sign, mbind, stM_bind, rpc. rewrite Hsv, Hs, Ht. done.
Qed.
End facts.
