(* ===== verification/Tui.v ===== *)
(** * The user interface: data, messages, lists and the feed

    Models [internal/tui/selectlist.go], [feed.go] and the data of [api.go].
    Rows and sizes are integers; an index out of range panics. The styling of
    a row is done by a library and is a parameter. *)

From S2P Require Import Prelude.
#[local] Open Scope go_scope.
#[local] Open Scope Z_scope.

(** ** Data of the panels *)

Record feedPost := mkFeedPost {
  fp_id : bytes;
  fp_author : bytes;
  fp_name : bytes;
  fp_text : bytes;
  fp_age : bytes;
  fp_ts : Z;
}.

Record zen := mkZen {
  zn_name : bytes;
  zn_identity : bytes;
  zn_id : bytes;
  zn_kind : bytes;
  zn_status : bytes;
  zn_verified : bool;
  zn_pinned : bool;
}.

Record statusInfo := mkStatusInfo { si_zens : Z; si_transport : bool; si_unlocked : bool }.

(** ** Messages

    A key press carries the name of the key and the text it types, if any. A
    subscription is known by a number. *)

Record KeyPress := mkKey { k_String : bytes; k_Text : bytes }.

Inductive mouse_button := MouseLeft | MouseRight | MouseWheelUp | MouseWheelDown | MouseOther.

Inductive panel_name := PFeed | PZens | PFollows | PFollowers | PStatus | PNone.

Record diffMsg := mkDiff {
  df_panel : panel_name;
  df_add : list feedPost;
  df_addZens : list zen;
  df_upsert : option zen;
  df_removeID : bytes;
  df_status : option statusInfo;
  df_sub : nat;
}.

Record snapshotMsg := mkSnapshotMsg {
  sm_feed : list feedPost;
  sm_zens : list zen;
  sm_follows : list zen;
  sm_followers : list zen;
  sm_status : statusInfo;
  sm_sub : nat;
}.

Inductive Msg :=
  | WindowSizeMsg (w h : Z)
  | SnapshotMsg (r : result snapshotMsg)
  | DiffMsg (d : diffMsg)
  | SubClosedMsg
  | ReconnectTickMsg
  | ActionResultMsg (r : result bytes)
  | KeyPressMsg (k : KeyPress)
  | MouseWheelMsg (b : mouse_button)
  | MouseClickMsg (b : mouse_button) (x y : Z)
  | OtherMsg.

(** ** Lists

    [s.items[i]]: negative indexes are out of range. *)
Definition at_ {A} (l : list A) (i : Z) : option A :=
  if i <? 0 then None else l !! Z.to_nat i.

Section select_list.
Context {T : Type} (key : T → bytes) (renderRow : T → bool → bytes).

Record selectList := mkList {
  width : Z;
  height : Z;
  yOffset : Z;
  items : list T;
  selected : Z;
}.

Definition newSelectList (w h : Z) : selectList := mkList w h 0 [] 0.

Definition len (s : selectList) : Z := Z.of_nat (length (items s)).
Definition set_items (l : list T) s := mkList (width s) (height s) (yOffset s) l (selected s).
Definition set_selected (i : Z) s := mkList (width s) (height s) (yOffset s) (items s) i.
Definition set_yOffset (y : Z) s := mkList (width s) (height s) y (items s) (selected s).

Definition maxYOffset (s : selectList) : Z := if len s <=? height s then 0 else len s - height s.

Definition clampYOffset (s : selectList) : selectList :=
  let max := maxYOffset s in
  let y := if yOffset s <? 0 then 0 else yOffset s in
  set_yOffset (if max <? y then max else y) s.

Definition clampSelection (s : selectList) : selectList :=
  if len s =? 0 then set_selected 0 s
  else
    let i := if selected s <? 0 then 0 else selected s in
    set_selected (if len s <=? i then len s - 1 else i) s.

Definition resize (w h : Z) (s : selectList) : selectList :=
  clampYOffset (mkList w h (yOffset s) (items s) (selected s)).

Definition setItems (l : list T) (s : selectList) : selectList :=
  clampYOffset (clampSelection (set_items l s)).

Definition upsert (item : T) (s : selectList) : selectList :=
  match list_find (λ it, key it = key item) (items s) with
  | Some (i, _) => clampSelection (set_items (<[i := item]> (items s)) s)
  | None => clampSelection (set_items (items s ++ [item]) s)
  end.

Definition remove (id : bytes) (s : selectList) : selectList :=
  clampYOffset (clampSelection
    match list_find (λ it, key it = id) (items s) with
    | Some (i, _) => set_items (delete i (items s)) s
    | None => s
    end).

Definition selectedItem (s : selectList) : option T := at_ (items s) (selected s).

Definition click (row : Z) (s : selectList) : selectList :=
  if (len s =? 0) || (row <? 0) || (height s =? 0) then s
  else
    let idx := row + yOffset s in
    if (idx <? 0) || (len s <=? idx) then s else set_selected idx s.

Definition pageStep (s : selectList) : Z := if 0 <? height s - 1 then height s - 1 else 1.

Definition scrollBy (delta : Z) (s : selectList) : selectList :=
  clampYOffset (set_yOffset (yOffset s + delta) s).

Definition ensureVisible (s : selectList) : selectList :=
  if (len s =? 0) || (height s =? 0) then s
  else
    clampYOffset (
      if yOffset s + height s <? selected s + 1 then set_yOffset (selected s + 1 - height s) s
      else if selected s <? yOffset s then set_yOffset (selected s) s
      else s).

Definition move (delta : Z) (s : selectList) : selectList :=
  if len s =? 0 then s
  else
    let i := selected s + delta in
    let i := if i <? 0 then 0 else i in
    let i := if len s <=? i then len s - 1 else i in
    ensureVisible (set_selected i s).

(** The keys of [update]. *)
Definition press (k : bytes) (s : selectList) : selectList :=
  if decide (k = # "up" ∨ k = # "k") then move (-1) s
  else if decide (k = # "down" ∨ k = # "j") then move 1 s
  else if decide (k = # "pgup") then scrollBy (- pageStep s) s
  else if decide (k = # "pgdown") then scrollBy (pageStep s) s
  else if decide (k = # "home" ∨ k = # "g") then
    if len s =? 0 then s else clampYOffset (set_selected 0 s)
  else if decide (k = # "end" ∨ k = # "G") then
    if len s =? 0 then s else ensureVisible (set_selected (len s - 1) s)
  else s.

Definition update (msg : Msg) (s : selectList) : selectList :=
  match msg with
  | KeyPressMsg k => press (k_String k) s
  | MouseWheelMsg MouseWheelUp => scrollBy (-3) s
  | MouseWheelMsg MouseWheelDown => scrollBy 3 s
  | _ => s
  end.

(** The loop of [view] over the rows from [row] on. *)
Fixpoint view_rows (n : nat) (row : Z) (s : selectList) : result bytes :=
  match n with
  | O => Ok []
  | S n =>
      let idx := yOffset s + row in
      if len s <=? idx then Ok []
      else
        match at_ (items s) idx with
        | None => Err (Panic "index out of range")
        | Some it =>
            rest ← view_rows n (row + 1) s;
            Ok ((if 0 <? row then [Byte.x0a] else []) ++ renderRow it (bool_decide (idx = selected s))
                ++ rest)
        end
  end.

Definition view (s : selectList) : result bytes :=
  if (height s <=? 0) || (len s =? 0) then Ok [] else view_rows (Z.to_nat (height s)) 0 s.
End select_list.
Arguments selectList T : clear implicits.

Definition newZenList (w h : Z) : selectList zen := newSelectList w h.
Definition newFollowList (w h : Z) : selectList zen := newSelectList w h.

(** ** The feed

    [feedPanel] repeats the fields, the navigation and the window of a list;
    the differences are below. *)
Abbreviation feedPanel := (selectList feedPost).

Definition postLess (a b : feedPost) : bool :=
  if decide (fp_ts a = fp_ts b) then bytes_ltb (fp_id b) (fp_id a) else fp_ts b <? fp_ts a.

Definition setPosts (posts : list feedPost) (f : feedPanel) : feedPanel := setItems posts f.

Definition feed_upsert (p : feedPost) (f : feedPanel) : feedPanel :=
  if decide (fp_id p = []) then f
  else
    match list_find (λ ex, fp_id ex = fp_id p) (items f) with
    | Some (i, _) => set_items (<[i := p]> (items f)) f
    | None =>
        let pos := match list_find (λ ex, postLess p ex = true) (items f) with
                   | Some (i, _) => i
                   | None => length (items f)
                   end in
        let f' := set_items (take pos (items f) ++ p :: drop pos (items f)) f in
        clampYOffset (clampSelection
          (if Z.of_nat pos <=? selected f then set_selected (selected f + 1) f' else f'))
    end.

Definition feed_remove (id : bytes) (f : feedPanel) : feedPanel :=
  match list_find (λ ex, fp_id ex = id) (items f) with
  | None => f
  | Some (i, _) =>
      let f' := set_items (delete i (items f)) f in
      clampYOffset (clampSelection
        (if Z.of_nat i <? selected f then set_selected (selected f - 1) f' else f'))
  end.

(** [render]; [no_posts] is the styled hint. *)
Definition feed_render (renderRow : feedPost → bool → bytes) (no_posts : bytes) (f : feedPanel)
    : result bytes :=
  if height f <=? 0 then Ok []
  else if len f =? 0 then Ok no_posts
  else view_rows renderRow (Z.to_nat (height f)) 0 f.
