(* ===== verification/TuiFacts.v ===== *)
(** * Facts about the lists of the user interface

    The scroll and selection invariant, what is drawn, lists as maps, the
    stability of the selection and the order of the feed. *)

From S2P Require Import Prelude Tui.
#[local] Open Scope go_scope.
#[local] Open Scope Z_scope.

(** ** The invariant *)

Section list_facts.
Context {T : Type} (key : T → bytes).
Implicit Types (s : selectList T).

Definition in_range s : Prop :=
  (len s = 0 ∧ selected s = 0 ∨ 0 ≤ selected s < len s) ∧ 0 ≤ yOffset s ≤ maxYOffset s.

(** The selected row is inside the window. *)
Definition visible s : Prop := yOffset s ≤ selected s < yOffset s + height s.

Lemma len_nonneg s : 0 ≤ len s.
Proof. unfold len. lia. Qed.
End list_facts.

(** Case analysis on the comparisons of the list operations, then linear
    arithmetic over the lengths. *)
Ltac list_cases :=
  repeat match goal with
  | |- context [if ?b then _ else _] => destruct b eqn:?
  | H : context [if ?b then _ else _] |- _ => destruct b eqn:?
  end.
Ltac list_lia :=
  unfold in_range, visible, maxYOffset, set_items, set_selected, set_yOffset, len in *;
  cbn [width height yOffset items selected orb andb negb] in *;
  list_cases; cbn [width height yOffset items selected orb andb negb] in *; try lia.

Section list_facts.
Context {T : Type} (key : T → bytes).
Implicit Types (s : selectList T).

Lemma clampYOffset_range s :
  (len s = 0 ∧ selected s = 0 ∨ 0 ≤ selected s < len s) → in_range (clampYOffset s).
Proof. destruct s. unfold clampYOffset. intros. list_lia. Qed.

Lemma clampSelection_sel s (s' := clampSelection s) :
  len s' = 0 ∧ selected s' = 0 ∨ 0 ≤ selected s' < len s'.
Proof. destruct s. subst s'. unfold clampSelection. list_lia. Qed.

Lemma clamp_range s : in_range (clampYOffset (clampSelection s)).
Proof. apply clampYOffset_range, clampSelection_sel. Qed.

Lemma clampYOffset_id s : in_range s → clampYOffset s = s.
Proof. destruct s. unfold clampYOffset. list_lia; intros; f_equal; lia. Qed.

Lemma clampSelection_id s : in_range s → clampSelection s = s.
Proof. destruct s. unfold clampSelection. list_lia; intros; f_equal; lia. Qed.

Lemma clampSelection_items s : items (clampSelection s) = items s.
Proof. unfold clampSelection. by list_cases. Qed.
Lemma clampYOffset_items s : items (clampYOffset s) = items s.
Proof. done. Qed.
Lemma clampYOffset_selected s : selected (clampYOffset s) = selected s.
Proof. done. Qed.

Lemma newSelectList_range w h : in_range (@newSelectList T w h).
Proof. unfold newSelectList. list_lia. Qed.
Lemma resize_range w h s : in_range s → in_range (resize w h s).
Proof. intros [Hs _]. by apply clampYOffset_range. Qed.
Lemma setItems_range l s : in_range (setItems l s).
Proof. apply clamp_range. Qed.
Lemma remove_range id s : in_range (remove key id s).
Proof. apply clamp_range. Qed.

(** Growing the list or replacing an item keeps the invariant. *)
Lemma set_items_range l s :
  in_range s → (length (items s) ≤ length l)%nat →
  (length l ≤ S (length (items s)))%nat → in_range (clampSelection (set_items l s)).
Proof. destruct s. unfold clampSelection. intros. list_lia. Qed.

Lemma upsert_range it s : in_range s → in_range (upsert key it s).
Proof.
  intros Hs. unfold upsert. case_match; [destruct p|]; apply set_items_range; try done;
    rewrite ?length_insert, ?length_app; cbn; lia.
Qed.

Lemma click_range row s : in_range s → in_range (click row s).
Proof. destruct s. unfold click. intros. list_lia. Qed.

Lemma scrollBy_range d s : in_range s → in_range (scrollBy d s).
Proof. intros [Hs _]. by apply clampYOffset_range. Qed.

Lemma ensureVisible_range s :
  (len s = 0 ∧ selected s = 0 ∨ 0 ≤ selected s < len s) → 0 ≤ yOffset s ≤ maxYOffset s →
  in_range (ensureVisible s).
Proof. intros Hs Hy. unfold ensureVisible. list_cases; [by split|by apply clampYOffset_range..]. Qed.

Lemma move_range d s : in_range s → in_range (move d s).
Proof.
  intros Hs. unfold move. destruct (len s =? 0) eqn:?; [done|].
  destruct s. apply ensureVisible_range; revert Hs; list_lia.
Qed.

Lemma press_range k s : in_range s → in_range (press k s).
Proof.
  intros Hs. unfold press.
  repeat match goal with |- context [if decide ?P then _ else _] => destruct (decide P) end;
    auto using move_range, scrollBy_range.
  - destruct (len s =? 0) eqn:?; [done|]. apply clampYOffset_range. destruct s. list_lia.
  - destruct (len s =? 0) eqn:?; [done|]. destruct s. apply ensureVisible_range; list_lia.
Qed.

Lemma update_range msg s : in_range s → in_range (update msg s).
Proof. intros Hs. destruct msg as [| | | | | | |[]| |]; cbn; auto using press_range, scrollBy_range. Qed.

(** ** Moving keeps the selection in view *)

Lemma ensureVisible_visible s :
  0 < height s → 0 ≤ selected s < len s → 0 ≤ yOffset s → visible (ensureVisible s).
Proof. destruct s. unfold ensureVisible, clampYOffset. intros. list_lia. Qed.

Lemma move_selected d s :
  len s ≠ 0 →
  selected (move d s) = Z.max 0 (Z.min (len s - 1) (selected s + d)).
Proof.
  destruct s. unfold move, ensureVisible, clampYOffset. intros. list_lia.
Qed.

Lemma move_visible d s : in_range s → 0 < height s → len s ≠ 0 → visible (move d s).
Proof.
  intros Hs Hh Hl. unfold move. destruct (len s =? 0) eqn:?; [lia|].
  destruct s. apply ensureVisible_visible; revert Hs; list_lia.
Qed.

(** ** The window *)

Definition window s : list T := take (Z.to_nat (height s)) (drop (Z.to_nat (yOffset s)) (items s)).

Lemma window_length s :
  in_range s → 0 ≤ height s → Z.of_nat (length (window s)) = Z.min (height s) (len s).
Proof.
  destruct s. unfold window. intros Hs Hh. rewrite length_take, length_drop. revert Hs. list_lia.
Qed.

(** Lines separated by a newline, as the views write them. *)
Definition join_lines (rows : list bytes) : bytes :=
  match rows with [] => [] | r :: rows => r ++ mjoin (cons Byte.x0a <$> rows) end.

Context (renderRow : T → bool → bytes).

(** Row [i] of the window. *)
Definition row s (i : nat) (it : T) : bytes :=
  renderRow it (bool_decide (yOffset s + Z.of_nat i = selected s)).

Lemma at_lookup {A} (l : list A) (i : Z) : 0 ≤ i → at_ l i = l !! Z.to_nat i.
Proof. intros. unfold at_. destruct (Z.ltb_spec i 0); [lia|done]. Qed.

Lemma view_rows_spec n (r : nat) s :
  0 ≤ yOffset s →
  view_rows renderRow n (Z.of_nat r) s =
    Ok (mjoin (imap (λ i it, (if (0 <? r + i)%nat then [Byte.x0a] else []) ++ row s (r + i) it)
                 (take n (drop (Z.to_nat (yOffset s) + r) (items s))))).
Proof.
  intros Hy. revert r. induction n as [|n IH]; intros r; [done|]. cbn [view_rows].
  destruct (Z.leb_spec (len s) (yOffset s + Z.of_nat r)) as [Hlt|Hlt]; unfold len in Hlt.
  - by rewrite drop_ge by lia.
  - rewrite at_lookup by lia.
    replace (Z.to_nat (yOffset s + Z.of_nat r)) with (Z.to_nat (yOffset s) + r)%nat by lia.
    destruct (lookup_lt_is_Some_2 (items s) (Z.to_nat (yOffset s) + r)) as [it Hit]; [lia|].
    rewrite Hit. replace (Z.of_nat r + 1) with (Z.of_nat (S r)) by lia. rewrite IH.
    rewrite (drop_S _ _ _ Hit). cbn [take imap mjoin list_join mbind result_bind].
    rewrite Nat.add_0_r. replace (S (Z.to_nat (yOffset s) + r)) with (Z.to_nat (yOffset s) + S r)%nat by lia.
    f_equal. rewrite <-app_assoc. f_equal; [by destruct r|]. f_equal. f_equal.
    apply imap_ext. intros i x _. cbn. by rewrite Nat.add_succ_r.
Qed.

Lemma join_lines_imap (f : nat → T → bytes) (l : list T) :
  mjoin (imap (λ i it, (if (0 <? i)%nat then [Byte.x0a] else []) ++ f i it) l) =
  join_lines (imap f l).
Proof.
  destruct l as [|x l]; [done|]. cbn. f_equal. f_equal. unfold compose.
  rewrite fmap_imap. by apply imap_ext.
Qed.

(** What is drawn is the window, and drawing never panics. *)
Lemma view_window s :
  in_range s → view renderRow s = Ok (join_lines (imap (row s) (window s))).
Proof.
  intros Hs. unfold view, window. destruct (Z.leb_spec (height s) 0) as [Hh|Hh].
  { by replace (Z.to_nat (height s)) with 0%nat by lia. }
  destruct (Z.eqb_spec (len s) 0) as [Hl|Hl].
  { unfold len in Hl. destruct (items s) eqn:Hi; [|cbn in Hl; lia].
    cbn. by rewrite drop_nil, take_nil. }
  cbn [orb]. rewrite (view_rows_spec _ 0) by (destruct Hs; lia).
  rewrite Nat.add_0_r. by rewrite join_lines_imap.
Qed.

End list_facts.

(** ** Lists as maps

    A list whose keys are distinct is the map from key to item. *)

Section list_maps.
Context {T : Type} (key : T → bytes).
Implicit Types (s : selectList T).

Definition distinct s : Prop := NoDup (key <$> items s).
Definition as_map (l : list T) : gmap bytes T := list_to_map ((λ it, (key it, it)) <$> l).

Lemma as_map_keys l : ((λ it, (key it, it)) <$> l).*1 = key <$> l.
Proof. by rewrite <-list_fmap_compose. Qed.

Lemma as_map_lookup l k it :
  NoDup (key <$> l) → as_map l !! k = Some it ↔ it ∈ l ∧ key it = k.
Proof.
  intros Hd. unfold as_map. rewrite <-elem_of_list_to_map by by rewrite as_map_keys.
  rewrite list_elem_of_fmap. naive_solver.
Qed.

Lemma key_inj (l : list T) x y :
  NoDup (key <$> l) → x ∈ l → y ∈ l → key x = key y → x = y.
Proof.
  intros Hd Hx Hy Heq. assert (as_map l !! key x = Some x) as Hlx by by apply as_map_lookup.
  assert (as_map l !! key x = Some y) as Hly by by apply as_map_lookup. congruence.
Qed.

Lemma elem_of_insert_inv (l : list T) i x y : x ∈ <[i:=y]> l → x = y ∨ x ∈ l.
Proof.
  intros [j Hj]%list_elem_of_lookup. apply list_lookup_insert_Some in Hj as [(_ & -> & _)|[_ Hj]];
    [by left|right]. by eapply list_elem_of_lookup_2.
Qed.

Lemma find_none (l : list T) k :
  list_find (λ it, key it = k) l = None → k ∉ key <$> l.
Proof.
  intros Hn%list_find_None [it [-> Hit]]%list_elem_of_fmap. rewrite Forall_forall in Hn.
  by apply (Hn it).
Qed.

Lemma upsert_items it s :
  items (upsert key it s) =
    match list_find (λ x, key x = key it) (items s) with
    | Some (i, _) => <[i := it]> (items s)
    | None => items s ++ [it]
    end.
Proof. unfold upsert. case_match; [destruct p|]; by rewrite clampSelection_items. Qed.

Lemma remove_items id s :
  items (remove key id s) =
    match list_find (λ x, key x = id) (items s) with
    | Some (i, _) => delete i (items s)
    | None => items s
    end.
Proof.
  unfold remove. rewrite clampYOffset_items, clampSelection_items. by case_match; [destruct p|].
Qed.

Lemma insert_keys (l : list T) i x it :
  l !! i = Some x → key x = key it → key <$> <[i:=it]> l = key <$> l.
Proof.
  intros Hi Hx. rewrite list_fmap_insert. apply list_insert_id.
  by rewrite list_lookup_fmap, Hi, <-Hx.
Qed.

Lemma upsert_distinct it s : distinct s → distinct (upsert key it s).
Proof.
  unfold distinct. intros Hd. rewrite upsert_items. case_match eqn:Hf; [destruct p as [i x]|].
  - apply list_find_Some in Hf as (Hi & Hx & _). by rewrite (insert_keys _ _ x).
  - apply find_none in Hf. rewrite fmap_app. apply NoDup_app. split_and!; [done| |by apply NoDup_singleton].
    intros k Hk Hin%list_elem_of_singleton. by subst.
Qed.

Lemma remove_distinct id s : distinct s → distinct (remove key id s).
Proof.
  unfold distinct. intros Hd. rewrite remove_items. case_match; [destruct p as [i x]|done].
  eapply sublist_NoDup; [exact Hd|]. apply fmap_sublist, sublist_delete.
Qed.

(** Upserting inserts in the map, removing deletes from it. *)
Lemma as_map_upsert it s :
  distinct s → as_map (items (upsert key it s)) = <[key it := it]> (as_map (items s)).
Proof.
  intros Hd. pose proof (upsert_distinct it s Hd) as Hd'. unfold distinct in Hd, Hd'.
  apply map_eq. intros k. apply option_eq. intros x.
  rewrite as_map_lookup by done. rewrite upsert_items.
  destruct (decide (k = key it)) as [->|Hk].
  - rewrite lookup_insert_eq. rewrite upsert_items in Hd'.
    case_match eqn:Hf; [destruct p as [i y]; apply list_find_Some in Hf as (Hi & Hy & _)|].
    + assert (it ∈ <[i:=it]> (items s)) as Hit.
      { apply list_elem_of_insert. by eapply lookup_lt_Some. }
      split; [|naive_solver]. intros [Hx Heq]. f_equal. by eapply key_inj.
    + apply find_none in Hf. rewrite elem_of_app, list_elem_of_singleton. split; [|naive_solver].
      intros [[Hx|Hx] Heq]; [|by subst]. destruct Hf. rewrite <-Heq. by apply list_elem_of_fmap_2.
  - rewrite lookup_insert_ne by done. rewrite as_map_lookup by done.
    split; intros [Hx <-]; (split; [|done]); revert Hx.
    + case_match eqn:Hf; [destruct p as [i y]|].
      * intros [Hx|Hx]%elem_of_insert_inv; [by subst|done].
      * rewrite elem_of_app, list_elem_of_singleton. naive_solver.
    + intros Hx. case_match eqn:Hf; [destruct p as [i y]|apply elem_of_app; by left].
      apply list_find_Some in Hf as (Hi & Hy & _).
      apply list_elem_of_lookup in Hx as [j Hj]. apply list_elem_of_lookup. exists j.
      rewrite list_lookup_insert_ne; [done|]. intros <-. congruence.
Qed.

Lemma as_map_remove id s :
  distinct s → as_map (items (remove key id s)) = delete id (as_map (items s)).
Proof.
  intros Hd. pose proof (remove_distinct id s Hd) as Hd'. unfold distinct in Hd, Hd'.
  rewrite remove_items in Hd' |- *. apply map_eq. intros k. apply option_eq. intros x.
  rewrite as_map_lookup by done. rewrite lookup_delete_Some, as_map_lookup by done.
  case_match eqn:Hf; [destruct p as [i y]; apply list_find_Some in Hf as (Hi & <- & _)|].
  - rewrite delete_take_drop in Hd' |- *. rewrite <-(take_drop_middle _ _ _ Hi) in Hd at 1.
    rewrite <-(take_drop_middle _ _ _ Hi) at 3.
    rewrite !elem_of_app, elem_of_cons. rewrite fmap_app, fmap_cons in Hd.
    assert (key y ∉ key <$> take i (items s) ++ drop (S i) (items s)) as Hn.
    { rewrite Permutation_app_comm, <-app_comm_cons, NoDup_cons, Permutation_app_comm in Hd.
      rewrite fmap_app. apply Hd. }
    split; [|naive_solver]. intros [Hx <-]. split; [|naive_solver].
    intros Heq. apply Hn. rewrite Heq. apply list_elem_of_fmap_2. by apply elem_of_app.
  - apply find_none in Hf. split; [|naive_solver]. intros [Hx <-]. split; [|done].
    intros ->. apply Hf. by apply list_elem_of_fmap_2.
Qed.
End list_maps.

(** ** The selection survives *)

Section selection.
Context {T : Type} (key : T → bytes).
Implicit Types (s : selectList T).

Lemma selectedItem_lookup s it :
  in_range s → selectedItem s = Some it ↔ items s !! Z.to_nat (selected s) = Some it ∧ len s ≠ 0.
Proof.
  intros [Hs _]. unfold selectedItem. rewrite at_lookup by lia. split; [|by intros []].
  intros Hit. split; [done|]. apply lookup_lt_Some in Hit. unfold len. lia.
Qed.

Lemma clampSelection_inside s : 0 ≤ selected s < len s → clampSelection s = s.
Proof. destruct s. unfold clampSelection. list_lia; intros; f_equal; lia. Qed.

Lemma selected_inside s it : in_range s → selectedItem s = Some it → 0 ≤ selected s < len s.
Proof. intros Hr [_ Hl]%selectedItem_lookup; [|done]. destruct Hr as [[]]; lia. Qed.

(** An upsert leaves the selection on the item with the same key. *)
Lemma upsert_keeps x s it :
  in_range s → selectedItem s = Some it →
  ∃ it', selectedItem (upsert key x s) = Some it' ∧ key it' = key it ∧ (key it ≠ key x → it' = it).
Proof.
  intros Hr Hit. pose proof (selected_inside s it Hr Hit) as Hin.
  apply selectedItem_lookup in Hit as [Hit _]; [|done]. unfold selectedItem, upsert.
  case_match eqn:Hf; [destruct p as [i y]; apply list_find_Some in Hf as (Hi & Hy & _)|].
  - rewrite clampSelection_inside by (unfold len; cbn; rewrite length_insert; apply Hin).
    cbn [items selected set_items]. rewrite at_lookup by lia.
    destruct (decide (i = Z.to_nat (selected s))) as [->|Hne].
    + rewrite list_lookup_insert_eq by by eapply lookup_lt_Some. exists x. naive_solver.
    + rewrite list_lookup_insert_ne by done. by exists it.
  - rewrite clampSelection_inside
      by (unfold len in *; cbn; rewrite length_app; cbn; lia).
    cbn [items selected set_items]. rewrite at_lookup by lia.
    exists it. by rewrite (lookup_app_l_Some _ _ _ _ Hit).
Qed.

(** Removing a row above the selection moves it to the next row. *)
Lemma remove_moves id s (i : nat) y :
  in_range s → list_find (λ it, key it = id) (items s) = Some (i, y) →
  Z.of_nat i < selected s → selected s + 1 < len s →
  selectedItem (remove key id s) = at_ (items s) (selected s + 1).
Proof.
  intros Hr Hf Hi Hl. pose proof Hf as (Hy & _)%list_find_Some.
  pose proof (lookup_lt_Some _ _ _ Hy) as Hlt.
  unfold selectedItem, remove. rewrite Hf.
  rewrite clampSelection_inside
    by (unfold len in *; cbn; rewrite length_delete by done; lia).
  cbn [items selected set_items set_yOffset clampYOffset]. rewrite !at_lookup by lia.
  rewrite list_lookup_delete_ge by lia. f_equal. lia.
Qed.
End selection.

(** ** The feed *)

Lemma feed_upsert_range p (f : feedPanel) : in_range f → in_range (feed_upsert p f).
Proof.
  intros Hr. unfold feed_upsert. case_decide; [done|].
  case_match; [destruct p0|apply clamp_range].
  destruct f. revert Hr. unfold set_items, in_range, maxYOffset, len. cbn. by rewrite length_insert.
Qed.
Lemma feed_remove_range id (f : feedPanel) : in_range f → in_range (feed_remove id f).
Proof.
  intros Hr. unfold feed_remove. case_match; [destruct p|done]. apply clamp_range.
Qed.

Lemma feed_upsert_keeps p (f : feedPanel) it :
  in_range f → selectedItem f = Some it →
  ∃ it', selectedItem (feed_upsert p f) = Some it' ∧ fp_id it' = fp_id it.
Proof.
  intros Hr Hit. pose proof (selected_inside f it Hr Hit) as Hin.
  pose proof Hit as Hit0.
  apply selectedItem_lookup in Hit as [Hit _]; [|done]. unfold feed_upsert.
  case_decide; [by exists it|].
  destruct (list_find (λ ex, fp_id ex = fp_id p) (items f)) as [[i y]|] eqn:Hf.
  - apply list_find_Some in Hf as (Hi & Hy & _). unfold selectedItem. cbn.
    rewrite at_lookup by lia. destruct (decide (i = Z.to_nat (selected f))) as [->|Hne].
    + rewrite list_lookup_insert_eq by by eapply lookup_lt_Some. exists p. naive_solver.
    + rewrite list_lookup_insert_ne by done. by exists it.
  - set (pos := match list_find _ (items f) with Some (i, _) => i | None => _ end).
    assert (pos ≤ length (items f))%nat as Hpos.
    { unfold pos. case_match eqn:Hp; [|done]. destruct p0 as [j z].
      apply list_find_Some in Hp as (Hj & _). apply lookup_lt_Some in Hj. lia. }
    assert (length (take pos (items f)) = pos) as Hlt by (rewrite length_take; lia).
    exists it. split; [|done]. unfold len in Hin.
    destruct (Z.leb_spec (Z.of_nat pos) (selected f)) as [Hle|Hgt]; unfold selectedItem;
      rewrite clampYOffset_items, clampYOffset_selected;
      rewrite clampSelection_inside
        by (unfold len; cbn; rewrite length_app, length_cons, Hlt, length_drop; lia);
      cbn [items selected set_items set_selected]; rewrite at_lookup by lia.
    + rewrite lookup_app_r by lia. rewrite Hlt.
      replace (Z.to_nat (selected f + 1) - pos)%nat with (S (Z.to_nat (selected f) - pos)) by lia.
      change (drop pos (items f) !! (Z.to_nat (selected f) - pos)%nat = Some it).
      rewrite lookup_drop, <-Hit. f_equal. lia.
    + rewrite lookup_app_l by lia. by rewrite lookup_take_lt by lia.
Qed.

Lemma feed_remove_keeps id (f : feedPanel) it :
  in_range f → selectedItem f = Some it → fp_id it ≠ id →
  selectedItem (feed_remove id f) = Some it.
Proof.
  intros Hr Hit Hne. pose proof (selected_inside f it Hr Hit) as Hin. pose proof Hit as Hit0.
  apply selectedItem_lookup in Hit as [Hit _]; [|done]. unfold feed_remove.
  destruct (list_find _ (items f)) as [[i y]|] eqn:Hf; [|done].
  apply list_find_Some in Hf as (Hi & Hy & _). pose proof (lookup_lt_Some _ _ _ Hi) as Hlt.
  assert (i ≠ Z.to_nat (selected f)) as Hi' by (intros ->; congruence). unfold len in Hin.
  destruct (Z.ltb_spec (Z.of_nat i) (selected f)) as [Hlt'|Hge]; unfold selectedItem;
    rewrite clampYOffset_items, clampYOffset_selected;
    rewrite clampSelection_inside
      by (unfold len; cbn; rewrite length_delete by done; lia);
    cbn [items selected set_items set_selected]; rewrite at_lookup by lia.
  - rewrite list_lookup_delete_ge by lia. rewrite <-Hit. f_equal. lia.
  - by rewrite list_lookup_delete_lt by lia.
Qed.

(** *** The order of the feed *)

#[export] Instance postLess_strict_weak : StrictWeak postLess.
Proof.
  split; unfold postLess.
  - intros x. rewrite decide_True by done. apply not_true_iff_false. apply bytes_lt_irrefl.
  - intros x y z. repeat case_decide; rewrite ?Z.ltb_lt; try lia.
    intros Hyx Hzy. by eapply bytes_lt_trans.
  - intros x y z. repeat case_decide; rewrite ?Z.ltb_ge; try lia.
    rewrite <-!not_true_iff_false. intros Hyx Hzy Hzx.
    destruct (bytes_lt_total (fp_id y) (fp_id x)) as [|[Heq|Hlt]]; [done| |].
    + apply Hzy. unfold bytes_lt in *. by rewrite Heq.
    + apply Hzy. by eapply bytes_lt_trans.
Qed.

Lemma postLess_total a b : fp_id a ≠ fp_id b → postLess a b = negb (postLess b a).
Proof.
  intros Hne. unfold postLess. repeat case_decide; try lia.
  destruct (bytes_lt_total (fp_id a) (fp_id b)) as [Hlt|[Heq|Hlt]]; [|done|].
  - unfold bytes_lt in Hlt. rewrite Hlt. apply not_true_iff_false. intros Hlt'.
    apply (bytes_lt_irrefl (fp_id a)). by eapply bytes_lt_trans.
  - unfold bytes_lt in Hlt. rewrite Hlt. symmetry. apply negb_true_iff, not_true_iff_false.
    intros Hlt'. apply (bytes_lt_irrefl (fp_id a)). by eapply bytes_lt_trans.
Qed.

Lemma postLess_equiv a b : equiv_keys postLess a b = true → fp_id a = fp_id b.
Proof.
  unfold equiv_keys. rewrite andb_true_iff, !negb_true_iff. intros [Ha Hb].
  destruct (decide (fp_id a = fp_id b)); [done|]. by rewrite (postLess_total a b), Hb in Ha by done.
Qed.

(** The place the loop finds is the place of the insertion sort. *)
Lemma insert_at_place p (l : list feedPost) :
  fp_id p ∉ fp_id <$> l →
  let pos := match list_find (λ ex, postLess p ex = true) l with
             | Some (i, _) => i | None => length l end in
  take pos l ++ p :: drop pos l = insert_before postLess p l.
Proof.
  induction l as [|x l IH]; [done|]. rewrite fmap_cons, not_elem_of_cons. intros [Hne Hl].
  cbn [list_find insert_before]. rewrite (postLess_total x p) by done.
  specialize (IH Hl). destruct (postLess p x) eqn:Hx.
  - by rewrite decide_True.
  - rewrite decide_False by done. cbn [negb].
    destruct (list_find _ l) as [[i y]|]; cbn in *; by rewrite IH.
Qed.

Lemma feed_upsert_fresh p (f : feedPanel) :
  fp_id p ≠ [] → fp_id p ∉ fp_id <$> items f →
  items (feed_upsert p f) = insert_before postLess p (items f).
Proof.
  intros Hid Hf. unfold feed_upsert. rewrite decide_False by done.
  destruct (list_find (λ ex, fp_id ex = fp_id p) (items f)) as [[i y]|] eqn:Hl.
  - apply list_find_Some in Hl as (Hi & Hy & _). destruct Hf. rewrite <-Hy.
    apply list_elem_of_fmap_2. by eapply list_elem_of_lookup_2.
  - rewrite clampYOffset_items, clampSelection_items, <-insert_at_place by done.
    by case_match.
Qed.

Definition distinct_posts (l : list feedPost) : Prop := NoDup (fp_id <$> l).

Lemma distinct_posts_keys l :
  distinct_posts l → ∀ x y, x ∈ l → y ∈ l → equiv_keys postLess x y = true → x = y.
Proof. intros Hd x y Hx Hy Heq%postLess_equiv. exact (key_inj fp_id _ _ _ Hd Hx Hy Heq). Qed.

(** Posts pushed one by one, in any order, leave the sorted feed. *)
Lemma feed_pushes ps (f : feedPanel) :
  StronglySorted (not_after postLess) (items f) →
  distinct_posts (items f ++ ps) → Forall (λ p, fp_id p ≠ []) ps →
  items (foldl (λ f p, feed_upsert p f) f ps) = stable_sort postLess (items f ++ ps).
Proof.
  revert f. induction ps as [|p ps IH]; intros f Hs Hd Hid.
  - cbn [foldl]. rewrite app_nil_r in *.
    apply (StronglySorted_unique_strong (not_after postLess));
      [|done|apply stable_sort_sorted, _|by rewrite stable_sort_perm].
    intros x y Hx Hy H1 H2. rewrite stable_sort_perm in Hy.
    apply (distinct_posts_keys _ Hd); [done..|]. unfold equiv_keys. by rewrite H1, H2.
  - inversion Hid as [|? ? Hp Hps]; subst. cbn [foldl].
    assert (fp_id p ∉ fp_id <$> items f) as Hf.
    { unfold distinct_posts in Hd. rewrite fmap_app, NoDup_app in Hd. destruct Hd as (_ & Hd & _).
      intros Hin. apply (Hd _ Hin). rewrite fmap_cons. left. }
    assert (items (feed_upsert p f) ++ ps ≡ₚ items f ++ p :: ps) as Hperm.
    { rewrite feed_upsert_fresh, insert_before_perm by done. apply Permutation_middle. }
    rewrite IH; [| | |done].
    + apply stable_sort_perm_eq; [apply _|done|]. apply distinct_posts_keys.
      unfold distinct_posts in *. by rewrite Hperm.
    + rewrite feed_upsert_fresh by done. apply insert_before_sorted; [apply _|done].
    + unfold distinct_posts in *. by rewrite Hperm.
Qed.
