(* ===== verification/Feed.v ===== *)
(** * The feed panel

    Models [internal/tui/feed.go] as it is written: the panel has a record of
    its own and repeats the navigation, the clamping and the window of
    [selectlist.go]. [as_list] reads it as a list; every operation of the panel
    is that of the list, which is what the rest of the development uses. *)

From Stdlib Require Import Strings.Byte.
From S2P Require Import Prelude Tui TuiFacts.
#[local] Open Scope go_scope.
#[local] Open Scope Z_scope.

Module Feed.
Record feedPanel := mkPanel {
  f_width : Z;
  f_height : Z;
  f_yOffset : Z;
  posts : list feedPost;
  f_selected : Z;
}.
Implicit Types (f : feedPanel) (p : feedPost).

Definition n_posts f : Z := Z.of_nat (length (posts f)).
Definition set_yOffset y f := mkPanel (f_width f) (f_height f) y (posts f) (f_selected f).
Definition set_posts l f := mkPanel (f_width f) (f_height f) (f_yOffset f) l (f_selected f).
Definition set_selected i f := mkPanel (f_width f) (f_height f) (f_yOffset f) (posts f) i.

Definition newFeedPanel (w h : Z) : feedPanel := mkPanel w h 0 [] 0.

Definition maxYOffset f : Z := if n_posts f <=? f_height f then 0 else n_posts f - f_height f.

Definition clampYOffset f : feedPanel :=
  let max := maxYOffset f in
  let y := if f_yOffset f <? 0 then 0 else f_yOffset f in
  set_yOffset (if max <? y then max else y) f.

Definition clampSelection f : feedPanel :=
  if n_posts f =? 0 then set_selected 0 f
  else
    let i := if f_selected f <? 0 then 0 else f_selected f in
    set_selected (if n_posts f <=? i then n_posts f - 1 else i) f.

Definition resize (w h : Z) f : feedPanel :=
  clampYOffset (mkPanel w h (f_yOffset f) (posts f) (f_selected f)).

Definition setPosts (l : list feedPost) f : feedPanel := clampYOffset (clampSelection (set_posts l f)).

(** The first loop replaces a post with the same ID; the second finds where a
    new one goes. *)
Fixpoint replace_post (p : feedPost) (l : list feedPost) : option (list feedPost) :=
  match l with
  | [] => None
  | ex :: l => if decide (fp_id ex = fp_id p) then Some (p :: l) else (ex ::.) <$> replace_post p l
  end.
Fixpoint slot (p : feedPost) (l : list feedPost) : nat :=
  match l with
  | [] => O
  | ex :: l => if postLess p ex then O else S (slot p l)
  end.

Definition upsert (p : feedPost) f : feedPanel :=
  if decide (fp_id p = []) then f
  else
    match replace_post p (posts f) with
    | Some l => set_posts l f
    | None =>
        let pos := slot p (posts f) in
        let f := set_posts (take pos (posts f) ++ p :: drop pos (posts f)) f in
        let f := if Z.of_nat pos <=? f_selected f then set_selected (f_selected f + 1) f else f in
        clampYOffset (clampSelection f)
    end.

(** The loop of [remove]: the index and the posts without it. *)
Fixpoint cut_post (id : bytes) (l : list feedPost) : option (nat * list feedPost) :=
  match l with
  | [] => None
  | ex :: l => if decide (fp_id ex = id) then Some (O, l)
               else (λ '(i, l), (S i, ex :: l)) <$> cut_post id l
  end.

Definition remove (id : bytes) f : feedPanel :=
  match cut_post id (posts f) with
  | None => f
  | Some (i, l) =>
      let f := set_posts l f in
      let f := if Z.of_nat i <? f_selected f then set_selected (f_selected f - 1) f else f in
      clampYOffset (clampSelection f)
  end.

Definition vpWheelStep : Z := 3.
Definition maxScrollStep f : Z := if 0 <? f_height f - 1 then f_height f - 1 else 1.

Definition scrollBy (delta : Z) f : feedPanel := clampYOffset (set_yOffset (f_yOffset f + delta) f).

Definition ensureVisible f : feedPanel :=
  if (n_posts f =? 0) || (f_height f =? 0) then f
  else
    let top := f_selected f in
    let bottom := top + 1 in
    clampYOffset (
      if f_yOffset f + f_height f <? bottom then set_yOffset (bottom - f_height f) f
      else if top <? f_yOffset f then set_yOffset top f
      else f).

Definition move (delta : Z) f : feedPanel :=
  if n_posts f =? 0 then f
  else
    let i := f_selected f + delta in
    let i := if i <? 0 then 0 else i in
    ensureVisible (set_selected (if n_posts f <=? i then n_posts f - 1 else i) f).

Definition press (k : bytes) f : feedPanel :=
  if decide (k = # "up" ∨ k = # "k") then move (-1) f
  else if decide (k = # "down" ∨ k = # "j") then move 1 f
  else if decide (k = # "pgup") then scrollBy (- maxScrollStep f) f
  else if decide (k = # "pgdown") then scrollBy (maxScrollStep f) f
  else if decide (k = # "home" ∨ k = # "g") then
    if n_posts f =? 0 then f else clampYOffset (set_selected 0 f)
  else if decide (k = # "end" ∨ k = # "G") then
    if n_posts f =? 0 then f else ensureVisible (set_selected (n_posts f - 1) f)
  else f.

Definition update (msg : Msg) f : feedPanel :=
  match msg with
  | KeyPressMsg k => press (k_String k) f
  | MouseWheelMsg MouseWheelUp => scrollBy (- vpWheelStep) f
  | MouseWheelMsg MouseWheelDown => scrollBy vpWheelStep f
  | _ => f
  end.

Definition click (row : Z) f : feedPanel :=
  if (n_posts f =? 0) || (row <? 0) || (f_height f =? 0) then f
  else
    let idx := row + f_yOffset f in
    if (idx <? 0) || (n_posts f <=? idx) then f else set_selected idx f.

Definition selectedItem f : option feedPost :=
  if (f_selected f <? 0) || (n_posts f <=? f_selected f) then None else at_ (posts f) (f_selected f).

(** ** Drawing *)

Section draw.
Context (hint author_style age_style : bool → bytes → bytes).

(** The author in one style and the age in another; both know whether the row
    is selected. *)
Definition renderRow (p : feedPost) (selected : bool) : bytes :=
  let display := if decide (fp_name p = []) then fp_author p else fp_name p in
  author_style selected display ++ # "  " ++ fp_text p ++ # "  " ++ age_style selected (fp_age p).

(** The loop over the rows; the text written so far is [b]. *)
Fixpoint render_rows (n : nat) (row : Z) (f : feedPanel) (b : bytes) : result bytes :=
  match n with
  | O => Ok b
  | S n =>
      let idx := f_yOffset f + row in
      if n_posts f <=? idx then Ok b
      else
        let b := if 0 <? row then b ++ [Byte.x0a] else b in
        match at_ (posts f) idx with
        | None => Err (Panic "index out of range")
        | Some p => render_rows n (row + 1) f (b ++ renderRow p (bool_decide (idx = f_selected f)))
        end
  end.

Definition render f : result bytes :=
  if f_height f <=? 0 then Ok []
  else if n_posts f =? 0 then Ok (hint false (# "(no posts yet)"))
  else render_rows (Z.to_nat (f_height f)) 0 f [].
End draw.

(** ** As a list *)

Definition as_list f : selectList feedPost :=
  mkList (f_width f) (f_height f) (f_yOffset f) (posts f) (f_selected f).

Lemma as_list_if (b : bool) f g : as_list (if b then f else g) = if b then as_list f else as_list g.
Proof. by destruct b. Qed.

Lemma clampYOffset_list f : as_list (clampYOffset f) = Tui.clampYOffset (as_list f).
Proof. done. Qed.
Lemma clampSelection_list f : as_list (clampSelection f) = Tui.clampSelection (as_list f).
Proof. unfold clampSelection, Tui.clampSelection. by rewrite as_list_if. Qed.
Lemma ensureVisible_list f : as_list (ensureVisible f) = Tui.ensureVisible (as_list f).
Proof.
  unfold ensureVisible, Tui.ensureVisible. rewrite as_list_if. change (len (as_list f)) with (n_posts f).
  destruct (_ || _); [done|]. cbn zeta. rewrite clampYOffset_list. by rewrite !as_list_if.
Qed.
Lemma move_list d f : as_list (move d f) = Tui.move d (as_list f).
Proof.
  unfold move, Tui.move. rewrite as_list_if. change (len (as_list f)) with (n_posts f).
  destruct (_ =? _); [done|]. cbn zeta. by rewrite ensureVisible_list.
Qed.
Lemma scrollBy_list d f : as_list (scrollBy d f) = Tui.scrollBy d (as_list f).
Proof. done. Qed.

Lemma press_list k f : as_list (press k f) = Tui.press k (as_list f).
Proof.
  unfold press, Tui.press.
  repeat case_decide; try apply move_list; try done; rewrite as_list_if;
    change (len (as_list f)) with (n_posts f); destruct (_ =? _); try done.
  by rewrite ensureVisible_list.
Qed.

Lemma update_list msg f : as_list (update msg f) = Tui.update msg (as_list f).
Proof. destruct msg as [| | | | | |k|[]| |]; try done. apply press_list. Qed.

Lemma click_list row f : as_list (click row f) = Tui.click row (as_list f).
Proof.
  unfold click, Tui.click. change (len (as_list f)) with (n_posts f). rewrite as_list_if.
  destruct (_ || _); [done|]. cbn zeta. rewrite as_list_if. by destruct (_ || _).
Qed.

(** The loops of [upsert] and [remove] are the searches of the list model. *)
Lemma replace_post_find p l :
  replace_post p l = (λ '(i, _), <[i := p]> l) <$> list_find (λ ex, fp_id ex = fp_id p) l.
Proof.
  induction l as [|ex l IH]; [done|]. cbn [replace_post list_find]. case_decide; [done|].
  rewrite IH. by destruct (list_find _ l) as [[]|].
Qed.

Lemma slot_find p l :
  slot p l = match list_find (λ ex, postLess p ex = true) l with Some (i, _) => i | None => length l end.
Proof.
  induction l as [|ex l IH]; [done|]. cbn [slot list_find length]. destruct (postLess p ex) eqn:He.
  - by rewrite decide_True.
  - rewrite decide_False by done. rewrite IH. by destruct (list_find _ l) as [[]|].
Qed.

Lemma cut_post_find id l :
  cut_post id l = (λ '(i, _), (i, delete i l)) <$> list_find (λ ex, fp_id ex = id) l.
Proof.
  induction l as [|ex l IH]; [done|]. cbn [cut_post list_find]. case_decide; [done|].
  rewrite IH. by destruct (list_find _ l) as [[]|].
Qed.

Lemma upsert_list p f : as_list (upsert p f) = feed_upsert p (as_list f).
Proof.
  unfold upsert, feed_upsert. case_decide; [done|]. rewrite replace_post_find, slot_find.
  cbn [items as_list]. destruct (list_find (λ ex, fp_id ex = fp_id p) (posts f)) as [[i ex]|]; [done|].
  cbn. rewrite clampYOffset_list, clampSelection_list. by rewrite as_list_if.
Qed.

Lemma remove_list id f : as_list (remove id f) = feed_remove id (as_list f).
Proof.
  unfold remove, feed_remove. rewrite cut_post_find. cbn [items as_list].
  destruct (list_find _ (posts f)) as [[i ex]|]; [|done].
  cbn. rewrite clampYOffset_list, clampSelection_list. by rewrite as_list_if.
Qed.

Lemma selectedItem_list f : in_range (as_list f) → selectedItem f = Tui.selectedItem (as_list f).
Proof.
  intros [Hr _]. unfold selectedItem, Tui.selectedItem. change (len (as_list f)) with (n_posts f) in Hr.
  cbn [items selected as_list] in *. unfold n_posts in *. destruct (_ <? 0) eqn:Hn; cbn [orb].
  - apply Z.ltb_lt in Hn. unfold at_. by rewrite (proj2 (Z.ltb_lt _ _) Hn).
  - destruct (Z.leb_spec (Z.of_nat (length (posts f))) (f_selected f)) as [Hle|]; [|done].
    unfold at_. rewrite Hn. symmetry. apply lookup_ge_None. apply Z.ltb_ge in Hn. lia.
Qed.

Section draw_list.
Context (hint author_style age_style : bool → bytes → bytes).

Lemma render_rows_list n row f b :
  render_rows author_style age_style n row f b =
    (rest ← view_rows (renderRow author_style age_style) n row (as_list f); Ok (b ++ rest)).
Proof.
  revert row b. induction n as [|n IH]; intros row b; [cbn; by rewrite app_nil_r|].
  cbn [render_rows view_rows]. change (len (as_list f)) with (n_posts f).
  cbn [yOffset items selected as_list].
  destruct (_ <=? _); [cbn; by rewrite app_nil_r|].
  destruct (at_ (posts f) (f_yOffset f + row)) as [p|]; [|done]. rewrite IH.
  destruct (view_rows _ n (row + 1) (as_list f)) as [rest|e]; [|done]. cbn.
  by destruct (0 <? row); cbn; rewrite <-?(assoc_L (++)).
Qed.

Lemma render_list f :
  render hint author_style age_style f =
    feed_render (renderRow author_style age_style) (hint false (# "(no posts yet)")) (as_list f).
Proof.
  unfold render, feed_render. change (len (as_list f)) with (n_posts f). cbn [height as_list].
  destruct (_ <=? _); [done|]. destruct (_ =? _); [done|]. rewrite render_rows_list.
  by destruct (view_rows _ _ 0 (as_list f)).
Qed.
End draw_list.

(** ** Whatever happens to the panel *)

Inductive feed_op :=
  | OpResize (w h : Z)
  | OpSetPosts (l : list feedPost)
  | OpUpsert (p : feedPost)
  | OpRemove (id : bytes)
  | OpUpdate (msg : Msg)
  | OpClick (row : Z).

Definition apply_op (o : feed_op) f : feedPanel :=
  match o with
  | OpResize w h => resize w h f
  | OpSetPosts l => setPosts l f
  | OpUpsert p => upsert p f
  | OpRemove id => remove id f
  | OpUpdate msg => update msg f
  | OpClick row => click row f
  end.
Definition apply_list_op (o : feed_op) (s : selectList feedPost) : selectList feedPost :=
  match o with
  | OpResize w h => Tui.resize w h s
  | OpSetPosts l => Tui.setPosts l s
  | OpUpsert p => feed_upsert p s
  | OpRemove id => feed_remove id s
  | OpUpdate msg => Tui.update msg s
  | OpClick row => Tui.click row s
  end.

Lemma apply_op_list o f : as_list (apply_op o f) = apply_list_op o (as_list f).
Proof.
  destruct o; cbn [apply_op apply_list_op];
    [done| |apply upsert_list|apply remove_list|apply update_list|apply click_list].
  unfold setPosts, Tui.setPosts, setItems. by rewrite clampYOffset_list, clampSelection_list.
Qed.

Lemma apply_list_op_range o s : in_range s → in_range (apply_list_op o s).
Proof.
  intros Hs. destruct o; cbn [apply_list_op].
  - by apply resize_range.
  - apply setItems_range.
  - by apply feed_upsert_range.
  - by apply feed_remove_range.
  - by apply update_range.
  - by apply click_range.
Qed.

Definition run_ops (l : list feed_op) f : feedPanel := foldl (λ f o, apply_op o f) f l.

Lemma run_ops_list l f :
  as_list (run_ops l f) = foldl (λ s o, apply_list_op o s) (as_list f) l ∧
  (in_range (as_list f) → in_range (as_list (run_ops l f))).
Proof.
  revert f. induction l as [|o l IH]; intros f; [done|]. cbn [run_ops foldl].
  destruct (IH (apply_op o f)) as [Heq Hr]. rewrite apply_op_list in *.
  split; [done|]. intros Hf. by apply Hr, apply_list_op_range.
Qed.
End Feed.
