(* ===== verification/TuiModel.v ===== *)
(** * The user interface: the model and its update function

    Models [internal/tui/model.go], [keys.go], [tab.go], [compose.go] and the
    tab bar of [tui.go]. The text input and the measures of the styles come
    from libraries and are parameters; a command is named by what it does. *)

From Stdlib Require Import Strings.Byte.
From S2P Require Import Prelude Text Tui.
#[local] Open Scope go_scope.
#[local] Open Scope Z_scope.

(** ** Libraries *)

(** [bubbles/textinput]: a line of text. *)
Class TextInput := {
  input : Type;
  input_New : input;
  input_Focus : input → input;
  input_Value : input → bytes;
  input_Reset : input → input;
  input_Update : KeyPress → input → input;
  input_SetWidth : Z → input → input;
}.

(** [Reset] empties the line; the width and the focus do not touch it. *)
Class TextInputLaws `{TextInput} : Prop := {
  Value_New : input_Value input_New = [];
  Value_Focus i : input_Value (input_Focus i) = input_Value i;
  Value_Reset i : input_Value (input_Reset i) = [];
  Value_SetWidth w i : input_Value (input_SetWidth w i) = input_Value i;
}.

(** What [lipgloss] measures of the styles of [styles.go]. *)
Class Theme := {
  labelWidth : bool → bytes → Z;
  sepWidth : Z;
  tabBarFrame : Z;
  panelHorizontalFrame : Z;
  panelVerticalFrame : Z;
}.

(** ** Tabs *)

Definition tabFeed : Z := 0.
Definition tabZens : Z := 1.
Definition tabFollows : Z := 2.
Definition tabFollowers : Z := 3.
Definition tabs : list bytes := List.map lit ["Feed"; "Zens"; "Follows"; "Followers"]%string.
Definition n_tabs : Z := Z.of_nat (length tabs).

(** ** Commands *)

Inductive Cmd :=
  | NoCmd
  | Quit
  | subscribeCmd
  | subscribeContinueCmd (sub : nat)
  | reconnectCmd
  | postCmd (text : bytes)
  | actionCmd (label target : bytes)
  | inputCmd
  | Batch (a b : Cmd).

Section model.
Context `{TextInput, Theme}.

Record model := mkModel {
  identity : bytes;
  m_width : Z;
  m_height : Z;
  activeTab : Z;
  notice : bytes;
  feed : feedPanel;
  m_zens : selectList zen;
  follows : selectList zen;
  followers : selectList zen;
  compose : input;
  m_sub : option nat;
  status : statusInfo;
}.

Definition set_size w h m := mkModel (identity m) w h (activeTab m) (notice m) (feed m) (m_zens m)
  (follows m) (followers m) (compose m) (m_sub m) (status m).
Definition set_tab i m := mkModel (identity m) (m_width m) (m_height m) i (notice m) (feed m)
  (m_zens m) (follows m) (followers m) (compose m) (m_sub m) (status m).
Definition set_notice t m := mkModel (identity m) (m_width m) (m_height m) (activeTab m) t (feed m)
  (m_zens m) (follows m) (followers m) (compose m) (m_sub m) (status m).
Definition set_panels f z fs fr m := mkModel (identity m) (m_width m) (m_height m) (activeTab m)
  (notice m) f z fs fr (compose m) (m_sub m) (status m).
Definition set_feed_panel f m := set_panels f (m_zens m) (follows m) (followers m) m.
Definition set_zens_panel z m := set_panels (feed m) z (follows m) (followers m) m.
Definition set_follows z m := set_panels (feed m) (m_zens m) z (followers m) m.
Definition set_followers z m := set_panels (feed m) (m_zens m) (follows m) z m.
Definition set_compose c m := mkModel (identity m) (m_width m) (m_height m) (activeTab m) (notice m)
  (feed m) (m_zens m) (follows m) (followers m) c (m_sub m) (status m).
Definition set_sub s m := mkModel (identity m) (m_width m) (m_height m) (activeTab m) (notice m)
  (feed m) (m_zens m) (follows m) (followers m) (compose m) s (status m).
Definition set_status s m := mkModel (identity m) (m_width m) (m_height m) (activeTab m) (notice m)
  (feed m) (m_zens m) (follows m) (followers m) (compose m) (m_sub m) s.

Definition newModel (id : bytes) : model :=
  mkModel id 0 0 tabFeed [] (newSelectList 0 0) (newZenList 0 0) (newFollowList 0 0)
    (newFollowList 0 0) (input_Focus input_New) None (mkStatusInfo 0 false false).

Definition Init (m : model) : Cmd := Batch inputCmd subscribeCmd.

(** [compose.value]. *)
Definition compose_value (m : model) : bytes := TrimSpace (input_Value (compose m)).
Definition compose_reset (m : model) : model := set_compose (input_Reset (compose m)) m.

(** ** Snapshots and diffs *)

Definition applySnapshot (msg : snapshotMsg) (m : model) : model :=
  let m := set_panels (setPosts (sm_feed msg) (feed m)) (setItems (sm_zens msg) (m_zens m))
             (setItems (sm_follows msg) (follows m)) (setItems (sm_followers msg) (followers m)) m in
  set_notice [] (set_status (sm_status msg) m).

(** The rows of a follows or followers diff; a removal of the empty key is none. *)
Definition apply_rows (d : diffMsg) (s : selectList zen) : selectList zen :=
  let s := foldl (λ s z, upsert zn_identity z s) s (df_addZens d) in
  if decide (df_removeID d = []) then s else remove zn_identity (df_removeID d) s.

Definition applyDiff (d : diffMsg) (m : model) : model :=
  match df_panel d with
  | PFeed => set_feed_panel (foldl (λ f p, feed_upsert p f) (feed m) (df_add d)) m
  | PZens =>
      let z := match df_upsert d with Some z => upsert zn_id z (m_zens m) | None => m_zens m end in
      set_zens_panel (if decide (df_removeID d = []) then z else remove zn_id (df_removeID d) z) m
  | PFollows => set_follows (apply_rows d (follows m)) m
  | PFollowers => set_followers (apply_rows d (followers m)) m
  | PStatus => match df_status d with Some s => set_status s m | None => m end
  | PNone => m
  end.

(** ** Layout *)

Definition panelWidth (w : Z) : Z := w.
Definition panelHeight (h : Z) : Z := let body := h - 4 in if body <? 4 then 4 else body.
Definition panelContentWidth (w : Z) : Z := w - panelHorizontalFrame.
Definition panelContentHeight (h : Z) : Z := h - panelVerticalFrame.

Definition layout (m : model) : model :=
  if (m_width m =? 0) || (m_height m =? 0) then m
  else
    let w := panelContentWidth (panelWidth (m_width m)) in
    let h := panelContentHeight (panelHeight (m_height m)) in
    set_compose (input_SetWidth (m_width m - 4) (compose m))
      (set_panels (resize w h (feed m)) (resize w h (m_zens m)) (resize w h (follows m))
         (resize w h (followers m)) m).

(** ** Routing *)

(** The active panel updates itself on a key. *)
Definition routeToPanel (msg : Msg) (m : model) : model :=
  if activeTab m =? tabFeed then set_feed_panel (update msg (feed m)) m
  else if activeTab m =? tabZens then set_zens_panel (update msg (m_zens m)) m
  else if activeTab m =? tabFollows then set_follows (update msg (follows m)) m
  else if activeTab m =? tabFollowers then set_followers (update msg (followers m)) m
  else m.

(** The same switch on a turn of the wheel. *)
Definition routeMouse (msg : Msg) (m : model) : model := routeToPanel msg m.

(** The loop of [tabAt] over the labels from tab [i] on. *)
Fixpoint tab_at (names : list bytes) (i active x : Z) : Z :=
  match names with
  | [] => -1
  | t :: names =>
      let w := labelWidth (bool_decide (i = active)) t in
      if (0 <=? x) && (x <? w) then i else tab_at names (i + 1) active (x - (w + sepWidth))
  end.
Definition tabAt (x : Z) (m : model) : Z := tab_at tabs 0 (activeTab m) (x - tabBarFrame ÷ 2).

Definition routeClick (b : mouse_button) (x y : Z) (m : model) : model :=
  match b with
  | MouseLeft =>
      if y =? 1 then
        let i := tabAt x m in if 0 <=? i then set_tab i m else m
      else
        let row := y - 3 in
        if activeTab m =? tabFeed then set_feed_panel (click row (feed m)) m
        else if activeTab m =? tabZens then set_zens_panel (click row (m_zens m)) m
        else if activeTab m =? tabFollows then set_follows (click row (follows m)) m
        else if activeTab m =? tabFollowers then set_followers (click row (followers m)) m
        else m
  | _ => m
  end.

(** ** Keys *)

Definition isFollowing (i : bytes) (m : model) : bool :=
  existsb (λ f, bool_decide (zn_identity f = i)) (items (follows m)).

Definition info_text (z : zen) : bytes :=
  zn_name z ++ # "  " ++ zn_identity z ++ # "  " ++ zn_status z ++ # "  verified:" ++
    bool_text (zn_verified z).

(** [None]: the key was not consumed. *)
Definition zenAction (k : KeyPress) (m : model) : option (model * Cmd) :=
  match selectedItem (m_zens m) with
  | None => None
  | Some z =>
      if decide (zn_identity z = []) then None
      else if decide (k_String k = # "i") then Some (set_notice (info_text z) m, NoCmd)
      else if decide (k_String k = # "f") then
        if isFollowing (zn_identity z) m
        then Some (set_notice (# "already following " ++ zn_name z) m, NoCmd)
        else Some (m, actionCmd (# "follow") (zn_identity z))
      else if decide (k_String k = # "u") then
        if isFollowing (zn_identity z) m
        then Some (m, actionCmd (# "unfollow") (zn_identity z))
        else Some (set_notice (# "not following " ++ zn_name z) m, NoCmd)
      else None
  end.

Definition editing_keys : list bytes :=
  List.map lit ["backspace"; "delete"; "ctrl+w"; "ctrl+u"; "ctrl+a"; "ctrl+e"; "left"; "right";
                "alt+backspace"; "ctrl+left"; "ctrl+right"]%string.
Definition isPrintable (k : KeyPress) : bool :=
  bool_decide (k_String k ∈ editing_keys) || bool_decide (k_Text k ≠ []).

(** The remainder of Go's [%] on operands that are not negative. *)
Definition handleKey (k : KeyPress) (m : model) : model * Cmd :=
  if decide (k_String k = # "ctrl+c") then (m, Quit)
  else if decide (k_String k = # "enter") then
    let text := compose_value m in
    if decide (text = []) then (routeToPanel (KeyPressMsg k) m, NoCmd)
    else (compose_reset m, postCmd text)
  else if decide (k_String k = # "tab") then (set_tab (Z.rem (activeTab m + 1) n_tabs) m, NoCmd)
  else if decide (k_String k = # "shift+tab") then
    (set_tab (Z.rem (activeTab m - 1 + n_tabs) n_tabs) m, NoCmd)
  else if decide (k_String k = # "esc") then
    if decide (compose_value m = []) then (m, Quit) else (compose_reset m, NoCmd)
  else
    match (if activeTab m =? tabZens then zenAction k m else None) with
    | Some r => r
    | None =>
        if isPrintable k then (set_compose (input_Update k (compose m)) m, inputCmd)
        else (routeToPanel (KeyPressMsg k) m, NoCmd)
    end.

(** ** [Update] *)

(** [err.Error()]; [show] prints an error. *)
Definition Update (show : error → bytes) (msg : Msg) (m : model) : model * Cmd :=
  match msg with
  | WindowSizeMsg w h => (layout (set_size w h m), NoCmd)
  | SnapshotMsg (Err e) => (set_notice (# "daemon: " ++ show e) m, reconnectCmd)
  | SnapshotMsg (Ok s) =>
      (set_sub (Some (sm_sub s)) (applySnapshot s m), subscribeContinueCmd (sm_sub s))
  | DiffMsg d => (applyDiff d m, subscribeContinueCmd (df_sub d))
  | SubClosedMsg => (set_notice (# "reconnecting…") (set_sub None m), reconnectCmd)
  | ReconnectTickMsg => (m, subscribeCmd)
  | ActionResultMsg (Err e) => (set_notice (show e) m, NoCmd)
  | ActionResultMsg (Ok t) => (set_notice t m, NoCmd)
  | KeyPressMsg k => handleKey k m
  | MouseWheelMsg _ => (routeMouse msg m, NoCmd)
  | MouseClickMsg b x y => (routeClick b x y m, NoCmd)
  | OtherMsg => (m, NoCmd)
  end.

(** The panel [renderActivePanel] draws. *)
Definition active_content (renderPost : feedPost → bool → bytes) (no_posts : bytes)
    (renderZen : zen → bool → bytes) (m : model) : result bytes :=
  if activeTab m =? tabFeed then feed_render renderPost no_posts (feed m)
  else if activeTab m =? tabZens then view renderZen (m_zens m)
  else if activeTab m =? tabFollows then view renderZen (follows m)
  else if activeTab m =? tabFollowers then view renderZen (followers m)
  else Ok [].
End model.
