(* ===== verification/TuiModelFacts.v ===== *)
(** * Facts about the update function of the user interface

    What every message preserves, what is drawn, and which messages act on
    the daemon. *)

From S2P Require Import Prelude Tui TuiFacts TuiModel.
#[local] Open Scope go_scope.
#[local] Open Scope Z_scope.

Section facts.
Context `{TextInput, Theme}.
Implicit Types m : model.

(** ** The invariant of the panels *)

Record panels_ok m : Prop := {
  feed_range : in_range (feed m);
  zens_range : in_range (m_zens m);
  follows_range : in_range (follows m);
  followers_range : in_range (followers m);
  tab_range : 0 ≤ activeTab m < n_tabs;
}.

Lemma newModel_ok id : panels_ok (newModel id).
Proof. split; try apply newSelectList_range. done. Qed.

(** A model with the same panels and tab is as good. *)
Lemma panels_ok_same m m' :
  feed m' = feed m → m_zens m' = m_zens m → follows m' = follows m →
  followers m' = followers m → activeTab m' = activeTab m → panels_ok m → panels_ok m'.
Proof. intros E1 E2 E3 E4 E5 []. split; congruence. Qed.

Lemma set_panels_ok f z fs fr m :
  in_range f → in_range z → in_range fs → in_range fr → panels_ok m →
  panels_ok (set_panels f z fs fr m).
Proof. intros ???? []. by split. Qed.

Lemma foldl_range {A T} (f : selectList T → A → selectList T) l s :
  (∀ s x, in_range s → in_range (f s x)) → in_range s → in_range (foldl f s l).
Proof. intros Hf. revert s. induction l as [|x l IH]; cbn; intros s Hs; [done|]. by apply IH, Hf. Qed.

Lemma apply_rows_range d s : in_range s → in_range (apply_rows d s).
Proof.
  intros Hs. unfold apply_rows. case_decide; [|apply remove_range].
  apply foldl_range; [|done]. intros. by apply upsert_range.
Qed.

Lemma applyDiff_ok d m : panels_ok m → panels_ok (applyDiff d m).
Proof.
  intros Hm. pose proof Hm as [Hf Hz Hfs Hfr _]. unfold applyDiff.
  destruct (df_panel d).
  - apply set_panels_ok; try done. apply foldl_range; [|done]. intros. by apply feed_upsert_range.
  - apply set_panels_ok; try done. case_decide; [|apply remove_range].
    case_match; [by apply upsert_range|done].
  - apply set_panels_ok; try done. by apply apply_rows_range.
  - apply set_panels_ok; try done. by apply apply_rows_range.
  - case_match; [by apply (panels_ok_same m)|done].
  - done.
Qed.

Lemma applySnapshot_ok s m : panels_ok m → panels_ok (applySnapshot s m).
Proof.
  intros Hm. eapply panels_ok_same; [..|apply (set_panels_ok _ _ _ _ _
    (setItems_range (sm_feed s) (feed m)) (setItems_range (sm_zens s) (m_zens m))
    (setItems_range (sm_follows s) (follows m)) (setItems_range (sm_followers s) (followers m)) Hm)];
    done.
Qed.

Lemma layout_ok m : panels_ok m → panels_ok (layout m).
Proof.
  intros Hm. pose proof Hm as []. unfold layout. case_match; [done|].
  eapply panels_ok_same; [..|apply set_panels_ok; [apply resize_range..|exact Hm]]; done.
Qed.

Lemma routeToPanel_ok msg m : panels_ok m → panels_ok (routeToPanel msg m).
Proof.
  intros Hm. pose proof Hm as []. unfold routeToPanel.
  repeat case_match; try apply set_panels_ok; try apply update_range; done.
Qed.

Lemma tab_at_range names i active x :
  0 ≤ i → tab_at names i active x = -1 ∨ i ≤ tab_at names i active x < i + Z.of_nat (length names).
Proof.
  revert i x. induction names as [|t names IH]; intros i x Hi; [by left|]. cbn [tab_at length].
  case_match; [right; lia|]. destruct (IH (i + 1) (x - (labelWidth (bool_decide (i = active)) t + sepWidth)));
    lia.
Qed.

Lemma set_tab_ok i m : 0 ≤ i < n_tabs → panels_ok m → panels_ok (set_tab i m).
Proof. intros Hi []. by split. Qed.

Lemma routeClick_ok b x y m : panels_ok m → panels_ok (routeClick b x y m).
Proof.
  intros Hm. pose proof Hm as []. unfold routeClick. destruct b; try done.
  destruct (y =? 1).
  - cbn zeta. destruct (Z.leb_spec 0 (tabAt x m)) as [Hle|]; [|done]. apply set_tab_ok; [|done].
    unfold tabAt in *. destruct (tab_at_range tabs 0 (activeTab m) (x - tabBarFrame ÷ 2));
      [lia|rewrite H1 in Hle; lia|]. unfold n_tabs. lia.
  - repeat case_match; try apply set_panels_ok; try apply click_range; done.
Qed.

Lemma handleKey_ok k m : panels_ok m → panels_ok (handleKey k m).1.
Proof.
  intros Hm. unfold handleKey.
  repeat match goal with |- context [if decide ?P then _ else _] => destruct (decide P) end;
    try (by apply (panels_ok_same m)); try by apply routeToPanel_ok.
  - cbn. apply set_tab_ok; [|done]. apply Z.rem_bound_pos; destruct Hm; unfold n_tabs in *; cbn in *; lia.
  - cbn. apply set_tab_ok; [|done]. apply Z.rem_bound_pos; destruct Hm; unfold n_tabs in *; cbn in *; lia.
  - destruct (if activeTab m =? tabZens then zenAction k m else None) as [r|] eqn:Hr.
    + destruct (activeTab m =? tabZens); [|done]. unfold zenAction in Hr.
      destruct (selectedItem (m_zens m)); [|done].
      repeat match type of Hr with
      | context [if decide ?P then _ else _] => destruct (decide P)
      | context [if isFollowing ?i m then _ else _] => destruct (isFollowing i m)
      end; try done; injection Hr as <-; try done; by apply (panels_ok_same m).
    + destruct (isPrintable k); cbn; [by apply (panels_ok_same m)|by apply routeToPanel_ok].
Qed.

Lemma Update_ok show msg m : panels_ok m → panels_ok (Update show msg m).1.
Proof.
  intros Hm. destruct msg as [w h|[s|e]|d| | |[t|e]|k|b|b x y|]; cbn [Update fst];
    try (by apply (panels_ok_same m)).
  - apply layout_ok. by apply (panels_ok_same m).
  - eapply panels_ok_same; [..|apply (applySnapshot_ok s _ Hm)]; done.
  - by apply applyDiff_ok.
  - by apply handleKey_ok.
  - by apply routeToPanel_ok.
  - by apply routeClick_ok.
Qed.

(** The program: messages one after the other. *)
Definition run (show : error → bytes) (msgs : list Msg) (m : model) : model :=
  foldl (λ m msg, (Update show msg m).1) m msgs.

Lemma run_ok show msgs m : panels_ok m → panels_ok (run show msgs m).
Proof. revert m. induction msgs as [|x msgs IH]; intros m Hm; [done|]. by apply IH, Update_ok. Qed.

(** Drawing the active panel. *)
Lemma view_ok renderZen (s : selectList zen) : in_range s → ∃ out, view renderZen s = Ok out.
Proof. intros Hs. by rewrite view_window; [eexists|]. Qed.

Lemma feed_render_ok renderPost no_posts (f : feedPanel) :
  in_range f → ∃ out, feed_render renderPost no_posts f = Ok out.
Proof.
  intros Hf. pose proof (view_window renderPost f Hf) as Hw. unfold view in Hw. unfold feed_render.
  destruct (height f <=? 0)%Z; [by eexists|]. destruct (len f =? 0)%Z; by eexists.
Qed.

Lemma active_content_ok renderPost no_posts renderZen m :
  panels_ok m → ∃ out, active_content renderPost no_posts renderZen m = Ok out.
Proof.
  intros [Hf Hz Hfs Hfr _]. unfold active_content.
  repeat case_match; auto using view_ok, feed_render_ok. by eexists.
Qed.

(** ** Which messages act *)

(** Only the keys of [zenAction] give these commands. *)
Lemma zenAction_cmd k m m' c :
  zenAction k m = Some (m', c) →
  c = NoCmd ∨ ∃ z, selectedItem (m_zens m) = Some z ∧ zn_identity z ≠ [] ∧ m' = m ∧
    (k_String k = # "f" ∧ isFollowing (zn_identity z) m = false ∧
       c = actionCmd (# "follow") (zn_identity z) ∨
     k_String k = # "u" ∧ isFollowing (zn_identity z) m = true ∧
       c = actionCmd (# "unfollow") (zn_identity z)).
Proof.
  unfold zenAction. destruct (selectedItem (m_zens m)) as [z|]; [|done].
  destruct (decide (zn_identity z = [])) as [|Hz]; [done|].
  destruct (decide (k_String k = # "i")); [intros [= <- <-]; by left|].
  destruct (decide (k_String k = # "f")) as [Hf|].
  { destruct (isFollowing (zn_identity z) m) eqn:Hfol; intros [= <- <-]; [by left|].
    right. exists z. split_and!; try done. left. done. }
  destruct (decide (k_String k = # "u")) as [Hu|]; [|done].
  destruct (isFollowing (zn_identity z) m) eqn:Hfol; intros [= <- <-]; [|by left].
  right. exists z. split_and!; try done. right. done.
Qed.

Lemma isFollowing_spec i m : isFollowing i m = true ↔ i ∈ zn_identity <$> items (follows m).
Proof.
  unfold isFollowing. rewrite existsb_exists, list_elem_of_fmap.
  setoid_rewrite bool_decide_eq_true. setoid_rewrite <-list_elem_of_In. naive_solver.
Qed.
End facts.

(** *** The commands of a key *)

Section acts.
Context `{TextInput, Theme} (show : error → bytes).
Implicit Types m : model.

Definition follow_key (k : KeyPress) m (label target : bytes) : Prop :=
  k_String k = # "f" ∧ label = # "follow" ∧ isFollowing target m = false ∨
  k_String k = # "u" ∧ label = # "unfollow" ∧ isFollowing target m = true.

(** The named keys are told apart by their names. *)
Ltac other_key := intros Heq; vm_compute in Heq; discriminate Heq.

Lemma handleKey_enter k m :
  k_String k = # "enter" → compose_value m ≠ [] →
  handleKey k m = (compose_reset m, postCmd (compose_value m)).
Proof.
  intros Hk Ht. unfold handleKey. rewrite Hk. rewrite decide_False by other_key.
  by rewrite decide_True, decide_False.
Qed.

Lemma handleKey_zen k m z label :
  activeTab m = tabZens → selectedItem (m_zens m) = Some z → zn_identity z ≠ [] →
  follow_key k m label (zn_identity z) →
  handleKey k m = (m, actionCmd label (zn_identity z)).
Proof.
  intros Ht Hz Hne Hk. assert (zenAction k m = Some (m, actionCmd label (zn_identity z))) as Ha.
  { unfold zenAction. rewrite Hz, decide_False by done.
    destruct Hk as [(-> & -> & ->)|(-> & -> & ->)].
    - rewrite decide_False by other_key. by rewrite decide_True.
    - do 2 rewrite decide_False by other_key. by rewrite decide_True. }
  unfold handleKey. rewrite Ht, Z.eqb_refl, Ha.
  destruct Hk as [(-> & _)|(-> & _)]; by do 5 rewrite decide_False by other_key.
Qed.

Lemma handleKey_cmd k m :
  let c := (handleKey k m).2 in
  c = NoCmd ∨ c = inputCmd ∨
  (c = Quit ∧ (k_String k = # "ctrl+c" ∨ k_String k = # "esc" ∧ compose_value m = [])) ∨
  (c = postCmd (compose_value m) ∧ k_String k = # "enter" ∧ compose_value m ≠ []) ∨
  ∃ z label, c = actionCmd label (zn_identity z) ∧ activeTab m = tabZens ∧
    selectedItem (m_zens m) = Some z ∧ zn_identity z ≠ [] ∧ follow_key k m label (zn_identity z).
Proof.
  unfold handleKey.
  destruct (decide (k_String k = # "ctrl+c")); [right; right; left; by split; [|left]|].
  destruct (decide (k_String k = # "enter")).
  { destruct (decide (compose_value m = [])); [by left|]. right; right; right; left. done. }
  destruct (decide (k_String k = # "tab")); [by left|].
  destruct (decide (k_String k = # "shift+tab")); [by left|].
  destruct (decide (k_String k = # "esc")).
  { destruct (decide (compose_value m = [])); [|by left]. right; right; left. by split; [|right]. }
  destruct (activeTab m =? tabZens) eqn:Ht.
  - destruct (zenAction k m) as [[m' c]|] eqn:Hz.
    + apply zenAction_cmd in Hz as [->|(z & Hz & Hne & -> & Hk)]; [by left|].
      do 4 right. apply Z.eqb_eq in Ht. unfold follow_key.
      destruct Hk as [(Hk & Hfol & ->)|(Hk & Hfol & ->)];
        [exists z, (# "follow")|exists z, (# "unfollow")]; split_and!; auto.
    + destruct (isPrintable k); [right; by left|by left].
  - destruct (isPrintable k); [right; by left|by left].
Qed.

Lemma Update_acts msg m :
  (∀ text, (Update show msg m).2 = postCmd text ↔
     ∃ k, msg = KeyPressMsg k ∧ k_String k = # "enter" ∧ text = compose_value m ∧ text ≠ []) ∧
  (∀ text, (Update show msg m).2 = postCmd text → (Update show msg m).1 = compose_reset m) ∧
  (∀ label target, (Update show msg m).2 = actionCmd label target ↔
     ∃ k z, msg = KeyPressMsg k ∧ activeTab m = tabZens ∧ selectedItem (m_zens m) = Some z ∧
       zn_identity z = target ∧ target ≠ [] ∧ follow_key k m label target) ∧
  ((Update show msg m).2 = Quit ↔
     ∃ k, msg = KeyPressMsg k ∧
       (k_String k = # "ctrl+c" ∨ k_String k = # "esc" ∧ compose_value m = [])).
Proof.
  destruct msg as [w h|[s|e]|d| | |[t|e]|k|b|b x y|];
    try (split_and!; [intros|intros|intros|]; try split; cbn [Update fst snd]; naive_solver).
  cbn [Update]. pose proof (handleKey_cmd k m) as Hc. cbn zeta in Hc. split_and!.
  - intros text. split.
    + intros Heq. exists k. rewrite Heq in Hc. naive_solver.
    + intros (k' & [= <-] & Hk & -> & Hne). by rewrite handleKey_enter.
  - intros text Heq. rewrite Heq in Hc.
    destruct Hc as [|[|[[]|[(_ & Hk & Hne)|(? & ? & ? & _)]]]]; try done.
    by rewrite handleKey_enter.
  - intros label target. split.
    + intros Heq. rewrite Heq in Hc.
      destruct Hc as [|[|[[]|[[]|(z & l & [= -> ->] & Ht & Hz & Hne & Hk)]]]]; try done.
      by exists k, z.
    + intros (k' & z & [= <-] & Ht & Hz & <- & Hne & Hk). by rewrite (handleKey_zen k m z label).
  - split.
    + intros Heq. exists k. rewrite Heq in Hc. naive_solver.
    + intros (k' & [= <-] & Hk). unfold handleKey. destruct Hk as [->|[-> He]].
      * by rewrite decide_True.
      * do 4 rewrite decide_False by other_key. by rewrite !decide_True.
Qed.
End acts.
