(* ===== verification/TuiMirror.v ===== *)
(** * The user interface and the daemon

    Models the conversions of [internal/tui/api.go] and the [Subscribe] stream
    of [internal/daemon/server_grpc.go] between them: a machine in which the
    daemon's handlers, the stream's pump and the user interface take turns.
    The generated message types carry the fields of the daemon's records. *)

From Stdlib Require Import Strings.Byte.
From S2P Require Import Prelude Base32 External Identity Event Log Bolt Store StoreFacts StoreFollow StoreFollowFacts StoreQuery StoreQueryFacts Wire Session Crawler Daemon DaemonOps DaemonFacts Tui TuiFacts TuiModel TuiModelFacts.
#[local] Open Scope go_scope.

(** ** Conversions *)

(** Both branches of [shortID] return the identity. *)
Definition shortID (id : bytes) : bytes :=
  if decide (take 10 id = # "driftnode:") then id else id.

Section conversions.
Context (ageOf : Z → bytes).

Definition feedItemFromProto (it : feedItem) : feedPost :=
  mkFeedPost (fi_ID it) (fi_Author it) (fi_Name it) (fi_Text it) (ageOf (fi_Timestamp it))
    (fi_Timestamp it).
Definition feedItemsFromProto (l : list feedItem) : list feedPost := feedItemFromProto <$> l.

Definition zenFromProto (z : zenInfo) : zen :=
  let display := z_Name z in
  let display := if decide (display = [] ∧ z_Identity z ≠ []) then shortID (z_Identity z)
                 else display in
  let display := if decide (display = []) then shortID (z_ID z) else display in
  mkZen display (z_Identity z) (z_ID z) (z_Kind z) (z_Status z) (z_Verified z) false.
Definition zensFromProto (l : list zenInfo) : list zen := zenFromProto <$> l.

Definition identityFromProto (e : entry) : zen :=
  mkZen (if decide (en_Name e = []) then shortID (en_Identity e) else en_Name e)
    (en_Identity e) (en_Identity e) [] [] (en_Verified e) (en_Pinned e).
Definition identitiesFromProto (l : list entry) : list zen := identityFromProto <$> l.

Definition statusFromProto (s : StatusDiff) : statusInfo :=
  mkStatusInfo (Z.of_nat (Zens_ s)) (Transport s) (Unlocked s).

Definition snapshotFromProto (s : Snapshot) (sub : nat) : snapshotMsg :=
  mkSnapshotMsg (feedItemsFromProto (sn_Feed s)) (zensFromProto (sn_Zens s))
    (identitiesFromProto (sn_Follows s)) (identitiesFromProto (sn_Followers s))
    (statusFromProto (sn_Status s)) sub.

(** [diffFromProto]; [subscribeContinueCmd] adds the subscription. *)
Definition diffFromProto (ev : event) (sub : nat) : diffMsg :=
  match ev with
  | FeedAdd l => mkDiff PFeed (feedItemsFromProto l) [] None [] None sub
  | ZenUpsert z => mkDiff PZens [] [] (Some (zenFromProto z)) [] None sub
  | ZenRemove id => mkDiff PZens [] [] None id None sub
  | FollowsAdd e => mkDiff PFollows [] (identitiesFromProto [e]) None [] None sub
  | FollowsRemove i => mkDiff PFollows [] [] None i None sub
  | FollowersAdd e => mkDiff PFollowers [] (identitiesFromProto [e]) None [] None sub
  | Status s => mkDiff PStatus [] [] None [] (Some (statusFromProto s)) sub
  end.

(** ** The follow rows *)

(** What a push does to the set of followed identities. *)
Definition push_ids (X : gset bytes) (ev : event) : gset bytes :=
  match ev with
  | FollowsAdd e => {[en_Identity e]} ∪ X
  | FollowsRemove i => if decide (i = []) then X else X ∖ {[i]}
  | _ => X
  end.
Definition pushed (evs : list event) (X : gset bytes) : gset bytes := foldl push_ids X evs.

Definition row_ids (l : list zen) : gset bytes := list_to_set (zn_identity <$> l).

Lemma row_ids_upsert z (s : selectList zen) :
  distinct zn_identity s →
  row_ids (items (upsert zn_identity z s)) = {[zn_identity z]} ∪ row_ids (items s).
Proof.
  intros Hd. unfold row_ids. rewrite upsert_items.
  case_match eqn:Hf; [destruct p as [i y]; apply list_find_Some in Hf as (Hi & Hy & _)|].
  - rewrite (insert_keys _ _ _ y) by done.
    assert (zn_identity z ∈ zn_identity <$> items s); [|set_solver].
    rewrite <-Hy. apply list_elem_of_fmap_2. by eapply list_elem_of_lookup_2.
  - rewrite fmap_app. cbn. set_solver.
Qed.

Lemma row_ids_map (s : selectList zen) :
  distinct zn_identity s → row_ids (items s) = dom (as_map zn_identity (items s)).
Proof.
  intros Hd. apply set_eq. intros k. unfold row_ids.
  rewrite elem_of_list_to_set, elem_of_dom, list_elem_of_fmap. unfold is_Some.
  setoid_rewrite as_map_lookup; [|done]. naive_solver.
Qed.

Lemma row_ids_remove i (s : selectList zen) :
  distinct zn_identity s →
  row_ids (items (remove zn_identity i s)) = row_ids (items s) ∖ {[i]}.
Proof.
  intros Hd. rewrite !row_ids_map by (try apply remove_distinct; done).
  by rewrite as_map_remove, dom_delete_L.
Qed.

Context `{TextInput, Theme} (show : error → bytes).

(** Taking one push in. *)
Definition receive (sub : nat) (ev : event) (m : model) : model :=
  (Update show (DiffMsg (diffFromProto ev sub)) m).1.

Lemma receive_rows sub ev m :
  distinct zn_identity (follows m) →
  distinct zn_identity (follows (receive sub ev m)) ∧
  row_ids (items (follows (receive sub ev m))) = push_ids (row_ids (items (follows m))) ev.
Proof.
  intros Hd. destruct ev as [z|id|e|i|e|l|st]; try by split.
  - change (follows (receive sub (FollowsAdd e) m))
      with (upsert zn_identity (identityFromProto e) (follows m)).
    split; [by apply upsert_distinct|]. by rewrite row_ids_upsert.
  - unfold receive. cbn. unfold apply_rows. cbn. case_decide; [done|].
    split; [by apply remove_distinct|]. by rewrite row_ids_remove.
Qed.

(** Every message that is no push and no snapshot leaves the rows alone. *)
Definition local_msg (msg : Msg) : Prop :=
  match msg with SnapshotMsg (Ok _) | DiffMsg _ => False | _ => True end.

Lemma update_items {T} msg (s : selectList T) : items (update msg s) = items s.
Proof.
  destruct msg as [| | | | | |k|[]| |]; cbn; try done.
  assert (∀ s : selectList T, items (ensureVisible s) = items s) as Hv.
  { intros s'. unfold ensureVisible. by repeat case_match. }
  unfold press, move. repeat match goal with |- context [if ?b then _ else _] => destruct b end;
    rewrite ?Hv; done.
Qed.

Lemma click_items {T} row (s : selectList T) : items (click row s) = items s.
Proof. unfold click. by repeat case_match. Qed.

Lemma routeToPanel_rows msg m : items (follows (routeToPanel msg m)) = items (follows m).
Proof.
  unfold routeToPanel. repeat match goal with |- context [if ?b then _ else _] => destruct b end;
    cbn; by rewrite ?update_items.
Qed.

Lemma handleKey_rows k m : items (follows (handleKey k m).1) = items (follows m).
Proof.
  unfold handleKey.
  repeat match goal with |- context [if decide ?P then _ else _] => destruct (decide P) end;
    try done; try apply routeToPanel_rows.
  destruct (if (activeTab m =? tabZens)%Z then zenAction k m else None) as [[m' c]|] eqn:Hr.
  - destruct (activeTab m =? tabZens)%Z; [|done]. revert Hr. unfold zenAction.
    repeat match goal with
    | |- context [match selectedItem ?l with _ => _ end] => destruct (selectedItem l)
    | |- context [if decide ?P then _ else _] => destruct (decide P)
    | |- context [if isFollowing ?i m then _ else _] => destruct (isFollowing i m)
    end; try done; by intros [= <- <-].
  - destruct (isPrintable k); [done|]. apply routeToPanel_rows.
Qed.

Lemma local_rows msg m :
  local_msg msg → items (follows (Update show msg m).1) = items (follows m).
Proof.
  intros Hl. destruct msg as [w h|[s|e]|d| | |[t|e]|k|b|b x y|]; try done; cbn [Update fst].
  - unfold layout. by destruct (_ || _).
  - apply handleKey_rows.
  - apply routeToPanel_rows.
  - unfold routeClick. destruct b; try done.
    repeat match goal with |- context [if ?b then _ else _] => destruct b end; cbn;
      by rewrite ?click_items.
Qed.
End conversions.

(** ** What a snapshot reads *)

Section snapshot.
Context `{BoltLaws, Blake3, !Blake3Laws, Ed25519, !Ed25519Laws, order : GoRange, !GoRangeLaws}.
Context `{CborText, !CborTextLaws}.
Context `{!CborType Event, !CborType SignedEvent, !CborLaws Event, !CborLaws SignedEvent}.
Implicit Types (d : dstate) (s : store).

Lemma same_names_subs d d' : same_but_names d d' → subs d' = subs d.
Proof. unfold same_but_names. by intros ->. Qed.

Lemma feedItemsFor_subs posts s d : subs (feedItemsFor posts s d).2 = subs d.
Proof.
  revert d. induction posts as [|p posts IH]; intros d; [done|]. cbn [feedItemsFor].
  unfold feedItemFor. destruct (e_Post (se_Event p)); [|done].
  pose proof (same_names_subs _ _ (displayName_same (se_Author p) s d)) as Hn.
  destruct (displayName (se_Author p) s d) as [name d1]. cbn [snd] in Hn. specialize (IH d1).
  destruct (feedItemsFor posts s d1) as [[]]; cbn [snd] in *; congruence.
Qed.

Lemma foldl_like_subs s idx likes st : subs (foldl (like_step s idx) st likes).2 = subs st.2.
Proof.
  revert st. induction likes as [|se likes IH]; intros st; [done|]. cbn [foldl]. rewrite IH.
  unfold like_step. destruct (e_Like (se_Event se)) as [lk|]; [|done].
  destruct (idx !! like_TargetID lk); [|done].
  pose proof (same_names_subs _ _ (displayName_same (se_Author se) s st.2)) as Hn.
  by destruct (displayName (se_Author se) s st.2).
Qed.

Lemma populateLikes_subs items s d : subs (populateLikes items s d).2 = subs d.
Proof.
  unfold populateLikes. destruct items; [done|]. destruct (LikesForPosts _ s); [|done].
  apply foldl_like_subs.
Qed.

Lemma handleFeedPage_subs page mine s d :
  (handleFeedPage (λ _ s d, (s, d)) page mine false s d).2.1 = s ∧
  subs (handleFeedPage (λ _ s d, (s, d)) page mine false s d).2.2 = subs d.
Proof.
  unfold handleFeedPage.
  assert (subs (cachedPosts s d).2 = subs d) as Hc.
  { unfold cachedPosts. destruct (feedCache d); [done|]. by destruct (AllPostsOneTx s). }
  destruct (cachedPosts s d) as [posts d1]. cbn [snd] in Hc. cbn zeta.
  destruct (_ <=? _)%Z; [done|]. destruct (slice _ _ _) as [shown|]; [|done].
  pose proof (feedItemsFor_subs shown s d1) as Hf.
  destruct (feedItemsFor shown s d1) as [[its|] d2]; cbn [snd] in Hf; [|by rewrite <-Hc].
  pose proof (populateLikes_subs its s d2) as Hp.
  destruct (populateLikes its s d2) as [its' d3]. cbn [snd] in *. split; [done|]. congruence.
Qed.

Lemma name_entries_keys mk s ids d :
  (∀ i n, en_Identity (mk i n) = i) →
  en_Identity <$> (name_entries mk s ids d).1 = ids ∧ subs (name_entries mk s ids d).2 = subs d.
Proof.
  intros Hmk. revert d. induction ids as [|i ids IH]; intros d; [done|]. cbn [name_entries].
  pose proof (same_names_subs _ _ (displayName_same i s d)) as Hn.
  destruct (displayName i s d) as [name d1]. cbn [snd] in Hn. specialize (IH d1).
  destruct (name_entries mk s ids d1) as [out d2]. cbn in *. destruct IH as [IH1 IH2].
  rewrite Hmk, IH1. split; [done|congruence].
Qed.

Lemma snapshot_follows s d sn d' :
  own_ok s → snapshot s d = (Ok sn, d') →
  en_Identity <$> sn_Follows sn = IdentityFromPubkey <$> range_set (own_follows s) ∧ subs d' = subs d.
Proof.
  intros Hok. unfold snapshot. pose proof (handleFeedPage_subs 0 false s d) as [_ Hf].
  destruct (handleFeedPage _ 0 false false s d) as [[[feed more]|] [s1 d1]]; [|done].
  cbn [snd] in Hf. unfold followEntries. rewrite FollowGraph_ok by done.
  match goal with |- context [name_entries ?mk s ?ids d1] =>
    destruct (name_entries_keys mk s ids d1) as [Hk Hs]; [done|];
    destruct (name_entries mk s ids d1) as [fol d2] end.
  cbn [fst snd] in Hk, Hs.
  assert (subs (followerEntries s d2).2 = subs d2) as Hfr.
  { unfold followerEntries. destruct (ReceivedFollowers s); [|done].
    by destruct (name_entries_keys (λ id name, mkEntry id name (IsVerified id s) false) s a d2). }
  destruct (followerEntries s d2) as [fr d3]. cbn [snd] in Hfr. intros [= <- <-]. cbn.
  split; [done|congruence].
Qed.
End snapshot.

(** ** Subscribing

    [Subscribe] registers a subscriber, then builds and sends the snapshot,
    then pumps the queue. Between any two of these the daemon may follow,
    unfollow or push something else, and the user interface may take other
    messages. The subscriber is the one at [ui_index]. *)

Section machine.
Context `{BoltLaws, Blake3, !Blake3Laws, Ed25519, !Ed25519Laws, order : GoRange, !GoRangeLaws}.
Context `{CborText, !CborTextLaws}.
Context `{!CborType Event, !CborType SignedEvent, !CborLaws Event, !CborLaws SignedEvent}.
Context `{TextInput, Theme} (ageOf : Z → bytes) (show : error → bytes).

Record ui := mkUi {
  ui_daemon : daemon;
  ui_index : nat;
  ui_started : bool;
  ui_model : model;
}.

Definition set_daemon (w : daemon) (u : ui) : ui := mkUi w (ui_index u) (ui_started u) (ui_model u).
Definition set_model (m : model) (u : ui) : ui := mkUi (ui_daemon u) (ui_index u) (ui_started u) m.

Definition pump_one (sb : subscriber) : subscriber :=
  mkSubscriber (sub_id sb) (tail (sub_events sb)) (sub_done sb).
Definition pump_at (i : nat) (d : dstate) : dstate := set_subs (alter pump_one i (subs d)) d.

(** [Subscribe] has registered its subscriber. *)
Definition subscribed (w : daemon) (id : nat) (m : model) : ui :=
  mkUi (w.1, addSubscriber (newSubscriber id) w.2) (length (subs w.2)) false m.

Definition follow_event (ev : event) : bool :=
  match ev with FollowsAdd _ | FollowsRemove _ => true | _ => false end.

Inductive ui_step (u : ui) : ui → Prop :=
  | ui_follow kp target now se :
      length target = 32 → signs kp KindFollow target now (ui_daemon u).1 se →
      ui_step u (set_daemon (writeFollow target kp now (ui_daemon u)).2 u)
  | ui_unfollow kp targetStr target now se :
      ResolvePubkey targetStr = Ok target → signs kp KindUnfollow target now (ui_daemon u).1 se →
      ui_step u (set_daemon (handleUnfollow targetStr kp now (ui_daemon u)).2 u)
  | ui_push ev :
      follow_event ev = false →
      ui_step u (set_daemon ((ui_daemon u).1, broadcast ev (ui_daemon u).2) u)
  | ui_snapshot sn d' :
      ui_started u = false → snapshot (ui_daemon u).1 (ui_daemon u).2 = (Ok sn, d') →
      ui_step u (mkUi ((ui_daemon u).1, d') (ui_index u) true
        (Update show (SnapshotMsg (Ok (snapshotFromProto ageOf sn (ui_index u)))) (ui_model u)).1)
  | ui_pump sb ev :
      ui_started u = true → subs (ui_daemon u).2 !! ui_index u = Some sb →
      head (sub_events sb) = Some ev →
      ui_step u (mkUi ((ui_daemon u).1, pump_at (ui_index u) (ui_daemon u).2) (ui_index u) true
        (receive ageOf show (ui_index u) ev (ui_model u)))
  | ui_local msg :
      local_msg msg → ui_step u (set_model (Update show msg (ui_model u)).1 u).

(** The identities followed, as the log of the node has them. *)
Definition followed (s : store) : gset bytes := set_map IdentityFromPubkey (own_follows s).

Definition model_rows (u : ui) : gset bytes := row_ids (items (follows (ui_model u))).

(** Until its subscriber is dropped, the queue replayed over the rows, or over
    what a snapshot taken now would hold, is the set of followed identities. *)
Record mirrors (u : ui) : Prop := {
  mi_own : own_ok (ui_daemon u).1;
  mi_cache : cache_ok (ui_daemon u).1;
  mi_pins : pins_ok (ui_daemon u).1;
  mi_rows : distinct zn_identity (follows (ui_model u));
  mi_queue : ∃ sb, subs (ui_daemon u).2 !! ui_index u = Some sb ∧
    (sub_done sb = false →
     pushed (sub_events sb) (if ui_started u then model_rows u else followed (ui_daemon u).1)
       = followed (ui_daemon u).1);
}.

(** *** Replaying pushes *)

Lemma pushed_snoc (evs : list event) (ev : event) (X : gset bytes) : pushed (evs ++ [ev]) X = push_ids (pushed evs X) ev.
Proof. unfold pushed. by rewrite foldl_app. Qed.

Lemma push_ids_other (ev : event) (X : gset bytes) : follow_event ev = false → push_ids X ev = X.
Proof. by destruct ev. Qed.

(** A push decides about one identity and leaves the others alone. *)
Lemma pushed_local (evs : list event) (k : bytes) (X Y : gset bytes) :
  (k ∈ X ↔ k ∈ Y) → (k ∈ pushed evs X ↔ k ∈ pushed evs Y).
Proof.
  revert X Y. induction evs as [|ev evs IH]; intros X Y Hk; [done|]. apply IH.
  destruct ev; cbn; try done; [set_solver|]. case_decide; [done|set_solver].
Qed.

(** Pushes already in the snapshot change nothing. *)
Lemma pushed_again (evs : list event) (ev : event) (X : gset bytes) :
  pushed evs X = X → push_ids (pushed evs (push_ids X ev)) ev = push_ids X ev.
Proof.
  intros Hq. apply set_eq. intros k.
  destruct ev as [z|id|e|i|e|l|st]; cbn; try by rewrite Hq.
  - destruct (decide (k = en_Identity e)) as [->|Hk]; [set_solver|].
    rewrite !elem_of_union, (pushed_local evs k _ X), Hq; set_solver.
  - case_decide; [by rewrite Hq|]. destruct (decide (k = i)) as [->|Hk]; [set_solver|].
    rewrite !elem_of_difference, (pushed_local evs k _ X), Hq; set_solver.
Qed.

(** An event of the handlers, offered to the queue while the set of followed
    identities makes the same step. *)
Lemma queue_step (started : bool) (sb : subscriber) (ev : event) (rows X : gset bytes) :
  (sub_done sb = false → pushed (sub_events sb) (if started then rows else X) = X) →
  sub_done (offer ev sb) = false →
  pushed (sub_events (offer ev sb)) (if started then rows else push_ids X ev) = push_ids X ev.
Proof.
  intros Hq. unfold offer. destruct (_ <? _); cbn [sub_done sub_events]; [|done]. intros Hd. specialize (Hq Hd).
  rewrite pushed_snoc. destruct started; [by rewrite Hq|]. by apply pushed_again.
Qed.

(** *** The steps of the daemon *)

Lemma followed_insert s s' t :
  own_follows s' = {[t]} ∪ own_follows s → followed s' = {[IdentityFromPubkey t]} ∪ followed s.
Proof. intros Hf. unfold followed. rewrite Hf. set_solver. Qed.

Lemma followed_delete s s' t :
  own_follows s' = own_follows s ∖ {[t]} → followed s' = followed s ∖ {[IdentityFromPubkey t]}.
Proof.
  intros Hf. unfold followed. rewrite Hf. apply set_eq. intros k.
  rewrite elem_of_difference, !elem_of_map, elem_of_singleton. split.
  - intros (x & -> & Hx). split; [set_solver|]. intros Heq%(inj _). set_solver.
  - intros [(x & -> & Hx) Hne]. exists x. set_solver.
Qed.

Lemma identity_not_empty t : IdentityFromPubkey t ≠ [].
Proof. unfold IdentityFromPubkey. by vm_compute. Qed.

(** The subscriber after a push, wherever it is. *)
Lemma sub_broadcast ev d i sb :
  subs d !! i = Some sb → subs (broadcast ev d) !! i = Some (offer ev sb).
Proof. intros Hi. cbn. by rewrite list_lookup_fmap, Hi. Qed.

Lemma mirrors_push u (d d' : dstate) s ev sb :
  subs d !! ui_index u = Some sb →
  (sub_done sb = false →
   pushed (sub_events sb) (if ui_started u then model_rows u else followed (ui_daemon u).1)
     = followed (ui_daemon u).1) →
  followed s = push_ids (followed (ui_daemon u).1) ev →
  subs d' = subs (broadcast ev d) →
  ∃ sb', subs d' !! ui_index u = Some sb' ∧
    (sub_done sb' = false →
     pushed (sub_events sb') (if ui_started u then model_rows u else followed s) = followed s).
Proof.
  intros Hsb Hq Hs Hd. exists (offer ev sb). rewrite Hd. split; [by apply sub_broadcast|].
  intros Hdone. rewrite Hs. by apply queue_step.
Qed.

Lemma mirrors_follow u kp target now se :
  mirrors u → length target = 32 → signs kp KindFollow target now (ui_daemon u).1 se →
  mirrors (set_daemon (writeFollow target kp now (ui_daemon u)).2 u).
Proof.
  intros [Hok Hc Hp Hr (sb & Hsb & Hq)] Ht Hsign.
  destruct (Store_Follow_run kp target now (ui_daemon u).1 se)
    as (id & s & Hrun & _ & Hok' & Hc' & Hp' & Hf & _); try done.
  unfold writeFollow. rewrite Hrun. split; try done. cbn [ui_daemon set_daemon fst snd].
  eapply (mirrors_push u _ _ s (FollowsAdd _) sb); [exact Hsb|exact Hq| |reflexivity].
  by apply followed_insert.
Qed.

Lemma mirrors_unfollow u kp targetStr target now se :
  mirrors u → ResolvePubkey targetStr = Ok target →
  signs kp KindUnfollow target now (ui_daemon u).1 se →
  mirrors (set_daemon (handleUnfollow targetStr kp now (ui_daemon u)).2 u).
Proof.
  intros [Hok Hc Hp Hr (sb & Hsb & Hq)] Ht Hsign.
  destruct (Store_Unfollow_run kp target now (ui_daemon u).1 se)
    as (id & s & Hrun & _ & Hok' & Hc' & Hp' & Hf & _); try done.
  unfold handleUnfollow. rewrite Ht. cbn [wrap]. rewrite Hrun.
  split; try done. cbn [ui_daemon set_daemon fst snd].
  destruct (mirrors_push u (ui_daemon u).2 (removeZen (default (IdentityFromPubkey target) (Routing
    (IdentityFromPubkey target) s)) (ui_daemon u).2) (ui_daemon u).1
    (ZenRemove (default (IdentityFromPubkey target) (Routing (IdentityFromPubkey target) s))) sb)
    as (sb1 & Hsb1 & Hq1); [exact Hsb|exact Hq|done|done|].
  eapply (mirrors_push u _ _ _ (FollowsRemove (IdentityFromPubkey target)) sb1);
    [exact Hsb1|exact Hq1| |reflexivity].
  cbn [push_ids]. rewrite decide_False by apply identity_not_empty.
  by apply (followed_delete (ui_daemon u).1).
Qed.

(** *** The steps of the stream and of the user interface *)

Lemma mirrors_snapshot u sn d' :
  mirrors u → ui_started u = false → snapshot (ui_daemon u).1 (ui_daemon u).2 = (Ok sn, d') →
  mirrors (mkUi ((ui_daemon u).1, d') (ui_index u) true
    (Update show (SnapshotMsg (Ok (snapshotFromProto ageOf sn (ui_index u)))) (ui_model u)).1).
Proof.
  intros [Hok Hc Hp Hr (sb & Hsb & Hq)] Hst Hsn.
  destruct (snapshot_follows _ _ _ _ Hok Hsn) as [Hids Hsubs].
  assert (items (follows (Update show (SnapshotMsg (Ok (snapshotFromProto ageOf sn (ui_index u))))
    (ui_model u)).1) = identitiesFromProto (sn_Follows sn)) as Hrows.
  { change (items (setItems (identitiesFromProto (sn_Follows sn)) (follows (ui_model u)))
      = identitiesFromProto (sn_Follows sn)). unfold setItems. by rewrite clampYOffset_items, clampSelection_items. }
  assert (zn_identity <$> identitiesFromProto (sn_Follows sn) =
          IdentityFromPubkey <$> range_set (own_follows (ui_daemon u).1)) as Hkeys.
  { rewrite <-Hids. unfold identitiesFromProto. by rewrite <-list_fmap_compose. }
  split; try done; cbn [ui_daemon ui_model ui_index ui_started fst snd].
  - unfold distinct. rewrite Hrows, Hkeys. apply NoDup_fmap_2; [apply _|].
    rewrite range_set_elements. apply NoDup_elements.
  - exists sb. rewrite Hsubs. split; [done|]. intros Hdone. specialize (Hq Hdone).
    rewrite Hst in Hq. unfold model_rows. cbn [ui_model].
    rewrite Hrows. unfold row_ids. rewrite Hkeys.
    replace (list_to_set (IdentityFromPubkey <$> range_set (own_follows (ui_daemon u).1)) : gset bytes)
      with (followed (ui_daemon u).1); [done|].
    apply set_eq. intros k. unfold followed.
    rewrite elem_of_map, elem_of_list_to_set, list_elem_of_fmap.
    setoid_rewrite elem_of_range_set. done.
Qed.

Lemma mirrors_pump u sb ev :
  mirrors u → ui_started u = true → subs (ui_daemon u).2 !! ui_index u = Some sb →
  head (sub_events sb) = Some ev →
  mirrors (mkUi ((ui_daemon u).1, pump_at (ui_index u) (ui_daemon u).2) (ui_index u) true
    (receive ageOf show (ui_index u) ev (ui_model u))).
Proof.
  intros [Hok Hc Hp Hr (sb' & Hsb' & Hq)] Hst Hsb Hev. assert (sb' = sb) as -> by congruence.
  destruct (receive_rows ageOf show (ui_index u) ev (ui_model u) Hr) as [Hd Hrows].
  split; try done; cbn [ui_daemon ui_model ui_index ui_started fst snd].
  exists (pump_one sb). unfold pump_at. cbn [subs set_subs].
  rewrite list_lookup_alter_eq, Hsb. split; [done|]. cbn [pump_one sub_done sub_events].
  intros Hdone. specialize (Hq Hdone). rewrite Hst in Hq. unfold model_rows in *. cbn [ui_model].
  rewrite Hrows. destruct (sub_events sb) as [|ev' evs]; [done|]. cbn in Hev. injection Hev as ->.
  exact Hq.
Qed.

Lemma mirrors_step u u' : ui_step u u' → mirrors u → mirrors u'.
Proof.
  intros [kp target now se Ht Hs|kp str target now se Ht Hs|ev Hev|sn d' Hst Hsn|sb ev Hst Hsb Hev|msg Hl] Hm.
  - by eapply mirrors_follow.
  - by eapply mirrors_unfollow.
  - destruct Hm as [Hok Hc Hp Hr (sb & Hsb & Hq)]. split; try done.
    eapply (mirrors_push u _ _ _ ev sb); [exact Hsb|exact Hq| |reflexivity].
    cbn. by rewrite push_ids_other.
  - by apply mirrors_snapshot.
  - by eapply mirrors_pump.
  - destruct Hm as [Hok Hc Hp Hr (sb & Hsb & Hq)].
    assert (items (follows (Update show msg (ui_model u)).1) = items (follows (ui_model u))) as Hi
      by by apply local_rows.
    split; try done; cbn [ui_daemon ui_model ui_index ui_started set_model].
    + unfold distinct. by rewrite Hi.
    + exists sb. split; [done|]. unfold model_rows in *. cbn [ui_model set_model]. by rewrite Hi.
Qed.

Lemma mirrors_reachable u u' : rtc ui_step u u' → mirrors u → mirrors u'.
Proof.
  induction 1 as [|u1 u2 u3 Hstep _ IH]; intros Hm; [done|]. by eapply IH, mirrors_step.
Qed.

Lemma mirrors_subscribed w id m :
  own_ok w.1 → cache_ok w.1 → pins_ok w.1 → distinct zn_identity (follows m) →
  mirrors (subscribed w id m).
Proof.
  intros Hok Hc Hp Hd. split; try done. exists (newSubscriber id). cbn. split; [|done].
  rewrite lookup_app_r by lia. by rewrite Nat.sub_diag.
Qed.
End machine.
