(* ===== verification/TuiView.v ===== *)
(** * Drawing the user interface

    Models [internal/tui/tui.go], [styles.go], [renderZen] of [zens.go] and
    [render] of [compose.go]. What [lipgloss] does with a style and a text is a
    parameter; the model says which style is put on which text, and how the
    five regions of the window come together. *)

From Stdlib Require Import Strings.Byte.
From S2P Require Import Prelude Text External Cli Tui TuiFacts Feed TuiModel TuiModelFacts TuiMirror.
#[local] Open Scope go_scope.
#[local] Open Scope Z_scope.

(** ** [lipgloss] *)

Class Lipgloss := {
  Style : Type;
  NewStyle : Style;
  Foreground : bytes → Style → Style;
  Background : bytes → Style → Style;
  Bold : Style → Style;
  Italic : Style → Style;
  Padding : Z → Z → Style → Style;       (* vertical, horizontal *)
  RoundedBorder : Style → Style;
  BorderForeground : bytes → Style → Style;
  SetWidth : Z → Style → Style;
  MaxHeight : Z → Style → Style;
  Render : Style → bytes → bytes;
  GetHorizontalFrameSize : Style → Z;
  GetVerticalFrameSize : Style → Z;
  lip_Width : bytes → Z;
  lip_Height : bytes → Z;
  JoinVertical : list bytes → bytes;
}.

Definition one_line (b : bytes) : Prop := Byte.x0a ∉ b.

(** A text is cut to the height a style allows, texts joined vertically are as
    tall as all of them, and a line is as wide as its pieces. *)
Class LipglossLaws `{Lipgloss} : Prop := {
  Render_max n st s : 0 < n → lip_Height (Render (MaxHeight n st) s) ≤ n;
  JoinVertical_height l : l ≠ [] → lip_Height (JoinVertical l) = foldr (λ b n, lip_Height b + n) 0 l;
  Width_nonneg b : 0 ≤ lip_Width b;
  Width_line a b : one_line a → one_line b → lip_Width (a ++ b) = lip_Width a + lip_Width b;
}.

Section draw.
Context `{Lipgloss, TextInput} (input_View : input → bytes).

(** ** [styles.go] *)

Definition accent : bytes := # "#7aa2f7".
Definition good : bytes := # "#9ece6a".
Definition warn : bytes := # "#e0af68".
Definition bad : bytes := # "#f7768e".
Definition muted : bytes := # "#6b6b85".

Record styles := mkStyles {
  st_titleBar : Style;
  st_identity : Style;
  st_tabBar : Style;
  st_tab : Style;
  st_tabActive : Style;
  st_panel : Style;
  st_hint : Style;
  st_statusBar : Style;
  st_notice : Style;
}.

Definition newStyles : styles := {|
  st_titleBar := Padding 0 1 (Foreground (# "#c0caf5") (Background (# "#1a1b26") NewStyle));
  st_identity := Foreground accent (Bold NewStyle);
  st_tabBar := Padding 0 1 (Foreground muted NewStyle);
  st_tab := Padding 0 2 NewStyle;
  st_tabActive := Padding 0 2 (Background (# "#282a40") (Foreground accent (Bold NewStyle)));
  st_panel := Padding 0 1 (BorderForeground (# "#3b4159") (RoundedBorder NewStyle));
  st_hint := Italic (Foreground muted NewStyle);
  st_statusBar := Padding 0 1 NewStyle;
  st_notice := Padding 0 1 (Foreground warn NewStyle);
|}.
Definition theme : styles := newStyles.

Definition badge (status : bytes) : Style :=
  if decide (status = # "connected") then Bold (Foreground good NewStyle)
  else if decide (status = # "connecting") then Foreground warn NewStyle
  else if decide (status = # "error") then Bold (Foreground bad NewStyle)
  else Foreground muted NewStyle.

(** What the update function measures of the styles. *)
Definition measures : Theme := {|
  labelWidth active name := lip_Width (Render (if active then st_tabActive theme else st_tab theme) name);
  sepWidth := lip_Width (Render (st_tabBar theme) (# "  "));
  tabBarFrame := GetHorizontalFrameSize (st_tabBar theme);
  panelHorizontalFrame := GetHorizontalFrameSize (st_panel theme);
  panelVerticalFrame := GetVerticalFrameSize (st_panel theme);
|}.
#[local] Existing Instance measures.

(** ** Rows *)

(** [%-11s], for a text of one byte a character. *)
Definition pad_right (n : nat) (s : bytes) : bytes := s ++ replicate (n - length s) Byte.x20.

Definition highlight (selected : bool) (st : Style) : Style :=
  if selected then Background (# "#282a40") st else st.

Definition renderZen (z : zen) (selected : bool) : bytes :=
  let name := if decide (zn_name z = []) then zn_identity z else zn_name z in
  let nameStyle := highlight selected (Foreground accent (Bold NewStyle)) in
  let idStyle := if selected
                 then Foreground accent (Background (# "#282a40") (Foreground muted NewStyle))
                 else Foreground muted NewStyle in
  let marks :=
    (if zn_verified z then Render (Foreground good NewStyle) (GlyphVerified ++ # " ") else []) ++
    (if zn_pinned z then Render (Foreground accent NewStyle) (GlyphPin ++ # " ") else []) in
  let title := Render nameStyle name in
  let id := Render idStyle (zn_identity z) in
  if decide (zn_status z = []) then marks ++ title ++ # "  " ++ id
  else
    let status := Render (badge (zn_status z)) (pad_right 11 (zn_status z)) in
    marks ++ title ++ # "  " ++ status ++ # "  " ++ id.

(** The styles of [renderRow] of [feed.go]. *)
Definition authorStyle (selected : bool) : Style :=
  highlight selected (Foreground accent (Bold NewStyle)).
Definition ageStyle (selected : bool) : Style :=
  if selected then Foreground accent (Background (# "#282a40") (Foreground muted NewStyle))
  else Foreground muted NewStyle.
Definition renderPost : feedPost → bool → bytes :=
  Feed.renderRow (λ sel, Render (authorStyle sel)) (λ sel, Render (ageStyle sel)).

(** ** Regions *)

Definition tab_labels (m : model) : list bytes :=
  imap (λ i t, Render (if bool_decide (Z.of_nat i = activeTab m) then st_tabActive theme
                       else st_tab theme) t) tabs.
Definition tab_sep : bytes := Render (st_tabBar theme) (# "  ").

Definition renderTabs (m : model) : bytes :=
  Render (MaxHeight 1 (SetWidth (m_width m) (st_tabBar theme))) (join tab_sep (tab_labels m)).

Definition renderActivePanel (m : model) : result bytes :=
  content ← active_content renderPost (Render (st_hint theme) (# "(no posts yet)")) renderZen m;
  Ok (Render (MaxHeight (panelHeight (m_height m)) (SetWidth (m_width m) (st_panel theme))) content).

Definition renderStatus (m : model) : bytes :=
  let transport := if si_transport (status m) then Render (badge (# "connected")) (# "up")
                   else Render (badge (# "down")) (# "down") in
  let key := if si_unlocked (status m) then Render (badge (# "connected")) (# "unlocked")
             else Render (badge (# "error")) (# "locked") in
  let left := # "transport " ++ transport ++ # "  key " ++ key ++ # "  zens " ++
                show_Z (si_zens (status m)) in
  let right := if decide (notice m = [])
               then Render (st_hint theme) (# "tab: switch  enter: post  i/f/u: zen  esc: quit")
               else Render (st_notice theme) (notice m) in
  Render (MaxHeight 1 (SetWidth (m_width m) (st_statusBar theme))) (left ++ # "  " ++ right).

Definition compose_render (w : Z) (m : model) : bytes :=
  Render (MaxHeight 1 (SetWidth w (st_statusBar theme))) (input_View (compose m)).

Definition renderTitle (m : model) : bytes :=
  Render (MaxHeight 1 (SetWidth (m_width m) (st_titleBar theme)))
    (# "driftnode " ++ Render (st_identity theme) (shortID (identity m))).

Definition View (m : model) : result bytes :=
  if m_width m =? 0 then Ok (# "Loading...")
  else
    panel ← renderActivePanel m;
    Ok (JoinVertical [renderTitle m; renderTabs m; panel; compose_render (m_width m) m; renderStatus m]).

(** ** Facts *)

Section facts.
Context `{!LipglossLaws}.

(** What is drawn before a label: the labels before it, each with a separator. *)
Definition before_label (seps : list bytes) : bytes := mjoin ((λ l, l ++ tab_sep) <$> seps).

Lemma join_split (l : list bytes) i b :
  l !! i = Some b → ∃ post, join tab_sep l = before_label (take i l) ++ b ++ post.
Proof.
  revert i. induction l as [|a l IH]; intros i; [done|]. destruct i as [|i].
  - intros [= ->]. destruct l as [|c l]; [exists []; cbn; by rewrite app_nil_r|].
    exists (tab_sep ++ join tab_sep (c :: l)). done.
  - intros Hi. destruct (IH i Hi) as [post Hp]. destruct l as [|c l]; [done|]. exists post.
    change (join tab_sep (a :: c :: l)) with (a ++ tab_sep ++ join tab_sep (c :: l)).
    rewrite Hp. unfold before_label. cbn [take fmap list_fmap mjoin list_join].
    by rewrite <-!(assoc_L (++)).
Qed.

Lemma before_label_width l :
  one_line tab_sep → Forall one_line l →
  one_line (before_label l) ∧
  lip_Width (before_label l) = lip_Width [] + foldr (λ b n, lip_Width b + lip_Width tab_sep + n) 0 l.
Proof.
  intros Hs. induction 1 as [|b l Hb Hl [IH1 IH2]]; [split; [by intros ?%elem_of_nil|cbn; lia]|].
  assert (one_line (b ++ tab_sep)) as Hbs by (unfold one_line in *; rewrite elem_of_app; tauto).
  change (before_label (b :: l)) with ((b ++ tab_sep) ++ before_label l). split.
  - unfold one_line in *. rewrite elem_of_app. tauto.
  - rewrite Width_line, IH2, Width_line by done. cbn [foldr]. lia.
Qed.

Lemma Width_nil : lip_Width [] = 0.
Proof.
  assert (one_line []) as Hn by (by intros ?%elem_of_nil).
  pose proof (Width_line [] [] Hn Hn) as Hw. cbn in Hw. lia.
Qed.

(** [tab_at] finds the label over a column. *)
Lemma tab_at_labels names k active x i :
  0 ≤ k → (i < length names)%nat →
  let w (j : nat) (t : bytes) := labelWidth (bool_decide (k + Z.of_nat j = active)) t in
  let off := foldr (λ b n, b + sepWidth + n) 0 (take i (imap w names)) in
  (tab_at names k active x = k + Z.of_nat i ↔
   ∃ t, names !! i = Some t ∧ off ≤ x < off + w i t).
Proof.
  revert k x i. induction names as [|t names IH]; intros k x i Hk Hi; [cbn in Hi; lia|]. cbn zeta.
  assert (∀ b n, 0 ≤ labelWidth b n) as Hw by (intros; apply Width_nonneg).
  assert (0 ≤ sepWidth) as Hsep by apply Width_nonneg.
  cbn [tab_at]. destruct i as [|i].
  - rewrite take_0. cbn [foldr lookup list_lookup]. change (Z.of_nat 0) with 0. rewrite Z.add_0_r. split.
    + destruct ((0 <=? x) && (x <? labelWidth (bool_decide (k = active)) t)) eqn:Hb.
      * intros _. exists t. split; [done|]. rewrite Z.add_0_l.
        apply andb_true_iff in Hb as [?%Z.leb_le ?%Z.ltb_lt]. lia.
      * intros Heq. exfalso.
        destruct (tab_at_range names (k + 1) active (x - (labelWidth (bool_decide (k = active)) t + sepWidth))); lia.
    + intros (t' & [= <-] & Hx).
      rewrite (proj2 (Z.leb_le 0 x)), (proj2 (Z.ltb_lt x _)); [done|lia..].
  - cbn [length] in Hi. rewrite imap_cons. cbn [take foldr]. cbn [lookup list_lookup].
    change (Z.of_nat 0) with 0. rewrite Z.add_0_r.
    set (w0 := labelWidth (bool_decide (k = active)) t).
    specialize (IH (k + 1) (x - (w0 + sepWidth)) i ltac:(lia) ltac:(lia)). cbn zeta in IH.
    assert (imap ((λ (j : nat) (t : bytes), labelWidth (bool_decide (k + Z.of_nat j = active)) t) ∘ S) names =
            imap (λ (j : nat) (t : bytes), labelWidth (bool_decide (k + 1 + Z.of_nat j = active)) t) names) as Him.
    { apply imap_ext. intros j t' _.
      change (labelWidth (bool_decide (k + Z.of_nat (S j) = active)) t' =
              labelWidth (bool_decide (k + 1 + Z.of_nat j = active)) t').
      assert (bool_decide (k + Z.of_nat (S j) = active) = bool_decide (k + 1 + Z.of_nat j = active)) as ->;
        [apply bool_decide_ext; lia|done]. }
    rewrite Him. set (off := foldr _ 0 (take i _)) in *.
    replace (k + Z.of_nat (S i)) with (k + 1 + Z.of_nat i) by lia.
    assert (0 ≤ w0) by apply Hw.
    assert (0 ≤ off) as Hoff.
    { assert (Forall (λ b, 0 ≤ b) (take i (imap (λ (j : nat) (t : bytes),
        labelWidth (bool_decide (k + 1 + Z.of_nat j = active)) t) names))) as Hall.
      { apply Forall_take, Forall_forall. intros y (j & t' & -> & _)%elem_of_lookup_imap. apply Hw. }
      unfold off. clear -Hall Hsep. induction Hall; cbn [foldr]; lia. }
    destruct ((0 <=? x) && (x <? w0)) eqn:Hb.
    + apply andb_true_iff in Hb as [?%Z.leb_le ?%Z.ltb_lt]. split; [lia|].
      intros (t' & _ & Hx). lia.
    + rewrite IH. cbv beta. split; intros (t' & Ht' & Hx); exists t'; (split; [done|]); lia.
Qed.

Lemma tab_labels_lines (m : model) :
  (∀ st t, st = st_tab theme ∨ st = st_tabActive theme → t ∈ tabs → one_line (Render st t)) →
  Forall one_line (tab_labels m).
Proof.
  intros Hl. apply Forall_forall. intros b (i & t & -> & Ht)%elem_of_lookup_imap.
  apply Hl; [case_bool_decide; auto|by eapply list_elem_of_lookup_2].
Qed.

(** The label over a column of the row of tabs. *)
Lemma tabAt_label (m : model) i label x :
  one_line tab_sep → Forall one_line (tab_labels m) → tab_labels m !! i = Some label →
  tabAt (tabBarFrame ÷ 2 + x) m = Z.of_nat i ↔
    lip_Width (before_label (take i (tab_labels m))) ≤ x <
    lip_Width (before_label (take i (tab_labels m))) + lip_Width label.
Proof.
  intros Hs Hl Hi.
  destruct (before_label_width (take i (tab_labels m)) Hs (Forall_take _ _ _ Hl)) as [_ Hw].
  rewrite Hw, Width_nil, Z.add_0_l. unfold tabAt.
  replace (tabBarFrame ÷ 2 + x - tabBarFrame ÷ 2) with x by lia.
  assert (i < length tabs)%nat as Hlt.
  { apply lookup_lt_Some in Hi. unfold tab_labels in Hi. by rewrite length_imap in Hi. }
  unfold tab_labels in Hi. rewrite list_lookup_imap in Hi.
  destruct (tabs !! i) as [t|] eqn:Ht; [|done]. apply Some_inj in Hi.
  pose proof (tab_at_labels tabs 0 (activeTab m) x i ltac:(done) Hlt) as Hat. cbn zeta in Hat.
  change (0 + Z.of_nat i) with (Z.of_nat i) in Hat. rewrite Hat, Ht. clear Hat.
  set (w := λ (j : nat) (t : bytes), labelWidth (bool_decide (0 + Z.of_nat j = activeTab m)) t).
  assert (foldr (λ b n, b + sepWidth + n) 0 (take i (imap w tabs)) =
          foldr (λ b n, lip_Width b + lip_Width tab_sep + n) 0 (take i (tab_labels m))) as ->.
  { assert (imap w tabs = lip_Width <$> tab_labels m) as ->.
    { unfold tab_labels. by rewrite fmap_imap. }
    rewrite <-fmap_take. by rewrite foldr_fmap. }
  cbv beta. assert (labelWidth (bool_decide (0 + Z.of_nat i = activeTab m)) t = lip_Width label) as Hwi
    by (by rewrite <-Hi).
  split.
  - intros (t' & Ht' & Hx). assert (t' = t) as -> by congruence. by rewrite Hwi in Hx.
  - intros Hx. exists t. by rewrite Hwi.
Qed.

(** The five regions together. *)
Lemma View_fits (m : model) :
  panels_ok m → ∃ out, View m = Ok out ∧ (m_width m ≠ 0 → lip_Height out ≤ Z.max 8 (m_height m)).
Proof.
  intros Hok. unfold View. destruct (Z.eqb_spec (m_width m) 0) as [Hz|Hz]; [by eexists|].
  unfold renderActivePanel.
  destruct (active_content_ok renderPost (Render (st_hint theme) (# "(no posts yet)")) renderZen m Hok)
    as [content ->].
  eexists. split; [done|]. intros _. rewrite JoinVertical_height by done. cbn [foldr].
  unfold renderTitle, renderTabs, compose_render, renderStatus.
  assert (∀ st s, lip_Height (Render (MaxHeight 1 st) s) ≤ 1) as Hone by (intros; by apply Render_max).
  assert (0 < panelHeight (m_height m)) as Hp
    by (unfold panelHeight; destruct (Z.ltb_spec (m_height m - 4) 4); lia).
  repeat match goal with |- context [lip_Height (Render (MaxHeight 1 ?st) ?s)] =>
    let h := fresh "h" in pose proof (Hone st s); set (h := lip_Height (Render (MaxHeight 1 st) s)) in * end.
  match goal with |- context [lip_Height (Render (MaxHeight (panelHeight _) ?st) ?s)] =>
    pose proof (Render_max (panelHeight (m_height m)) st s Hp) end.
  unfold panelHeight in *. destruct (Z.ltb_spec (m_height m - 4) 4); lia.
Qed.
End facts.
End draw.
