(* ===== verification/TuiRun.v ===== *)
(** * The user interface at work

    Models the commands of [internal/tui/api.go]: what running them does to the
    daemon behind the control API, and the message each answers with. With
    [Update] that closes the loop: a key is pressed, a command runs, the daemon
    pushes, the panels change. *)

From S2P Require Import Prelude Base32 Text External Identity Event Log Bolt Store StoreFacts StoreFollow StoreQuery Wire Session Crawler Daemon DaemonOps DaemonFacts DaemonNet Lifecycle Net Server ServerFacts Cli Tui TuiFacts TuiModel TuiModelFacts TuiMirror.
#[local] Open Scope go_scope.

Section run.
Context `{Bolt, Blake3, Ed25519, Aead, order : GoRange}.
Context `{!CborType Event, !CborType SignedEvent, !CborType EncryptedKey, !CborType Message}.
Context `{TextInput, Theme} (ageOf : Z → bytes) (show : error → bytes).
Context (transport : option (bytes → result conn)) (nonce : result bytes) (now now' : Z).

(** The program and the daemon it talks to; [ap_next] numbers the streams. *)
Record app := mkApp {
  ap_model : model;
  ap_up : bool;
  ap_daemon : daemon;
  ap_next : nat;
}.

(** One call of the control API; a panic takes the daemon down. *)
Definition call {A} (f : daemon → result A * daemon) (a : app) : result A * app :=
  if ap_up a then
    match f (ap_daemon a) with
    | (Err (Panic _), w) => (Err unavailable, mkApp (ap_model a) false w (ap_next a))
    | (r, w) => (r, mkApp (ap_model a) true w (ap_next a))
    end
  else (Err ErrNotRunning, a).

(** The requests carry no passphrase: the daemon has to be unlocked. *)
Definition followZen (target : bytes) : app → result bytes * app :=
  call (rpc_sign transport nonce (SFollow target) [] now now').
Definition unfollowZen (target : bytes) : app → result bytes * app :=
  call (rpc_sign transport nonce (SUnfollow target) [] now now').
Definition postText (text : bytes) : app → result bytes * app :=
  call (rpc_sign transport nonce (SPost text []) [] now now').

Definition answer (word : bytes) (r : result bytes * app) : option Msg * app :=
  (Some (ActionResultMsg (match r.1 with Ok t => Ok (word ++ t) | Err e => Err e end)), r.2).

(** [subscribeCmd]: the stream is opened and its snapshot read. *)
Definition open_stream (a : app) : option Msg * app :=
  if ap_up a then
    let w := ap_daemon a in
    match snapshot w.1 (addSubscriber (newSubscriber (ap_next a)) w.2) with
    | (Ok sn, d) => (Some (SnapshotMsg (Ok (snapshotFromProto ageOf sn (ap_next a)))),
                     mkApp (ap_model a) true (w.1, d) (S (ap_next a)))
    | (Err _, d) => (Some (SnapshotMsg (Err unavailable)), mkApp (ap_model a) false (w.1, d) (ap_next a))
    end
  else (Some (SnapshotMsg (Err ErrNotRunning)), a).

(** [subscribeContinueCmd]: the next push; [None] while there is none. A
    dropped subscriber's queue is sent first here, though the loop of
    [Subscribe] may end before. *)
Definition read_stream (sub : nat) (a : app) : option Msg * app :=
  let d := (ap_daemon a).2 in
  match list_find (λ sb, sub_id sb = sub) (subs d) with
  | Some (i, sb) =>
      if negb (ap_up a) then (Some SubClosedMsg, a)
      else
        match sub_events sb with
        | ev :: _ => (Some (DiffMsg (diffFromProto ageOf ev sub)),
                      mkApp (ap_model a) true ((ap_daemon a).1, pump_at i d) (ap_next a))
        | [] => if sub_done sb
                then (Some SubClosedMsg,
                      mkApp (ap_model a) true ((ap_daemon a).1, removeSubscriber sub d) (ap_next a))
                else (None, a)
        end
  | None => (Some SubClosedMsg, a)
  end.

(** Running one command. *)
Definition exec (c : Cmd) (a : app) : option Msg * app :=
  match c with
  | postCmd text => answer (# "posted ") (postText text a)
  | actionCmd label target =>
      answer (label ++ # ": ")
        ((if decide (label = # "unfollow") then unfollowZen else followZen) target a)
  | subscribeCmd => open_stream a
  | subscribeContinueCmd sub => read_stream sub a
  | reconnectCmd => (Some ReconnectTickMsg, a)
  | NoCmd | Quit | inputCmd | Batch _ _ => (None, a)
  end.

Definition deliver (msg : Msg) (a : app) : app * Cmd :=
  let '(m, c) := Update show msg (ap_model a) in (mkApp m (ap_up a) (ap_daemon a) (ap_next a), c).

(** A command, the message it answers with, the command that gives, and so on
    until one has nothing to say. *)
Fixpoint settle (fuel : nat) (c : Cmd) (a : app) : app :=
  match fuel with
  | O => a
  | S fuel =>
      match exec c a with
      | (None, a) => a
      | (Some msg, a) => let '(a, c) := deliver msg a in settle fuel c a
      end
  end.

(** A key, and what comes of it; then the pushes waiting on a stream. *)
Definition hit (k : KeyPress) (a : app) : app :=
  let '(a, c) := deliver (KeyPressMsg k) a in settle 2 c a.
Definition catch_up (fuel : nat) (sub : nat) (a : app) : app := settle fuel (subscribeContinueCmd sub) a.
End run.

(** ** Facts *)

Section facts.
Context `{BoltLaws, Blake3, !Blake3Laws, Ed25519, Aead, CborText, order : GoRange}.
Context `{!CborType Event, !CborType SignedEvent, !CborType EncryptedKey, !CborType Message}.
Context `{TextInput, Theme} (ageOf : Z → bytes) (show : error → bytes).
Context (transport : option (bytes → result conn)) (nonce : result bytes) (now now' : Z).

Abbreviation settle := (settle ageOf show transport nonce now now').
Abbreviation catch_up := (catch_up ageOf show transport nonce now now').
Abbreviation hit := (hit ageOf show transport nonce now now').

(** Stream [sub] is the [i]-th subscriber's. *)
Definition on_stream (sub i : nat) (sb : subscriber) (a : app) : Prop :=
  ap_up a = true ∧ list_find (λ s, sub_id s = sub) (subs (ap_daemon a).2) = Some (i, sb).

Lemma diff_sub ev sub : df_sub (diffFromProto ageOf ev sub) = sub.
Proof. by destruct ev. Qed.

Lemma list_find_alter (f : subscriber → subscriber) sub i sb l :
  (∀ s, sub_id (f s) = sub_id s) → list_find (λ s, sub_id s = sub) l = Some (i, sb) →
  list_find (λ s, sub_id s = sub) (alter f i l) = Some (i, f sb).
Proof.
  intros Hf. revert i. induction l as [|s l IH]; intros i; [done|]. cbn [list_find].
  destruct (decide (sub_id s = sub)) as [Hs|Hs].
  - intros [= <- <-]. cbn. rewrite decide_True; [done|by rewrite Hf].
  - destruct (list_find _ l) as [[j s']|] eqn:Hl; [|done]. intros [= <- <-].
    change (alter f (S j) (s :: l)) with (s :: alter f j l). cbn [list_find].
    rewrite decide_False by done. by rewrite (IH j eq_refl).
Qed.

Lemma list_find_offer sub i sb ev l :
  sub_done sb = false → length (sub_events sb) < subscribeQueue →
  list_find (λ s, sub_id s = sub) l = Some (i, sb) →
  list_find (λ s, sub_id s = sub) (offer ev <$> l) =
    Some (i, mkSubscriber (sub_id sb) (sub_events sb ++ [ev]) false).
Proof.
  intros Hdone Hroom. revert i. induction l as [|s l IH]; intros i; [done|].
  rewrite fmap_cons. cbn [list_find].
  assert (sub_id (offer ev s) = sub_id s) as Hs by (unfold offer; by case_match).
  destruct (decide (sub_id s = sub)) as [Hsub|Hsub].
  - intros [= <- <-]. rewrite decide_True by congruence. unfold offer.
    by rewrite (proj2 (Nat.ltb_lt _ _) Hroom), Hdone.
  - destruct (list_find _ l) as [[j s']|] eqn:Hl; [|done]. intros [= <- <-].
    rewrite decide_False by congruence. by rewrite (IH j eq_refl).
Qed.

Lemma EventID_String_ne se id : ID se = Ok id → EventID_String id ≠ [].
Proof.
  intros Hid Hnil. pose proof (ParseEventID_String id (ID_length se id Hid)) as Hp.
  rewrite Hnil in Hp. discriminate Hp.
Qed.

(** Reading a stream to the end of its queue. *)
Lemma catch_up_all sub i sb n a :
  on_stream sub i sb a → sub_done sb = false → length (sub_events sb) < n →
  let a' := catch_up n sub a in
  ap_model a' = foldl (λ m ev, receive ageOf show sub ev m) (ap_model a) (sub_events sb) ∧
  (ap_daemon a').1 = (ap_daemon a).1 ∧ on_stream sub i (mkSubscriber (sub_id sb) [] false) a'.
Proof.
  destruct sb as [id evs dn]. cbn [sub_events sub_done sub_id]. intros Hon ->. revert n a Hon.
  induction evs as [|ev evs IH]; intros [|n] a [Hup Hl] Hn; cbn [length] in Hn; try lia; cbn zeta.
  - assert (catch_up (S n) sub a = a) as ->; [|done].
    unfold TuiRun.catch_up. cbn [TuiRun.settle exec]. unfold read_stream. rewrite Hl, Hup. done.
  - set (a1 := mkApp (receive ageOf show sub ev (ap_model a)) true
      ((ap_daemon a).1, pump_at i (ap_daemon a).2) (ap_next a)).
    assert (catch_up (S n) sub a = catch_up n sub a1) as ->.
    { unfold TuiRun.catch_up. cbn [TuiRun.settle exec]. unfold read_stream. rewrite Hl, Hup. cbn [negb sub_events].
      unfold deliver. cbn [Update ap_model ap_up ap_daemon ap_next]. by rewrite diff_sub. }
    apply (IH n a1); [|lia]. split; [done|]. cbn [a1 ap_daemon snd pump_at subs set_subs].
    by apply (list_find_alter pump_one _ _ (mkSubscriber id (ev :: evs) false)).
Qed.

Lemma feed_upsert_has p (f : feedPanel) : fp_id p ≠ [] → p ∈ items (feed_upsert p f).
Proof.
  intros Hp. unfold feed_upsert. rewrite decide_False by done.
  destruct (list_find (λ ex, fp_id ex = fp_id p) (items f)) as [[i y]|] eqn:Hf.
  - apply list_find_Some in Hf as (Hi & _). cbn. apply list_elem_of_insert. by eapply lookup_lt_Some.
  - rewrite clampYOffset_items, clampSelection_items.
    case_match; cbn; apply elem_of_app; right; left.
Qed.

(** Enter on a line with text: the line is cleared and the post requested. *)
Lemma hit_enter k a :
  k_String k = # "enter" → compose_value (ap_model a) ≠ [] →
  let text := compose_value (ap_model a) in
  let a0 := mkApp (compose_reset (ap_model a)) (ap_up a) (ap_daemon a) (ap_next a) in
  hit k a =
    let '(r, a') := postText transport nonce now now' text a0 in
    mkApp (set_notice (match r with Ok id => # "posted " ++ id | Err e => show e end) (ap_model a'))
      (ap_up a') (ap_daemon a') (ap_next a').
Proof.
  intros Hk Ht text a0. unfold TuiRun.hit, deliver. cbn [Update]. rewrite (handleKey_enter k) by done.
  cbn [TuiRun.settle exec]. fold a0. unfold answer. fold text.
  destruct (postText _ _ _ _ text a0) as [[id|e] a']; done.
Qed.

Lemma call_model {A} (f : daemon → result A * daemon) a : ap_model (call f a).2 = ap_model a.
Proof. unfold call. destruct (ap_up a); [|done]. by destruct (f (ap_daemon a)) as [[|[]]]. Qed.

(** A post that is refused changes nothing in the store. *)
Lemma handlePost_Err text parentID kp (w w' : daemon) e :
  handlePost text parentID kp now' w = (Err e, w') → w'.1 = w.1.
Proof.
  unfold handlePost.
  match goal with |- context [match ?x with Ok _ => _ | Err _ => _ end] => destruct x as [parent|e0] end;
    [|by intros [= _ <-]].
  unfold sign_append. destruct (SignAndAppend kp PostLog _ now' w.1) as [[[se id]|e1] s] eqn:Hsa.
  - apply SignAndAppend_signed in Hsa as (se0 & own & -> & _ & _ & ->); [|by vm_compute].
    cbn [on_mem fst snd]. by destruct (displayName _ _ _).
  - apply SignAndAppend_any in Hsa. cbn in Hsa. subst s. by intros [= _ <-].
Qed.

(** The post as the interface requests it: done under the user's key, or
    refused with the store as it was. *)
Lemma postText_run text kp a r a' :
  text ≠ [] → ap_up a = true → Store_Identity (ap_daemon a).1 = Some (Identity kp) →
  unlocked (ap_daemon a).2 = None ∨ unlocked (ap_daemon a).2 = Some kp →
  postText transport nonce now now' text a = (r, a') →
  match r with
  | Ok eid => ap_up a' = true ∧ ∃ se id name,
      SignAndAppend kp PostLog (post_event text zero_hash) now' (ap_daemon a).1 =
        (Ok (Some se, id), (ap_daemon a').1) ∧ ID se = Ok id ∧ eid = EventID_String id ∧
      subs (ap_daemon a').2 = offer (FeedAdd [post_item se id kp name text]) <$> subs (ap_daemon a).2
  | Err _ => (ap_daemon a').1 = (ap_daemon a).1
  end.
Proof.
  intros Ht Hup Hid Hkp. unfold postText, call. rewrite Hup. unfold rpc_sign.
  assert (missing (SPost text []) = None) as -> by by destruct text.
  unfold with_key. destruct (ap_daemon a) as [s d] eqn:Hd. cbn [fst snd] in Hid, Hkp.
  unfold signingKey. rewrite decide_False by (by intros ?). cbn [fst snd].
  destruct Hkp as [-> | ->]; [by intros [= <- <-]|].
  destruct (_ && _); [by intros [= <- <-]|]. cbn [handle answer_field].
  destruct (handlePost text [] kp now' (s, d)) as [[fields|e] w'] eqn:Hp.
  - destruct (handlePost_run text [] kp now' (s, d) w' fields Hid Hp)
      as (parent & se & id & name & d0 & d1 & Hpar & Hsa & _ & HID & -> & _ & _ & Hsubs).
    rewrite decide_True in Hpar by done. injection Hpar as <-. cbn [answer_field].
    intros [= <- <-]. split; [done|]. exists se, id, name. done.
  - apply handlePost_Err in Hp. cbn [answer_field].
    by destruct e; intros [= <- <-].
Qed.
End facts.
