(* ===== verification/TuiScenario.v ===== *)
(** * A concrete terminal

    Instances of the text input, of the measures of the styles and of the
    drawing library, for the interface at concrete inputs. *)

From Stdlib Require Import Strings.Byte.
From S2P Require Import Prelude Tui TuiModel TuiView.
#[local] Open Scope go_scope.
#[local] Open Scope Z_scope.

(** A text line that appends what is typed, and styles without frames. *)
#[export] Instance toy_input : TextInput := {
  input := bytes;
  input_New := [];
  input_Focus i := i;
  input_Value i := i;
  input_Reset i := [];
  input_Update k i := i ++ k_Text k;
  input_SetWidth w i := i;
}.
#[export] Instance toy_input_laws : TextInputLaws.
Proof. by split. Qed.
#[export] Instance toy_theme : Theme := {
  labelWidth active name := Z.of_nat (length name);
  sepWidth := 2;
  tabBarFrame := 2;
  panelHorizontalFrame := 2;
  panelVerticalFrame := 2;
}.

(** A style is the most rows it allows, a column is a byte. *)
Module ToyLipgloss.
Fixpoint take_lines (n : nat) (s : bytes) : bytes :=
  match s with
  | [] => []
  | c :: s =>
      if decide (c = Byte.x0a) then match n with S (S n) => c :: take_lines (S n) s | _ => [] end
      else c :: take_lines n s
  end.
Definition newlines (s : bytes) : nat := length (filter (λ c, c = Byte.x0a) s).
Fixpoint stack (l : list bytes) : bytes :=
  match l with [] => [] | [a] => a | a :: l => a ++ Byte.x0a :: stack l end.

#[export] Instance lipgloss : Lipgloss := {|
  Style := Z; NewStyle := 0; Foreground _ st := st; Background _ st := st; Bold st := st;
  Italic st := st; Padding _ _ st := st; RoundedBorder st := st; BorderForeground _ st := st;
  SetWidth _ st := st; MaxHeight n _ := n;
  Render st s := if 0 <? st then take_lines (Z.to_nat st) s else s;
  GetHorizontalFrameSize _ := 2; GetVerticalFrameSize _ := 2;
  lip_Width s := Z.of_nat (length s); lip_Height s := 1 + Z.of_nat (newlines s);
  JoinVertical := stack |}.

Lemma newlines_app a b : newlines (a ++ b) = (newlines a + newlines b)%nat.
Proof. unfold newlines. by rewrite filter_app, length_app. Qed.

Lemma newlines_take n s : (newlines (take_lines (S n) s) ≤ n)%nat.
Proof.
  revert n. induction s as [|c s IH]; intros n; [cbn; lia|]. cbn [take_lines].
  assert (∀ l, newlines (c :: l) = (if decide (c = Byte.x0a) then 1 else 0) + newlines l)%nat as Hc.
  { intros l. unfold newlines. rewrite filter_cons. by destruct (decide _). }
  destruct (decide (c = Byte.x0a)) as [Hn|Hn].
  - destruct n as [|n]; [cbn; lia|]. specialize (Hc (take_lines (S n) s)).
    specialize (IH n). destruct (decide (c = Byte.x0a)); [lia|done].
  - specialize (Hc (take_lines (S n) s)). specialize (IH n). destruct (decide (c = Byte.x0a)); [done|lia].
Qed.

#[export] Instance lipgloss_laws : LipglossLaws.
Proof.
  split.
  - intros n st s Hn. cbn [lip_Height Render MaxHeight lipgloss]. rewrite (proj2 (Z.ltb_lt 0 n)) by done.
    pose proof (newlines_take (Z.to_nat n - 1) s) as Hl.
    replace (S (Z.to_nat n - 1)) with (Z.to_nat n) in Hl by lia. lia.
  - intros l Hl. cbn [JoinVertical lip_Height lipgloss].
    induction l as [|a [|b l] IH]; [done|cbn [stack foldr]; lia|].
    change (stack (a :: b :: l)) with (a ++ Byte.x0a :: stack (b :: l)).
    rewrite newlines_app. change (newlines (Byte.x0a :: stack (b :: l))) with (S (newlines (stack (b :: l)))).
    specialize (IH ltac:(done)). cbn [foldr] in *. lia.
  - intros b. cbn [lip_Width lipgloss]. lia.
  - intros a b _ _. cbn. rewrite length_app. lia.
Qed.
End ToyLipgloss.
