(* ===== verification/Scenario.v ===== *)
(** * A concrete world

    One choice of the parameters of [External.v] and [Bolt.v], with their
    laws, and a few people and events in it. The witnesses of the property
    files are evaluated here. *)

From S2P Require Import Prelude Base32 External Identity Event Log Bolt Store StoreFacts StoreFollow StoreFollowFacts StoreQuery Wire Crawler Daemon DaemonOps Bootstrap.
Export Toy ToyEvent ToyWire.
#[local] Open Scope go_scope.

#[export] Existing Instances Toy.blake3 Toy.blake3_laws Toy.ed25519 Toy.ed25519_laws
  Toy.aead Toy.aead_laws Toy.cbor_text Toy.cbor_text_laws Toy.go_range Toy.go_range_laws
  Toy.cbor Toy.cbor_laws ToyBolt.bolt ToyBolt.bolt_laws ToyBolt.bolt_foreach_delete.

Definition alice : KeyPair := NewKeyPair (replicate 32 Byte.x01).
Definition bob : KeyPair := NewKeyPair (replicate 32 Byte.x02).

Lemma alice_valid : valid_key alice.
Proof. by exists (replicate 32 Byte.x01). Qed.
Lemma bob_valid : valid_key bob.
Proof. by exists (replicate 32 Byte.x02). Qed.

(** A post, a like, a follow and a delete at a given time. *)
Definition post_ev (ts seq : Z) (text : bytes) : Event :=
  mkEvent KindPost PostLog ts seq None None (Some (mkPost text [] zero_hash)) None None None.
Definition like_ev (ts seq : Z) (target : bytes) : Event :=
  mkEvent KindLike PostLog ts seq None None None (Some (mkLike target)) None None.
Definition delete_ev (ts seq : Z) (target : bytes) : Event :=
  mkEvent KindDelete PostLog ts seq None None None None (Some (mkDelete target)) None.
Definition profile_ev (ts seq : Z) (name : bytes) : Event :=
  mkEvent KindProfile ProfileLog ts seq (Some (mkProfile name None)) None None None None None.

(** Signing in this world, for keys and events known to be good. *)
Definition signed (k : KeyPair) (ev : Event) : SignedEvent :=
  match Sign k ev with Ok se => se | Err _ => mkSignedEvent ev [] [] end.

Lemma signed_Sign k ev :
  valid_key k → wf ev = true → validateEvent ev = Ok tt → Sign k ev = Ok (signed k ev).
Proof.
  intros Hk Hwf Hv. unfold signed. destruct (Sign_Ok k ev Hk Hwf Hv) as (se & Hs & _).
  by rewrite Hs.
Qed.

(** Every well-formed event can be stored here. *)
Lemma wf_storable se : wf se = true → storable se.
Proof.
  intros Hwf. split; [done|]. destruct (CanonicalEncode_ok se Hwf) as (v & Hv & _).
  by exists v.
Qed.

Lemma signed_storable k ev :
  valid_key k → wf ev = true → validateEvent ev = Ok tt → storable (signed k ev).
Proof.
  intros Hk Hwf Hv. destruct (Sign_Ok k ev Hk Hwf Hv) as (se & Hs & _ & _ & _ & _ & Hse).
  apply wf_storable. unfold signed. by rewrite Hs.
Qed.

Lemma signed_author k ev :
  valid_key k → wf ev = true → validateEvent ev = Ok tt → se_Author (signed k ev) = Identity k.
Proof.
  intros Hk Hwf Hv. destruct (Sign_Ok k ev Hk Hwf Hv) as (se & Hs & _ & Ha & _).
  unfold signed. by rewrite Hs.
Qed.

Lemma empty_crawl_ok : subs_ok (bucketCrawl empty_store).
Proof. intros n b. cbn. by rewrite lookup_empty. Qed.

Lemma empty_crawl_view a : subview (bucketCrawl empty_store) a = ∅.
Proof. unfold subview. cbn. by rewrite lookup_empty. Qed.

(** Alice follows or unfollows bob. *)
Definition follow_bob (kind : Z) (s : store) (now : Z) : SignedEvent :=
  signed alice (stamped ProfileLog (follow_ev kind (kp_Public bob)) now s).

Lemma bob_length : length (kp_Public bob) = 32.
Proof. vm_compute. reflexivity. Qed.

Lemma signs_bob kind :
  kind = KindFollow ∨ kind = KindUnfollow →
  signs alice kind (kp_Public bob) 5 empty_store (follow_bob kind empty_store 5).
Proof.
  intros Hk. unfold follow_bob. split_and!.
  - apply signed_Sign; [exact alice_valid|destruct Hk as [-> | ->]; vm_compute; reflexivity..].
  - apply signed_storable; [exact alice_valid|destruct Hk as [-> | ->]; vm_compute; reflexivity..].
  - intros e. rewrite empty_own_profile. by intros []%not_elem_of_nil.
Qed.

(** Bob's zen, and alice's unlocked daemon. *)
Definition carol : KeyPair := NewKeyPair (replicate 32 Byte.x03).
Definition alice_nonce : bytes := replicate 32 Byte.x21.
Definition bob_nonce : bytes := replicate 32 Byte.x22.
Definition bob_token : bytes := [Byte.x74].

(** What the zen of [k] sends to a session of alice's: the handshake, then
    the messages. *)
Definition zen_sends (k : KeyPair) (nonce : bytes) (msgs : list Message) : bytes :=
  mjoin ((λ m, frame (match CanonicalEncode m with Ok b => b | Err _ => [] end)) <$>
    ([NewHello (Identity k) nonce; NewAuth (ed_sign (kp_Private k) alice_nonce)] ++ msgs)).
Definition bob_bytes : bytes := zen_sends bob bob_nonce [NewDone; NewDone; NewZens []].
Definition dial_bob (token : bytes) : result conn := Ok (mkConn bob_bytes EOF [] None).

(** Alice's daemon, unlocked. *)
Definition alice_store : store := (SetIdentity (Identity alice) empty_store).2.
Definition alice_fresh : daemon := (alice_store, SetUnlockedKey alice 1 daemon_New).

(** A YAML that writes the crawl seeds of the content, and a whole file through
    the toy serializer. *)
Module ToyBootstrap.
Import Bootstrap.
#[export] Instance ser_SeedRelay : Toy.Ser SeedRelay :=
  ToyEvent.via (λ r, (relay_URL r, relay_Kind r)) (λ '(u, k), mkSeedRelay u k) ltac:(by intros []).
#[export] Instance ser_DERPRelay : Toy.Ser DERPRelay :=
  ToyEvent.via (λ r, (derp_Region r, derp_URL r)) (λ '(g, u), mkDERPRelay g u) ltac:(by intros []).
#[export] Instance ser_SeedZen : Toy.Ser SeedZen :=
  ToyEvent.via (λ z, (zen_Token z, zen_Kind z)) (λ '(t, k), mkSeedZen t k) ltac:(by intros []).
#[export] Instance ser_File : Toy.Ser File :=
  ToyEvent.via (λ f, (Version f, Signature f, SeedRelays f, DERPRelays f, SeedZens f, CrawlSeeds f))
    (λ '(v, s, r, d, z, c), mkFile v s r d z c) ltac:(by intros []).
End ToyBootstrap.

Definition toy_yaml : Bootstrap.Yaml := {|
  Bootstrap.yaml_Marshal c := Ok (mjoin (Bootstrap.sc_CrawlSeeds c));
  Bootstrap.yaml_Unmarshal b :=
    match Toy.deser (Ser := ToyBootstrap.ser_File) b with
    | Some (f, []) => Ok f
    | _ => Err (E "yaml")
    end;
|}.
#[export] Existing Instance toy_yaml.
