(* ===== verification/CliScenario.v ===== *)
(** * A concrete command line

    The world of [Scenario.v] with a transport, a YAML for bootstrap files and
    backups, and hosts to run commands on. *)

From Stdlib Require Import Strings.Byte.
From S2P Require Import Prelude Base32 External Identity Event Log Bolt Store StoreFollow Wire Bootstrap Daemon DaemonOps Lifecycle Net Cli CliFiles.
From S2P Require Export Scenario.
#[local] Open Scope go_scope.

Module ToyBackup.
#[export] Instance ser_Petname : Toy.Ser Petname :=
  ToyEvent.via (λ p, (petname_TargetPubkey p, petname_Name p)) (λ '(t, n), mkPetname t n) ltac:(by intros []).
#[export] Instance ser_BackupData : Toy.Ser BackupData :=
  ToyEvent.via (λ b, (bd_Key b, bd_OwnLogs b, bd_Petnames b, bd_Verified b, bd_Pinned b, bd_TransportKey b))
    (λ '(k, o, p, v, n, t), mkBackupData k o p v n t) ltac:(by intros []).
End ToyBackup.
Export ToyBackup.

Definition toy_tailcat : Tailcat := ToyTailcat.tailcat dial_bob.
Definition toy_tailcat_laws : @TailcatLaws toy_tailcat := ToyTailcat.tailcat_laws dial_bob.
#[export] Existing Instances toy_tailcat toy_tailcat_laws.

Definition toy_yaml_file : @YamlFile toy_yaml := {|
  yaml_MarshalFile f := Ok (Toy.ser (Ser := ToyBootstrap.ser_File) f);
|}.
Definition toy_yaml_file_laws : @YamlFileLaws toy_yaml toy_yaml_file.
Proof.
  split. intros f b Hb.
  assert (b = Toy.ser (Ser := ToyBootstrap.ser_File) f) as ->
    by exact (f_equal (λ r, match r with Ok x => x | Err _ => [] end) (eq_sym Hb)).
  pose proof (Toy.deser_ser (Ser := ToyBootstrap.ser_File) f []) as Hd. rewrite app_nil_r in Hd.
  unfold Bootstrap.yaml_Unmarshal, toy_yaml. by rewrite Hd.
Qed.
#[export] Existing Instances toy_yaml_file toy_yaml_file_laws.

(** Alice at her machine: a database, everything writable, and two files. *)
Definition db : bytes := # "node.db".
Definition pass : bytes := # "secret".
Definition alice_env : env := {|
  dbPath := db;
  can_write := λ _, true;
  now := 5;
  now' := 6;
  seed := replicate 32 Byte.x01;
  salt := replicate 16 Byte.x07;
  gcm_nonce := replicate 12 Byte.x08;
  stdin := Ok pass;
  is_terminal := false;
  socket := # "ctrl";
  default_log := # "daemon.log";
  parse_duration := λ _, Err (E "time: invalid duration");
  dial := Some dial_bob;
  session_nonce := Ok alice_nonce;
  like_nonce := λ _, Ok alice_nonce;
  arrival := λ l, l;
  listen := listen_with (replicate 4 Byte.x09);
|}.

Definition host_of (s : store) : host := mkHost _ (Some s) None ∅ [] [].

(** What [init] leaves: alice's store, its key under [pass]. *)
Definition inited : store := default empty_store (h_store (initCmd alice_env pass (host_of empty_store)).2).

Example init_key : loadKey pass inited = Ok alice.
Proof. vm_compute. reflexivity. Qed.
