(* ===== verification/CoreProps.v ===== *)
(** * Properties of identities, keys, events and projections *)

From S2P Require Import Prelude Base32 Text TextFacts External Identity Event Log.
#[local] Open Scope go_scope.

(** ** Identities and keys *)

(** An identity made from a 32-byte public key parses back to itself and
    to the key, and both ways of naming the key on a command line (the
    identity string or the bare base32) resolve to it. *)
Theorem identity_roundtrip (pub : bytes) (Hpub : length pub = PublicKeySize) :
  ParseIdentity (IdentityFromPubkey pub) = Ok (IdentityFromPubkey pub) ∧
  PubkeyBytes (IdentityFromPubkey pub) = Ok pub ∧
  ResolvePubkey (IdentityFromPubkey pub) = Ok pub ∧
  ResolvePubkey (base32NoPadLower pub) = Ok pub.
Proof.
  split_and!; [by apply ParseIdentity_FromPubkey|by apply PubkeyBytes_FromPubkey| |].
  - unfold ResolvePubkey. by rewrite ParseIdentity_FromPubkey, PubkeyBytes_FromPubkey.
  - by apply ResolvePubkey_base32.
Qed.

(** Base32 event IDs round trip: the printed form of a 32-byte ID parses
    back to it, two IDs never print alike, and everything the parser accepts
    is 32 bytes long. *)
Theorem event_id_roundtrip :
  (∀ id, length id = HashSize → ParseEventID (EventID_String id) = Ok id) ∧
  (∀ id1 id2, EventID_String id1 = EventID_String id2 → id1 = id2) ∧
  (∀ s id, ParseEventID s = Ok id → length id = HashSize).
Proof.
  split_and!.
  - apply ParseEventID_String.
  - intros id1 id2. apply base32NoPadLower_inj.
  - by intros s id [_ H]%ParseEventID_Ok.
Qed.

(** C38: An identity string is not canonical: appending a newline to a valid
    identity gives a different string that still parses to the same public
    key, and an event signed under the first verifies under the second. Code
    that compares identities as strings sees two authors. *)
Theorem identity_alias `{Blake3, Ed25519, CborText, !CborType Event} (pub : bytes) (e : SignedEvent)
    (Hpub : length pub = PublicKeySize) (Hauthor : se_Author e = IdentityFromPubkey pub)
    (Hver : Verify e = Ok tt) :
  newline_alias (se_Author e) ≠ se_Author e ∧
  ParseIdentity (newline_alias (se_Author e)) = Ok (newline_alias (se_Author e)) ∧
  Verify (mkSignedEvent (se_Event e) (newline_alias (se_Author e)) (se_Signature e)) = Ok tt.
Proof.
  rewrite Hauthor. pose proof (PubkeyBytes_newline_alias pub Hpub) as Halias. split_and!.
  - apply newline_alias_ne.
  - apply ParseIdentity_Ok. split; [done|]. by eexists.
  - apply (Verify_respell e _ pub); [done| |done]. rewrite Hauthor. by apply PubkeyBytes_FromPubkey.
Qed.

(** A keypair encrypted at rest comes back whole: encrypting a private
    key under a non-empty passphrase with at least one round and one thread
    succeeds, and decrypting with the same passphrase returns the key, which
    rebuilds the keypair. Without a passphrase nothing is encrypted. *)
Theorem key_at_rest `{Ed25519Laws, AeadLaws} (kp : KeyPair) (k : KeyEncryption)
    (salt nonce pass : bytes)
    (Hk : valid_key kp) (Hpass : pass ≠ []) (Ht : (1 ≤ ke_time k)%Z) (Hth : (1 ≤ ke_threads k)%Z)
    (Hn : length nonce = NonceSize) :
  (∃ ek, Encrypt k salt nonce (kp_Private kp) pass = Ok ek ∧
         (priv ← Decrypt ek pass; KeyPairFromBytes priv) = Ok kp) ∧
  Encrypt k salt nonce (kp_Private kp) [] = Err (E "passphrase required").
Proof.
  split; [|done].
  destruct (Encrypt_Ok k salt nonce (kp_Private kp) pass Hpass Ht Hth Hn) as (ek & _ & He & Hd).
  exists ek. split; [done|]. rewrite Decrypt_DecryptBytes, Hd. cbn.
  rewrite (valid_key_private kp Hk). cbn. by apply valid_key_from_bytes.
Qed.

(** ** Events *)

Section events.
Context `{Blake3, !Blake3Laws, Ed25519, !Ed25519Laws, CborText, !CborTextLaws}.
Context `{!CborType Event, !CborLaws Event}.

(** Signing and verification agree: an event with a kind its log admits
    and a timestamp is signed by any generated key, the result carries the
    signer's identity, has an event ID and verifies; any other event is
    refused with the error of [validateEvent] and is never signed. *)
Theorem sign_verify (k : KeyPair) (ev : Event) (Hk : valid_key k) (Hwf : wf ev = true) :
  match validateEvent ev with
  | Ok _ => ∃ se id, Sign k ev = Ok se ∧ se_Event se = ev ∧ se_Author se = Identity k ∧
              Verify se = Ok tt ∧ ID se = Ok id ∧ length id = HashSize
  | Err e => Sign k ev = Err e
  end.
Proof.
  destruct (validateEvent ev) as [[]|e] eqn:Hv; [|by apply Sign_invalid].
  destruct (Sign_Ok k ev Hk Hwf Hv) as (se & Hs & Hev & Ha & Hver & [id Hid] & _).
  exists se, id. split_and!; try done.
  apply ID_Ok in Hid as (canon & _ & ->). apply Sum256_length.
Qed.

(** C1: What verification means: [Verify] accepts an event exactly when its
    author string names a 32-byte public key, its signature is 64 bytes and
    is that key's signature of the canonical bytes of the event, the
    timestamp is set and the kind is one its log admits. It never panics on
    any input. *)
Theorem verify_sound_complete (e : SignedEvent) :
  (Verify e = Ok tt ↔
   ∃ pub canon, PubkeyBytes (se_Author e) = Ok pub ∧ length pub = PublicKeySize ∧
     length (se_Signature e) = SignatureSize ∧ CanonicalEncode (se_Event e) = Ok canon ∧
     ed_verify pub canon (se_Signature e) = true ∧
     e_Timestamp (se_Event e) ≠ 0%Z ∧
     kind_valid_for_log (e_Log (se_Event e)) (e_Kind (se_Event e)) = true) ∧
  (is_panic (CanonicalEncode (se_Event e)) = false → is_panic (Verify e) = false).
Proof.
  split.
  - rewrite Verify_Ok. setoid_rewrite validateEvent_Ok. split.
    + intros (pub & canon & Hp & ?). exists pub, canon.
      pose proof (PubkeyBytes_length _ _ Hp). tauto.
    + intros (pub & canon & ?). exists pub, canon. tauto.
  - apply Verify_no_panic.
Qed.
End events.

(** ** Projections *)

(** C4: The follow set of a log is last-write-wins: an identity is followed
    exactly when the latest Follow or Unfollow event about it, in timestamp
    then sequence order, is a Follow. When no two events share both timestamp
    and sequence, the order in which a replica received them is irrelevant. *)
Theorem follow_set_lww (l l' : list SignedEvent) (t : bytes)
    (Hperm : l ≡ₚ l') (Htimes : distinct_times l) :
  (FollowSet_Contains (FollowSet l) t = true ↔ follows t (SortedByTime l)) ∧
  FollowSet l' = FollowSet l.
Proof.
  split.
  - unfold FollowSet_Contains. by rewrite bool_decide_eq_true, FollowSet_follows.
  - symmetry. by apply FollowSet_perm.
Qed.

(** The profile of a log is that of a latest event: nothing before it in
    the log is newer and everything after it is strictly older, so among equal
    timestamps the last in the log wins; there is none exactly when every
    profile event has a negative timestamp. *)
Theorem profile_lww (l : list SignedEvent) :
  (∀ p, Log_Profile l = Some p → ∃ ts, wins profile_payload l p ts) ∧
  (Log_Profile l = None ↔
   ∀ se, se ∈ l → is_Some (profile_payload se) → (e_Timestamp (se_Event se) < 0)%Z).
Proof. split; [apply latest_by_Some|apply latest_by_None]. Qed.

Section posts.
Context `{Blake3, !CborType Event}.

(** The posts of a log are exactly its Post events whose ID no Delete
    event of the log names, each as often as the log holds it, newest
    first. *)
Theorem posts_spec (l : list SignedEvent) :
  (∀ se, se ∈ Posts l ↔
     se ∈ l ∧ e_Kind (se_Event se) = KindPost ∧
     ∃ id, ID se = Ok id ∧ ∀ d, d ∈ l → ¬ deletes id d) ∧
  Posts l ≡ₚ filter (λ se, live_post (Tombstoned l) se = true) l ∧
  StronglySorted (λ a b, (e_Timestamp (se_Event b) ≤ e_Timestamp (se_Event a))%Z) (Posts l).
Proof.
  split_and!; [intros se; apply elem_of_Posts|apply Posts_perm|apply Posts_sorted].
Qed.

(** Tombstones are not checked against the author: in a log that merges
    several authors, a Delete event hides the post it names whoever signed
    it. *)
Theorem foreign_delete (l : list SignedEvent) (post del : SignedEvent) (id : bytes)
    (Hid : ID post = Ok id) (Hdel : deletes id del) (Hother : se_Author del ≠ se_Author post)
    (Hpost : post ∈ Posts l) :
  post ∉ Posts (l ++ [del]).
Proof.
  rewrite elem_of_Posts. intros (_ & _ & id' & Hid' & Hno).
  rewrite Hid in Hid'. injection Hid' as <-. apply (Hno del); [|done].
  apply elem_of_app. right. by left.
Qed.
End posts.

(** ** Times as text *)

(** The time shown for an event is that of its second: whatever the
    nanoseconds an int64 counts since 1970, the RFC 3339 text has twenty
    characters, the date and the time of day in it name the second the count
    falls in, by the calendar's leap years, and two times are shown alike just
    when they are in the same second. *)
Theorem format_time (ts ts' : Z) (Hts : in_i64 ts) (Hts' : in_i64 ts') :
  length (FormatTime ts) = 20 ∧ ParseTime (FormatTime ts) = (ts / 1000000000)%Z ∧
  (FormatTime ts = FormatTime ts' ↔ (ts / 1000000000)%Z = (ts' / 1000000000)%Z).
Proof.
  destruct (ParseTime_FormatTime ts Hts) as [Hp Hl], (ParseTime_FormatTime ts' Hts') as [Hp' _].
  split_and!; [done..|]. split; [intros Heq; by rewrite <-Hp, Heq|].
  intros Heq. unfold FormatTime. by rewrite Heq.
Qed.

(** ** The properties at concrete inputs *)

From S2P Require Import Scenario.

Definition post1 : SignedEvent := signed alice (post_ev 5 1 (# "hello")).
Definition id1 : bytes := match ID post1 with Ok id => id | Err _ => [] end.
Definition del1 : SignedEvent := signed bob (delete_ev 6 1 id1).
Definition follow1 : SignedEvent :=
  signed alice (mkEvent KindFollow ProfileLog 5 1 None (Some (mkFollow (kp_Public bob)))
                  None None None None).
Definition unfollow1 : SignedEvent :=
  signed alice (mkEvent KindUnfollow ProfileLog 6 2 None (Some (mkFollow (kp_Public bob)))
                  None None None None).
#[local] Opaque post1 id1 del1 follow1 unfollow1.

Lemma identity_roundtrip_witness :
  ResolvePubkey (base32NoPadLower (replicate 32 Byte.x07)) = Ok (replicate 32 Byte.x07).
Proof. exact (proj2 (proj2 (proj2 (identity_roundtrip (replicate 32 Byte.x07) eq_refl)))). Defined.

Lemma identity_alias_witness :
  newline_alias (Identity alice) ≠ Identity alice ∧
  Verify (mkSignedEvent (se_Event post1) (newline_alias (se_Author post1)) (se_Signature post1))
    = Ok tt.
Proof.
  assert (Verify post1 = Ok tt) as Hv by (vm_compute; reflexivity).
  assert (se_Author post1 = IdentityFromPubkey (kp_Public alice)) as Ha by (vm_compute; reflexivity).
  destruct (identity_alias (kp_Public alice) post1 eq_refl Ha Hv) as (H1 & _ & H2).
  split; [by rewrite Ha in H1|done].
Defined.

Lemma key_at_rest_witness :
  ∃ ek, Encrypt DefaultKeyEncryption [] (replicate 12 Byte.x03) (kp_Private alice) (# "secret")
          = Ok ek ∧
        (priv ← Decrypt ek (# "secret"); KeyPairFromBytes priv) = Ok alice.
Proof.
  apply (key_at_rest alice DefaultKeyEncryption [] (replicate 12 Byte.x03) (# "secret")).
  - exact alice_valid.
  - discriminate.
  - vm_compute. discriminate.
  - vm_compute. discriminate.
  - reflexivity.
Defined.

Lemma sign_verify_witness :
  ∃ se id, Sign alice (post_ev 5 1 (# "hello")) = Ok se ∧ se_Event se = post_ev 5 1 (# "hello") ∧
    se_Author se = Identity alice ∧ Verify se = Ok tt ∧ ID se = Ok id ∧ length id = HashSize.
Proof. exact (sign_verify alice (post_ev 5 1 (# "hello")) alice_valid eq_refl). Defined.

Lemma verify_sound_complete_witness : is_panic (Verify post1) = false.
Proof. apply verify_sound_complete. reflexivity. Defined.

Lemma follow_set_lww_witness :
  FollowSet [unfollow1; follow1] = FollowSet [follow1; unfollow1].
Proof.
  apply (follow_set_lww [follow1; unfollow1] [unfollow1; follow1] (kp_Public bob)).
  - apply perm_swap.
  - intros a b [->| [->|[]%not_elem_of_nil]%elem_of_cons]%elem_of_cons
      [->| [->|[]%not_elem_of_nil]%elem_of_cons]%elem_of_cons Htime;
      [reflexivity|vm_compute in Htime; discriminate Htime
      |vm_compute in Htime; discriminate Htime|reflexivity].
Defined.

Lemma foreign_delete_witness : post1 ∈ Posts [post1] ∧ post1 ∉ Posts ([post1] ++ [del1]).
Proof.
  assert (post1 ∈ Posts [post1]) as Hin.
  { apply elem_of_Posts. split; [left|]. split; [reflexivity|]. exists id1.
    split; [vm_compute; reflexivity|]. intros d [->|[]%not_elem_of_nil]%elem_of_cons [Hk _].
    vm_compute in Hk. discriminate. }
  split; [exact Hin|].
  apply (foreign_delete [post1] post1 del1 id1); [vm_compute; reflexivity|..|exact Hin].
  - split; vm_compute; reflexivity.
  - vm_compute. discriminate.
Defined.

(** The leap day of 2024, and the last second before 1970. *)
Lemma format_time_witness :
  FormatTime 1709210096123456789 = # "2024-02-29T12:34:56Z" ∧
  FormatTime (-1) = # "1969-12-31T23:59:59Z" ∧
  ParseTime (FormatTime (-1)) = (-1)%Z.
Proof.
  split_and!; [vm_compute; reflexivity..|].
  apply (format_time (-1) 0); split; done.
Defined.
