(* ===== verification/StoreProps.v ===== *)
(** * Properties of the store *)

From S2P Require Import Prelude Base32 External Identity Event Log Bolt Store StoreFacts StoreFollow StoreFollowFacts.
#[local] Open Scope go_scope.

Section logs.
Context `{BoltLaws, Blake3, !Blake3Laws, Ed25519, !Ed25519Laws, CborText, !CborTextLaws}.
Context `{!CborType Event, !CborType SignedEvent, !CborLaws Event, !CborLaws SignedEvent}.

(** C2: Appending to an own log implements the set-union specification: on a
    well-formed store the call succeeds, changes the named log to exactly
    [log_add] of the event and no other log or bucket, keeps every bucket
    well formed, keeps at most one like per author and target, and a second
    append of the same event changes no log. *)
Theorem append_own_refines (log : bytes) (se : SignedEvent) (s : store)
    (Hok : own_ok s) (Hse : storable se) (Hlog : bk_key_ok log = true) :
  ∃ id own, ID se = Ok id ∧ AppendOwnEvent log se s = (Ok tt, set_own own s) ∧
    subs_ok own ∧
    (∀ n, subview own n = if decide (n = log) then log_add id se (subview (bucketOwn s) n)
                          else subview (bucketOwn s) n) ∧
    (one_like (subview (bucketOwn s) log) → one_like (subview own log)) ∧
    ∃ own', AppendOwnEvent log se (set_own own s) = (Ok tt, set_own own' s) ∧
      ∀ n, subview own' n = subview own n.
Proof.
  destruct (storable_ID se Hse) as (id & HID & _).
  destruct (AppendOwnEvent_adds log se id s Hok Hse HID Hlog) as (own & Hrun & Hown & Hadd).
  destruct (AppendOwnEvent_adds log se id (set_own own s) Hown Hse HID Hlog)
    as (own' & Hrun' & _ & Hadd').
  exists id, own. split_and!; try done.
  - intros Hone. rewrite Hadd, decide_True by done. by apply log_add_one_like.
  - exists own'. split; [exact Hrun'|]. intros n. rewrite (Hadd' n). case_decide; [|done].
    cbn [bucketOwn set_own]. rewrite (Hadd n), decide_True by done. apply log_add_idemp.
Qed.

(** Storing a remote event adds it to its author's log as a set union and
    reports honestly: the result is true exactly when neither its ID nor a
    like by the same author of the same target was there, and other authors'
    logs are untouched. *)
Theorem put_crawled_refines (se : SignedEvent) (s : store)
    (Hok : subs_ok (bucketCrawl s)) (Hse : storable se) (Ha : bk_key_ok (se_Author se) = true) :
  ∃ id inserted crawl, ID se = Ok id ∧
    PutCrawledEvent se s = ((inserted, Ok tt), set_crawl crawl s) ∧ subs_ok crawl ∧
    (∀ n, subview crawl n =
      if decide (n = se_Author se) then log_add id se (subview (bucketCrawl s) n)
      else subview (bucketCrawl s) n) ∧
    (inserted = true ↔
      subview (bucketCrawl s) (se_Author se) !! id = None ∧
      ∀ p, like_of se = Some p → ¬ has_like p (subview (bucketCrawl s) (se_Author se))).
Proof.
  destruct (storable_ID se Hse) as (id & HID & _).
  destruct (PutCrawledEvent_adds se id s Hok Hse HID Ha) as (crawl & i & Hrun & [Hc Hadd] & Hi).
  exists id, i, crawl. split_and!; try done. rewrite Hi. unfold skips.
  rewrite <-not_eq_None_Some. split.
  - intros Hno. split; [apply dec_stable; tauto|]. naive_solver.
  - intros [Hnone Hno] [?|(p & Hp & Hl)]; [done|]. by apply (Hno p).
Qed.

(** C3: Replicas converge: two replicas that start alike and store the same
    remote events of an author, in whatever order and however often each,
    end with the same log up to which of several equal likes is kept: the
    same other events and the same set of (author, target) likes, and at
    most one like each. *)
Theorem crawl_converges (a : bytes) (l1 l2 : list SignedEvent) (s : store) (U : elog)
    (Hok : subs_ok (bucketCrawl s)) (Ha : bk_key_ok a = true)
    (Hl : Forall (λ se, storable se ∧ se_Author se = a) (l1 ++ l2))
    (Hids : ∀ se, se ∈ l1 ++ l2 → U !! se_id se = Some se)
    (Hs : subview (bucketCrawl s) a ⊆ U)
    (Hone : one_like (subview (bucketCrawl s) a))
    (Hsame : ∀ se, se ∈ l1 ↔ se ∈ l2) :
  subview (bucketCrawl (put_all l1 s)) a ≡ subview (bucketCrawl (put_all l2 s)) a ∧
  one_like (subview (bucketCrawl (put_all l1 s)) a).
Proof.
  apply Forall_app in Hl as [Hl1 Hl2].
  destruct (put_all_log_adds a l1 s Hok Hl1 Ha) as [_ ->].
  destruct (put_all_log_adds a l2 s Hok Hl2 Ha) as [_ ->].
  split; [|by apply log_adds_one_like].
  assert (∀ l k se, l ⊆ l1 ++ l2 → (k, se) ∈ with_id <$> l → U !! k = Some se) as HU.
  { intros l k se Hin (se' & [= -> ->] & Hse')%list_elem_of_fmap. by apply Hids, Hin. }
  eapply merges_equiv.
  2, 3: eapply log_adds_merges; [exact Hs|intros; eapply HU; [|done]; set_solver].
  intros [k se]. rewrite !list_elem_of_fmap. by setoid_rewrite Hsame.
Qed.

(** Creating an own event signs it with the author's key, stamps it with
    the log, the given time and the next sequence number, appends it, and
    returns it with its ID; the stored event verifies, and the count of the
    log is then the sequence number just used. *)
Theorem sign_and_append_spec (kp : KeyPair) (log : bytes) (ev : Event) (now : Z) (s : store)
    (se : SignedEvent)
    (Hkp : valid_key kp) (Hok : own_ok s) (Hlog : bk_key_ok log = true)
    (Hkind : e_Kind ev ≠ KindLike)
    (Hwf : wf (stamped log ev now s) = true)
    (Hsign : Sign kp (stamped log ev now s) = Ok se) (Hse : storable se)
    (Hnew : ∀ id, ID se = Ok id → subview (bucketOwn s) log !! id = None)
    (Hsmall : (Z.of_nat (size (subview (bucketOwn s) log)) < 2 ^ 64 - 1)%Z) :
  ∃ id own, SignAndAppend kp log ev now s = (Ok (Some se, id), set_own own s) ∧
    ID se = Ok id ∧ Verify se = Ok tt ∧ se_Author se = Identity kp ∧
    e_Log (se_Event se) = log ∧ e_Timestamp (se_Event se) = now ∧
    e_Sequence (se_Event se) = (OwnEventCount log s + 1)%Z ∧
    subview own log = <[id := se]> (subview (bucketOwn s) log) ∧
    OwnEventCount log (set_own own s) = e_Sequence (se_Event se).
Proof.
  destruct (storable_ID se Hse) as (id & HID & _).
  destruct (SignAndAppend_adds kp log ev now s se id) as (own & Hrun & Hown & Hadd); try done.
  destruct (Sign_inv _ _ _ Hsign) as (Hev & Ha & Hval).
  destruct (Sign_Ok kp _ Hkp Hwf Hval) as (se' & Hs' & _ & _ & Hver & _).
  rewrite Hsign in Hs'. injection Hs' as <-.
  assert (like_of se = None) as Hl by (unfold like_of; rewrite Hev, decide_False by done; done).
  assert (subview own log = <[id := se]> (subview (bucketOwn s) log)) as Hview.
  { rewrite Hadd, decide_True by done. unfold log_add. rewrite decide_False; [done|].
    intros [[e He]|(p & Hp & _)]; [|congruence]. by rewrite (Hnew id HID) in He. }
  exists id, own. rewrite Hev. cbn [e_Log e_Timestamp e_Sequence stamped set_stamp].
  rewrite !OwnEventCount_size by done. cbn [bucketOwn set_own]. rewrite Hview.
  rewrite map_size_insert_None by by apply Hnew.
  rewrite !(wrap_u64_id (Z.of_nat _)) by (unfold in_u64; lia).
  rewrite wrap_u64_id by (unfold in_u64; lia). split_and!; try done. lia.
Qed.

(** Liking is idempotent: when the user's own posts log already holds a
    like of the target, a new like is neither signed nor stored, and the ID
    returned is that of a stored like of the same target by the user. *)
Theorem like_idempotent (kp : KeyPair) (log : bytes) (ev : Event) (lk : Like) (now : Z) (s : store)
    (Hok : own_ok s) (Hk : e_Kind ev = KindLike) (Hl : e_Like ev = Some lk)
    (Hliked : has_like (Identity kp, like_TargetID lk) (subview (bucketOwn s) PostLog)) :
  ∃ id se, SignAndAppend kp log ev now s = (Ok (None, id), s) ∧
    subview (bucketOwn s) PostLog !! id = Some se ∧
    like_of se = Some (Identity kp, like_TargetID lk).
Proof. by apply SignAndAppend_liked. Qed.
End logs.

(** ** Cursors *)

(** A sync cursor reads back the 64-bit timestamp last written for its
    author and log, and writing it disturbs no other author's or log's
    cursor. *)
Theorem cursor_roundtrip `{BoltLaws} (a l a' l' : bytes) (ts : Z) (s : store)
    (Hl : l ∈ log_names) (Hl' : l' ∈ log_names) (Ha : length a ≤ 1000) (Hts : in_i64 ts) :
  ∃ s', PutSyncCursor a l ts s = (Ok tt, s') ∧
    SyncCursor a' l' s' = if decide (a = a' ∧ l = l') then Ok ts else SyncCursor a' l' s.
Proof.
  eexists. split; [by apply PutSyncCursor_ok, cursorKey_ok|].
  rewrite SyncCursor_put by done. apply decide_ext. split; [|by intros [-> ->]].
  by intros Heq%cursorKey_inj.
Qed.

(** ** Follows, pins, backup *)

Section follow.
Context `{BoltLaws, Blake3, !Blake3Laws, Ed25519, !Ed25519Laws, GoRange, !GoRangeLaws}.
Context `{CborText, !CborTextLaws}.
Context `{!CborType Event, !CborType SignedEvent, !CborLaws Event, !CborLaws SignedEvent}.

(** C8: Following keeps the follow-state cache in step with the signed log:
    when the new Follow event is the newest of the Profile log, [Follow]
    succeeds, the follow set of the log gains exactly the target, and the
    cache still says "followed" for exactly the follow set. The edge is
    written without a pin, so following someone already followed and pinned
    drops the pin, and the signed event is not returned. *)
Theorem follow_keeps_cache (kp : KeyPair) (target : bytes) (now : Z) (s : store) (se : SignedEvent)
    (Hok : own_ok s) (Hc : cache_ok s) (Hp : pins_ok s) (Ht : length target = 32)
    (Hs : signs kp KindFollow target now s se) :
  ∃ id s', Store_Follow kp target now s = (Ok (None, id, IdentityFromPubkey target), s') ∧
    ID se = Ok id ∧ own_ok s' ∧ cache_ok s' ∧ pins_ok s' ∧
    own_follows s' = {[target]} ∪ own_follows s ∧
    IsFollowed (IdentityFromPubkey target) s' = true ∧
    IsPinned (IdentityFromPubkey target) s' = false.
Proof. by apply Store_Follow_run. Qed.

(** C9: Unfollowing, at whatever stamp the clock gives: when the Unfollow event
    can be stored under a fresh ID, [Unfollow] succeeds, clears the cached edge
    and the pin of the target, and leaves the follow set and the cache as they
    are for everyone else. When the event is stamped after all that the Profile
    log says about the target (the log is the newest-wins record), the follow
    set loses exactly the target and the cache still equals it. When it is not,
    because the log's last word is a follow stamped later (the clock stepped
    back, or another device of the user), the log goes on following the target
    while the cache says otherwise. *)
Theorem unfollow_keeps_cache (kp : KeyPair) (target : bytes) (now : Z) (s : store)
    (se : SignedEvent)
    (Hok : own_ok s) (Hc : cache_ok s) (Hp : pins_ok s)
    (Hsign : Sign kp (stamped ProfileLog (follow_ev KindUnfollow target) now s) = Ok se)
    (Hse : storable se) (Hids : ∀ e, e ∈ own_profile s → ID e ≠ ID se) :
  ∃ id s', Store_Unfollow kp target now s = (Ok (Some se, id, IdentityFromPubkey target), s') ∧
    ID se = Ok id ∧ own_ok s' ∧ pins_ok s' ∧
    IsFollowed (IdentityFromPubkey target) s' = false ∧
    IsPinned (IdentityFromPubkey target) s' = false ∧
    (∀ t, t ≠ target → t ∈ own_follows s' ↔ t ∈ own_follows s) ∧
    (∀ i, i ≠ IdentityFromPubkey target →
      IsFollowed i s' = IsFollowed i s ∧ IsPinned i s' = IsPinned i s) ∧
    ((∀ e, e ∈ own_profile s → about target e → time_less e se = true) →
      own_follows s' = own_follows s ∖ {[target]} ∧ cache_ok s') ∧
    (∀ e, follow_action target e = Some true → last_about target e (own_profile s) →
      time_less se e = true → target ∈ own_follows s' ∧ ¬ cache_ok s').
Proof.
  destruct (Store_Unfollow_any kp target now s se) as (id & s' & Hrun & HID & Hu); [done..|].
  exists id, s'. split_and!; [done|done|by eapply uf_own|by eapply unfollowed_pins| | | | | |].
  - by rewrite (unfollowed_flag _ _ _ _ Hu), decide_True.
  - by rewrite (unfollowed_pin _ _ _ _ Hu), decide_True.
  - by apply (unfollowed_others _ _ _ _ Hu).
  - intros i Hi. by rewrite (unfollowed_flag _ _ _ _ Hu), (unfollowed_pin _ _ _ _ Hu), !decide_False.
  - intros Hnew. pose proof (unfollowed_newest _ _ _ _ Hu Hnew) as Hfs. split; [done|].
    apply (cache_ok_set target false s); [done|exact Hfs|by eapply unfollowed_flag].
  - by apply (unfollowed_overruled _ _ _ _ Hu).
Qed.

(** One operation on the follow edges, its result ignored. *)
Inductive edge_step (s : store) : store → Prop :=
  | step_pin id : bk_key_ok id = true → edge_step s (PinIdentity id s).2
  | step_unpin id : bk_key_ok id = true → edge_step s (UnpinIdentity id s).2
  | step_follow kp target now se : length target = 32 → signs kp KindFollow target now s se →
      edge_step s (Store_Follow kp target now s).2
  | step_unfollow kp target now se : signs kp KindUnfollow target now s se →
      edge_step s (Store_Unfollow kp target now s).2.

(** C22: From any state in which the cache agrees with the log and pins lie on
    follow edges (the empty store is one), every sequence of follow,
    unfollow, pin and unpin operations, refused pins included, reaches such a
    state, as long as each follow and unfollow signs an event that is, when it
    runs, newer than all of the Profile log (the clock does not step back, and
    no later event of another device is there; [unfollow_keeps_cache] says what
    happens otherwise), and follows name keys of 32 bytes. *)
Theorem edges_invariant (s s' : store) (Hsteps : rtc edge_step s s')
    (Hok : own_ok s) (Hc : cache_ok s) (Hp : pins_ok s) :
  own_ok s' ∧ cache_ok s' ∧ pins_ok s'.
Proof.
  induction Hsteps as [|s s1 s2 Hstep _ IH]; [done|].
  destruct Hstep as [id Hid|id Hid|kp target now se Ht Hs|kp target now se Hs].
  - destruct (PinIdentity_follows id s Hid) as [Hsame Hpins].
    apply IH; [|by eapply same_follows_cache|by apply Hpins].
    destruct Hsame as [Hown _]. unfold own_ok. by rewrite Hown.
  - destruct (UnpinIdentity_follows id s Hid) as [Hsame Hpins].
    apply IH; [|by eapply same_follows_cache|by apply Hpins].
    destruct Hsame as [Hown _]. unfold own_ok. by rewrite Hown.
  - destruct (Store_Follow_run kp target now s se) as (id & s3 & Hrun & _ & ? & ? & ? & _); try done.
    rewrite Hrun in IH. by apply IH.
  - destruct (Store_Unfollow_run kp target now s se) as (id & s3 & Hrun & _ & ? & ? & ? & _); try done.
    rewrite Hrun in IH. by apply IH.
Qed.

(** A pin is refused exactly when the identity is not followed, and a
    refusal leaves the store as it was. *)
Theorem pin_requires_follow (id : bytes) (s : store) (Hid : bk_key_ok id = true) :
  if IsFollowed id s
  then (PinIdentity id s).1 = Ok tt ∧ IsPinned id (PinIdentity id s).2 = true
  else PinIdentity id s = (Err ErrPinRequiresFollow, s).
Proof.
  rewrite PinIdentity_spec by done. destruct (IsFollowed id s); [|done]. split; [done|].
  unfold IsPinned. cbn [snd]. by rewrite getFollowState_set, decide_True.
Qed.

Context `{!ForEachDelete}.

(** Importing a backup is a set union: on a well-formed store it
    succeeds, each own log becomes the old one with the backup's events of
    that log added, the follow cache is rebuilt to agree with the merged
    Profile log, exactly the backup's pins that are followed are set, the
    verified set is replaced when the backup has one, and importing the same
    backup again changes no log. *)
Theorem import_is_union (bd : BackupData) (s : store) (Hok : own_ok s) (Hbd : backup_ok bd) :
  ∃ s', ImportBackup bd s = (Ok tt, s') ∧ imported bd s s' ∧
    ∃ s'', ImportBackup bd s' = (Ok tt, s'') ∧
      ∀ n, subview (bucketOwn s'') n = subview (bucketOwn s') n.
Proof.
  destruct (ImportBackup_run bd s Hok Hbd) as (s1 & Hrun1 & Himp1).
  exists s1. split_and!; [done|done|].
  destruct Himp1 as (Hok1 & _ & Hview1 & _).
  destruct (ImportBackup_run bd s1 Hok1 Hbd) as (s2 & Hrun2 & _ & _ & Hview2 & _).
  exists s2. split; [done|]. intros n. rewrite Hview2, Hview1. apply log_adds_idemp.
Qed.

Context `{!CborType EncryptedKey}.

(** A backup restores the account: exporting from a well-formed store and
    importing into a fresh one gives the same three own logs, event for
    event and in the same order, the same follow set, the same followed and
    pinned identities and the same verified identities. *)
Theorem backup_roundtrip (ek : EncryptedKey) (s s0 : store)
    (Hs : logs_ok s) (Hc : cache_ok s) (Hp : pins_ok s) (Hek : Store_EncryptedKey s = Ok ek)
    (Hver : ∀ k, is_Some (bk_get (bucketVerified s) k) → bk_key_ok k = true)
    (Hfs : ∀ k, is_Some (bk_get (bucketFollowState s) k) → bk_key_ok k = true)
    (Hfresh : fresh s0) :
  ∃ bd s', ExportBackup s = Ok bd ∧ ImportBackup bd s0 = (Ok tt, s') ∧
    (∀ n, n ∈ own_logs → OwnEvents n s' = OwnEvents n s) ∧
    own_follows s' = own_follows s ∧
    (∀ id, IsFollowed id s' = IsFollowed id s) ∧
    (∀ id, IsPinned id s' = IsPinned id s) ∧
    (∀ id, IsVerified id s' = IsVerified id s).
Proof.
  pose proof (proj1 Hs) as Hok. rewrite (ExportBackup_ok ek) by done.
  set (bd := mkBackupData _ _ _ _ _ _).
  assert (backup_ok bd) as Hbd.
  { unfold backup_ok, bd. cbn. rewrite !default_appended. split_and!.
    - by eexists.
    - by apply all_importable.
    - by apply keys_ok_visited.
    - apply Forall_forall. intros id Hid%elem_of_PinnedIdentities.
      by apply Hfs, followed_key, Hp. }
  destruct (ImportBackup_run bd s0 (fresh_own_ok _ Hfresh) Hbd)
    as (s' & Hrun & Hok' & Hc' & Hview & Hpin & Hv).
  assert (∀ n, n ∈ own_logs → subview (bucketOwn s') n = subview (bucketOwn s) n) as Hlogs.
  { intros n Hn. rewrite Hview. unfold subview at 1. destruct Hfresh as [Hown _].
    rewrite Hown. by apply rebuild_log. }
  assert (own_follows s' = own_follows s) as Hfollows.
  { unfold own_follows, own_profile. f_equal. apply subevents_ext, Hlogs. left. }
  assert (∀ id, IsFollowed id s' = IsFollowed id s) as Hfo.
  { intros id. apply eq_true_iff_eq. by rewrite (Hc' id), (Hc id), Hfollows. }
  exists bd, s'. split_and!; try done.
  - intros n Hn. unfold OwnEvents. rewrite !log_events_subevents by done.
    f_equal. by apply subevents_ext, Hlogs.
  - intros id. rewrite Hpin, Hfo. unfold bd. cbn. rewrite default_appended.
    case_bool_decide as Hid; rewrite elem_of_PinnedIdentities in Hid.
    + rewrite Hid. cbn. by apply Hp.
    + by destruct (IsPinned id s).
  - intros id. rewrite Hv. unfold bd. cbn. destruct Hfresh as [_ Hvf].
    pose proof (elem_of_VerifiedIdentities id s) as Hmem.
    destruct (VerifiedIdentities s) as [|v l] eqn:Hl; cbn [appended].
    + unfold IsVerified at 1. rewrite Hvf. rewrite bool_decide_false by by intros [].
      destruct (IsVerified id s); [|done]. exfalso. by eapply not_elem_of_nil, Hmem.
    + destruct (IsVerified id s); [by apply bool_decide_true, Hmem|].
      apply bool_decide_false. by rewrite Hmem.
Qed.
End follow.

(** ** The properties at concrete inputs *)

From S2P Require Import Scenario.

Definition post1 : SignedEvent := signed alice (post_ev 5 1 (# "hello")).
Definition like1 : SignedEvent := signed alice (like_ev 6 2 (se_id post1)).
Definition like2 : SignedEvent := signed alice (like_ev 7 3 (se_id post1)).

Lemma post1_author : se_Author post1 = Identity alice.
Proof. by apply signed_author; [apply alice_valid|vm_compute..]. Qed.
Lemma post1_storable : storable post1.
Proof. by apply signed_storable; [apply alice_valid|vm_compute..]. Qed.
Lemma like1_author : se_Author like1 = Identity alice.
Proof. by apply signed_author; [apply alice_valid|vm_compute..]. Qed.
Lemma like1_storable : storable like1.
Proof. by apply signed_storable; [apply alice_valid|vm_compute..]. Qed.
Lemma like2_author : se_Author like2 = Identity alice.
Proof. by apply signed_author; [apply alice_valid|vm_compute..]. Qed.
Lemma like2_storable : storable like2.
Proof. by apply signed_storable; [apply alice_valid|vm_compute..]. Qed.

Lemma append_own_refines_witness :
  ∃ id own, AppendOwnEvent PostLog post1 empty_store = (Ok tt, set_own own empty_store) ∧
    subview own PostLog = log_add id post1 (subview (bucketOwn empty_store) PostLog).
Proof.
  destruct (append_own_refines PostLog post1 empty_store empty_own_ok post1_storable eq_refl)
    as (id & own & _ & Hrun & _ & Hview & _).
  exists id, own. split; [exact Hrun|]. rewrite Hview. by rewrite decide_True.
Defined.

Lemma put_crawled_refines_witness :
  ∃ inserted s', PutCrawledEvent post1 empty_store = ((inserted, Ok tt), s').
Proof.
  destruct (put_crawled_refines post1 empty_store empty_crawl_ok post1_storable)
    as (id & i & crawl & _ & Hrun & _).
  - vm_compute. reflexivity.
  - exists i, (set_crawl crawl empty_store). exact Hrun.
Defined.

#[local] Opaque post1 like1 like2.

(** A universe of three events by alice. *)
Definition events1 : list SignedEvent := [post1; like1; like2].
Definition events2 : list SignedEvent := [like2; like1; post1; post1].

Lemma events_good : Forall (λ se, storable se ∧ se_Author se = Identity alice) (events1 ++ events2).
Proof.
  pose proof post1_storable. pose proof like1_storable. pose proof like2_storable.
  pose proof post1_author. pose proof like1_author. pose proof like2_author.
  unfold events1, events2. cbn [app].
  repeat (apply Forall_cons; split; [split; assumption|]). constructor.
Qed.

Lemma elem_of_three {A} (a b c x : A) :
  x ∈ [a; b; c] ++ [c; b; a; a] → x = a ∨ x = b ∨ x = c.
Proof. set_solver. Qed.
Lemma same_three {A} (a b c x : A) : x ∈ [a; b; c] ↔ x ∈ [c; b; a; a].
Proof. set_solver. Qed.

Lemma events_ids se :
  se ∈ events1 ++ events2 → (list_to_map (with_id <$> events1) : elog) !! se_id se = Some se.
Proof.
  intros Hin. assert (se = post1 ∨ se = like1 ∨ se = like2) as [-> |[-> | ->]].
  { exact (elem_of_three _ _ _ _ Hin). }
  all: vm_compute; reflexivity.
Qed.

Lemma crawl_converges_witness :
  subview (bucketCrawl (put_all events1 empty_store)) (Identity alice) ≡
  subview (bucketCrawl (put_all events2 empty_store)) (Identity alice).
Proof.
  apply (crawl_converges (Identity alice) events1 events2 empty_store
           (list_to_map (with_id <$> events1))).
  - exact empty_crawl_ok.
  - vm_compute. reflexivity.
  - exact events_good.
  - exact events_ids.
  - rewrite empty_crawl_view. apply map_empty_subseteq.
  - rewrite empty_crawl_view. exact one_like_empty.
  - intros se. exact (same_three _ _ _ se).
Defined.

Definition hello : Event := post_ev 0 0 (# "hello").
Definition hello_signed : SignedEvent := signed alice (stamped PostLog hello 5 empty_store).

Lemma sign_and_append_spec_witness :
  ∃ id own, SignAndAppend alice PostLog hello 5 empty_store
              = (Ok (Some hello_signed, id), set_own own empty_store) ∧
            Verify hello_signed = Ok tt ∧ OwnEventCount PostLog (set_own own empty_store) = 1%Z.
Proof.
  destruct (sign_and_append_spec alice PostLog hello 5 empty_store hello_signed)
    as (id & own & Hrun & _ & Hver & _ & _ & _ & Hseq & _ & Hcount).
  - exact alice_valid.
  - exact empty_own_ok.
  - reflexivity.
  - discriminate.
  - vm_compute. reflexivity.
  - apply signed_Sign; [exact alice_valid|vm_compute; reflexivity..].
  - apply signed_storable; [exact alice_valid|vm_compute; reflexivity..].
  - intros id _. reflexivity.
  - vm_compute. reflexivity.
  - exists id, own. split; [exact Hrun|]. split; [exact Hver|]. by rewrite Hcount, Hseq.
Defined.

Definition liked_store : store := (AppendOwnEvent PostLog like1 empty_store).2.

Lemma liked_store_ok :
  own_ok liked_store ∧
  has_like (Identity alice, se_id post1) (subview (bucketOwn liked_store) PostLog).
Proof.
  destruct (storable_ID like1 like1_storable) as (id & HID & _).
  destruct (AppendOwnEvent_adds PostLog like1 id empty_store empty_own_ok like1_storable HID eq_refl)
    as (own & Hrun & Hok & Hadd).
  unfold liked_store. rewrite Hrun. split; [exact Hok|]. cbn [snd bucketOwn set_own].
  rewrite Hadd, decide_True, empty_own_view by done. exists id, like1. split; [|vm_compute; reflexivity].
  unfold log_add. rewrite decide_False.
  - by rewrite lookup_insert_eq.
  - intros [[e He]|(p & _ & k & e & Hk & _)].
    + by rewrite lookup_empty in He.
    + by rewrite lookup_empty in Hk.
Qed.

Lemma like_idempotent_witness :
  ∃ id, SignAndAppend alice PostLog (like_ev 0 0 (se_id post1)) 9 liked_store
          = (Ok (None, id), liked_store).
Proof.
  destruct (like_idempotent alice PostLog (like_ev 0 0 (se_id post1)) (mkLike (se_id post1)) 9
              liked_store (proj1 liked_store_ok) eq_refl eq_refl (proj2 liked_store_ok))
    as (id & _ & Hrun & _).
  exists id. exact Hrun.
Defined.

Lemma cursor_roundtrip_witness :
  ∃ s', PutSyncCursor (Identity alice) PostLog (-7) empty_store = (Ok tt, s') ∧
        SyncCursor (Identity alice) PostLog s' = Ok (-7)%Z.
Proof.
  destruct (cursor_roundtrip (Identity alice) PostLog (Identity alice) PostLog (-7) empty_store)
    as (s' & Hrun & Hget).
  - right. right. left.
  - right. right. left.
  - apply Nat.leb_le. vm_compute. reflexivity.
  - split; vm_compute; [discriminate|reflexivity].
  - exists s'. split; [exact Hrun|]. rewrite Hget, decide_True; [reflexivity|].
    split; reflexivity.
Defined.

Lemma follow_keeps_cache_witness :
  ∃ id s', Store_Follow alice (kp_Public bob) 5 empty_store = (Ok (None, id, Identity bob), s') ∧
    IsFollowed (Identity bob) s' = true.
Proof.
  destruct (follow_keeps_cache alice (kp_Public bob) 5 empty_store
              (follow_bob KindFollow empty_store 5) empty_own_ok empty_cache_ok empty_pins_ok
              bob_length (signs_bob KindFollow (or_introl eq_refl)))
    as (id & s' & Hrun & _ & _ & _ & _ & _ & Hf & _).
  exists id, s'. split; [exact Hrun|exact Hf].
Defined.

(** Bob is followed at 9, and unfollowed by a clock that shows 5. *)
Definition bob_follow : SignedEvent := follow_bob KindFollow empty_store 9.
Definition bob_followed : store := (Store_Follow alice (kp_Public bob) 9 empty_store).2.
Definition bob_unfollow : SignedEvent := follow_bob KindUnfollow bob_followed 5.

Lemma bob_followed_run :
  own_ok bob_followed ∧ cache_ok bob_followed ∧ pins_ok bob_followed ∧
  own_profile bob_followed = [bob_follow].
Proof.
  assert (signs alice KindFollow (kp_Public bob) 9 empty_store bob_follow) as Hs.
  { split_and!.
    - apply signed_Sign; [exact alice_valid|vm_compute; reflexivity..].
    - apply signed_storable; [exact alice_valid|vm_compute; reflexivity..].
    - intros e. rewrite empty_own_profile. by intros []%not_elem_of_nil. }
  destruct (Store_Follow_run alice (kp_Public bob) 9 empty_store bob_follow) as (id & s' & Hrun & _ & ? & ? & ? & _);
    [exact empty_own_ok|exact empty_cache_ok|exact empty_pins_ok|exact bob_length|exact Hs|].
  unfold bob_followed at 1 2 3. rewrite Hrun. split_and!; [done..|]. vm_compute. reflexivity.
Qed.

Lemma unfollow_keeps_cache_witness :
  ∃ id s', Store_Unfollow alice (kp_Public bob) 5 bob_followed
             = (Ok (Some bob_unfollow, id, Identity bob), s') ∧
    IsFollowed (Identity bob) s' = false ∧ kp_Public bob ∈ own_follows s' ∧ ¬ cache_ok s'.
Proof.
  destruct bob_followed_run as (Hok & Hc & Hp & Hl).
  destruct (unfollow_keeps_cache alice (kp_Public bob) 5 bob_followed bob_unfollow Hok Hc Hp)
    as (id & s' & Hrun & _ & _ & _ & Hf & _ & _ & _ & _ & Hlate).
  - apply signed_Sign; [exact alice_valid|vm_compute; reflexivity..].
  - apply signed_storable; [exact alice_valid|vm_compute; reflexivity..].
  - intros e. rewrite Hl. intros ->%list_elem_of_singleton. vm_compute. discriminate.
  - exists id, s'. split; [exact Hrun|]. split; [exact Hf|]. apply (Hlate bob_follow).
    + vm_compute. reflexivity.
    + rewrite Hl. exists [], []. split; [reflexivity|]. intros x Hx. destruct (not_elem_of_nil x Hx).
    + vm_compute. reflexivity.
Defined.

Lemma edges_invariant_witness :
  pins_ok (PinIdentity (Identity bob) (Store_Follow alice (kp_Public bob) 5 empty_store).2).2.
Proof.
  refine (proj2 (proj2 (edges_invariant empty_store _ _ empty_own_ok empty_cache_ok empty_pins_ok))).
  eapply rtc_l; [|eapply rtc_once].
  - exact (step_follow empty_store alice (kp_Public bob) 5 _ bob_length
             (signs_bob KindFollow (or_introl eq_refl))).
  - apply step_pin. vm_compute. reflexivity.
Defined.

Lemma pin_requires_follow_witness :
  PinIdentity (Identity bob) empty_store = (Err ErrPinRequiresFollow, empty_store).
Proof. exact (pin_requires_follow (Identity bob) empty_store eq_refl). Defined.

Definition enc1 : EncryptedKey := mkEncryptedKey [] [] [] 3 32768 4.
Definition backup1 : BackupData :=
  mkBackupData (Some enc1) [post1; like1] None (Some [Identity bob]) None None.

Lemma post1_importable : importable post1.
Proof. split; [exact post1_storable|vm_compute; reflexivity]. Qed.
Lemma like1_importable : importable like1.
Proof. split; [exact like1_storable|vm_compute; reflexivity]. Qed.

Lemma import_is_union_witness :
  ∃ s', ImportBackup backup1 empty_store = (Ok tt, s') ∧ IsVerified (Identity bob) s' = true.
Proof.
  destruct (import_is_union backup1 empty_store empty_own_ok) as (s' & Hrun & Himp & _).
  - split; [by eexists|]. split.
    + constructor; [exact post1_importable|]. constructor; [exact like1_importable|constructor].
    + split; repeat constructor.
  - exists s'. split; [exact Hrun|]. destruct Himp as (_ & _ & _ & _ & Hv). rewrite (Hv (Identity bob)).
    cbn. apply bool_decide_true. left.
Defined.

(** Alice's store: a key, one post, bob verified. *)
Definition keyed_store : store :=
  (Update (put_key keyName (match CanonicalEncode enc1 with Ok b => b | Err _ => [] end))
     (VerifyIdentity (Identity bob) empty_store).2).2.
Definition alice_store : store := (AppendOwnEvent PostLog post1 keyed_store).2.

Lemma alice_store_ok : ∃ own, alice_store = set_own own keyed_store ∧ logs_ok alice_store.
Proof.
  destruct (storable_ID post1 post1_storable) as (id & HID & _).
  assert (logs_ok keyed_store) as Hk by exact empty_logs_ok.
  destruct (AppendOwnEvent_adds PostLog post1 id keyed_store (proj1 Hk) post1_storable HID eq_refl)
    as (own & Hrun & Hadd).
  exists own. unfold alice_store. rewrite Hrun. split; [reflexivity|].
  apply (logs_ok_adds id post1 keyed_store own Hk post1_importable). exact Hadd.
Qed.

Lemma backup_roundtrip_witness :
  ∃ bd s', ExportBackup alice_store = Ok bd ∧ ImportBackup bd empty_store = (Ok tt, s') ∧
    IsVerified (Identity bob) s' = true.
Proof.
  destruct alice_store_ok as (own & Heq & Hlogs).
  destruct (backup_roundtrip enc1 alice_store empty_store Hlogs)
    as (bd & s' & Hexp & Himp & _ & _ & _ & _ & Hver).
  - intros id. split.
    + vm_compute. discriminate.
    + intros (t & Ht & _). vm_compute in Ht. discriminate Ht.
  - intros id Hpin. vm_compute in Hpin. discriminate Hpin.
  - vm_compute. reflexivity.
  - intros k. rewrite Heq. intros [v Hv].
    change (bk_get (bk_set (Identity bob) [Byte.x01] (bucketVerified empty_store)) k = Some v) in Hv.
    assert (k = Identity bob) as ->; [|vm_compute; reflexivity].
    destruct (decide (Identity bob = k)) as [He|Hne]; [exact (eq_sym He)|].
    rewrite (bk_get_set_ne (Identity bob) k [Byte.x01] (bucketVerified empty_store) Hne) in Hv.
    vm_compute in Hv. discriminate Hv.
  - intros k [v Hv]. vm_compute in Hv. discriminate Hv.
  - split; intros n; reflexivity.
  - exists bd, s'. split; [exact Hexp|]. split; [exact Himp|]. rewrite (Hver (Identity bob)), Heq.
    vm_compute. reflexivity.
Defined.
