(* ===== verification/QueryProps.v ===== *)
(** * Properties of the store's queries *)

From S2P Require Import Prelude Base32 External Identity Event Log Bolt Store StoreFacts StoreFollow StoreFollowFacts StoreQuery StoreQueryFacts.
#[local] Open Scope go_scope.

Section queries.
Context `{BoltLaws, Blake3, !Blake3Laws, Ed25519}.
Context `{!CborType Event, !CborType SignedEvent}.

(** The two timeline readers agree: whatever orders the follow set is
    visited in, [AllPosts] and [AllPostsOneTx] succeed on a well-formed store
    and return the same events as often, namely the user's own posts log and,
    from the cache of each followed identity and of no one else, the events of
    its posts log. *)
Theorem timeline_readers_agree (r1 r2 : GoRange) (Hr1 : @GoRangeLaws r1) (Hr2 : @GoRangeLaws r2)
    (s : store) (Hok : all_ok s) :
  ∃ l1 l2, AllPosts (order := r1) s = Ok l1 ∧ AllPostsOneTx (order := r2) s = Ok l2 ∧ l1 ≡ₚ l2 ∧
    ∀ se, se ∈ l1 ↔ se ∈ own_posts s ∨
      ∃ t, t ∈ own_follows s ∧ in_post_log se ∧
           se ∈ subevents (bucketCrawl s) (IdentityFromPubkey t).
Proof.
  eexists _, _. split_and!; [by apply AllPosts_ok|by apply AllPostsOneTx_ok| |].
  - apply timeline_perm. by rewrite !range_set_elements.
  - intros se. rewrite elem_of_timeline. setoid_rewrite list_elem_of_fmap.
    setoid_rewrite elem_of_range_set. naive_solver.
Qed.

Context `{GoRange, !GoRangeLaws}.

(** Outbound interactions are counted right: when no event ID is held
    under two authors, [OutboundReplies] counts for each author exactly the
    user's own posts that reply to an event held from that author, and
    [OutboundLikes] exactly the user's likes of such events, where an event is
    held when it is in the user's posts log or in the posts log of someone
    followed; an author never counted is absent or zero. *)
Theorem outbound_counts (s : store) (Hok : own_ok s) (Hun : unambiguous s) :
  ∃ replies likes, OutboundReplies s = Ok replies ∧ OutboundLikes s = Ok likes ∧
    ∀ a, default 0%Z (replies !! a) =
           Z.of_nat (length (filter (refers_to s reply_ref a) (own_posts s))) ∧
         default 0%Z (likes !! a) =
           Z.of_nat (length (filter (refers_to s like_ref a) (own_posts s))).
Proof.
  destruct (author_index_ok s Hok) as (idx & Hidx & Hsound & Htotal).
  unfold OutboundReplies, OutboundLikes. rewrite Hidx. cbn.
  rewrite decode_own_bucket by done. cbn. do 2 eexists. split_and!; [done|done|].
  fold (own_posts s). intros a.
  rewrite !count_foldl, lookup_empty. cbn [from_option]. cbv [Datatypes.id].
  rewrite !Z.add_0_l. split; do 2 f_equal; apply filter_ext_in; intros se _;
    by apply resolves_refers.
Qed.

(** Followers are the authors of received Follow events that target the
    own key, and the events returned for the wire are exactly those; without a
    local identity both queries are errors. *)
Theorem received_followers_spec (s : store) :
  match Store_Identity s with
  | None => ReceivedFollowers s = Err (E "no local identity set") ∧
            ReceivedFollowEvents s = Err (E "no local identity set")
  | Some me => ∀ pub, PubkeyBytes me = Ok pub →
      ∃ fs evs, ReceivedFollowers s = Ok fs ∧ ReceivedFollowEvents s = Ok evs ∧
        (∀ se, se ∈ evs ↔ (∃ id, se ∈ subevents (bucketCrawl s) id) ∧ follows_me pub se = true) ∧
        ∀ a, a ∈ fs ↔ ∃ se, se ∈ evs ∧ se_Author se = a
  end.
Proof.
  destruct (Store_Identity s) as [me|] eqn:Hme.
  - intros pub Hpub.
    assert (own_pubkey s = Ok pub) as Hown.
    { unfold own_pubkey. rewrite Hme, Hpub. cbn. f_equal.
      apply array32_id. by eapply PubkeyBytes_length. }
    assert (∃ fs, ReceivedFollowers s = Ok fs) as [fs Hfs]
      by (unfold ReceivedFollowers; rewrite Hown; by eexists).
    assert (∃ evs, ReceivedFollowEvents s = Ok evs) as [evs Hevs]
      by (unfold ReceivedFollowEvents; rewrite Hown; by eexists).
    exists fs, evs. split_and!; [done|done| |].
    + intros se. by eapply elem_of_ReceivedFollowEvents.
    + intros a. rewrite (elem_of_ReceivedFollowers s pub fs a Hown Hfs).
      setoid_rewrite (elem_of_ReceivedFollowEvents s pub evs _ Hown Hevs). naive_solver.
  - unfold ReceivedFollowers, ReceivedFollowEvents, own_pubkey. by rewrite Hme.
Qed.

(** Asked for the likes of some posts, the store returns exactly the like
    events it holds, its own and cached ones alike, that target one of
    them. *)
Theorem likes_for_posts_spec (ids : list bytes) (s : store) (Hok : own_ok s) :
  ∃ l, LikesForPosts ids s = Ok l ∧
    ∀ se, se ∈ l ↔ (∃ id, like_ref se = Some id ∧ id ∈ ids) ∧
      (se ∈ own_posts s ∨ ∃ a, se ∈ subevents (bucketCrawl s) a).
Proof. by apply LikesForPosts_ok. Qed.
End queries.

(** ** The properties at concrete inputs *)

From S2P Require Import Scenario.

Lemma empty_all_ok : all_ok empty_store.
Proof. split; [exact empty_own_ok|exact empty_crawl_ok]. Qed.

Lemma timeline_readers_agree_witness :
  ∃ l1 l2, AllPosts empty_store = Ok l1 ∧ AllPostsOneTx empty_store = Ok l2 ∧ l1 ≡ₚ l2.
Proof.
  destruct (timeline_readers_agree Toy.go_range Toy.go_range Toy.go_range_laws Toy.go_range_laws
              empty_store empty_all_ok) as (l1 & l2 & H1 & H2 & Hp & _).
  exists l1, l2. split; [exact H1|]. split; [exact H2|exact Hp].
Defined.

Lemma empty_unambiguous : unambiguous empty_store.
Proof.
  intros id a b (p & Hp & _) _. unfold held_list, own_follows in Hp.
  rewrite empty_own_profile in Hp. cbn in Hp. by apply not_elem_of_nil in Hp.
Qed.

Lemma outbound_counts_witness :
  ∃ replies, OutboundReplies empty_store = Ok replies ∧
    default 0%Z (replies !! Identity alice) = 0%Z.
Proof.
  destruct (outbound_counts empty_store empty_own_ok empty_unambiguous)
    as (replies & likes & Hr & _ & Hcount).
  exists replies. split; [exact Hr|]. rewrite (proj1 (Hcount (Identity alice))).
  unfold own_posts, subevents. cbn. rewrite lookup_empty. reflexivity.
Defined.

Lemma likes_for_posts_spec_witness :
  ∃ l, LikesForPosts [replicate 32 Byte.x01] empty_store = Ok l.
Proof.
  destruct (likes_for_posts_spec [replicate 32 Byte.x01] empty_store empty_own_ok) as (l & Hl & _).
  exists l. exact Hl.
Defined.
