(* ===== verification/SyncProps.v ===== *)
(** * Properties of synchronisation *)

From S2P Require Import Prelude Base32 External Identity Event Log Bolt Store StoreFacts StoreFollow StoreFollowFacts StoreQuery Wire Session SessionFacts SessionRuns SessionMeet SessionInv SessionCursor SessionLoops Scenario.
#[local] Open Scope go_scope.

Section sync.
Context `{BoltLaws, Blake3, !Blake3Laws, Ed25519, !Ed25519Laws, CborText}.
Context `{!CborType Event, !CborLaws Event, !CborType SignedEvent, !CborLaws SignedEvent}.
Context `{!CborType Message, !CborLaws Message}.
Context {D : Type}.
Implicit Types (w : world D) (cb : callbacks D) (d : D).


(** C6: Whatever bytes the peer sends, a session of either role only adds to
    the logs, and only events that verify: every event of the caches and the
    own logs before is there after, every new one is filed under its own ID,
    those in a cache under their author, who is not the user, and those in an
    own log are the user's and name that log. *)
Theorem session_stores_only_verified cb (nonce : result bytes) w
    (Hcb : neutral cb) (Hown : subs_ok (bucketOwn (w_store w)))
    (Hcrawl : subs_ok (bucketCrawl (w_store w))) :
  grown (w_store w) (w_store (RunInitiator cb nonce w).2) ∧
  grown (w_store w) (w_store (RunListener cb nonce w).2).
Proof.
  split; [apply (safe_RunInitiator _ cb Hcb)|apply (safe_RunListener _ cb Hcb)];
    by apply grown_refl.
Qed.

(** C7: An accepted handshake proves possession of the key: when [Handshake]
    returns an identity, the first two messages read were a hello naming that
    identity and an auth whose signature over our own fresh nonce verifies
    under that identity's key. *)
Theorem handshake_sound cb (key : KeyPair) (nonce id : bytes) w w'
    (Hkey : cb_key cb = Some key) (Hrun : Handshake cb (Ok nonce) w = (Ok id, w')) :
  ∃ h a pub, handshake_read cb nonce id w w' h a pub.
Proof. by eapply Handshake_Ok. Qed.

(** C39: The handshake does not prove that the peer is someone else: a peer
    that has no key and sends back every byte it receives is accepted, under
    the identity of the node itself. *)
Theorem handshake_reflection (key : KeyPair) (refs : list ZenRef) (nonce sig : bytes)
    (s : store) (d : D)
    (Hk : valid_key key) (Hs : ed25519_Sign (kp_Private key) nonce = Ok sig)
    (Hh : good (NewHello (Identity key) nonce)) (Ha : good (NewAuth sig)) :
  ∃ t, Handshake (plain key refs) (Ok nonce) (mkWorld s (mkConn t EOF [] None) d []) =
    (Ok (Identity key), mkWorld s (mkConn [] EOF t None) d (Identity key)).
Proof.
  destruct (valid_key_sign key nonce Hk) as (sig' & Hsig & _ & Hver).
  rewrite Hs in Hsig. injection Hsig as <-.
  exists (wire ([NewHello (Identity key) nonce] ++ [NewAuth sig])).
  rewrite <-(app_nil_r (wire (_ ++ _))) at 1.
  rewrite (Handshake_plain key refs nonce (Identity key) nonce sig (kp_Public key) sig); try done.
  by apply valid_key_identity.
Qed.

(** Pull cursors never move back. With the cursors the daemon installs,
    a pull asks for what is after the stored cursor, and whatever the peer
    answers leaves the cursor where it was or five minutes before the
    timestamp of an event that verified, never earlier than it was, and no
    other cursor changed. *)
Theorem pull_cursor_monotone cb (log : bytes) (c0 : Z) w
    (Hcb : store_cursors cb) (Hzen : w_cursorZen w ≠ [])
    (Hkey : bk_key_ok (cursorKey (w_cursorZen w) log) = true)
    (Hc0 : SyncCursor (w_cursorZen w) log (w_store w) = Ok c0) (Hr : (0 ≤ c0 < 2 ^ 63)%Z) :
  pull_after cb log 0 [] w = c0 ∧
  cursor_after (w_cursorZen w) log c0 (bucketCursor (w_store w))
    (w_store (pullLog cb log 0 [] w).2).
Proof. by apply pull_cursor. Qed.

(** C23: Where the read loops of a session end, on whatever finite bytes the
    peer sends (one that never stops keeps them running). A loop scans messages
    up to the first that ends it (Done for a fetch, a pull or [Serve]; Reverse
    or Done for a session that serves; the zens for the exchange) or to where
    reading fails, at least five bytes each, and leaves the rest unread. A fetch
    returns the scanned events that verify, in order; a pull merges the scanned
    events in order, then moves its cursor unless reading broke; a serving side
    answers every scanned request, and with zens learns each offer and answers
    the first, up to a write that fails; the exchange learns the first zens.
    All other messages are passed over. The end of the stream is an error to
    the exchange only. *)
Theorem sync_loops_end cb (log : bytes) (after : Z) w :
  (∃ msgs r c', scans ends_pull (w_conn w) msgs r c' ∧
    5 * length msgs + length (rx c') ≤ length (rx (w_conn w)) ∧
    collect w = ((verified (events_of msgs), ending r), set_in c' w) ∧
    pull_loop cb log after w =
      (let '(acc, w1) := pull_items cb (events_of msgs) (0, 0%Z) w in
       ((acc.1, ending r),
        match ending r with
        | Ok _ => advanceCursor cb log after acc.2 (set_in c' w1)
        | Err _ => set_in c' w1
        end)) ∧
    ∃ n, serves ((n, (Serve w).1), (Serve w).2) (answered msgs 0 w) r c') ∧
  (∃ msgs r c', scans ends_serve (w_conn w) msgs r c' ∧
    5 * length msgs + length (rx c') ≤ length (rx (w_conn w)) ∧
    serves (serve w) (answered msgs 0 w) r c' ∧
    serves (serveWithZens cb w) (answered_zens cb msgs 0 false w) r c') ∧
  (∀ w1, offerZens cb false w = (Ok tt, w1) →
    ∃ msgs r c', scans ends_zens (w_conn w1) msgs r c' ∧
    5 * length msgs + length (rx c') ≤ length (rx (w_conn w1)) ∧
    exchangeZens cb w =
      match r with
      | Ok m => (Ok tt, learn cb m (set_in c' w1))
      | Err e => (Err (Wrap "read zens" e), set_in c' w1)
      end).
Proof.
  split_and!.
  - destruct (scans_total ends_pull (w_conn w)) as (msgs & r & c' & Hsc & Hb).
    exists msgs, r, c'. split_and!;
      [done|done|by apply collect_ends|by apply pull_ends|by apply Serve_ends].
  - destruct (scans_total ends_serve (w_conn w)) as (msgs & r & c' & Hsc & Hb).
    exists msgs, r, c'. split_and!; [done|done|by apply serve_ends|by apply swz_ends].
  - intros w1 Ho. destruct (scans_total ends_zens (w_conn w1)) as (msgs & r & c' & Hsc & Hb).
    exists msgs, r, c'. split_and!; [done|done|by apply (exchange_ends _ _ w1 msgs)].
Qed.

(** Whatever a peer sends, the raw fetches return only events that verify;
    and of a complete answer they return all that do, in order. *)
Theorem fetched_events_verify (log : bytes) (after : Z) (author : bytes)
    (targets : list bytes) w :
  Forall (λ se, Verify se = Ok tt) (SyncLogRaw log after author w).1.1 ∧
  Forall (λ se, Verify se = Ok tt) (FetchFollowers w).1.1 ∧
  Forall (λ se, Verify se = Ok tt) (FetchLikes targets w).1.1 ∧
  ∀ evs rest e t s d z, good (NewRequest log after author) → Forall good (reply evs) →
    (SyncLogRaw log after author (mkWorld s (mkConn (wire (reply evs) ++ rest) e t None) d z)).1 =
      (verified evs, Ok tt).
Proof.
  split_and!; [by apply request_collects..|].
  intros evs rest e t s d z Hq Hg. by rewrite SyncLogRaw_reply.
Qed.

(** A request for a log is answered completely. On a well-formed store the
    events sent are, in the order of their timestamps, those later than the
    request's: of the named own log when the request names the node or no
    author, and of the whole cache of the author otherwise. They go out in
    messages of one to 64 events and a final Done, and nothing else. *)
Theorem request_answered (log author : bytes) (after : Z) (s : store)
    (Hown : subs_ok (bucketOwn s)) (Hcrawl : subs_ok (bucketCrawl s)) :
  let source := if decide (author = [] ∨ Store_Identity s = Some author)
                then subevents (bucketOwn s) log else subevents (bucketCrawl s) author in
  ∃ evs, fetchEvents (mkRequest log after author) s = Ok evs ∧
    evs ≡ₚ filter (λ se, (after < e_Timestamp (se_Event se))%Z) source ∧
    StronglySorted (not_after time_less) evs ∧
    mjoin (batches evs) = evs ∧ Forall (λ b, 1 ≤ length b ≤ 64) (batches evs) ∧
    (Forall good (reply evs) → ∀ r e t d z,
      handleRequest (Some (mkRequest log after author)) (mkWorld s (mkConn r e t None) d z) =
        (Ok tt, mkWorld s (mkConn r e (t ++ wire (reply evs)) None) d z)).
Proof.
  intros source. pose proof (fetchEvents_ok (mkRequest log after author) s Hown Hcrawl) as Hf.
  cbn [req_Author req_Log req_AfterTime] in Hf. fold source in Hf.
  eexists. split_and!; [exact Hf|by rewrite SortedByTime_perm| |apply batches_join
    |apply batches_bounded|].
  - apply StronglySorted_filter, SortedByTime_sorted.
  - intros Hg r e t d z. unfold handleRequest. cbn [w_store]. rewrite Hf.
    unfold on_conn. cbn [w_conn]. by rewrite send_events_ok.
Qed.

(** Messages survive the wire, and a length prefix is never trusted beyond
    16 MiB: writing messages that fit and reading them back gives the same
    messages and leaves the rest of the stream; and of any input a read that
    returns a message consumed its four-byte header and between one byte and
    16 MiB. *)
Theorem framing_roundtrip (msgs : list Message) (rest t : bytes) (e : error)
    (Hg : Forall good msgs) :
  forM_ msgs WriteMsg (mkConn rest e t None) = (Ok tt, mkConn rest e (t ++ wire msgs) None) ∧
  read_all (length msgs) (mkConn (wire msgs ++ rest) e t None) = (Ok msgs, mkConn rest e t None) ∧
  ∀ c msg c', ReadMsg c = (Ok msg, c') →
    ∃ n, 4 < n ∧ (Z.of_nat n ≤ 4 + 16 * 1024 * 1024)%Z ∧ n ≤ length (rx c) ∧
         c' = set_rx (drop n (rx c)) c.
Proof.
  split_and!; [apply write_all; [done|by left]|by apply read_all_wire|].
  intros c msg c' Hr. destruct (ReadMsg_frame_len _ _ _ Hr) as (n & ? & ? & ? & ? & _).
  by exists n.
Qed.
End sync.

(** ** Witnesses *)



Definition post_a : SignedEvent := signed alice (post_ev 5 1 [Byte.x68; Byte.x69]).
Definition profile_b : SignedEvent := signed bob (profile_ev 7 1 [Byte.x62]).
Definition nonce_a : bytes := replicate 32 Byte.x21.
Definition nonce_b : bytes := replicate 32 Byte.x22.

Definition store_with (k : KeyPair) (log : bytes) (se : SignedEvent) : store :=
  (AppendOwnEvent log se (SetIdentity (Identity k) empty_store).2).2.


Ltac compute_good := first [apply goodb_good|apply goodb_all]; vm_compute; reflexivity.






(** A listener for whom the peer's bytes are garbage. *)
Definition alice_cb : callbacks unit := plain alice [].

Lemma plain_neutral k refs : neutral (plain (D := unit) k refs).
Proof. by split. Qed.

Lemma session_stores_only_verified_witness :
  let w := mkWorld empty_store (mkConn [Byte.x00; Byte.x01] EOF [] None) tt [] in
  grown empty_store (w_store (RunInitiator alice_cb (Ok nonce_a) w).2).
Proof.
  intros w. destruct (session_stores_only_verified alice_cb (Ok nonce_a) w) as [Hi _];
    [apply plain_neutral|intros n b; cbn; by rewrite lookup_empty|exact empty_crawl_ok|].
  exact Hi.
Defined.

Definition hello_bytes : bytes :=
  wire ([NewHello (Identity bob) nonce_b] ++ [NewAuth (ed_sign (kp_Private bob) nonce_a)]).

(** A fetch ends at the Done, the exchange goes on to the zens after it. *)
Definition two_ends (rest : bytes) : world unit :=
  mkWorld empty_store (mkConn (wire [NewDone; NewZens []] ++ rest) EOF [] None) tt [].

Lemma sync_loops_end_witness :
  collect (two_ends [Byte.x00]) =
    (([], Ok tt),
     mkWorld empty_store (mkConn (wire [NewZens []] ++ [Byte.x00]) EOF [] None) tt []) ∧
  exchangeZens alice_cb (two_ends [Byte.x00]) =
    (Ok tt, mkWorld empty_store (mkConn [Byte.x00] EOF (wire [NewZens []]) None) tt []).
Proof.
  assert (good NewDone) as Hd by compute_good. assert (good (NewZens [])) as Hz by compute_good.
  destruct (sync_loops_end alice_cb PostLog 0 (two_ends [Byte.x00]))
    as ((msgs & r & c' & Hsc & _ & Hc & _) & _ & Hx).
  destruct (Hx (mkWorld empty_store (mkConn (wire [NewDone; NewZens []] ++ [Byte.x00]) EOF
    (wire [NewZens []]) None) tt [])) as (msgs2 & r2 & c2 & Hsc2 & _ & Hx2).
  { unfold offerZens, wrapM, on_conn. cbn [w_conn two_ends]. by rewrite WriteMsg_good. }
  unfold two_ends in Hsc. cbn [w_conn] in Hsc, Hsc2.
  rewrite wire_cons, <-(assoc_L (++)) in Hsc, Hsc2.
  destruct (scans_det _ _ _ _ _ _ _ _
    (scans_stop _ _ NewDone _ (ReadMsg_good NewDone (wire [NewZens []] ++ [Byte.x00]) EOF [] None Hd) eq_refl)
    Hsc) as (-> & -> & ->).
  split; [exact Hc|].
  destruct (scans_det _ _ _ _ _ _ _ _
    (scans_next _ _ NewDone _ _ _ _ (ReadMsg_good NewDone _ EOF _ None Hd) eq_refl
      (scans_stop _ _ (NewZens []) _ (ReadMsg_good (NewZens []) [Byte.x00] EOF _ None Hz) eq_refl))
    Hsc2) as (-> & -> & ->).
  exact Hx2.
Defined.

Lemma handshake_sound_witness :
  ∃ w' h a pub,
    handshake_read alice_cb nonce_a (Identity bob)
      (mkWorld empty_store (mkConn (hello_bytes ++ []) EOF [] None) tt []) w' h a pub.
Proof.
  eexists. apply (handshake_sound alice_cb alice); [reflexivity|].
  apply (Handshake_plain alice [] nonce_a (Identity bob) nonce_b _ (kp_Public bob)
           (ed_sign (kp_Private alice) nonce_b));
    [compute_good..|vm_compute; reflexivity|vm_compute; reflexivity|vm_compute; reflexivity].
Defined.

Lemma handshake_reflection_witness :
  ∃ t, Handshake alice_cb (Ok nonce_a) (mkWorld empty_store (mkConn t EOF [] None) tt []) =
    (Ok (Identity alice), mkWorld empty_store (mkConn [] EOF t None) tt (Identity alice)).
Proof.
  apply (handshake_reflection alice [] nonce_a (ed_sign (kp_Private alice) nonce_a));
    [exact alice_valid|vm_compute; reflexivity|compute_good|compute_good].
Defined.

(** The daemon's cursors, and a reply that moves one. *)
Definition cursor_cb : callbacks unit :=
  mkCallbacks (Some alice) None None None None (Some store_source) (Some store_sink).

Lemma pull_cursor_monotone_witness :
  let w := mkWorld empty_store (mkConn (wire (reply [profile_b])) EOF [] None) tt (Identity bob) in
  cursor_after (Identity bob) ProfileLog 0 (bucketCursor empty_store)
    (w_store (pullLog cursor_cb ProfileLog 0 [] w).2).
Proof.
  intros w. refine (proj2 (pull_cursor_monotone cursor_cb ProfileLog 0 w _ _ _ _ _)).
  - split; [done|done|intros f; discriminate].
  - discriminate.
  - vm_compute; reflexivity.
  - vm_compute; reflexivity.
  - lia.
Defined.

Lemma request_answered_witness :
  ∃ evs, fetchEvents (mkRequest PostLog 0 []) (store_with alice PostLog post_a) = Ok evs ∧
         evs ≡ₚ [post_a].
Proof.
  destruct (request_answered (D := unit) PostLog [] 0 (store_with alice PostLog post_a)) as (evs & Hf & Hp & _).
  - destruct (AppendOwnEvent_adds PostLog post_a (se_id post_a) (SetIdentity (Identity alice) empty_store).2)
      as (own & Hrun & [Hok _]).
    + intros n b. cbn. by rewrite lookup_empty.
    + apply signed_storable; [exact alice_valid|vm_compute; reflexivity..].
    + vm_compute; reflexivity.
    + vm_compute; reflexivity.
    + unfold store_with. by rewrite Hrun.
  - exact empty_crawl_ok.
  - exists evs. split; [exact Hf|]. rewrite Hp.
    assert (filter (λ se, (0 < e_Timestamp (se_Event se))%Z)
      (subevents (bucketOwn (store_with alice PostLog post_a)) PostLog) = [post_a]) as Hev
      by (vm_compute; reflexivity).
    rewrite decide_True by (by left). by rewrite Hev.
Defined.

Lemma framing_roundtrip_witness :
  let msgs := [NewRequest PostLog 3 []; NewDone] in
  read_all 2 (mkConn (wire msgs ++ [Byte.x05]) EOF [] None) =
    (Ok msgs, mkConn [Byte.x05] EOF [] None).
Proof.
  intros msgs. refine (proj1 (proj2 (framing_roundtrip msgs [Byte.x05] [] EOF _))). compute_good.
Defined.
