(* ===== verification/CrawlProps.v ===== *)
(** * Properties of the crawler *)

From S2P Require Import Prelude Base32 External Identity Event Log Bolt Store StoreFacts Crawler CrawlerFacts Scenario.
#[local] Open Scope go_scope.

Section crawler.
Context `{BoltLaws, Blake3, !Blake3Laws, Ed25519, CborText, order : GoRange, !GoRangeLaws}.
Context `{!CborType Event, !CborLaws Event, !CborType SignedEvent, !CborLaws SignedEvent}.
Context `{Fetcher F}.

(** C24: A crawl is a breadth-first search to its depth. On a network that
    answers, from a fresh crawler with seeds and a cache limit that is not
    reached, [Run] returns without error, has visited exactly the identities
    fewer than [maxDepth] steps from a seed along follows and received
    follows, and reports as many fetches as it visited identities. *)
Theorem crawl_bfs (logs followers : bytes → list SignedEvent) (seeds : list bytes) (d : nat)
    (cache : Z) (U : gset bytes) (s : store) (n : F) (now : Z)
    (Hnet : steady (F := F) logs followers)
    (HU : ∀ x, reach logs followers seeds d x → x ∈ U) (Hcache : (Z.of_nat (size U) ≤ cache)%Z) :
  let c := Seed seeds (SetMaxCache cache (SetMaxDepth (Z.of_nat d) Crawler_New)) in
  ∃ w', Run now (mkCrawl c s n) = ((size (visited (cr_state w')), Ok tt), w') ∧
    running (cr_state w') = false ∧
    ∀ x, x ∈ visited (cr_state w') ↔ reach logs followers seeds d x.
Proof.
  intros c. unfold Run. change (running (cr_state (mkCrawl c s n))) with false. cbn [cr_state cr_store cr_net].
  set (w0 := mkCrawl (set_running true (lastRun c) c) s n).
  change (maxDepth c) with (Z.of_nat d). rewrite Nat2Z.id.
  destruct (crawl_rounds_steady logs followers Hnet U seeds d 0 0 w0) as (w' & Hrun & _ & Hreach).
  - exact HU.
  - exact Hcache.
  - apply frontier_start; [exact Hnet|done|]. cbn. apply filter_all. set_solver.
  - exists (mkCrawl (set_running false (Some now) (cr_state w')) (cr_store w') (cr_net w')).
    split; [|split; [done|exact Hreach]]. cbn [cr_state set_running visited running].
    rewrite Hrun. change (visited (cr_state w0)) with (∅ : gset bytes).
    by rewrite size_empty, Nat.sub_0_r.
Qed.

(** A crawl is bounded, whatever the network does: it never visits an
    identity again, never has more visited than its cache limit unless it had
    before, fetches no more often than it visits, and keeps its limits; and
    while one run is going on another is refused and changes nothing. *)
Theorem crawl_bounded (now : Z) (w : crawl F) :
  let r := Run now w in
  visited (cr_state w) ⊆ visited (cr_state r.2) ∧
  VisitedCount (cr_state r.2) ≤ VisitedCount (cr_state w) `max` Z.to_nat (maxCache (cr_state w)) ∧
  r.1.1 ≤ VisitedCount (cr_state r.2) - VisitedCount (cr_state w) ∧
  maxCache (cr_state r.2) = maxCache (cr_state w) ∧
  maxDepth (cr_state r.2) = maxDepth (cr_state w) ∧
  (running (cr_state w) = true → r = ((0, Err (E "crawl already in progress")), w)).
Proof.
  intros r. unfold r, Run, VisitedCount. destruct (running (cr_state w)) eqn:Hr.
  { cbn. split_and!; try done; lia. }
  set (w0 := mkCrawl _ _ _).
  destruct (crawl_rounds_crawled (Z.to_nat (maxDepth (cr_state w))) 0 w0) as [Hm Hc Ho [Hg Hd]].
  destruct (crawl_rounds _ 0 w0) as [[f res] w']. cbn in *. split_and!; try done. lia.
Qed.

(** Nothing unverified enters the cache: after a crawl of any network
    whose events were decoded, every event ID cached before is still cached,
    and every event that was not is a verified event of a profile log, under
    its own ID. *)
Theorem crawl_stores_verified (now : Z) (w : crawl F) (Hnet : decoded_net (F := F))
    (Hok : subs_ok (bucketCrawl (cr_store w))) :
  profiles_added (bucketCrawl (cr_store w)) (bucketCrawl (cr_store (Run now w).2)).
Proof. by apply Run_added. Qed.

(** The crawler does not check whose events it was given: when the zen
    asked for the profile of one identity answers with the verified profile of
    another, the display name shown for the first is the name of the second. *)
Theorem crawl_misfiles (id : bytes) (se : SignedEvent) (p : Profile) (s : store) (me : bytes)
    (Hse : storable se) (Hid : bk_key_ok id = true) (Hnone : bk_get (bucketCrawl s) id = None)
    (Hme : Store_Identity s = Some me) (Hother : id ≠ me)
    (Hts : (0 ≤ e_Timestamp (se_Event se))%Z)
    (Hver : Verify se = Ok tt) (Hlog : e_Log (se_Event se) = ProfileLog)
    (Hkind : e_Kind (se_Event se) = KindProfile) (Hp : e_Profile (se_Event se) = Some p) :
  Store_DisplayName id (store_profile id s se) = Ok (DisplayName p).
Proof.
  unfold store_profile. rewrite decide_True by done.
  destruct Hse as (Hwf & v & Hv & Hvok). assert (storable se) as Hse by (split; [done|by exists v]).
  destruct (storable_ID se Hse) as (k & HID & _).
  unfold PutCrawledProfile, wrapM, lift, Update, mbind, stM_bind. rewrite HID, Hv. cbn [wrap].
  destruct (bk_Create_total id (bucketCrawl s) Hid) as (b & p' & Hc). rewrite Hc.
  apply bk_Create_Ok in Hc as (_ & Hb & _). rewrite Hnone in Hb. cbn in Hb. subst b.
  assert (Hput : bk_Put k v bk_new = Ok (bk_set k v bk_new)).
  { apply bk_Put_Ok. split_and!; [|done|done]. by eapply bk_key_fits_32, ID_length. }
  rewrite Hput. cbn [snd]. unfold Store_DisplayName, Store_Identity.
  cbn [bucketMeta set_crawl]. fold (Store_Identity s). rewrite Hme.
  rewrite bool_decide_false by done. cbn [andb]. unfold CrawledProfiles.
  cbn [bucketCrawl set_crawl]. rewrite bk_get_set, decide_True by done.
  rewrite (decodable_singleton k v se) by (by apply storable_decode). cbn [fmap list_fmap snd].
  rewrite filter_cons_True by done. cbn [mbind result_bind].
  unfold Log_Profile, latest_by, latest_step. cbn [foldl].
  unfold profile_payload. rewrite decide_True by done. rewrite Hp. cbn [snd].
  by destruct (Z.leb_spec 0 (e_Timestamp (se_Event se))); [|lia].
Qed.
End crawler.

(** ** Witnesses *)

(** A network in which bob follows carol's key and dora follows alice. *)
Definition bob_follows : SignedEvent :=
  signed bob (mkEvent KindFollow ProfileLog 4 1 None (Some (mkFollow (kp_Public carol)))
                None None None None).
Definition bob_profile : SignedEvent := signed bob (profile_ev 7 1 [Byte.x62]).

Definition toy_logs (id : bytes) : list SignedEvent :=
  if decide (id = Identity bob) then [bob_profile; bob_follows] else [].
Definition no_followers (id : bytes) : list SignedEvent := [].
#[export] Instance toy_net : Fetcher unit := {
  FetchProfileLog id n := (Ok (toy_logs id), n);
  fetch_followers id n := (Ok (no_followers id), n);
  ctx_Err n := None;
}.

Lemma bob_profile_storable : storable bob_profile.
Proof. apply signed_storable; [exact bob_valid|vm_compute; reflexivity..]. Qed.

#[local] Opaque bob_follows bob_profile.

Definition toy_reached : gset bytes :=
  {[Identity bob]} ∪ list_to_set (follow_targets [bob_profile; bob_follows] ∅).

Lemma toy_edge x y : edge toy_logs no_followers x y → y ∈ toy_reached.
Proof.
  unfold edge, toy_logs, no_followers, toy_reached. intros [Hy|Hy].
  - case_decide; [by apply elem_of_union_r, elem_of_list_to_set|]. unfold follow_targets in Hy.
    apply list_elem_of_filter in Hy as [_ Hy]. vm_compute in Hy. by apply elem_of_nil in Hy.
  - unfold follow_authors in Hy. apply list_elem_of_filter in Hy as [_ Hy].
    by apply elem_of_nil in Hy.
Qed.

Lemma crawl_bfs_witness :
  ∃ w', Run 9 (mkCrawl (Seed [Identity bob] (SetMaxCache 10 (SetMaxDepth 2 Crawler_New)))
                 empty_store tt) = ((size (visited (cr_state w')), Ok tt), w') ∧
    ∀ x, x ∈ visited (cr_state w') ↔ reach toy_logs no_followers [Identity bob] 2 x.
Proof.
  destruct (crawl_bfs toy_logs no_followers [Identity bob] 2 10 toy_reached empty_store tt 9)
    as (w' & Hrun & _ & Hreach).
  - intros id n. split_and!; reflexivity.
  - intros x Hx. inversion Hx as [n s Hs|n y z Hy He]; subst.
    + apply list_elem_of_singleton in Hs as ->. by apply elem_of_union_l, elem_of_singleton.
    + by eapply toy_edge.
  - vm_compute. discriminate.
  - exists w'. split; [exact Hrun|exact Hreach].
Defined.

(** A crawl with room for one visit of bob and carol, seeded twice. *)
Lemma crawl_bounded_witness :
  VisitedCount (cr_state (Run 9 (mkCrawl
    (Seed [Identity bob; Identity carol; Identity bob] (SetMaxCache 1 Crawler_New))
    empty_store tt)).2) ≤ 1.
Proof.
  by destruct (crawl_bounded 9 (mkCrawl
    (Seed [Identity bob; Identity carol; Identity bob] (SetMaxCache 1 Crawler_New))
    empty_store tt)) as (_ & ? & _).
Defined.

Lemma crawl_stores_verified_witness :
  profiles_added (bucketCrawl empty_store)
    (bucketCrawl (cr_store (Run 9 (mkCrawl (Seed [Identity bob] Crawler_New) empty_store tt)).2)).
Proof.
  apply (crawl_stores_verified 9).
  - intros id n events Heq. cbn in Heq. injection Heq as <-. unfold toy_logs. case_decide; [|constructor].
    repeat constructor; vm_compute; reflexivity.
  - exact empty_crawl_ok.
Defined.

Lemma crawl_misfiles_witness :
  Store_DisplayName (Identity carol)
    (store_profile (Identity carol) (SetIdentity (Identity alice) empty_store).2 bob_profile)
  = Ok [Byte.x62].
Proof.
  apply (crawl_misfiles (Identity carol) bob_profile (mkProfile [Byte.x62] None) _ (Identity alice)).
  - exact bob_profile_storable.
  - vm_compute; reflexivity.
  - vm_compute; reflexivity.
  - vm_compute; reflexivity.
  - intros Heq; vm_compute in Heq; discriminate Heq.
  - vm_compute; discriminate.
  - vm_compute; reflexivity.
  - vm_compute; reflexivity.
  - vm_compute; reflexivity.
  - vm_compute; reflexivity.
Defined.
