(* ===== verification/BootstrapProps.v ===== *)
(** * Properties of the bootstrap file *)

From S2P Require Import Prelude Base32 External Identity Bootstrap Scenario.
#[local] Open Scope go_scope.

Section bootstrap.
Context `{yaml : Bootstrap.Yaml, Ed25519, !Ed25519Laws}.

(** A bootstrap file signed with a key verifies under that key and keeps
    its content; and under any key of the right length [Verify] accepts
    exactly the files whose signature field is the prefix and the hexadecimal
    of a valid signature of their marshalled content. *)
Theorem bootstrap_sign_verify (k : KeyPair) (f : Bootstrap.File) (c : bytes)
    (Hk : valid_key k) (Hc : Bootstrap.marshalContent f = Ok c) :
  (∃ f', Bootstrap.Sign (kp_Private k) f = Ok f' ∧ Bootstrap.content f' = Bootstrap.content f ∧
         Bootstrap.Verify (kp_Public k) f' = Ok tt) ∧
  ∀ pub, length pub = PublicKeySize →
    (Bootstrap.Verify pub f = Ok tt ↔ ∃ h sig, Bootstrap.Signature f = Bootstrap.sig_prefix ++ h ∧
       Bootstrap.decodeHex h = Ok sig ∧ ed_verify pub c sig = true).
Proof.
  destruct (valid_key_sign k c Hk) as (sig & Hsig & _ & Hver). split.
  - exists (Bootstrap.set_Signature (Bootstrap.sig_prefix ++ Bootstrap.encodeHex sig) f).
    unfold Bootstrap.Sign, Bootstrap.Verify. rewrite Hc. cbn [wrap mbind result_bind].
    rewrite Hsig. cbn [mbind result_bind Bootstrap.Signature Bootstrap.set_Signature].
    rewrite Bootstrap.parseSig_prefix, Bootstrap.decodeHex_encodeHex. cbn [mbind result_bind].
    change (Bootstrap.marshalContent (Bootstrap.set_Signature _ f)) with (Bootstrap.marshalContent f).
    rewrite Hc. cbn [wrap mbind result_bind].
    assert (ed25519_Verify (kp_Public k) c sig = Ok true) as ->; [|done].
    unfold ed25519_Verify. pose proof (valid_key_public k Hk) as Hlen.
    rewrite (decide_True _ _ Hlen). by rewrite Hver.
  - intros pub Hpub. unfold Bootstrap.Verify. rewrite bind_Ok.
    setoid_rewrite Bootstrap.parseSig_Ok. rewrite Hc. cbn [wrap mbind result_bind].
    assert (Hed : ∀ sg, ed25519_Verify pub c sg = Ok (ed_verify pub c sg)).
    { intros sg. unfold ed25519_Verify. by rewrite decide_True. }
    split; [intros (sg & (h & Hs & Hd) & Hr)|intros (h & sg & Hs & Hd & Hr)].
    + exists h, sg. split_and!; [done|done|]. rewrite Hed in Hr. cbn in Hr.
      by destruct (ed_verify pub c sg).
    + exists sg. split; [by exists h|]. rewrite Hed. cbn. by rewrite Hr.
Qed.
End bootstrap.

(** Hexadecimal survives: decoding what [encodeHex] wrote gives the bytes
    back; and whatever [decodeHex] accepts has two characters for each byte
    and, up to the case of its letters, is the text [encodeHex] writes. *)
Theorem hex_roundtrip (b s : bytes) :
  Bootstrap.decodeHex (Bootstrap.encodeHex b) = Ok b ∧
  (Bootstrap.decodeHex s = Ok b →
     length s = 2 * length b ∧ Bootstrap.encodeHex b = lower_byte <$> s).
Proof. split; [apply Bootstrap.decodeHex_encodeHex|apply Bootstrap.decodeHex_Ok]. Qed.

(** ** Witnesses *)

Definition toy_file : Bootstrap.File := Bootstrap.mkFile 1 [] [] [] [] [Identity bob].

Lemma bootstrap_sign_verify_witness :
  ∃ f', Bootstrap.Sign (kp_Private alice) toy_file = Ok f' ∧
        Bootstrap.Verify (kp_Public alice) f' = Ok tt.
Proof.
  destruct (bootstrap_sign_verify alice toy_file (mjoin [Identity bob]) alice_valid)
    as [(f' & Hs & _ & Hv) _]; [reflexivity|].
  exists f'. split; [exact Hs|exact Hv].
Defined.

Lemma hex_roundtrip_witness :
  Bootstrap.encodeHex [Byte.xab] = lower_byte <$> [Byte.x41; Byte.x62].
Proof. apply (hex_roundtrip [Byte.xab] [Byte.x41; Byte.x62]). vm_compute. reflexivity. Defined.
