(* ===== verification/DaemonProps.v ===== *)
(** * Properties of the daemon *)

From S2P Require Import Prelude Base32 External Identity Event Log Bolt Store StoreFacts StoreFollow StoreFollowFacts StoreQuery StoreQueryFacts Wire Session SessionCursor Crawler Daemon DaemonOps DaemonFacts DaemonMachine Scenario.
#[local] Open Scope go_scope.

Section daemon.
Context `{BoltLaws, Blake3, !Blake3Laws, Ed25519, Aead, order : GoRange, !GoRangeLaws}.
Context `{!CborType Event, !CborType SignedEvent, !CborType EncryptedKey, !CborType Message}.
Implicit Types (d : dstate) (s : store).

(** C25: The pages of the feed are the feed. When every post has its payload,
    page [p] answers with the items of the [p]-th two hundred posts of the
    timeline (or of the user's own part of it), in order, and says whether
    more remain; enough pages put together are the whole view. A negative
    page of a feed that is not empty panics. *)
Theorem feed_pages fetch (page : Z) (mine : bool) s d
    (Hposts : Forall has_post (cachedPosts s d).1) (Hpage : (- 2 ^ 50 < page < 2 ^ 50)%Z) :
  let posts := (cachedPosts s d).1 in
  let ownID := default [] (Store_Identity s) in
  let view := if mine then filter (λ p, se_Author p = ownID) posts else posts in
  ((0 ≤ page)%Z → ∃ items d', handleFeedPage fetch page mine false s d =
      (Ok (items, bool_decide (200 * (Z.to_nat page + 1) < length view)), (s, d')) ∧
    item_key <$> items = post_key <$> page_of view (Z.to_nat page)) ∧
  (∀ k, length view ≤ 200 * k → mjoin (page_of view <$> seq 0 k) = view) ∧
  ((page < 0)%Z → view ≠ [] →
     ∃ w', handleFeedPage fetch page mine false s d =
       (Err (Panic "slice bounds out of range"), w')).
Proof.
  intros posts ownID view. split_and!.
  - intros Hpos. apply handleFeedPage_ok; [|lia]. fold posts ownID view.
    unfold view. destruct mine; [|done]. apply Forall_forall. intros q [_ Hq]%list_elem_of_filter.
    by eapply Forall_forall in Hposts.
  - intros k Hk. by apply join_pages.
  - intros Hneg Hne. apply handleFeedPage_negative; [lia|done].
Qed.

(** C26: Like counts are right. On a well-formed store, for items no two of
    which have the same event ID, [populateLikes] changes nothing but the like
    fields: the count of an item grows by the number of like events for its ID
    that are held in the user's posts log or in any cache, and as many names
    are listed. *)
Theorem like_counts (items : list feedItem) s d (Hok : own_ok s) (Hd : distinct_items items) :
  let r := populateLikes items s d in
  length r.1 = length items ∧
  ∀ i it id, items !! i = Some it → ParseEventID (fi_ID it) = Ok id →
    ∃ it', r.1 !! i = Some it' ∧ item_key it' = item_key it ∧ fi_Text it' = fi_Text it ∧
      fi_LikeCount it' = (fi_LikeCount it + Z.of_nat (held_likes s id))%Z ∧
      length (fi_Likers it') = length (fi_Likers it) + held_likes s id.
Proof.
  destruct (LikesForPosts_filter (item_id <$> items) s Hok) as (likes & Hl & Hcount).
  destruct (populateLikes_counts items s d likes Hd Hl) as (Hlen & _ & Hitems).
  split; [done|]. intros i it id Hit Hid.
  destruct (Hitems i it Hit) as (it' & Hit' & Hlk). exists it'. split; [done|].
  destruct (Hlk id Hid) as (Hk & _ & Ht & Hc & Hn).
  rewrite Hcount in Hc, Hn; [done|..];
    apply list_elem_of_fmap; exists it; (split; [unfold item_id; by rewrite Hid|]);
    by eapply list_elem_of_lookup_2.
Qed.

(** C27: The feed shown is the feed stored: a handler that posts, likes, edits
    the details or reads the feed leaves the cache empty or equal to the
    timeline of the store, newest first, if it was so before. *)
Theorem feed_cache_fresh (w : daemon) (Hf : fresh w) (text parentID postID : bytes)
    (bio first last location : bytes) (kp : KeyPair) (now : Z) :
  fresh (handlePost text parentID kp now w).2 ∧
  fresh (handleLike postID kp now w).2 ∧
  fresh (handleDetail bio first last location kp now w).2 ∧
  fresh (w.1, (cachedPosts w.1 w.2).2) ∧
  (∀ posts, AllPostsOneTx w.1 = Ok posts → (cachedPosts w.1 w.2).1 = Posts posts).
Proof.
  split_and!; [by apply handlePost_fresh|by apply handleLike_fresh|by apply handleDetail_fresh
    |by apply cachedPosts_fresh|]. intros posts. by apply cachedPosts_posts.
Qed.

(** An unfollow does not refresh the feed: after a successful
    [handleUnfollow] the target is not followed, and yet the next read of the
    feed returns the posts that were cached before, those of the target
    included. *)
Theorem unfollow_keeps_feed (targetStr : bytes) (kp : KeyPair) (now : Z) (w w' : daemon)
    (posts : list SignedEvent) (fields : list (bytes * bytes))
    (Hcache : feedCache w.2 = Some posts)
    (Hrun : handleUnfollow targetStr kp now w = (Ok fields, w')) :
  (cachedPosts w'.1 w'.2).1 = posts ∧
  ∃ target, ResolvePubkey targetStr = Ok target ∧
            IsFollowed (IdentityFromPubkey target) w'.1 = false.
Proof. by eapply handleUnfollow_feed. Qed.

(** The idle lock. Without a passphrase the cached key is returned while
    no more than the idle time has passed since the last signature, and
    afterwards it is refused and forgotten; a signing command renews the
    time; a passphrase that does not open the key changes nothing, and one
    that does replaces the cached key. *)
Theorem signing_key_idle (w : daemon) (kp : KeyPair) (now : Z) (Hk : unlocked w.2 = Some kp) :
  ((idleLock w.2 ≤ 0 ∨ now - lastSignAt w.2 ≤ idleLock w.2)%Z → signingKey [] now w = (Ok kp, w)) ∧
  ((0 < idleLock w.2 < now - lastSignAt w.2)%Z →
     ∃ w1, signingKey [] now w = (Err (E "key is locked; run 'driftnode daemon unlock'"), w1) ∧
           ∀ later, is_ok (signingKey [] later w1).1 = false) ∧
  (∀ text later, (later - now ≤ idleLock w.2)%Z → is_ok (handlePost text [] kp now w).1 = true →
     (signingKey [] later (handlePost text [] kp now w).2).1 = Ok kp) ∧
  (∀ pass r w1, pass ≠ [] → signingKey pass now w = (r, w1) →
     match r with
     | Ok kp' => unlocked w1.2 = Some kp' ∧ lastSignAt w1.2 = now
     | Err _ => w1 = w
     end).
Proof.
  split_and!.
  - by eapply signingKey_live.
  - by eapply signingKey_expired.
  - intros text later. by apply signingKey_renewed.
  - intros pass r w1. by apply signingKey_unlock.
Qed.

(** C30: Pushing never blocks and never grows a queue beyond its bound: after
    any events that nobody reads meanwhile, every subscriber is still there in
    its place with at most 256 events queued, it got exactly the first events
    that fitted, and it is told it is dropped exactly when one did not fit. *)
Theorem broadcast_bounded (evs : list event) d
    (Hb : Forall (λ sb, length (sub_events sb) ≤ 256) (subs d)) :
  let d' := foldl (λ d ev, broadcast ev d) d evs in
  length (subs d') = length (subs d) ∧
  ∀ i sb, subs d !! i = Some sb → ∃ sb', subs d' !! i = Some sb' ∧ sub_id sb' = sub_id sb ∧
    length (sub_events sb') ≤ 256 ∧
    sub_events sb' = sub_events sb ++ take (256 - length (sub_events sb)) evs ∧
    sub_done sb' = (sub_done sb || (256 - length (sub_events sb) <? length evs)).
Proof.
  cbn zeta. rewrite broadcasts. split; [by rewrite length_fmap|]. intros i sb Hi.
  rewrite list_lookup_fmap, Hi. eexists. split; [done|].
  pose proof (Forall_lookup_1 _ _ _ _ Hb Hi) as Hle. cbn beta in Hle.
  rewrite offers by done. cbn [sub_id sub_events sub_done]. unfold subscribeQueue.
  split_and!; [done| |done|done]. rewrite length_app, length_take. lia.
Qed.

(** C31: A follow by token is authenticated: when [followByToken] answers with
    an identity, the token was dialled, the session over that connection ended
    without error and authenticated that identity, and afterwards it is
    followed, the token is its route and is offered to other zens. *)
Theorem follow_by_token_authenticated (transport : option (bytes → result conn)) (token : bytes)
    (kp : KeyPair) (nonce : result bytes) (now : Z) (w w' : daemon)
    (fields : list (bytes * bytes))
    (Hrun : followByToken transport token kp nonce now w = (Ok fields, w')) :
  ∃ dial c n zenID pub w1 w2, transport = Some dial ∧ dial token = Ok c ∧
    runSession c true nonce w1 = ((n, Ok tt), zenID, w2) ∧ zenID ≠ [] ∧
    PubkeyBytes zenID = Ok pub ∧ fields = [(# "followed", zenID)] ∧
    IsFollowed (IdentityFromPubkey pub) w'.1 = true ∧
    Routing zenID w'.1 = Some token ∧ token ∈ knownTokens w'.2.
Proof. by eapply followByToken_Ok. Qed.

(** C28: The daemon's memory stays well formed: in every state reachable from a
    fresh daemon by zen exchange, zen updates, rehydration, pushes,
    subscriptions, pumps and cache reads, in any order and over any stores,
    each zen is filed under its own token, the empty token is never offered,
    and no subscriber's queue holds more than 256 events. *)
Theorem daemon_memory_invariant d (Hr : rtc mem_step daemon_New d) :
  (∀ tok z, zens d !! tok = Some z → z_ID z = tok) ∧ ([] ∉ knownTokens d) ∧
  Forall (λ sb, length (sub_events sb) ≤ 256) (subs d).
Proof. destruct (mem_reachable d Hr) as [Hz Ht Hq]. by split_and!. Qed.

(** What zen exchange teaches: after a reference with a token, the token is
    offered to others and names a zen, whose status is what it was, or
    "discovered" when it is new; an identity in the reference replaces the
    one known, and a name replaces the one known only when there is one; no
    other zen changes. Nothing is dialled: only the memory changes. *)
Theorem learn_zen_spec (ref : ZenRef) s d (Htok : zr_Token ref ≠ []) :
  let d' := learnZenRef ref s d in
  let before := default (mkZenInfo (zr_Token ref) [] [] (# "native_zen") (# "discovered") false)
                  (zens d !! zr_Token ref) in
  zr_Token ref ∈ knownTokens d' ∧ knownTokens d ⊆ knownTokens d' ∧
  (∀ tok, tok ≠ zr_Token ref → zens d' !! tok = zens d !! tok) ∧
  zens d' !! zr_Token ref = Some
    (if decide (zr_Identity ref = []) then before
     else mkZenInfo (z_ID before) (zr_Identity ref)
            (if decide (zr_Name ref = []) then z_Name before else zr_Name ref)
            (z_Kind before) (z_Status before) (z_Verified before)) ∧
  unlocked d' = unlocked d ∧ feedCache d' = feedCache d.
Proof. by apply learnZenRef_spec. Qed.
End daemon.

(** ** A follow sent elsewhere *)

(** The same daemon after some peer offers bob's token under carol's identity. *)
Definition alice_taught : daemon :=
  (alice_store, learnZenRef (mkZenRef bob_token (Identity carol) []) alice_store alice_fresh.2).

(** A follow by identity can follow someone else: identities in zen
    exchange are hints that nobody checks, and [followByPubkey] dials the token
    a hint names and follows whoever answers. After a peer has offered bob's
    token as carol's, a request to follow carol answers that bob is followed,
    records that follow and none of carol, whereas without the hint the same
    request follows carol. *)
Theorem follow_redirected :
  let taught := handleFollow (Some dial_bob) (Identity carol) alice (Ok alice_nonce) 5 alice_taught in
  let fresh := handleFollow (Some dial_bob) (Identity carol) alice (Ok alice_nonce) 5 alice_fresh in
  taught.1 = Ok [(# "followed", Identity bob)] ∧
  IsFollowed (Identity bob) taught.2.1 = true ∧ IsFollowed (Identity carol) taught.2.1 = false ∧
  fresh.1 = Ok [(# "followed", Identity carol)] ∧ IsFollowed (Identity carol) fresh.2.1 = true.
Proof. vm_compute. repeat split. Qed.

(** ** Witnesses *)

Definition post_b : SignedEvent := signed bob (post_ev 5 1 [Byte.x68]).
Definition like_a : SignedEvent := signed alice (like_ev 6 1 (se_id post_b)).
Definition cached : dstate := set_feed 0 (Some [post_b]) alice_fresh.2.
Definition liked_store : store := (AppendOwnEvent PostLog like_a alice_store).2.

Lemma feed_pages_witness :
  ∃ items d', handleFeedPage (λ _ s d, (s, d)) 0 false false alice_store cached =
    (Ok (items, false), (alice_store, d')) ∧ item_key <$> items = [post_key post_b].
Proof.
  destruct (feed_pages (λ _ s d, (s, d)) 0 false alice_store cached) as [Hpage _].
  - repeat constructor. by eexists.
  - lia.
  - destruct (Hpage (Z.le_refl 0)) as (items & d' & Hrun & Hkeys).
    exists items, d'. split; [exact Hrun|exact Hkeys].
Defined.

Lemma alice_own_ok : own_ok alice_store.
Proof. intros n b. cbn. by rewrite lookup_empty. Qed.

Lemma liked_own_ok : own_ok liked_store.
Proof.
  destruct (AppendOwnEvent_adds PostLog like_a (se_id like_a) alice_store) as (own & Hrun & [Hok _]).
  - exact alice_own_ok.
  - apply signed_storable; [exact alice_valid|vm_compute; reflexivity..].
  - vm_compute; reflexivity.
  - vm_compute; reflexivity.
  - unfold own_ok, liked_store. by rewrite Hrun.
Qed.

Definition item_b : feedItem :=
  mkFeedItem (EventID_String (se_id post_b)) 5 (Identity bob) [] [Byte.x68] 0 [].

Lemma like_counts_witness :
  ∃ it', (populateLikes [item_b] liked_store cached).1 !! 0 = Some it' ∧ fi_LikeCount it' = 1%Z.
Proof.
  destruct (like_counts [item_b] liked_store cached liked_own_ok) as [_ Hc].
  - intros i j a b id Hi Hj _ _. apply list_lookup_singleton_Some in Hi as [-> _].
    by apply list_lookup_singleton_Some in Hj as [-> _].
  - destruct (Hc 0 item_b (se_id post_b) eq_refl) as (it' & Hit & _ & _ & Hcount & _).
    + vm_compute; reflexivity.
    + exists it'. split; [exact Hit|]. rewrite Hcount. vm_compute. reflexivity.
Defined.

Lemma feed_cache_fresh_witness :
  fresh (handlePost [Byte.x68] [] alice 5 alice_fresh).2 ∧
  is_ok (handlePost [Byte.x68] [] alice 5 alice_fresh).1 = true.
Proof.
  split; [|vm_compute; reflexivity].
  refine (proj1 (feed_cache_fresh alice_fresh _ [Byte.x68] [] [] [] [] [] [] alice 5)).
  apply fresh_empty. reflexivity.
Defined.

Lemma unfollow_keeps_feed_witness :
  ∃ w', (handleUnfollow (Identity bob) alice 7 (alice_store, cached)).2 = w' ∧
        (cachedPosts w'.1 w'.2).1 = [post_b] ∧ IsFollowed (Identity bob) w'.1 = false.
Proof.
  destruct (handleUnfollow (Identity bob) alice 7 (alice_store, cached)) as [r w'] eqn:Hrun.
  assert (Hok : r = Ok [(# "unfollowed", Identity bob)]).
  { change r with (r, w').1. rewrite <-Hrun. vm_compute. reflexivity. }
  subst r. exists w'. split; [reflexivity|].
  destruct (unfollow_keeps_feed (Identity bob) alice 7 (alice_store, cached) w' [post_b] _ eq_refl Hrun)
    as (Hposts & target & Ht & Hnot).
  split; [exact Hposts|].
  assert (Hbob : ResolvePubkey (Identity bob) = Ok (kp_Public bob)) by (vm_compute; reflexivity).
  rewrite Hbob in Ht. injection Ht as <-. exact Hnot.
Defined.

Lemma signing_key_idle_witness :
  signingKey [] 9 (alice_store, SetIdleLock 10 alice_fresh.2) =
    (Ok alice, (alice_store, SetIdleLock 10 alice_fresh.2)).
Proof.
  refine (proj1 (signing_key_idle (alice_store, SetIdleLock 10 alice_fresh.2) alice 9 eq_refl) _).
  right. vm_compute. discriminate.
Defined.

Lemma broadcast_bounded_witness :
  ∃ sb', subs (broadcast (ZenRemove []) (addSubscriber (newSubscriber 1) daemon_New)) !! 0 = Some sb' ∧
         sub_events sb' = [ZenRemove []].
Proof.
  destruct (broadcast_bounded [ZenRemove []] (addSubscriber (newSubscriber 1) daemon_New)) as [_ Hs].
  - constructor; [apply Nat.le_0_l|constructor].
  - destruct (Hs 0 (newSubscriber 1) eq_refl) as (sb' & Hi & _ & _ & Hev & _).
    exists sb'. split; [exact Hi|exact Hev].
Defined.

Lemma follow_by_token_authenticated_witness :
  ∃ zenID, Routing zenID
    (followByToken (Some dial_bob) bob_token alice (Ok alice_nonce) 5 alice_fresh).2.1 = Some bob_token.
Proof.
  destruct (followByToken (Some dial_bob) bob_token alice (Ok alice_nonce) 5 alice_fresh)
    as [r w'] eqn:Hrun.
  assert (Hok : r = Ok [(# "followed", Identity bob)]).
  { change r with (r, w').1. rewrite <-Hrun. vm_compute. reflexivity. }
  subst r.
  destruct (follow_by_token_authenticated (Some dial_bob) bob_token alice (Ok alice_nonce) 5
    alice_fresh w' _ Hrun) as (dial & c & n & zenID & pub & w1 & w2 & H').
  exists zenID. cbn [snd]. tauto.
Defined.

Lemma daemon_memory_invariant_witness :
  [] ∉ knownTokens (run_op alice_store (OpLearn (mkZenRef bob_token [] [])) daemon_New).
Proof.
  apply (daemon_memory_invariant (run_op alice_store (OpLearn (mkZenRef bob_token [] [])) daemon_New)).
  eapply rtc_l; [apply mem_step_op|apply rtc_refl].
Defined.

Lemma learn_zen_spec_witness : bob_token ∈ knownTokens alice_taught.2.
Proof.
  refine (proj1 (learn_zen_spec (mkZenRef bob_token (Identity carol) []) alice_store alice_fresh.2 _)).
  discriminate.
Defined.
