(* ===== verification/NetProps.v ===== *)
(** * Properties of the daemon on the network

    Sync rounds and crawls whatever the peers answer, follows without a token,
    the transport key and bootstrap. *)

From Stdlib Require Import Strings.Byte.
From S2P Require Import Prelude Base32 External Identity Event Log Bolt Store StoreFacts StoreFollow StoreFollowFacts StoreQuery Wire Session SessionFacts SessionRuns SessionInv SessionCursor Crawler CrawlerFacts Bootstrap Daemon DaemonOps DaemonNet DaemonNetFacts Lifecycle LifecycleFacts Scenario.
#[local] Open Scope go_scope.

Section net.
Context `{BoltLaws, Blake3, !Blake3Laws, Ed25519, CborText, Aead, order : GoRange}.
Context `{!CborType Event, !CborLaws Event, !CborType SignedEvent, !CborLaws SignedEvent}.
Context `{!CborType EncryptedKey, !CborType Message, !CborLaws Message}.
Context (transport : option (nat → bytes → result conn)) (nonce : nat → result bytes).

(** C11: The background loop is safe: however sync rounds and crawls alternate,
    and whatever the zens that are dialed answer to either, the loop only adds
    verified events, each under its own ID: the node's own to its own logs, and
    to the cache of an identity that identity's events, never the node's own,
    or a profile event. Nothing stored before is lost, no ID leaves a cache and
    the node's identity stays. *)
Theorem sync_loop_safe (ctx : nat → option error) (evs : list (wake * Z)) (w : daemon) (k : nat)
    (Hown : subs_ok (bucketOwn w.1)) (Hcrawl : subs_ok (bucketCrawl w.1)) :
  kept w.1 (syncLoop transport nonce ctx evs (w, k)).2.1.1.
Proof. by apply syncLoop_kept, kept_refl. Qed.

(** A sync round alone keeps the events of the caches too, and adds to the
    cache of an identity only events of that identity. *)
Theorem sync_round_safe (w : daemon) (k : nat)
    (Hown : subs_ok (bucketOwn w.1)) (Hcrawl : subs_ok (bucketCrawl w.1)) :
  grown w.1 (syncAllZens transport nonce (w, k)).2.1.1.
Proof. by apply syncAllZens_grown, grown_refl. Qed.

(** A crawl by the daemon is safe: over the fetcher that dials known zens,
    whatever they answer, a crawl only adds verified events of profile logs
    to the cache, each under its own ID. *)
Theorem daemon_crawl_safe (ctx : nat → option error) (now : Z) (w : daemon) (k : nat)
    (Hcrawl : subs_ok (bucketCrawl w.1)) :
  profiles_added (bucketCrawl w.1) (bucketCrawl (runCrawl transport nonce ctx now (w, k)).1.1).
Proof. by apply runCrawl_added. Qed.

(** Looking for the token of a follow leaks nothing: while no zen at a
    known token proves to be a pending follow, the resolution dials each
    known token once and changes nothing else, neither the store nor the
    daemon; in particular no session is run with any of them. *)
Theorem resolve_no_leak (pending : list bytes) (w : daemon) (k : nat)
    (Ht : is_Some transport)
    (Hn : ∀ kp, unlocked w.2 = Some kp → nobody_pending transport nonce kp pending w.1) :
  resolvePendingFollows transport nonce pending (w, k) =
    (Ok tt, (w, match unlocked w.2 with
                | Some _ => k + length (knownRefsList w.1 w.2) | None => k end)).
Proof.
  unfold resolvePendingFollows. destruct (unlocked w.2) as [kp|] eqn:Hk; [|done].
  by apply resolve_tokens_idle; [|apply Hn].
Qed.

(** C40: The followers of an identity are taken from whoever answers at its
    token: when a token is bound to it, [crawlFetchFollowers] returns what the
    zen there sends, though the handshake has just shown it to be someone
    else; when none is bound, the same zen is passed over. *)
Theorem followers_unauthenticated (dial : nat → bytes → result conn) (kp : KeyPair)
    (id tok zenID : bytes) (events : list SignedEvent) (w : daemon) (k : nat) (c : conn)
    (wd wd' : world unit)
    (Ht : transport = Some dial) (Hk : unlocked w.2 = Some kp) (Hd : dial k tok = Ok c)
    (Hh : handshake_on nonce kp c w.1 k = (Ok zenID, wd)) (Hne : zenID ≠ id)
    (Hf : FetchFollowers wd = ((events, Ok tt), wd')) :
  (Routing id w.1 = Some tok →
   crawlFetchFollowers transport nonce id (w, k) = (Ok events, (w, S k))) ∧
  (Routing id w.1 = None → knownRefsList w.1 w.2 = [mkZenRef tok [] []] →
   crawlFetchFollowers transport nonce id (w, k) = (Ok [], (w, S k))).
Proof.
  unfold crawlFetchFollowers. rewrite Hk, Ht. split.
  - intros ->. rewrite Hd. unfold fetchFollowersOverConn. by rewrite Hh, Hf.
  - intros -> ->. cbn [probe_followers zr_Token]. rewrite Hd, Hh. by rewrite decide_False.
Qed.

(** Bootstrap is gated: with a verification key, a file whose signature
    does not verify changes nothing and dials nobody; while the key is locked
    a verified file only seeds the crawler, nothing is dialed and bootstrap is
    not marked done, so unlocking tries again; and when it is marked done the
    key was there. *)
Theorem bootstrap_gated `{!Bootstrap.Yaml} (file : result Bootstrap.File)
    (verifyKey : option bytes) (now : Z) (w : daemon) (k : nat) :
  let r := dialBootstrapSeeds transport nonce file verifyKey now (w, k) in
  (∀ bf pub, file = Ok bf → verifyKey = Some pub → is_ok (Bootstrap.Verify pub bf) = false →
     r = (Ok tt, (w, k))) ∧
  (unlocked w.2 = None →
     r.2.2 = k ∧ r.2.1.1 = w.1 ∧ bootstrapDone r.2.1.2 = bootstrapDone w.2 ∧
     zens r.2.1.2 = zens w.2) ∧
  (bootstrapDone w.2 = false → bootstrapDone r.2.1.2 = true → unlocked w.2 ≠ None).
Proof.
  pose proof (dialBootstrapSeeds_locked transport nonce file verifyKey now w k) as Hlocked.
  intros r. split_and!; unfold r.
  - intros bf pub -> -> Hv. unfold dialBootstrapSeeds, check_file. by destruct (Bootstrap.Verify pub bf).
  - intros Hl. by destruct (Hlocked Hl) as (d & -> & Hb & Hz).
  - intros Hnot Hdone Hl. destruct (Hlocked Hl) as (d & Hr & Hb & _). rewrite Hr in Hdone.
    cbn in Hdone. congruence.
Qed.
End net.

(** ** The transport key *)

Section key.
Context `{BoltLaws} (listen : option bytes → result (bytes * result bytes)).

(** The token is stable: the first start without a stored key stores the
    one the listener generated, and every later start hands exactly that key
    to the listener and writes nothing; an ephemeral node never reads or
    writes it. Rotating starts from no key and stores the new one; but when
    the listener cannot be restarted the old key is already gone, and the
    daemon still names the listener it has closed as its own. *)
Theorem transport_key (w : daemon) (addr kb : bytes) (d : dstate)
    (Hfresh : listen None = Ok (addr, Ok kb)) (Hkb : bk_value_ok kb = true)
    (Hnone : TransportKey w.1 = None) :
  ∃ s, startTransport listen false w = (Ok tt, (s, set_tcAddr (Some addr) w.2)) ∧
    TransportKey s = Some kb ∧
    (∀ a r, listen (Some kb) = Ok (a, r) →
       startTransport listen false (s, d) = (Ok tt, (s, set_tcAddr (Some a) d))) ∧
    (startTransport listen true (s, d)).2.1 = s ∧
    (rotateKey listen false (s, d)).1 = Ok addr ∧
    (∀ listen' e, listen' None = Err e →
       let w' := (rotateKey listen' false (s, d)).2 in
       is_ok (rotateKey listen' false (s, d)).1 = false ∧
       TransportKey w'.1 = None ∧ tcAddr w'.2 = tcAddr d).
Proof.
  destruct (PutTransportKey_ok kb w.1 Hkb) as (s & Hput & Hget). exists s.
  assert (startTransport listen false w = (Ok tt, (s, set_tcAddr (Some addr) w.2))) as Hstart.
  { unfold startTransport. by rewrite Hnone, Hfresh, Hput. }
  destruct (DeleteTransportKey_ok s) as (s1 & Hdel & Hgone).
  destruct (PutTransportKey_ok kb s1 Hkb) as (s2 & Hput2 & _).
  split_and!; [done|done| | | |].
  - intros a r Hl. unfold startTransport. cbn [fst]. by rewrite Hget, Hl.
  - unfold startTransport. rewrite Hfresh. done.
  - unfold rotateKey, wrapM. cbn [fst snd]. rewrite Hdel. cbn [wrap].
    unfold startTransport. cbn [fst]. by rewrite Hgone, Hfresh, Hput2.
  - intros listen' e Hl w'. unfold w', rotateKey, wrapM. cbn [fst snd]. rewrite Hdel. cbn [wrap].
    unfold startTransport. cbn [fst]. rewrite Hgone, Hl. cbn. by destruct e.
Qed.
End key.

(** ** Witnesses *)

(** Bob's zen at every token; it also knows that carol follows bob. *)
Definition to_bob (k : nat) (token : bytes) : result conn := dial_bob token.
Definition same_nonce (k : nat) : result bytes := Ok alice_nonce.

(** Alice follows bob, bob's token is bound, and her key is unlocked. *)
Definition bob_followed : store := (Store_Follow alice (kp_Public bob) 5 empty_store).2.
Definition bob_bound : daemon := ((PutRouting (Identity bob) bob_token bob_followed).2, alice_fresh.2).

Lemma bob_bound_logs : subs_ok (bucketOwn bob_bound.1) ∧ subs_ok (bucketCrawl bob_bound.1).
Proof.
  destruct (Store_Follow_run alice (kp_Public bob) 5 empty_store
              (follow_bob KindFollow empty_store 5) empty_own_ok empty_cache_ok empty_pins_ok
              bob_length (signs_bob KindFollow (or_introl eq_refl)))
    as (id & s & Hrun & _ & Hok & _).
  destruct (PutRouting_logs (Identity bob) bob_token bob_followed) as (_ & Ho & Hc).
  unfold bob_bound. cbn [fst]. rewrite Ho, Hc. unfold bob_followed. split; [by rewrite Hrun|].
  intros n b Hb. exfalso. revert Hb.
  assert (bucketCrawl (Store_Follow alice (kp_Public bob) 5 empty_store).2 = bucketCrawl empty_store) as ->
    by (vm_compute; reflexivity).
  cbn. by rewrite lookup_empty.
Qed.

Lemma sync_round_safe_witness :
  let r := syncAllZens (Some to_bob) same_nonce (bob_bound, 0) in
  grown bob_bound.1 r.2.1.1 ∧ r.2.2 = 1.
Proof.
  split; [|vm_compute; reflexivity].
  exact (sync_round_safe (Some to_bob) same_nonce bob_bound 0 (proj1 bob_bound_logs) (proj2 bob_bound_logs)).
Defined.

(** The same daemon with a crawler seeded with bob. *)
Definition bob_crawled : daemon :=
  (bob_bound.1, set_crawler (Some (Seed [Identity bob] Crawler_New))
                  (set_knownTokens {[bob_token]} bob_bound.2)).

Lemma daemon_crawl_safe_witness :
  let r := runCrawl (Some to_bob) same_nonce (λ _, None) 9 (bob_crawled, 0) in
  profiles_added (bucketCrawl bob_crawled.1) (bucketCrawl r.1.1) ∧ r.2 = 2.
Proof.
  split; [|vm_compute; reflexivity].
  exact (daemon_crawl_safe (Some to_bob) same_nonce (λ _, None) 9 bob_crawled 0 (proj2 bob_bound_logs)).
Defined.

(** A signal and both ticks: four dials, the second crawl has nobody left to visit. *)
Definition a_while : list (wake * Z) := [(SyncNow, 9); (SyncTick, 60); (CrawlTick, 600)]%Z.
Definition signalled : daemon := (bob_crawled.1, set_syncNow true bob_crawled.2).

Lemma sync_loop_safe_witness :
  let r := syncLoop (Some to_bob) same_nonce (λ _, None) a_while (signalled, 0) in
  kept signalled.1 r.2.1.1 ∧ r.2.2 = 4.
Proof.
  split; [|vm_compute; reflexivity].
  exact (sync_loop_safe (Some to_bob) same_nonce (λ _, None) a_while signalled 0
           (proj1 bob_bound_logs) (proj2 bob_bound_logs)).
Defined.

Lemma resolve_no_leak_witness :
  resolvePendingFollows (Some to_bob) same_nonce [Identity carol] (bob_crawled, 0) =
    (Ok tt, (bob_crawled, 1)).
Proof.
  assert (length (knownRefsList bob_crawled.1 bob_crawled.2) = 1) as Hl by (vm_compute; reflexivity).
  rewrite (resolve_no_leak (Some to_bob) same_nonce [Identity carol] bob_crawled 0).
  - change (unlocked bob_crawled.2) with (Some alice). cbv iota. rewrite Hl. reflexivity.
  - exists to_bob. reflexivity.
  - intros kp Hk dial k tok c id [= <-] [= <-] Hh.
    assert (kp = alice) as -> by (injection Hk as Hk; symmetry; exact Hk).
    vm_compute in Hh. injection Hh as <-. intros Hin%list_elem_of_singleton.
    vm_compute in Hin. discriminate Hin.
Defined.

(** Bob's zen asked for followers: it answers with carol's follow of bob. *)
Definition carol_follows : SignedEvent :=
  signed carol (mkEvent KindFollow ProfileLog 4 1 None (Some (mkFollow (kp_Public bob))) None None None None).
Definition bob_followers : conn :=
  mkConn (zen_sends bob bob_nonce [NewEvents [carol_follows]; NewDone]) EOF [] None.
Definition dora : bytes := Identity (NewKeyPair (replicate 32 Byte.x04)).
Definition dora_bound : daemon := ((PutRouting dora bob_token alice_store).2, alice_fresh.2).

Lemma followers_unauthenticated_witness :
  (crawlFetchFollowers (Some (λ _ _, Ok bob_followers)) same_nonce dora (dora_bound, 0)).1 = Ok [carol_follows].
Proof.
  assert (is_ok (handshake_on same_nonce alice bob_followers dora_bound.1 0).1 = true) as Hok
    by (vm_compute; reflexivity).
  destruct (handshake_on same_nonce alice bob_followers dora_bound.1 0) as [[id|e] wd] eqn:Hh;
    [|discriminate Hok].
  destruct (FetchFollowers wd) as [[events r] wd'] eqn:Hf.
  assert (match handshake_on same_nonce alice bob_followers dora_bound.1 0 with
          | (Ok id, wd) => Some (id, (FetchFollowers wd).1) | _ => None end
          = Some (Identity bob, ([carol_follows], Ok tt))) as Hc by (vm_compute; reflexivity).
  rewrite Hh, Hf in Hc. cbn [fst] in Hc. apply Some_inj in Hc.
  pose proof (f_equal fst Hc) as Hid. pose proof (f_equal snd Hc) as Her. cbn [fst snd] in Hid, Her.
  pose proof (f_equal fst Her) as Hev. pose proof (f_equal snd Her) as Hr. cbn [fst snd] in Hev, Hr.
  subst id events r.
  destruct (followers_unauthenticated (Some (λ _ _, Ok bob_followers)) same_nonce
    (λ _ _, Ok bob_followers) alice dora bob_token (Identity bob) [carol_follows] dora_bound 0
    bob_followers wd wd') as [Hb _]; [reflexivity|reflexivity|reflexivity|exact Hh| |exact Hf|].
  - vm_compute. discriminate.
  - rewrite Hb; [reflexivity|vm_compute; reflexivity].
Defined.

(** A file nobody signed. *)
Lemma bootstrap_gated_witness :
  dialBootstrapSeeds (Some to_bob) same_nonce
    (Ok (Bootstrap.mkFile 1 [] [] [] [Bootstrap.mkSeedZen bob_token []] []))
    (Some (kp_Public bob)) 5 (bob_bound, 0) = (Ok tt, (bob_bound, 0)).
Proof.
  refine (proj1 (bootstrap_gated (Some to_bob) same_nonce _ (Some (kp_Public bob)) 5 bob_bound 0)
    _ (kp_Public bob) eq_refl eq_refl _).
  vm_compute. reflexivity.
Defined.

(** A listener whose fresh key is [k] and whose address is its key. *)
Definition toy_listen (key : option bytes) : result (bytes * result bytes) :=
  let k := default [Byte.x6b] key in Ok (k, Ok k).

Lemma transport_key_witness :
  ∃ s, startTransport toy_listen false alice_fresh = (Ok tt, (s, set_tcAddr (Some [Byte.x6b]) alice_fresh.2)) ∧
       TransportKey s = Some [Byte.x6b].
Proof.
  destruct (transport_key toy_listen alice_fresh [Byte.x6b] [Byte.x6b] daemon_New)
    as (s & Hs & Hk & _); [reflexivity|vm_compute; reflexivity|vm_compute; reflexivity|].
  exists s. split; [exact Hs|exact Hk].
Defined.
