(* ===== verification/ServerProps.v ===== *)
(** * Properties of the control API

    What a request that signs may do, and what is pushed to the subscribers
    for a new post. *)

From Stdlib Require Import Strings.Byte.
From S2P Require Import Prelude Base32 External Identity Event Log Bolt Store StoreFacts StoreFollow StoreQuery Wire Session Crawler Daemon DaemonOps DaemonFacts DaemonNet Server ServerFacts Scenario.
#[local] Open Scope go_scope.

(** ** Requests that sign *)

Section server.
Context `{BoltLaws, Blake3, Ed25519, Aead, CborText, order : GoRange}.
Context `{!CborType Event, !CborType SignedEvent, !CborType EncryptedKey, !CborType Message}.

(** C29: No request signs without a key: a request with a required field
    missing is refused before the key is looked at; when the key is refused,
    so is the request, with the same error, and the store is unchanged; and
    whenever a request changes the store the key was there, either in memory
    within the idle lock or decrypted with the passphrase sent. After [Lock]
    every request without a passphrase is refused and the store unchanged. *)
Theorem signing_rpcs_guarded (transport : option (bytes → result conn)) (nonce : result bytes)
    (r : signing) (passphrase : bytes) (now now' : Z) (w : daemon) :
  let out := rpc_sign transport nonce r passphrase now now' w in
  let locked := rpc_sign transport nonce r [] now now' (rpc_Lock w) in
  (∀ m, missing r = Some m → out = (Err (E m), w)) ∧
  (∀ e w1, missing r = None → signingKey passphrase now w = (Err e, w1) →
     out = (Err e, w1) ∧ w1.1 = w.1) ∧
  (out.2.1 ≠ w.1 → ∃ kp, key_available passphrase now w kp) ∧
  is_ok locked.1 = false ∧ locked.2.1 = w.1.
Proof.
  unfold rpc_sign, with_key. pose proof (signingKey_store passphrase now w) as Hs.
  split_and!; cbn [fst snd].
  - by intros m ->.
  - intros e w1 -> Hk. rewrite Hk in Hs |- *. done.
  - destruct (missing r); [done|].
    destruct (signingKey passphrase now w) as [[kp|e] w1] eqn:Hk; [|done].
    intros _. exists kp. by eapply signingKey_available.
  - by destruct (missing r).
  - by destruct (missing r).
Qed.

(** ** What is pushed *)

(** A new post is pushed to every subscriber as one feed item, and the
    item has the ID, time, author and name the feed shows for the stored
    event; its text is the one sent, while the feed prefixes the text of a
    reply, so subscribers are pushed a reply as if it were a new post. *)
Theorem push_matches_feed (text parentID : bytes) (kp : KeyPair) (now : Z) (w w' : daemon)
    (fields : list (bytes * bytes))
    (Hid : Store_Identity w.1 = Some (Identity kp))
    (Hrun : handlePost text parentID kp now w = (Ok fields, w')) :
  ∃ parent se it,
    (if decide (parentID = []) then Ok zero_hash else ParseEventID parentID) = Ok parent ∧
    Sign kp (stamped PostLog (post_event text parent) now w.1) = Ok se ∧
    subs w'.2 = offer (FeedAdd [it]) <$> subs w.2 ∧
    fi_Text it = text ∧
    (feedItemFor se w'.1 w'.2).1 =
      Ok (mkFeedItem (fi_ID it) (fi_Timestamp it) (fi_Author it) (fi_Name it)
            (if EventID_IsZero parent then text else # "(reply) " ++ text)
            (fi_LikeCount it) (fi_Likers it)).
Proof.
  destruct (handlePost_run text parentID kp now w w' fields Hid Hrun)
    as (parent & se & id & name & d0 & d & Hp & Hsa & Hsign & HID & _ & Hname & Hd & Hsubs).
  exists parent, se, (post_item se id kp name text). split_and!; [done..|].
  destruct (Sign_inv _ _ _ Hsign) as (Hev & Ha & _). unfold feedItemFor.
  rewrite Hev. cbn [e_Post post_event stamped set_stamp]. rewrite Ha, HID.
  pose proof (displayName_again (Identity kp) w'.1 d0 name d
    (broadcast (FeedAdd [post_item se id kp name text])) w'.1 Hname eq_refl) as Hagain.
  rewrite (surjective_pairing (displayName _ _ _)), Hd, Hagain.
  unfold post_item. by rewrite Hev.
Qed.
End server.

(** ** Witnesses *)

(** Alice replies to a post while one subscriber listens. *)
Definition heard : daemon := (alice_store, addSubscriber (newSubscriber 7) alice_fresh.2).
Definition reply_to : bytes := EventID_String (replicate 32 Byte.x05).

Lemma push_matches_feed_witness :
  ∃ it se, subs (handlePost [Byte.x68] reply_to alice 5 heard).2.2 = [offer (FeedAdd [it]) (newSubscriber 7)] ∧
    fi_Text it = [Byte.x68] ∧
    (fi_Text <$> match (feedItemFor se (handlePost [Byte.x68] reply_to alice 5 heard).2.1
                    (handlePost [Byte.x68] reply_to alice 5 heard).2.2).1 with
               | Ok i => Some i | Err _ => None end) = Some (# "(reply) h").
Proof.
  destruct (handlePost [Byte.x68] reply_to alice 5 heard) as [[fields|e] w'] eqn:Hrun.
  2:{ assert (Hok : is_ok (handlePost [Byte.x68] reply_to alice 5 heard).1 = true)
        by (vm_compute; reflexivity). rewrite Hrun in Hok. discriminate Hok. }
  destruct (push_matches_feed [Byte.x68] reply_to alice 5 heard w' fields) as
    (parent & se & it & Hparse & Hsign & Hsubs & Htext & Hfeed); [vm_compute; reflexivity|exact Hrun|].
  exists it, se. cbn [snd fst]. split_and!; [exact Hsubs|exact Htext|].
  rewrite Hfeed.
  assert (Hpar : parent = replicate 32 Byte.x05).
  { assert (Hv : (if decide (reply_to = []) then Ok zero_hash else ParseEventID reply_to) =
              Ok (replicate 32 Byte.x05)) by (vm_compute; reflexivity).
    rewrite Hv in Hparse. injection Hparse as <-. reflexivity. }
  subst parent. vm_compute. reflexivity.
Defined.
