(* ===== verification/CliProps.v ===== *)
(** * Properties of the command line

    A command does the same with and without a daemon; the feed of both modes;
    what the files that the commands write are good for. *)

From Stdlib Require Import Strings.Byte.
From S2P Require Import Prelude Base32 Text TextFacts External Identity Event Log Bolt Store StoreFacts StoreFollow StoreFollowFacts StoreQuery StoreQueryFacts StoreProps Wire Session Crawler Bootstrap Daemon DaemonOps DaemonFacts DaemonNet DaemonNetFacts Lifecycle Net Server Cli CliFacts CliFeed CliFiles.
#[local] Open Scope go_scope.

(** ** Both ways *)

Section modes.
Context `{Bolt, Blake3, Ed25519, Aead, order : GoRange, Tailcat, YamlFile}.
Context `{!CborType Event, !CborType SignedEvent, !CborType EncryptedKey, !CborType Message,
  !CborType BackupData}.
Context (e : env).

(** The commands of the user that change the store. *)
Inductive user_cmd :=
  | CPost (text parentID : bytes)
  | CLike (postID : bytes)
  | CProfile (name : bytes)
  | CDetail (bio firstName lastName location : bytes)
  | CFollow (arg : bytes)
  | CUnfollow (arg : bytes)
  | CVerify (arg : bytes)
  | CUnverify (arg : bytes)
  | CPin (arg : bytes)
  | CUnpin (arg : bytes).

Definition run (c : user_cmd) (passphrase : bytes) : stM host unit :=
  match c with
  | CPost text parentID => postCmd e text passphrase parentID
  | CLike postID => likeCmd e postID passphrase
  | CProfile name => profileCmd e name passphrase
  | CDetail bio first last loc => detailCmd e bio first last loc passphrase
  | CFollow arg => followCmd e arg passphrase
  | CUnfollow arg => unfollowCmd e arg passphrase
  | CVerify arg => zensVerifyCmd e arg
  | CUnverify arg => zensUnverifyCmd e arg
  | CPin arg => zensPinCmd e arg
  | CUnpin arg => zensUnpinCmd e arg
  end.

(** What a command needs to do the same both ways: a text to post, an
    identity to follow at which no zen was seen. *)
Definition local (c : user_cmd) (d : dstate) : Prop :=
  match c with
  | CPost text _ => text ≠ []
  | CFollow arg => ∃ target, ResolvePubkey arg = Ok target ∧
      tokenForIdentity (IdentityFromPubkey target) d = None
  | _ => True
  end.

(** What the daemon does besides. *)
Definition besides (c : user_cmd) : store → store :=
  match c with CUnfollow arg => unbind arg | _ => id end.

(** [profile] and [detail] print "ok" or an ID. *)
Definition prints_the_same (c : user_cmd) : bool :=
  match c with CProfile _ | CDetail _ _ _ _ => false | _ => true end.

Lemma mark_host_agrees call op word arg sv s h :
  (∀ id s d, ParseIdentity arg = Ok id → agrees (λ _, id) Datatypes.id ((call id (s, d)).1, (call id (s, d)).2.1) (op id s)) →
  offline_at e s h →
  host_agrees true id id (mark_cmd e call op word arg (set_server (Some sv) h)) (mark_cmd e call op word arg h).
Proof.
  intros Hag Hoff. unfold mark_cmd, wrapM, lift, mbind, stM_bind.
  destruct (ParseIdentity arg) as [id|er] eqn:Hid; [|by destruct er].
  cbn [wrap]. apply (online_or_agrees e true (λ _ : unit, id) Datatypes.id _ _ (with_store e (op id)) (λ _, Println (word ++ id)) sv s h).
  - apply (rpc_agrees e _ _ (λ _, call id) (op id) sv s h); [by apply Hag|done].
  - intros []. exists [word ++ id], [word ++ id]. split_and!; [apply Println_say..|done].
  - done.
Qed.

(** C12: A command of the user does the same whether a daemon serves it or it
    opens the database itself, when a passphrase is given, a post has a text,
    what is followed parses as an identity or a key at which the daemon knows
    no zen, and the database is writable and held by no one else: it succeeds in
    both cases or in neither, leaves the same store, but for the token that the
    daemon unbinds on an unfollow, and prints the same, but for [profile] and
    [detail]. *)
Theorem cli_modes_agree (c : user_cmd) (passphrase : bytes) (sv : server) (s : store) (h : host)
    (Hp : passphrase ≠ []) (Hoff : offline_at e s h) (Hc : local c (sv_mem sv)) :
  let on := run c passphrase (set_server (Some sv) h) in
  let off := run c passphrase h in
  is_ok on.1 = is_ok off.1 ∧
  h_store on.2 = (if is_ok off.1 then besides c <$> h_store off.2 else h_store off.2) ∧
  (prints_the_same c = true → h_out on.2 = h_out off.2).
Proof.
  cut (host_agrees (prints_the_same c) id (besides c) (run c passphrase (set_server (Some sv) h)) (run c passphrase h)).
  { intros (Hs & Ho & Hres). cbv zeta. split_and!; [|exact Hs|exact Ho].
    by destruct (run c passphrase (set_server _ h)).1, (run c passphrase h).1. }
  assert (Hone : ∀ l : bytes, (∃ ls ls', (∀ h, Println l h = (Ok tt, say ls h)) ∧
     (∀ h, Println l h = (Ok tt, say ls' h)) ∧ (true = true → ls = ls'))).
  { intros l. exists [l], [l]. split_and!; [apply Println_say..|done]. }
  destruct c as [text parentID|postID|name|bio first last loc|arg|arg|arg|arg|arg|arg];
    cbn [run prints_the_same besides local] in *.
  - apply (online_or_agrees e true EventID_String id _ _ _ _ sv s); [|by intros a; apply Hone|done].
    apply call_sign_agrees with (s := s); [done|by destruct text|intros; apply post_agrees|done].
  - apply (online_or_agrees e true EventID_String id _ _ _ _ sv s); [|by intros a; apply Hone|done].
    destruct postID as [|c postID].
    { (* refused by the daemon, unparsable offline *)
      assert (host_agrees true EventID_String id
        (call_sign e (SLike []) passphrase (set_server (Some sv) h))
        (offline_sign e passphrase (like_offline e []) h)); [|done].
      unfold call_sign, offline_sign. rewrite decide_False by done.
      apply rpc_agrees with (s := s); [|done]. unfold read, mbind, stM_bind. cbn [rpc_sign missing].
      destruct (loadKey passphrase s); [|done]. by vm_compute. }
    apply call_sign_agrees with (s := s); [done|done|intros; apply like_agrees|done].
  - unfold profileCmd. case_decide as Hn; [done|].
    apply (online_or_agrees e false (λ _, # "ok") id _ _ _ _ sv s); [| |done].
    + apply call_sign_agrees with (s := s); [done|by destruct name|intros; apply profile_agrees|done].
    + intros id. do 2 eexists. split_and!; [apply Println_say..|done].
  - unfold detailCmd. case_decide as Hn; [done|].
    apply (online_or_agrees e false (λ _, # "ok") id _ _ _ _ sv s); [| |done].
    + apply call_sign_agrees with (s := s); [done| |intros; apply detail_agrees|done].
      destruct bio, first, last, loc; try done. by destruct Hn.
    + intros id. do 2 eexists. split_and!; [apply Println_say|apply Printlns_say|done].
  - destruct Hc as (target & Hr & Ht).
    apply (online_or_agrees e true id id _ _ _ _ sv s); [|by intros a; apply Hone|done].
    apply call_sign_agrees with (s := s); [done|by destruct arg| |done].
    intros kp d Hz. apply (follow_agrees e arg target); [done|]. unfold tokenForIdentity.
    by rewrite Hz.
  - apply (online_or_agrees e true id (unbind arg) _ _ _ _ sv s); [|by intros a; apply Hone|done].
    destruct arg as [|c arg].
    { unfold call_sign, offline_sign. rewrite decide_False by done.
      apply rpc_agrees with (s := s); [|done]. unfold read, mbind, stM_bind. cbn [rpc_sign missing].
      destruct (loadKey passphrase s); [|done]. by vm_compute. }
    apply call_sign_agrees with (s := s); [done|done|intros; apply unfollow_agrees|done].
  - apply mark_host_agrees with (s := s); [|done]. intros. by apply (mark_agrees _ arg).
  - apply mark_host_agrees with (s := s); [|done]. intros. by apply (mark_agrees _ arg).
  - apply mark_host_agrees with (s := s); [|done]. intros. by apply (mark_agrees _ arg).
  - apply mark_host_agrees with (s := s); [|done]. intros. by apply (mark_agrees _ arg).
Qed.
End modes.

(** ** The feed *)

Section feed.
Context `{BoltLaws, Blake3, !Blake3Laws, Ed25519, Aead, order : GoRange, !GoRangeLaws, Tailcat, YamlFile}.
Context `{!CborType Event, !CborType SignedEvent, !CborType EncryptedKey, !CborType Message,
  !CborType BackupData}.
Context (e : env).

(** The posts of the timeline of [s], newest first. *)
Definition timeline_posts (s : store) : list SignedEvent :=
  Posts (timeline s (IdentityFromPubkey <$> range_set (own_follows s))).

(** C21: The feed of both modes, on a well-formed store in which every post of
    the timeline has its payload and there are fewer than 2^31 of them, with the
    database held by no one else and the daemon's feed cache empty or equal to
    the timeline ([unfollow_keeps_feed] is a case where it is not). Asked of the daemon, [feed] ends, however many
    pages there are, and prints one line per post, in the order of the
    timeline: the first [limit] of the posts, or of the user's own with
    [--mine]; the store is untouched. Read from the store it prints the lines
    of the first [limit] posts, and with [--mine] those of them that are the
    user's: the limit is taken first, so the two modes show the same posts
    unless both flags are given. *)
Theorem feed_modes (limit : Z) (mine : bool) (fuel : nat) (sv : server) (s : store) (h : host)
    (Hoff : offline_at e s h) (Hok : all_ok s) (Hfresh : fresh (s, sv_mem sv))
    (Hhas : Forall has_post (timeline_posts s))
    (Hlen : (Z.of_nat (length (timeline_posts s)) < 2 ^ 31)%Z)
    (Hfuel : length (timeline_posts s) < 200 * fuel) :
  let posts := timeline_posts s in
  (∃ items h', feedCmd e fuel limit mine false (set_server (Some sv) h) = (Ok tt, h') ∧
     h_store h' = Some s ∧ h_out h' = h_out (say (item_line <$> items) h) ∧
     item_key <$> items = post_key <$> capped limit (mine_only s mine posts)) ∧
  feedCmd e fuel limit mine false h =
    (Ok tt, say ((λ p, default [] (offline_line s (timeline s (IdentityFromPubkey <$> range_set (own_follows s))) p
                                     <$> e_Post (se_Event p))) <$>
                 mine_only s mine (capped limit posts)) h) ∧
  (mine = false ∨ (limit ≤ 0)%Z →
     capped limit (mine_only s mine posts) = mine_only s mine (capped limit posts)).
Proof.
  intros posts. pose proof Hoff as (Hdb & Hw & Hsv & Hs).
  set (all := timeline s (IdentityFromPubkey <$> range_set (own_follows s))).
  assert (served_by e sv s (set_server (Some sv) h)) as Hserved by done.
  split_and!.
  - pose proof (cachedPosts_posts (s, sv_mem sv) all Hfresh (AllPostsOneTx_ok s Hok)) as Hc.
    destruct (feedOnline_from e limit mine s posts all fuel 0 sv (set_server (Some sv) h)
      (AllPostsOneTx_ok s Hok) Hhas Hlen Hserved Hc) as (items & h' & Hrun & Hst & Hout & Hkeys).
    { lia. }
    { cbn [Nat.add]. unfold mine_only. destruct mine; [|done].
      eapply Nat.le_lt_trans; [apply length_filter|exact Hfuel]. }
    { lia. }
    exists items, h'. split_and!; [|done|done|].
    + unfold feedCmd, dialDaemon, daemonSocketPath. rewrite decide_False by done. apply Hrun.
    + rewrite Hkeys. f_equal. unfold rest, capped. cbn [Nat.mul drop].
      by replace (limit - 200 * Z.of_nat 0)%Z with limit by lia.
  - unfold feedCmd, dialDaemon, daemonSocketPath. rewrite decide_False, Hsv by done. cbn beta iota.
    unfold feedOffline.
    unfold mbind, stM_bind. rewrite (with_store_at e _ s h) by done.
    unfold get, read, wrapM. rewrite AllPosts_ok by done. cbn.
    replace (set_store (Some s) h) with h by (destruct h; cbn in *; by subst).
    fold all. change (Posts all) with posts.
    replace (if (0 <? limit)%Z && (limit <? Z.of_nat (length posts))%Z
             then take (Z.to_nat limit) posts else posts) with (capped limit posts).
    2:{ unfold capped. destruct (Z.ltb_spec 0 limit); [|done]. cbn [andb].
        destruct (Z.ltb_spec limit (Z.of_nat (length posts))); [done|]. apply take_ge. lia. }
    apply print_posts_say. unfold capped. destruct (0 <? limit)%Z; [by apply Forall_take|done].
  - intros [-> | Hl]; [done|]. unfold capped. by destruct (Z.ltb_spec 0 limit); [lia|].
Qed.
End feed.

(** ** Files *)

Section files.
Context `{BoltLaws, Blake3, !Blake3Laws, Ed25519, !Ed25519Laws, Aead, !AeadLaws, order : GoRange, !GoRangeLaws}.
Context `{CborText, !CborTextLaws, Tailcat, yaml : Bootstrap.Yaml, !YamlFile}.
Context `{!CborType Event, !CborType SignedEvent, !CborLaws Event, !CborLaws SignedEvent}.
Context `{!CborType EncryptedKey, !CborLaws EncryptedKey, !CborType BackupData, !CborLaws BackupData}.
Context `{!ForEachDelete} (e e' : env).

(** C35: A key moves in its file. What [key export] writes can be read by
    [key import] on any host: with the passphrase the other store then holds
    the same encrypted key, which unlocks to the same keypair, and its
    identity. With a wrong passphrase the command fails, but the key of that
    store has been replaced and its identity record is gone. *)
Theorem key_file (path passphrase wrong b : bytes) (ek : EncryptedKey) (kp : KeyPair) (s s0 : store)
    (h h0 : host) (er : error)
    (Hoff : offline_at e s h) (Hpath : path ≠ []) (Hw : can_write e path = true)
    (Hek : Store_EncryptedKey s = Ok ek) (Hkp : loadKey passphrase s = Ok kp)
    (Hb : CanonicalEncode ek = Ok b) (Hv : bk_value_ok b = true)
    (Hp : passphrase ≠ []) (Hwp : wrong ≠ []) (Hwrong : Decrypt ek wrong = Err er)
    (Hoff0 : offline_at e' s0 h0) (Hfile : h_files h0 !! path = Some b) :
  (keyExportCmd e path h).1 = Ok tt ∧ h_files (keyExportCmd e path h).2 !! path = Some b ∧
  (∃ s', keyImportCmd e' path passphrase h0 =
      (Ok tt, say [ # "imported key for " ++ Identity kp] (set_store (Some s') h0)) ∧
    Store_EncryptedKey s' = Ok ek ∧ Store_Identity s' = Some (Identity kp) ∧
    loadKey passphrase s' = Ok kp) ∧
  (∃ s', is_ok (keyImportCmd e' path wrong h0).1 = false ∧
    h_store (keyImportCmd e' path wrong h0).2 = Some s' ∧
    Store_EncryptedKey s' = Ok ek ∧ Store_Identity s' = None).
Proof.
  pose proof (Store_EncryptedKey_wf _ _ Hek) as Hwf.
  assert (Hexp : keyExportCmd e path h =
    (Ok tt, say [ # "exported encrypted key to " ++ path] (set_files (<[path := b]> (h_files h)) h))).
  { unfold keyExportCmd, mbind, stM_bind. change (wrapM "read key" (read Store_EncryptedKey))
      with (read (λ s, wrap "read key" (Store_EncryptedKey s))).
    rewrite (with_store_read e _ s) by done. rewrite Hek. cbn [wrap].
    unfold wrapM, lift. rewrite Hb. cbn [wrap]. unfold path_or. rewrite decide_False by done.
    unfold WriteFile. rewrite Hw. cbn [wrap]. apply Println_say. }
  rewrite Hexp. split_and!; [done|apply lookup_insert_eq|..].
  - assert ((priv ← Decrypt ek passphrase; KeyPairFromBytes priv) = Ok kp) as Hdk.
    { unfold loadKey in Hkp. rewrite Hek in Hkp. cbn in Hkp. by destruct (Decrypt ek passphrase) as [|[]]. }
    destruct (import_key_run ek b passphrase kp s0 Hwf Hb Hv Hdk) as (s' & Hrun & Hres).
    exists s'. split; [|exact Hres]. unfold keyImportCmd. rewrite decide_False by done.
    unfold mbind, stM_bind. rewrite (read_input_at e' path b s0), (with_store_at e' _ s0), Hrun by done.
    apply Println_say.
  - destruct (import_key_wrong ek b wrong er s0 Hwf Hb Hv Hwrong) as (s' & Hrun & Hbad & Hres).
    exists s'. unfold keyImportCmd. rewrite decide_False by done.
    unfold mbind, stM_bind. rewrite (read_input_at e' path b s0), (with_store_at e' _ s0) by done.
    destruct (import_key b wrong s0) as [[id|er'] s1]; [done|]. cbn in *. by subst.
Qed.

(** C20: A backup moves an account, but for its key. What [backup export]
    writes, [backup import] with the same passphrase restores on a fresh store:
    the three own logs event for event and in the same order, the follow set,
    the followed, the pinned and the verified identities, and the transport
    key, so the node keeps its address. The key in the file and the identity
    are not restored: the store keeps what it had. *)
Theorem backup_file (path passphrase tk : bytes) (s s0 : store) (h : host)
    (Hoff : offline_at e s h) (Hpath : path ≠ []) (Hw : can_write e path = true)
    (Hs : logs_ok s) (Hc : cache_ok s) (Hpins : pins_ok s) (Hm : marks_text s)
    (Hek : is_ok (Store_EncryptedKey s) = true)
    (Htk : TransportKey s = Some tk) (Hv : bk_value_ok tk = true)
    (Hp : passphrase ≠ []) (Hn : length (gcm_nonce e) = NonceSize)
    (Hfresh : StoreFollowFacts.fresh s0) :
  ∃ b h1, backupExportCmd e path passphrase h = (Ok tt, h1) ∧ h_files h1 !! path = Some b ∧
    ∀ h0, offline_at e' s0 h0 → h_files h0 !! path = Some b →
    ∃ s', backupImportCmd e' path passphrase h0 =
        (Ok tt, say [ # "imported backup"] (set_store (Some s') h0)) ∧
      (∀ n, n ∈ own_logs → OwnEvents n s' = OwnEvents n s) ∧ own_follows s' = own_follows s ∧
      (∀ id, IsFollowed id s' = IsFollowed id s) ∧ (∀ id, IsPinned id s' = IsPinned id s) ∧
      (∀ id, IsVerified id s' = IsVerified id s) ∧ TransportKey s' = Some tk ∧
      Store_EncryptedKey s' = Store_EncryptedKey s0 ∧ Store_Identity s' = Store_Identity s0.
Proof.
  apply is_ok_true in Hek as [ek Hek].
  destruct (backup_roundtrip ek s s0 Hs Hc Hpins Hek) as (bd & s1 & Hexp & Himp & Hlogs & Hfol & Hf & Hpi & Hver);
    [intros k Hk; apply Hm; by (left + right)..|exact Hfresh|].
  destruct (ExportBackup_wf s bd Hs Hpins Hm Hexp) as [Hwf _].
  destruct (Encrypt_Ok DefaultKeyEncryption (salt e) (gcm_nonce e) tk passphrase Hp) as (sealed & Hseal & _ & Hopen);
    [done|done|done|].
  set (bd' := set_bd_TransportKey sealed bd).
  assert (wf bd' = true) as Hwf'.
  { revert Hwf. unfold wf, BackupData_wf, bd'. cbn. rewrite !andb_true_iff. intros (? & _). split; [done|].
    by eapply sealed_wf. }
  destruct (CanonicalEncode_ok bd' Hwf') as (b & Hb & _).
  exists b, (say [ # "exported backup to " ++ path] (set_files (<[path := b]> (h_files h)) h)).
  split_and!; [|apply lookup_insert_eq|].
  { unfold backupExportCmd, mbind, stM_bind. rewrite (with_store_read e _ s) by done.
    unfold backup_data. rewrite Hexp, Htk. cbn [wrap mbind result_bind]. rewrite decide_False by done.
    rewrite Hseal. cbn [wrap mbind result_bind]. fold bd'. unfold wrapM, lift. rewrite Hb. cbn [wrap].
    unfold path_or, WriteFile. rewrite decide_False, Hw by done. cbn [wrap]. apply Println_say. }
  intros h0 Hoff0 Hfile. destruct (PutTransportKey_ok tk s1 Hv) as (s' & Hput & Hget).
  assert (∃ t, s' = set_transport t s1) as [t ->].
  { revert Hput. unfold PutTransportKey, Update, put_in. destruct (bk_Put _ _ _); [|done].
    intros [= <-]. by eexists. }
  exists (set_transport t s1). split.
  - unfold backupImportCmd, mbind, stM_bind.
    rewrite (read_input_at e' path b s0), (with_store_at e' _ s0) by done.
    unfold restore_backup, wrapM, lift, mbind, stM_bind. rewrite (CanonicalDecode_Encode bd' b) by done.
    cbn [wrap]. change (ImportBackup bd' s0) with (ImportBackup bd s0). rewrite Himp. cbn [wrap bd' set_bd_TransportKey bd_TransportKey].
    rewrite decide_False by done. rewrite Hopen. cbn [wrap]. rewrite Hput. apply Println_say.
  - destruct (ImportBackup_keeps bd s0) as (Hk & Hi & _). rewrite Himp in Hk, Hi. cbn [snd] in Hk, Hi.
    split_and!; try done.
    + unfold Store_EncryptedKey. cbn. by rewrite Hk.
    + unfold Store_Identity. cbn. by rewrite Hi.
Qed.
End files.

(** ** Bootstrap *)

Section bootstrap.
Context `{Bolt, Ed25519, !Ed25519Laws, yaml : Bootstrap.Yaml, !YamlFile, !YamlFileLaws}.
Context (e : env).

(** C36: The bootstrap commands fit together. A private key that [keygen]
    writes signs a bootstrap file with [sign], which keeps everything but the
    signature; with the line that [keygen] printed saved as the key file,
    [verify] and [daemon --bootstrap-key] read the public key back, base64 and
    newline included, and [verify] accepts the file. *)
Theorem bootstrap_pipeline (keyOut pubFile file content c out : bytes) (bf signed : Bootstrap.File)
    (h : host)
    (Hseed : length (seed e) = 32) (Hkey : keyOut ≠ []) (Hpub : pubFile ≠ [])
    (Hw : can_write e keyOut = true) (Hwf : can_write e file = true)
    (Hne : keyOut ≠ file) (Hnp : pubFile ≠ file) (Hnk : pubFile ≠ keyOut)
    (Hfile : h_files h !! file = Some content) (Hbf : Bootstrap.yaml_Unmarshal content = Ok bf)
    (Hc : Bootstrap.marshalContent bf = Ok c)
    (Hsigned : Bootstrap.Sign (kp_Private (NewKeyPair (seed e))) bf = Ok signed)
    (Hout : yaml_MarshalFile signed = Ok out) :
  let line := b64_encode (kp_Public (NewKeyPair (seed e))) in
  ∃ h1, bootstrapKeygenCmd e keyOut [] h = (Ok tt, say [line] h1) ∧
    h1 = set_files (<[keyOut := kp_Private (NewKeyPair (seed e))]> (h_files h)) h ∧
    let h2 := set_files (<[pubFile := line ++ newline]> (h_files h1)) h1 in
    ∃ h3, bootstrapSignCmd e file keyOut h2 = (Ok tt, say [ # "signed " ++ file] h3) ∧
      h3 = set_files (<[file := out]> (h_files h2)) h2 ∧
      Bootstrap.content signed = Bootstrap.content bf ∧
      decodeBootstrapKey pubFile h3 = (Ok (Some (kp_Public (NewKeyPair (seed e)))), h3) ∧
      bootstrapVerifyCmd file pubFile h3 =
        (Ok tt, say [ # "version: " ++ show_Z (Bootstrap.Version bf);
                      count_line (# "seed_relays: ") (Bootstrap.SeedRelays bf);
                      count_line (# "derp_relays: ") (Bootstrap.DERPRelays bf);
                      count_line (# "seed_zens: ") (Bootstrap.SeedZens bf);
                      count_line (# "crawl_seeds: ") (Bootstrap.CrawlSeeds bf);
                      # "signature: verified"] h3).
Proof.
  set (kp := NewKeyPair (seed e)) in *. intros line.
  assert (valid_key kp) as Hvk by by exists (seed e).
  pose proof (valid_key_private kp Hvk) as Hpriv. pose proof (valid_key_public kp Hvk) as Hpl.
  eexists. split; [|split; [reflexivity|]].
  { unfold bootstrapKeygenCmd. rewrite decide_False, decide_False by (done || by intros []).
    unfold wrapM, WriteFile, mbind, stM_bind. rewrite Hw. cbn [wrap]. apply Println_say. }
  intros h2. set (h3 := set_files (<[file := out]> (h_files h2)) h2).
  destruct (Sign_accepted kp bf c signed Hvk Hc Hsigned) as (Hcont & Hnone & Hver).
  assert (Hdec : ∀ ls, decodeBootstrapKey pubFile (say ls h3) = (Ok (Some (kp_Public kp)), say ls h3)).
  { intros ls. apply decode_saved_key; [done|done|]. cbn. by rewrite lookup_insert_ne, lookup_insert_eq by done. }
  exists h3. split_and!; [|done|done|by rewrite <-(say_nil h3)|].
  - unfold bootstrapSignCmd, load_file, read_private, wrapM, lift, mbind, stM_bind.
    rewrite (ReadFile_at file content h2) by (cbn; by rewrite !lookup_insert_ne by done).
    cbn [wrap]. unfold Bootstrap.Parse. rewrite Hbf. cbn [wrap].
    rewrite (ReadFile_at keyOut (kp_Private kp) h2) by (cbn; by rewrite lookup_insert_ne, lookup_insert_eq by done).
    cbn [wrap]. rewrite Hpriv, Nat.eqb_refl. cbn [negb mret stM_ret]. rewrite Hsigned, Hout.
    unfold WriteFile. rewrite Hwf. apply Println_say.
  - unfold bootstrapVerifyCmd, load_file, wrapM, lift, mbind, stM_bind.
    rewrite (ReadFile_at file out h3) by apply lookup_insert_eq.
    cbn [wrap]. unfold Bootstrap.Parse. rewrite (yaml_file_roundtrip _ _ Hout). cbn [wrap].
    rewrite Printlns_say, decide_False, decide_False by done. rewrite Hdec. cbn [default from_option].
    change (Datatypes.id (kp_Public kp)) with (kp_Public kp). rewrite Hver. cbn [wrap].
    rewrite Println_say, say_say. unfold Bootstrap.content in Hcont. injection Hcont as -> -> -> -> ->. done.
Qed.
End bootstrap.

(** ** The address *)

Section address.
Context `{BoltLaws, Ed25519, Blake3, Aead, order : GoRange, TailcatLaws, !CborType Event, !CborType SignedEvent}.

(** A node keeps its address. The address of the listener a node first
    starts is that of the key it stores; whenever the daemon is started again,
    whatever is drawn at random, it either fails to start its transport or
    listens at the same address, and writes nothing; and [whoami] without a
    daemon derives the same address, as stable, from the stored key. *)
Theorem address_stable (random kb addr : bytes) (w : daemon) (id : bytes)
    (Hnone : TransportKey w.1 = None) (Hid : Store_Identity w.1 = Some id)
    (Hl : listen_with random None = Ok (addr, Ok kb)) (Hv : bk_value_ok kb = true)
    (Hne : addr ≠ []) :
  ∃ s, startTransport (listen_with random) false w = (Ok tt, (s, set_tcAddr (Some addr) w.2)) ∧
    (∀ random' d, (startTransport (listen_with random') false (s, d)).2.1 = s ∧
       (is_ok (startTransport (listen_with random') false (s, d)).1 = true →
        startTransport (listen_with random') false (s, d) = (Ok tt, (s, set_tcAddr (Some addr) d)))) ∧
    ∃ r, whoami_offline s = Ok r ∧ wh_Identity r = id ∧ wh_Token r = addr ∧ wh_Stable r = true.
Proof.
  destruct (PutTransportKey_ok kb w.1 Hv) as (s & Hput & Hget). exists s.
  destruct (listen_fresh random addr kb Hl) as (Haddr & Hkb & Hun).
  assert (AddrFromKeyBytes kb = Ok addr) as Hderived.
  { unfold AddrFromKeyBytes. rewrite decide_False, Hun by done. cbn. by subst. }
  split_and!.
  - unfold startTransport. by rewrite Hnone, Hl, Hput.
  - intros random' d. unfold startTransport. cbn [fst]. rewrite Hget.
    destruct (listen_with random' (Some kb)) as [[a r]|er] eqn:Hr; [|done].
    apply listen_stored in Hr; [|done]. rewrite Hderived in Hr. by injection Hr as <-.
  - assert (Store_Identity s = Some id) as Hid'.
    { revert Hput. unfold PutTransportKey, Update, put_in. destruct (bk_Put _ _ _); [|done].
      by intros [= <-]. }
    unfold whoami_offline. rewrite Hid', Hget, Hderived. eexists. split_and!; [done..|].
    by apply bool_decide_true.
Qed.
End address.

(** ** Witnesses *)

From S2P Require Import CliScenario.

Lemma at_home s : offline_at alice_env s (host_of s).
Proof. split_and!; [vm_compute; discriminate|reflexivity..]. Qed.

(** Alice posts with her daemon running, and without. *)
Lemma cli_modes_agree_witness :
  let off := run alice_env (CPost (# "hi") []) pass (host_of inited) in
  let on := run alice_env (CPost (# "hi") []) pass (set_server (Some server_New) (host_of inited)) in
  is_ok off.1 = true ∧ h_store on.2 = h_store off.2 ∧ h_out on.2 = h_out off.2 ∧ h_out off.2 ≠ [].
Proof.
  cbv zeta.
  assert (is_ok (run alice_env (CPost (# "hi") []) pass (host_of inited)).1 = true) as Hok
    by (vm_compute; reflexivity).
  destruct (cli_modes_agree alice_env (CPost (# "hi") []) pass server_New inited (host_of inited))
    as (_ & Hs & Ho); [vm_compute; discriminate|apply at_home|vm_compute; discriminate|].
  rewrite Hok in Hs. split; [exact Hok|]. split; [|split; [exact (Ho eq_refl)|vm_compute; discriminate]].
  exact (eq_trans Hs (option_fmap_id _)).
Defined.

(** A store with one post of alice's, and its daemon. *)
Definition one_post : store := StoreProps.alice_store.

Lemma one_post_ok : all_ok one_post.
Proof.
  destruct alice_store_ok as (own & Heq & Hlogs). split; [exact (proj1 Hlogs)|].
  unfold one_post. rewrite Heq. exact empty_crawl_ok.
Qed.

Lemma feed_modes_witness :
  ∃ items h', feedCmd alice_env 1 0 false false (set_server (Some server_New) (host_of one_post)) = (Ok tt, h') ∧
    item_key <$> items = [post_key post1].
Proof.
  assert (timeline_posts one_post = [post1]) as Hp by (vm_compute; reflexivity).
  destruct (feed_modes alice_env 0 false 1 server_New one_post (host_of one_post)) as [(items & h' & Hrun & _ & _ & Hk) _].
  - apply at_home.
  - exact one_post_ok.
  - apply fresh_empty. reflexivity.
  - rewrite Hp. constructor; [eexists; reflexivity|constructor].
  - rewrite Hp. reflexivity.
  - rewrite Hp. cbn. lia.
  - exists items, h'. split; [exact Hrun|]. rewrite Hk, Hp. reflexivity.
Defined.

(** Alice's key on a second machine. *)
Definition key_bytes : bytes :=
  match Store_EncryptedKey inited ≫= CanonicalEncode with Ok b => b | Err _ => [] end.
Definition second : host := set_files {[ # "k" := key_bytes]} (host_of empty_store).

Lemma key_file_witness :
  ∃ s', keyImportCmd alice_env (# "k") pass second =
      (Ok tt, say [ # "imported key for " ++ Identity alice] (set_store (Some s') second)) ∧
    Store_Identity s' = Some (Identity alice).
Proof.
  destruct (Store_EncryptedKey inited) as [ek|er] eqn:Hek.
  2:{ assert (Hok : is_ok (Store_EncryptedKey inited) = true) by (vm_compute; reflexivity).
      rewrite Hek in Hok. discriminate Hok. }
  assert (CanonicalEncode ek = Ok key_bytes) as Hb by (unfold key_bytes; rewrite Hek; reflexivity).
  assert (Decrypt ek (# "x") = Err (E "decrypt (wrong passphrase?)")) as Hwrong.
  { assert ((ek ← Store_EncryptedKey inited; Decrypt ek (# "x")) = Err (E "decrypt (wrong passphrase?)")) as Hc
      by (vm_compute; reflexivity). rewrite Hek in Hc. exact Hc. }
  destruct (key_file alice_env alice_env (# "k") pass (# "x") key_bytes ek alice inited empty_store
    (host_of inited) second (E "decrypt (wrong passphrase?)")) as (_ & _ & (s' & Hrun & _ & Hid & _) & _).
  - apply at_home.
  - vm_compute. discriminate.
  - reflexivity.
  - exact Hek.
  - exact init_key.
  - exact Hb.
  - reflexivity.
  - vm_compute. discriminate.
  - vm_compute. discriminate.
  - exact Hwrong.
  - split_and!; [vm_compute; discriminate|reflexivity..].
  - apply lookup_insert_eq.
  - exists s'. split; [exact Hrun|exact Hid].
Defined.

(** The one post, a verified bob, a transport key. *)
Definition packed : store :=
  set_transport (bk_set transportName [Byte.x6b] (bucketTransport one_post)) one_post.

Lemma packed_marks : marks_text packed.
Proof.
  intros k Hk. assert (k = Identity bob) as ->; [|vm_compute; split; reflexivity].
  destruct alice_store_ok as (own & Heq & _). unfold packed, one_post in Hk. rewrite Heq in Hk.
  destruct (decide (Identity bob = k)) as [He|Hne]; [exact (eq_sym He)|].
  destruct Hk as [[v Hv]|[v Hv]].
  - change (bk_get (bk_set (Identity bob) [Byte.x01] (bucketVerified empty_store)) k = Some v) in Hv.
    rewrite (bk_get_set_ne (Identity bob) k [Byte.x01] (bucketVerified empty_store) Hne) in Hv.
    vm_compute in Hv. discriminate Hv.
  - vm_compute in Hv. discriminate Hv.
Qed.

Lemma backup_file_witness :
  ∃ b s', (backupExportCmd alice_env (# "b") pass (host_of packed)).1 = Ok tt ∧
    backupImportCmd alice_env (# "b") pass (set_files {[ # "b" := b]} (host_of empty_store)) =
      (Ok tt, say [ # "imported backup"] (set_store (Some s') (set_files {[ # "b" := b]} (host_of empty_store)))) ∧
    TransportKey s' = Some [Byte.x6b] ∧ IsVerified (Identity bob) s' = true ∧ Store_Identity s' = None.
Proof.
  destruct alice_store_ok as (own & Heq & Hlogs).
  destruct (backup_file alice_env alice_env (# "b") pass [Byte.x6b] packed empty_store (host_of packed))
    as (b & h1 & Hexp & Hf & Himp).
  - apply at_home.
  - vm_compute. discriminate.
  - reflexivity.
  - exact Hlogs.
  - intros id. split.
    + vm_compute. discriminate.
    + intros (t & Ht & _). vm_compute in Ht. discriminate Ht.
  - intros id Hpin. vm_compute in Hpin. discriminate Hpin.
  - exact packed_marks.
  - vm_compute. reflexivity.
  - vm_compute. reflexivity.
  - reflexivity.
  - vm_compute. discriminate.
  - reflexivity.
  - split; intros n; reflexivity.
  - destruct (Himp (set_files {[ # "b" := b]} (host_of empty_store))) as (s' & Hrun & _ & _ & _ & _ & Hver & Htk & _ & Hid).
    + split_and!; [vm_compute; discriminate|reflexivity..].
    + apply lookup_insert_eq.
    + exists b, s'. split; [rewrite Hexp; reflexivity|]. split; [exact Hrun|]. split; [exact Htk|].
      split; [rewrite Hver; vm_compute; reflexivity|]. rewrite Hid. vm_compute. reflexivity.
Defined.

(** Alice's key signs the file of the bootstrap witness. *)
Definition boot_file : Bootstrap.File := Bootstrap.mkFile 1 [] [] [] [] [Identity bob].
Definition boot_text : bytes := match yaml_MarshalFile boot_file with Ok b => b | Err _ => [] end.
Definition boot_host : host := set_files {[ # "f" := boot_text]} (host_of empty_store).

Lemma bootstrap_pipeline_witness :
  ∃ h3, decodeBootstrapKey (# "p") h3 = (Ok (Some (kp_Public alice)), h3) ∧
    (bootstrapVerifyCmd (# "f") (# "p") h3).1 = Ok tt.
Proof.
  destruct (Bootstrap.Sign (kp_Private alice) boot_file) as [signed|er] eqn:Hs.
  2:{ assert (Hok : is_ok (Bootstrap.Sign (kp_Private alice) boot_file) = true) by (vm_compute; reflexivity).
      rewrite Hs in Hok. discriminate Hok. }
  destruct (yaml_MarshalFile signed) as [out|er] eqn:Ho; [|discriminate Ho].
  destruct (bootstrap_pipeline alice_env (# "k") (# "p") (# "f") boot_text (mjoin [Identity bob]) out
    boot_file signed boot_host) as (h1 & _ & _ & h3 & _ & _ & _ & Hdec & Hver);
    [reflexivity|vm_compute; discriminate|vm_compute; discriminate|reflexivity|reflexivity
    |vm_compute; discriminate|vm_compute; discriminate|vm_compute; discriminate
    |apply lookup_insert_eq|vm_compute; reflexivity|reflexivity|exact Hs|exact Ho|].
  exists h3. split; [exact Hdec|]. rewrite Hver. reflexivity.
Defined.

Lemma address_stable_witness :
  ∃ s r, whoami_offline s = Ok r ∧ wh_Token r = # "tc" ++ replicate 4 Byte.x09.
Proof.
  destruct (address_stable (replicate 4 Byte.x09) (# "{" ++ replicate 4 Byte.x09)
    (# "tc" ++ replicate 4 Byte.x09) (inited, daemon_New) (Identity alice))
    as (s & _ & _ & r & Hr & _ & Ht & _);
    [vm_compute; reflexivity|vm_compute; reflexivity|reflexivity|reflexivity|vm_compute; discriminate|].
  exists s, r. split; [exact Hr|exact Ht].
Defined.
