(* ===== verification/RaceProps.v ===== *)
(** * Properties of interleavings

    Posts and subscribers, names and profiles, writers of one log. *)

From S2P Require Import Prelude Base32 External Identity Event Log Bolt Store StoreFacts StoreFollow StoreFollowFacts StoreQuery StoreQueryFacts Wire Crawler Daemon DaemonOps DaemonFacts FeedRace AppendRace FollowRace Scenario.
#[local] Open Scope go_scope.

Section race.
Context `{BoltLaws, Blake3, !Blake3Laws, Ed25519, !Ed25519Laws, order : GoRange, !GoRangeLaws}.
Context `{CborText, !CborTextLaws, !CborType Event, !CborType SignedEvent, !CborLaws Event, !CborLaws SignedEvent}.

(** C13: No post falls in the gap. However posting, subscribing and whatever
    else adds to the timeline, drops the feed cache or pushes events
    interleave, access by access: once a post has been pushed and a subscriber
    has its snapshot, the post, as long as the store shows it, is among the
    posts the snapshot was paged from, or its push is on the way to the
    subscriber, or that was dropped for not keeping up. And whenever a cache is
    there, it has every post whose writer has dropped the cache. *)
Theorem subscribe_no_gap (y y' : sys) (Hstart : starts y) (Hrun : rtc sys_step y y') :
  (∀ i j posts got se id, y_threads y' !! i = Some (SubOn posts got) →
     y_threads y' !! j = Some (PostDone se id) → se ∈ Posts (held_timeline (y_store y')) →
     se ∈ posts ∨ reached (y_mem y') i got id) ∧
  (∀ j t posts se id, feedCache (y_mem y') = Some posts → y_threads y' !! j = Some t →
     settled_of t = Some (se, id) → se ∈ Posts (held_timeline (y_store y')) → se ∈ posts).
Proof.
  destruct (inv_reachable y y' Hstart Hrun) as [_ _ Hca _ Hon]. split.
  - intros i j posts got se id Hi Hj Hshown.
    destruct (Hon i posts got Hi) as (all0 & -> & Hall & Hold).
    destruct (Hold j _ se id Hj eq_refl) as [Hin|?]; [left|by right]. by eapply Posts_part.
  - intros j t posts se id Hc Hj Ht Hshown. destruct (Hca posts Hc) as (all0 & -> & Hall & Hold).
    eapply Posts_part; [done| |done]. by eapply Hold.
Qed.
End race.

(** A name can be cached stale: [displayName] misses and reads the store, a
    profile is written and the cache dropped, and only then the name read
    before is cached; from then on the daemon shows the old name. *)
Theorem name_race `{Bolt, Blake3, Ed25519, Aead, order : GoRange, !CborType Event, !CborType SignedEvent,
    !CborType EncryptedKey, !CborType Message}
    (id name : bytes) (kp : KeyPair) (now : Z) (w w' : daemon) (fields : list (bytes * bytes))
    (Hmiss : name_lock1 id w.2 = None)
    (Hrun : handleProfile name kp now w = (Ok fields, w')) :
  let d := name_lock2 id (display id w.1) w'.2 in
  name_lock1 id w'.2 = None ∧ displayName id w'.1 d = (display id w.1, d).
Proof.
  revert Hrun. unfold handleProfile, sign_append.
  destruct (SignAndAppend kp ProfileLog _ now w.1) as [[[se i]|er] s]; [|done]. intros [= _ <-].
  split; [done|]. unfold displayName, name_lock2. cbn. by rewrite lookup_insert_eq.
Qed.

(** ** Writers of one log *)

Section append.
Context `{BoltLaws, Blake3, !Blake3Laws, Ed25519, CborText}.
Context `{!CborType Event, !CborType SignedEvent, !CborLaws Event, !CborLaws SignedEvent}.
Context (kp : KeyPair).

(** C14: Concurrent writers lose nothing. However the writers of a log and the
    sessions that merge into it interleave between the transactions of
    [SignAndAppend]: what the log held stays, the log keeps at most one like
    per target, and a writer that was told the ID of its event finds that ID in
    the log, unless the event is a like and the log holds a like of the same
    target. Two writers that count the same log, though, sign the same sequence
    number, and of two likes of one target the second is told the ID of an
    event that is not in the log. *)
Theorem append_race (log : bytes) (s0 : store) (ws : list writer) (y : race)
    (Hlog : bk_key_ok log = true) (Hok : subs_ok (bucketOwn s0))
    (Hone : one_like (subview (bucketOwn s0) log)) (Hws : Forall asks ws)
    (Hrun : rtc (race_step kp log) (mkRace s0 ws) y) :
  let m := subview (bucketOwn (rc_store y)) log in
  subview (bucketOwn s0) log ⊆ m ∧ one_like m ∧
  (∀ i se id, rc_writers y !! i = Some (Answered (Ok (Some se, id))) →
     ID se = Ok id ∧ (is_Some (m !! id) ∨ ∃ p, like_of se = Some p ∧ has_like p m)) ∧
  (∀ ev ev' now now' se se',
     sign_next kp log ev now (rc_store y) = Ok se → sign_next kp log ev' now' (rc_store y) = Ok se' →
     e_Sequence (se_Event se) = e_Sequence (se_Event se') ∧
     ∀ p id id', storable se → storable se' → ID se = Ok id → ID se' = Ok id' → id ≠ id' →
       like_of se = Some p → like_of se' = Some p → m !! id = None → m !! id' = None →
       ∃ s1 s2, finish log se (rc_store y) = (Ok (Some se, id), s1) ∧
         finish log se' s1 = (Ok (Some se', id'), s2) ∧
         subview (bucketOwn s2) log !! id' = None).
Proof.
  destruct (race_reachable kp log Hlog s0 ws y Hok Hone Hws Hrun) as [Hoky Hkept Hl Hall].
  intros m. split_and!; [done|done| |].
  - intros i se id Hi. rewrite Forall_lookup in Hall. exact (Hall i _ Hi).
  - intros ev ev' now now' se se' Hp Hp'.
    split; [by rewrite (sign_next_sequence _ _ _ _ _ _ Hp), (sign_next_sequence _ _ _ _ _ _ Hp')|].
    intros p id id'. by apply second_like_lost.
Qed.
End append.

(** ** Follows *)

Section follow.
Context `{BoltLaws, Blake3, !Blake3Laws, Ed25519, !Ed25519Laws, GoRange, !GoRangeLaws}.
Context `{CborText, !CborTextLaws}.
Context `{!CborType Event, !CborType SignedEvent, !CborLaws Event, !CborLaws SignedEvent}.

(** C16: Follows at once, from a cache in step with the log, each call stamped
    later than everything the log then says about its target, a key of 32
    bytes, and signing events of fresh IDs. However [Follow], [Unfollow],
    [PinIdentity] and [UnpinIdentity] interleave between their transactions, when
    the calls are for different targets and all of them have ended, the cache of follows is in
    step with the signed log, and each call that succeeded has had its way in
    both. With a follow and an unfollow of one target it need not be: once both
    events are in the log, the call that writes the cache last decides it, and
    one of the two orders leaves the cache at odds with the log. *)
Theorem follow_race (kp : KeyPair) (s0 : store) (cs : list edge_call) (y : edges)
    (Hok : own_ok s0) (Hcache : cache_ok s0) (Hcs : Forall (wants s0) cs)
    (Hrun : rtc (edges_step kp) (mkEdges s0 cs) y) :
  (NoDup (target_of <$> cs) → (∀ c, c ∈ eg_calls y → ended c) →
     cache_ok (eg_store y) ∧
     ∀ add t, Cached add t ∈ eg_calls y →
       (t ∈ own_follows (eg_store y) ↔ add = true) ∧
       IsFollowed (IdentityFromPubkey t) (eg_store y) = add) ∧
  (∀ i j t, eg_calls y !! i = Some (Logged true t) → eg_calls y !! j = Some (Logged false t) →
     length t = 32 →
     ∃ y', rtc (edges_step kp) y y' ∧ eg_calls y' !! i = Some (Cached true t) ∧
       eg_calls y' !! j = Some (Cached false t) ∧ own_follows (eg_store y') = own_follows (eg_store y) ∧
       ¬ cache_ok (eg_store y')).
Proof.
  split.
  - intros Hnd Hend. pose proof (edges_reachable kp s0 cs y Hok Hnd Hcs Hrun) as Hy.
    split; [by eapply edges_ended_cache|]. intros add t [i Hi]%list_elem_of_lookup. exact (ei_calls _ _ _ Hy i _ Hi).
  - intros i j t Hi Hj Ht. assert (i ≠ j) as Hne by (intros ->; congruence).
    pose proof (lookup_lt_Some _ _ _ Hi). pose proof (lookup_lt_Some _ _ _ Hj).
    destruct (decide (t ∈ own_follows (eg_store y))) as [Hin|Hout].
    + destruct (last_writer kp j i false true t y) as (y' & Hrun' & Hcs' & Hf & Hflag); [done..|].
      exists y'. rewrite Hcs', Hf. split_and!; [done| | |done|].
      * rewrite list_lookup_insert_ne by done. by apply list_lookup_insert_eq.
      * apply list_lookup_insert_eq. by rewrite length_insert.
      * intros Hc. apply eq_true_false_abs in Hflag; [done|]. apply Hc. exists t. by rewrite Hf.
    + destruct (last_writer kp i j true false t y) as (y' & Hrun' & Hcs' & Hf & Hflag); [done..|].
      exists y'. rewrite Hcs', Hf. split_and!; [done| | |done|].
      * apply list_lookup_insert_eq. by rewrite length_insert.
      * rewrite list_lookup_insert_ne by done. by apply list_lookup_insert_eq.
      * intros Hc. apply Hc in Hflag as (t' & Ht' & ->%(inj _)). by rewrite Hf in Ht'.
Qed.
End follow.

(** ** Witnesses *)

(** Alice posts while a subscriber is between the two sections of
    [cachedPosts]. *)
Definition hi : SignedEvent := signed alice (stamped PostLog (post_event [Byte.x68] zero_hash) 5 alice_store).
Definition hi_id : bytes := match ID hi with Ok id => id | Err _ => [] end.
Definition before : sys :=
  mkSys alice_store alice_fresh.2 [PostStart [Byte.x68] zero_hash alice 5; SubStart].
Definition posted : store := (SignAndAppend alice PostLog (post_event [Byte.x68] zero_hash) 5 alice_store).2.
Definition heard : dstate := addSubscriber (newSubscriber 1) alice_fresh.2.
Definition rebuilt : list SignedEvent * dstate := cached_lock2 0 posted heard.
Definition dropped : dstate := invalidateFeed rebuilt.2.
Definition after : sys :=
  mkSys posted (push_post hi hi_id 5 posted dropped) [PostDone hi hi_id; SubOn rebuilt.1 []].

Lemma alice_all_ok : all_ok alice_store.
Proof. split; [exact empty_own_ok|exact empty_crawl_ok]. Qed.

Lemma posted_run : SignAndAppend alice PostLog (post_event [Byte.x68] zero_hash) 5 alice_store =
  (Ok (Some hi, hi_id), posted).
Proof.
  assert ((SignAndAppend alice PostLog (post_event [Byte.x68] zero_hash) 5 alice_store).1 =
    Ok (Some hi, hi_id)) as Hr by (vm_compute; reflexivity).
  unfold posted. destruct (SignAndAppend _ _ _ _ _) as [r s]. cbn [fst snd] in *. exact (f_equal (λ x, (x, s)) Hr).
Qed.

Lemma before_after : rtc sys_step before after.
Proof.
  eapply rtc_l; [exact (sub_register before 1 eq_refl)|].
  eapply rtc_l; [eapply (sub_miss _ 1 0); [reflexivity|vm_compute; reflexivity]|].
  eapply rtc_l; [eapply (post_write _ 0 _ _ _ _ hi hi_id posted)|].
  { reflexivity. }
  { exact posted_run. }
  { apply signed_storable; [exact alice_valid|vm_compute; reflexivity..]. }
  { vm_compute. reflexivity. }
  eapply rtc_l; [eapply (sub_rebuild _ 1 0 rebuilt.1 rebuilt.2); [reflexivity|vm_compute; reflexivity]|].
  eapply rtc_l; [apply (post_invalidate _ 0 hi hi_id 5); reflexivity|].
  eapply rtc_l; [apply (post_push _ 0 hi hi_id 5); reflexivity|].
  apply rtc_refl.
Qed.

Lemma subscribe_no_gap_witness :
  Posts (held_timeline posted) = [hi] ∧ (hi ∈ rebuilt.1 ∨ reached (y_mem after) 1 [] hi_id).
Proof.
  destruct (subscribe_no_gap before after) as [Hgap _].
  - split; [exact alice_all_ok|]. split; [apply fresh_empty; reflexivity|].
    intros [|[|i]] t Ht; [injection Ht as <-; exact I..|discriminate Ht].
  - exact before_after.
  - assert (Posts (held_timeline posted) = [hi]) as Hp by (vm_compute; reflexivity).
    split; [exact Hp|]. apply (Hgap 1 0 rebuilt.1 [] hi hi_id); [reflexivity|reflexivity|].
    change (y_store after) with posted. rewrite Hp. left.
Defined.

(** Alice likes a post twice at once: both likes are signed, then both
    appended; the second answer names an event that is not there. *)
Definition liked : bytes := replicate 32 Byte.x05.
Definition like1 : SignedEvent := signed alice (stamped PostLog (like_event liked) 5 alice_store).
Definition like2 : SignedEvent := signed alice (stamped PostLog (like_event liked) 6 alice_store).
Definition id_of (se : SignedEvent) : bytes := match ID se with Ok id => id | Err _ => [] end.
Definition asked : race := mkRace alice_store [Asked (like_event liked) 5; Asked (like_event liked) 6].
Definition first_done : store := (finish PostLog like1 alice_store).2.
Definition second_done : store := (finish PostLog like2 first_done).2.
Definition both_done : race :=
  mkRace second_done [Answered (Ok (Some like1, id_of like1)); Answered (Ok (Some like2, id_of like2))].

Lemma finish_run log se s :
  is_ok (finish log se s).1 = true →
  finish log se s = (Ok (Some se, id_of se), (finish log se s).2).
Proof.
  unfold id_of, finish, wrapM, lift, mbind, stM_bind.
  destruct (AppendOwnEvent log se s) as [[u|e] s']; cbn [wrap]; [|by destruct e].
  destruct (ID se) as [id|e]; cbn [wrap]; [done|by destruct e].
Qed.

Lemma asked_done : rtc (race_step alice PostLog) asked both_done.
Proof.
  eapply rtc_l; [apply (race_check _ _ _ 0 (like_event liked) 5); [reflexivity|vm_compute; reflexivity]|].
  eapply rtc_l; [apply (race_check _ _ _ 1 (like_event liked) 6); [reflexivity|vm_compute; reflexivity]|].
  eapply rtc_l; [apply (race_sign _ _ _ 0 (like_event liked) 5 like1); [reflexivity|vm_compute; reflexivity|]|].
  { apply signed_storable; [exact alice_valid|vm_compute; reflexivity..]. }
  eapply rtc_l; [apply (race_sign _ _ _ 1 (like_event liked) 6 like2); [reflexivity|vm_compute; reflexivity|]|].
  { apply signed_storable; [exact alice_valid|vm_compute; reflexivity..]. }
  eapply rtc_l; [apply (race_finish _ _ _ 0 like1 (Ok (Some like1, id_of like1)) first_done); [reflexivity|]|].
  { apply finish_run. vm_compute. reflexivity. }
  eapply rtc_l; [apply (race_finish _ _ _ 1 like2 (Ok (Some like2, id_of like2)) second_done); [reflexivity|]|].
  { apply finish_run. vm_compute. reflexivity. }
  apply rtc_refl.
Qed.

Lemma append_race_witness :
  subview (bucketOwn second_done) PostLog !! id_of like2 = None ∧
  ∃ p, like_of like2 = Some p ∧ has_like p (subview (bucketOwn second_done) PostLog).
Proof.
  assert (subview (bucketOwn second_done) PostLog !! id_of like2 = None) as Hnone
    by (vm_compute; reflexivity).
  split; [exact Hnone|].
  destruct (append_race alice PostLog alice_store (rc_writers asked) both_done) as (_ & _ & Hall & _).
  - reflexivity.
  - exact empty_own_ok.
  - exact one_like_empty.
  - repeat constructor.
  - exact asked_done.
  - destruct (Hall 1 like2 (id_of like2) eq_refl) as [_ [[se Hse]|Hp]]; [|exact Hp].
    change (subview (bucketOwn second_done) PostLog !! id_of like2 = Some se) in Hse.
    rewrite Hnone in Hse. discriminate Hse.
Defined.

(** Alice follows and unfollows Bob at once: both events are appended before
    either call has written the cache. *)
Definition bob_key : bytes := kp_Public bob.
Definition follow_bob : SignedEvent := signed alice (stamped ProfileLog (follow_ev KindFollow bob_key) 5 alice_store).
Definition after_follow : store := (finish ProfileLog follow_bob alice_store).2.
Definition unfollow_bob : SignedEvent := signed alice (stamped ProfileLog (follow_ev KindUnfollow bob_key) 6 after_follow).
Definition after_unfollow : store := (finish ProfileLog unfollow_bob after_follow).2.
Definition bob_calls : list edge_call := [Wanted true bob_key 5; Wanted false bob_key 6].
Definition bob_logged : edges := mkEdges after_unfollow [Logged true bob_key; Logged false bob_key].

Lemma bob_run : rtc (edges_step alice) (mkEdges alice_store bob_calls) bob_logged.
Proof.
  eapply rtc_l; [apply (edges_sign _ _ 0 true bob_key 5 follow_bob); [reflexivity|vm_compute; reflexivity|]|].
  { apply signed_storable; [exact alice_valid|vm_compute; reflexivity..]. }
  eapply rtc_l; [apply (edges_append _ _ 0 true bob_key follow_bob (Some follow_bob, id_of follow_bob) after_follow); [reflexivity| |]|].
  { intros e He. assert (subevents (bucketOwn alice_store) ProfileLog = []) as Hn by (vm_compute; reflexivity).
    cbn [eg_store calls_on] in He. rewrite Hn in He. destruct (not_elem_of_nil e He). }
  { apply finish_run. vm_compute. reflexivity. }
  eapply rtc_l; [apply (edges_sign _ _ 1 false bob_key 6 unfollow_bob); [reflexivity|vm_compute; reflexivity|]|].
  { apply signed_storable; [exact alice_valid|vm_compute; reflexivity..]. }
  eapply rtc_l; [apply (edges_append _ _ 1 false bob_key unfollow_bob (Some unfollow_bob, id_of unfollow_bob) after_unfollow); [reflexivity| |]|].
  { intros e He. assert (subevents (bucketOwn after_follow) ProfileLog = [follow_bob]) as Hn by (vm_compute; reflexivity).
    cbn [eg_store calls_on] in He. rewrite Hn in He. apply list_elem_of_singleton in He as ->.
    intros Hid. vm_compute in Hid. discriminate Hid. }
  { apply finish_run. vm_compute. reflexivity. }
  apply rtc_refl.
Qed.

Lemma follow_race_witness :
  ∃ y', rtc (edges_step alice) bob_logged y' ∧ ¬ cache_ok (eg_store y').
Proof.
  destruct (follow_race alice alice_store bob_calls bob_logged) as [_ Hboth].
  - exact empty_own_ok.
  - exact empty_cache_ok.
  - assert (subevents (bucketOwn alice_store) ProfileLog = []) as Hn by (vm_compute; reflexivity).
    repeat constructor; rewrite Hn; by intros e He%elem_of_nil.
  - exact bob_run.
  - destruct (Hboth 0 1 bob_key eq_refl eq_refl eq_refl) as (y' & Hrun & _ & _ & _ & Hbad).
    exists y'. by split.
Defined.
