(* ===== verification/PullProps.v ===== *)
(** * Properties of concurrent pulls *)

From S2P Require Import Prelude Base32 External Identity Event Log Bolt Store StoreFacts StoreFollow StoreFollowFacts StoreQuery Wire Session SessionFacts SessionRuns SessionInv SessionCursor PullRace.
#[local] Open Scope go_scope.

Section pulls.
Context `{BoltLaws, Blake3, !Blake3Laws, Ed25519, CborText}.
Context `{!CborType Event, !CborLaws Event, !CborType SignedEvent, !CborLaws SignedEvent}.
Context `{!CborType Message, !CborLaws Message}.
Context {D : Type} (cb : callbacks D).

Lemma advance_writes zen log after (k : nat) m s (d : D) :
  store_cursors cb → zen ≠ [] → bk_key_ok (cursorKey zen log) = true →
  (0 ≤ after)%Z → (after + cursorSkewWindow ≤ m < 2 ^ 63)%Z →
  let w := advanceCursor cb log after (k, m).2 (world_of zen s d) in
  SyncCursor zen log (w_store w) = Ok (m - cursorSkewWindow)%Z.
Proof.
  intros Hcb Hzen Hkey Ha Hm. cbn zeta. unfold advanceCursor. rewrite decide_False by done.
  rewrite (cursors_sink _ Hcb). unfold cursorSkewWindow in *.
  destruct (Z.eqb_spec (k, m).2 0) as [Hz|_]; [cbn in Hz; lia|]. cbn [snd].
  rewrite wrap_i64_id by (unfold in_i64; lia). destruct (Z.ltb_spec (m - 5 * 60 * 1000000000) after); [lia|].
  unfold store_sink. rewrite PutSyncCursor_ok by done. cbn [set_world_env w_store fst].
  rewrite SyncCursor_put by (unfold in_i64; lia). by rewrite decide_True.
Qed.

(** C15: Pulls that run at once lose nothing. However pulls, of one zen or of
    several, and whatever else adds verified events interleave, event by event:
    the logs grow only by verified events in their places, and every cursor is
    where it was before the pulls began, or five minutes before an event that is
    held, never earlier than it was. Between the pulls, though, a cursor can move back: of two
    pulls of one log the one that ends last sets it, to less if it received
    less. *)
Theorem pull_race (old : store) (d : D) (asks : list (bytes * bytes)) (y : @pulls _ D)
    (Hcb : store_cursors cb) (Hn : neutral cb)
    (Ho : subs_ok (bucketOwn old)) (Hc : subs_ok (bucketCrawl old))
    (Hasks : Forall (λ a, target old a.1 a.2) asks)
    (Hrun : rtc (pull_step cb) (mkPulls old d ((λ a, Asking a.1 a.2) <$> asks)) y) :
  grown old (pl_store y) ∧
  (∀ zen log c0, log ∈ log_names → cursor_at old zen log c0 →
     ∃ c, SyncCursor zen log (pl_store y) = Ok c ∧ mark old (pl_store y) c0 c) ∧
  (∀ i j zen log after k k' m n, i ≠ j →
     pl_all y !! i = Some (Receiving zen log after (k, m)) →
     pl_all y !! j = Some (Receiving zen log after (k', n)) →
     (after + cursorSkewWindow ≤ m)%Z → (m < n)%Z →
     ∃ y1 y2, pull_step cb y y1 ∧ pull_step cb y1 y2 ∧
       SyncCursor zen log (pl_store y1) = Ok (n - cursorSkewWindow)%Z ∧
       SyncCursor zen log (pl_store y2) = Ok (m - cursorSkewWindow)%Z).
Proof.
  assert (pulls_inv old y) as Hinv.
  { eapply (pulls_reachable cb Hcb Hn); [done..| |exact Hrun]. apply Forall_fmap.
    eapply Forall_impl; [exact Hasks|]. by intros a. }
  pose proof Hinv as [Hg Hcur Hall]. split_and!; [done|exact Hcur|].
  intros i j zen log after k k' m n Hij Hi Hj Hm Hmn. rewrite Forall_lookup in Hall.
  destruct (Hall i _ Hi) as ((Hzen & _ & Hkey & c0 & Hc0) & Ha & _).
  destruct (Ha c0 Hc0) as [Har _]. destruct Hc0 as [_ Hc0].
  destruct (Hall j _ Hj) as (_ & _ & [Hz|[Hnr _]]); cbn in *.
  { unfold cursorSkewWindow in *. lia. }
  pose proof (pull_ends cb y j zen log after (k', n) Hj) as Hs1. set (y1 := moves y j _ Over) in Hs1.
  assert (pl_all y1 !! i = Some (Receiving zen log after (k, m))) as Hi1 by (cbn; by rewrite list_lookup_insert_ne).
  pose proof (pull_ends cb y1 i zen log after (k, m) Hi1) as Hs2.
  eexists _, _. split; [exact Hs1|]. split; [exact Hs2|].
  split; apply advance_writes; try done; lia.
Qed.
End pulls.

(** ** Witness *)

From S2P Require Import Scenario.

(** Two pulls of bob's posts, one of which receives less than the other. *)
Definition pull_cb : callbacks unit :=
  mkCallbacks (Some alice) None None None None (Some store_source) (Some store_sink).

Lemma pull_cb_cursors : store_cursors pull_cb.
Proof. split; [done|done|intros f; discriminate]. Qed.

Lemma pull_cb_neutral : neutral pull_cb.
Proof.
  split; intros f; try discriminate. intros [= <-] i l c s d. unfold store_sink, PutSyncCursor, Update, put_in.
  by destruct (bk_Put _ _ _).
Qed.

Definition minute6 : SignedEvent := signed bob (post_ev (6 * 60 * 1000000000) 1 [Byte.x61]).
Definition minute7 : SignedEvent := signed bob (post_ev (7 * 60 * 1000000000) 2 [Byte.x62]).
Definition pull0 : pulls :=
  mkPulls empty_store tt [Asking (Identity bob) PostLog; Asking (Identity bob) PostLog].

(** The steps, each from the state before it. *)
Definition asks (i : nat) (y : pulls) : pulls :=
  let w := world_of (Identity bob) (pl_store y) (pl_env y) in
  moves y i w (Receiving (Identity bob) PostLog (pull_after pull_cb PostLog 0 [] w) (0, 0%Z)).
Definition gets (i : nat) (se : SignedEvent) (after : Z) (y : pulls) : pulls :=
  let r := pull_item pull_cb (0, 0%Z) se (world_of (Identity bob) (pl_store y) (pl_env y)) in
  moves y i r.2 (Receiving (Identity bob) PostLog after r.1).
Definition pull2 : pulls := asks 1 (asks 0 pull0).
Definition pull3 : pulls := gets 0 minute6 0 pull2.
Definition pull4 : pulls := gets 1 minute7 0 pull3.

Lemma after_zero : pull_after pull_cb PostLog 0 [] (world_of (Identity bob) empty_store tt) = 0%Z.
Proof. vm_compute. reflexivity. Qed.

Lemma pull_run : rtc (pull_step pull_cb) pull0 pull4.
Proof.
  assert (wf minute6 = true ∧ wf minute7 = true) as [H6 H7] by (split; vm_compute; reflexivity).
  apply (rtc_l _ _ (asks 0 pull0)); [exact (pull_asks pull_cb pull0 0 (Identity bob) PostLog eq_refl)|].
  apply (rtc_l _ _ pull2); [exact (pull_asks pull_cb (asks 0 pull0) 1 (Identity bob) PostLog eq_refl)|].
  assert (pl_all pull2 !! 0 = Some (Receiving (Identity bob) PostLog 0 (0, 0%Z))) as Hl0.
  { vm_compute. reflexivity. }
  assert (pl_all pull2 !! 1 = Some (Receiving (Identity bob) PostLog 0 (0, 0%Z))) as Hl1.
  { vm_compute. reflexivity. }
  apply (rtc_l _ _ pull3); [exact (pull_gets pull_cb pull2 0 (Identity bob) PostLog 0 (0, 0%Z) minute6 Hl0 H6)|].
  apply rtc_once. refine (pull_gets pull_cb pull3 1 (Identity bob) PostLog 0 (0, 0%Z) minute7 _ H7).
  unfold pull3, gets, moves. cbn [pl_all]. by rewrite list_lookup_insert_ne.
Qed.

Lemma asked_target : target empty_store (Identity bob) PostLog.
Proof.
  split; [discriminate|]. split; [right; right; left|]. split; [vm_compute; reflexivity|].
  exists 0%Z. split; [vm_compute; reflexivity|lia].
Qed.

Lemma pull4_six : pl_all pull4 !! 0 = Some (Receiving (Identity bob) PostLog 0 (1, 360000000000%Z)).
Proof. vm_compute. reflexivity. Qed.
Lemma pull4_seven : pl_all pull4 !! 1 = Some (Receiving (Identity bob) PostLog 0 (1, 420000000000%Z)).
Proof. vm_compute. reflexivity. Qed.

(** Both end: the cursor stands at two minutes, then at one. *)
Lemma pull_race_witness :
  ∃ y1 y2, pull_step pull_cb pull4 y1 ∧ pull_step pull_cb y1 y2 ∧
    SyncCursor (Identity bob) PostLog (pl_store y1) = Ok 120000000000%Z ∧
    SyncCursor (Identity bob) PostLog (pl_store y2) = Ok 60000000000%Z.
Proof.
  destruct (pull_race pull_cb empty_store tt [(Identity bob, PostLog); (Identity bob, PostLog)] pull4)
    as (_ & _ & Hback).
  - exact pull_cb_cursors.
  - exact pull_cb_neutral.
  - exact empty_own_ok.
  - exact empty_crawl_ok.
  - apply Forall_cons. split; [exact asked_target|]. apply Forall_cons. split; [exact asked_target|constructor].
  - exact pull_run.
  - apply (Hback 0 1 (Identity bob) PostLog 0%Z 1 1 360000000000%Z 420000000000%Z);
      [discriminate|exact pull4_six|exact pull4_seven|unfold cursorSkewWindow; lia|lia].
Defined.
