(* ===== verification/ShutdownProps.v ===== *)
(** * Properties of shutting down under load *)

From S2P Require Import Prelude Base32 External Identity Event Log Bolt Store StoreFollow StoreQuery Wire Crawler Daemon DaemonOps DaemonNet Shutdown ShutdownFacts.
#[local] Open Scope go_scope.

(** C17: Shutdown completes. Whatever broadcasts, streams and further [Stop]s
    run at the same time, and whatever the clients have done so far, once
    [Stop] has been called no run goes on forever, and even when no client does
    anything any more the program gets to a state where every goroutine has
    returned, [d.done] is closed, so that [Wait] returns, and no subscriber is
    registered, unless it panicked before. It stops nowhere else, and with one
    [Stop] and no broadcast running it does not panic. *)
Theorem shutdown_completes (ts : list goroutine) (x : system)
    (Hts : forallb called ts = true) (Hstop : StopCalled ∈ ts) (Hrun : rtc sys_step (serving ts, ts) x) :
  let over (y : system) := sh_done y.1 = true ∧ sh_subs y.1 = [] ∧ ∀ g, g ∈ y.2 → g = Finished in
  (∃ N, ∀ n y, nsteps sys_step n x y → n ≤ N) ∧
  (∃ y, rtc own_step x y ∧ (over y ∨ sh_crashed y.1 = true ∧ 1 < count is_closer ts)) ∧
  (quiet x → over x).
Proof.
  intros over. pose proof (shut_inv_run _ _ Hrun (shut_start ts Hts Hstop)) as Hx. split_and!.
  - exists (fuel x). intros n y Hn%steps_fuel. lia.
  - destruct (own_steps_end (fuel x) x (le_n _)) as (y & Hy & Hend). exists y. split; [done|].
    assert (rtc sys_step (serving ts, ts) y) as Hxy by (etrans; [exact Hrun|by apply own_steps_sys]).
    destruct Hend as [Hc|Hq]; [right|left].
    + split; [done|]. apply Nat.nle_gt. intros Hone.
      destruct (safe_run _ _ Hxy (start_safe ts Hts Hone)) as [? _]. congruence.
    + apply quiet_over; [|done]. by eapply shut_inv_run; [|apply shut_start].
  - by apply quiet_over.
Qed.

(** A subscriber whose client reads nothing, an event on its way, and [Stop]. *)
Definition slow_client : list goroutine := [SubCalled; Cast (ZenRemove []); StopCalled].

Lemma shutdown_completes_witness :
  ∃ x, run_all [(0, 0); (1, 0); (2, 0)] (serving slow_client, slow_client) = Some x ∧
       ∃ y, rtc own_step x y.
Proof.
  destruct (run_all [(0, 0); (1, 0); (2, 0)] (serving slow_client, slow_client)) as [x|] eqn:Hx;
    [|vm_compute in Hx; discriminate].
  exists x. split; [done|].
  destruct (shutdown_completes slow_client x eq_refl ltac:(by right; right; left) (run_all_steps _ _ _ Hx))
    as (_ & (y & Hy & _) & _).
  by exists y.
Defined.

(** C18: A channel is closed twice only when two race for it. A broadcast or a
    [Stop] that is the only one running never panics, and run on its own it
    does to the subscribers what [Daemon.broadcast] and [DaemonNet.Stop] do.
    But two broadcasts that find the same queue full, two [Stop]s, or a [Stop]
    and a broadcast, can both find the channel open, and the second close ends
    the program. *)
Theorem close_race :
  (∀ ts x, forallb called ts = true → count is_closer ts ≤ 1 → rtc sys_step (serving ts, ts) x →
     sh_crashed x.1 = false) ∧
  (∀ ev i ts h d, i < length ts → sh_crashed h = false → NoDup (sh_subs h) →
     subs d = subs_in (sh_heap h) (sh_subs h) →
     ∃ h', rtc own_step (h, <[i := Cast ev]> ts) (h', <[i := Finished]> ts) ∧ sh_subs h' = sh_subs h ∧
           subs (broadcast ev d) = subs_in (sh_heap h') (sh_subs h')) ∧
  (∀ i ts h d, i < length ts → sh_crashed h = false → NoDup (sh_subs h) →
     subs d = subs_in (sh_heap h) (sh_subs h) →
     ∃ h', rtc own_step (h, <[i := StopCalled]> ts) (h', <[i := StopClosing [] (sh_server h)]> ts) ∧
           subs_in (sh_heap h') (sh_subs h) = (Stop d).1 ∧ subs (Stop d).2 = subs_in (sh_heap h') (sh_subs h')) ∧
  (∀ ev, let ts := SubCalled :: replicate 258 (Cast ev) in
     ∃ x, rtc sys_step (serving ts, ts) x ∧ sh_crashed x.1 = true) ∧
  (let ts := [StopCalled; StopCalled] in ∃ x, rtc sys_step (serving ts, ts) x ∧ sh_crashed x.1 = true) ∧
  (∀ ev, let ts := SubCalled :: StopCalled :: replicate 257 (Cast ev) in
     ∃ x, rtc sys_step (serving ts, ts) x ∧ sh_crashed x.1 = true).
Proof.
  split_and!.
  - intros ts x Hts Hone Hrun. by destruct (safe_run _ _ Hrun (start_safe ts Hts Hone)).
  - intros ev i ts h d Hi Hc Hn Hd. exists (set_heap (cast_heap ev (sh_subs h) (sh_heap h)) h).
    split_and!; [|done|].
    + apply (own_run i _ (Casting ev (sh_subs h)) h h); [done|done|by left|by apply casting_run].
    + cbn. rewrite Hd. symmetry. by apply fold_alter_subs.
  - intros i ts h d Hi Hc Hn Hd.
    exists (set_heap (close_heap (sh_subs h) (sh_heap h)) (set_server false (set_sh_subs [] h))). split_and!; [| |done].
    + set (h1 := set_server false (set_sh_subs [] h)).
      apply (own_run i _ (StopClosing (sh_subs h) (sh_server h)) h h1); [done|done|by left|].
      by apply (closing_run _ _ h1).
    + cbn. rewrite Hd. by apply fold_alter_subs.
  - intros ev ts. eapply crash_run with (cs := (0, 0) :: full 1 ++ [(257, 0); (258, 0); (257, 0); (258, 0); (257, 0); (258, 0); (257, 0); (258, 0)]).
    by vm_compute.
  - intros ts. eapply crash_run with (cs := [(0, 0); (1, 0); (0, 0); (0, 0); (1, 0); (0, 0); (1, 0); (0, 0); (1, 0)]).
    by vm_compute.
  - intros ev ts. eapply crash_run with (cs := (0, 0) :: full 2 ++ [(258, 0); (258, 0); (1, 0); (258, 0); (1, 0); (258, 0); (1, 0)]).
    by vm_compute.
Qed.

Lemma close_race_witness : ∃ x, rtc sys_step (serving [StopCalled; StopCalled], [StopCalled; StopCalled]) x ∧ sh_crashed x.1 = true.
Proof. destruct close_race as (_ & _ & _ & _ & H & _). exact H. Defined.
