(* ===== verification/TuiProps.v ===== *)
(** * Properties of the user interface

    The invariant of the panels, lists as maps, the stability of the
    selection, the order of the feed, what reaches the daemon, and the
    follows list as a mirror of the daemon's follow set. *)

From Stdlib Require Import Strings.Byte.
From S2P Require Import Prelude Base32 External Identity Event Log Bolt Store StoreFacts StoreFollow StoreFollowFacts StoreQuery Wire Session Crawler Daemon DaemonOps Scenario Tui TuiFacts TuiModel TuiModelFacts TuiMirror.
#[local] Open Scope go_scope.
#[local] Open Scope Z_scope.

(** ** Lists *)

(** A list is the map from the keys of its rows to the rows: with distinct
    keys, an upsert inserts in the map and a removal deletes from it, both
    keep the keys distinct and the scroll and selection in range, and a row
    that is replaced stays where it was. *)
Theorem list_is_map {T} (key : T → bytes) (it : T) (id : bytes) (s : selectList T)
    (Hd : distinct key s) (Hr : in_range s) :
  as_map key (items (upsert key it s)) = <[key it := it]> (as_map key (items s)) ∧
  as_map key (items (remove key id s)) = delete id (as_map key (items s)) ∧
  distinct key (upsert key it s) ∧ distinct key (remove key id s) ∧
  in_range (upsert key it s) ∧ in_range (remove key id s) ∧
  (key it ∈ key <$> items s → key <$> items (upsert key it s) = key <$> items s).
Proof.
  split_and!; [by apply as_map_upsert|by apply as_map_remove|by apply upsert_distinct
    |by apply remove_distinct|by apply upsert_range|apply remove_range|].
  intros Hin. rewrite upsert_items. case_match eqn:Hf; [destruct p as [i y]|].
  - apply list_find_Some in Hf as (Hi & Hy & _). by apply (insert_keys _ _ _ y).
  - by apply find_none in Hf.
Qed.

(** The selection survives: an upsert in a list, and a post added to or
    removed from the feed, leave the selection on the item with the key it
    had, whatever rows appear above it; only the removal of the selected post
    itself moves it. *)
Theorem selection_stable {T} (key : T → bytes) (x it : T) (s : selectList T)
    (p q : feedPost) (id : bytes) (f : feedPanel)
    (Hr : in_range s) (Hit : selectedItem s = Some it)
    (Hf : in_range f) (Hq : selectedItem f = Some q) :
  (∃ it', selectedItem (upsert key x s) = Some it' ∧ key it' = key it ∧
          (key it ≠ key x → it' = it)) ∧
  (∃ q', selectedItem (feed_upsert p f) = Some q' ∧ fp_id q' = fp_id q) ∧
  (fp_id q ≠ id → selectedItem (feed_remove id f) = Some q).
Proof.
  split_and!; [by apply upsert_keeps|by apply feed_upsert_keeps|by apply feed_remove_keeps].
Qed.

(** Removing a row above the selection moves it: [remove] keeps the index
    and not the item, so the row after the selected one becomes selected,
    where the comment promises a stable selection and the feed's [remove]
    keeps it. *)
Theorem list_remove_moves {T} (key : T → bytes) (id : bytes) (s : selectList T) (i : nat) (y : T)
    (Hr : in_range s) (Hf : list_find (λ it, key it = id) (items s) = Some (i, y))
    (Hi : Z.of_nat i < selected s) (Hl : selected s + 1 < len s) :
  selectedItem (remove key id s) = at_ (items s) (selected s + 1).
Proof. by eapply remove_moves. Qed.

(** Navigation: in a list with rows and height, moving up or down goes one
    row, within the list, and leaves the selected row inside the window, as
    does going to the end; but going home selects the first row without
    scrolling to it, so the selection is out of sight unless the window was
    at the top already. *)
Theorem navigation {T} (s : selectList T) (d : Z) (k : bytes)
    (Hr : in_range s) (Hh : 0 < height s) (Hl : len s ≠ 0) :
  visible (move d s) ∧
  selected (move d s) = Z.max 0 (Z.min (len s - 1) (selected s + d)) ∧
  (k = # "end" ∨ k = # "G" → visible (press k s) ∧ selected (press k s) = len s - 1) ∧
  (k = # "home" ∨ k = # "g" → selected (press k s) = 0 ∧ (visible (press k s) ↔ yOffset s = 0)).
Proof.
  split_and!; [by apply move_visible|by apply move_selected| |].
  - intros Hk. assert (press k s = ensureVisible (set_selected (len s - 1) s)) as ->.
    { destruct Hk as [-> | ->]; unfold press; cbn -[len move];
        by destruct (Z.eqb_spec (len s) 0). }
    split; [apply ensureVisible_visible|]; destruct s; unfold ensureVisible, clampYOffset; revert Hr; list_lia.
  - intros Hk. assert (press k s = clampYOffset (set_selected 0 s)) as ->.
    { destruct Hk as [-> | ->]; unfold press; cbn -[len move];
        by destruct (Z.eqb_spec (len s) 0). }
    destruct s. unfold clampYOffset. revert Hr. list_lia.
Qed.

(** C34: The feed does not depend on the order in which posts arrive: pushing
    posts that are not in a sorted feed one by one gives the feed sorted
    newest first, ties by larger identifier first, however they were
    ordered. *)
Theorem feed_order_independent (ps ps' : list feedPost) (f : feedPanel)
    (Hs : StronglySorted (not_after postLess) (items f))
    (Hd : distinct_posts (items f ++ ps)) (Hid : Forall (λ p, fp_id p ≠ []) ps)
    (Hperm : ps ≡ₚ ps') :
  let push := foldl (λ f p, feed_upsert p f) f in
  items (push ps) = items (push ps') ∧
  items (push ps) ≡ₚ items f ++ ps ∧ StronglySorted (not_after postLess) (items (push ps)).
Proof.
  intros push. assert (distinct_posts (items f ++ ps')) as Hd'.
  { unfold distinct_posts in *. by rewrite <-Hperm. }
  assert (Forall (λ p, fp_id p ≠ []) ps') as Hid' by by rewrite <-Hperm.
  unfold push. rewrite !feed_pushes by done. split_and!.
  - apply stable_sort_perm_eq; [apply _|by rewrite Hperm|by apply distinct_posts_keys].
  - apply stable_sort_perm.
  - apply stable_sort_sorted, _.
Qed.

(** ** The model *)

Section model.
Context `{TextInput, Theme} (show : error → bytes).

(** C32: Whatever messages arrive, in whatever order (window sizes, snapshots,
    pushes, keys, wheel and clicks), the active tab is one of the four, every
    selection and scroll offset is in range, and drawing the active panel
    never panics: what a list draws is its window, as many rows as fit or as
    there are. *)
Theorem panels_never_panic (id : bytes) (msgs : list Msg) renderPost no_posts renderZen :
  let m := run show msgs (newModel id) in
  0 ≤ activeTab m < 4 ∧ in_range (feed m) ∧
  (∃ out, active_content renderPost no_posts renderZen m = Ok out) ∧
  ∀ s, s ∈ [m_zens m; follows m; followers m] →
    in_range s ∧ view renderZen s = Ok (join_lines (imap (row renderZen s) (window s))) ∧
    (0 ≤ height s → Z.of_nat (length (window s)) = Z.min (height s) (len s)).
Proof.
  intros m. assert (panels_ok m) as [Hf Hz Hfs Hfr Ht] by apply run_ok, newModel_ok.
  assert (∀ s, s ∈ [m_zens m; follows m; followers m] → in_range s) as Hall.
  { intros s. rewrite !elem_of_cons, elem_of_nil. naive_solver. }
  split_and!; [apply Ht..|done| |].
  - by apply active_content_ok, run_ok, newModel_ok.
  - intros s Hs. specialize (Hall s Hs). split_and!; [done|by apply view_window|].
    by apply window_length.
Qed.

(** What reaches the daemon: a post is sent exactly on enter with text on
    the line, which is cleared; a follow or unfollow exactly on f or u on the
    Zens tab, for the selected zen with a known identity that is not followed
    or is; and the program quits exactly on ctrl+c, or on esc with an empty
    line. Nothing else makes any of these requests. *)
Theorem ui_acts (msg : Msg) (m : model) :
  (∀ text, (Update show msg m).2 = postCmd text ↔
     ∃ k, msg = KeyPressMsg k ∧ k_String k = # "enter" ∧ text = compose_value m ∧ text ≠ []) ∧
  (∀ text, (Update show msg m).2 = postCmd text → (Update show msg m).1 = compose_reset m) ∧
  (∀ label target, (Update show msg m).2 = actionCmd label target ↔
     ∃ k z, msg = KeyPressMsg k ∧ activeTab m = tabZens ∧ selectedItem (m_zens m) = Some z ∧
       zn_identity z = target ∧ target ≠ [] ∧
       (k_String k = # "f" ∧ label = # "follow" ∧ isFollowing target m = false ∨
        k_String k = # "u" ∧ label = # "unfollow" ∧ isFollowing target m = true)) ∧
  ((Update show msg m).2 = Quit ↔
     ∃ k, msg = KeyPressMsg k ∧
       (k_String k = # "ctrl+c" ∨ k_String k = # "esc" ∧ compose_value m = [])).
Proof. apply Update_acts. Qed.
End model.

(** ** The follows list *)

Section mirror.
Context `{BoltLaws, Blake3, !Blake3Laws, Ed25519, !Ed25519Laws, order : GoRange, !GoRangeLaws}.
Context `{CborText, !CborTextLaws}.
Context `{!CborType Event, !CborType SignedEvent, !CborLaws Event, !CborLaws SignedEvent}.
Context `{TextInput, Theme} (ageOf : Z → bytes) (show : error → bytes).

(** C10: A subscriber sees the follows, provided that every follow and unfollow
    signs an event newer than all of the Profile log, and that its store write
    and its push are one step, with no other call in between. From a store whose follow cache agrees with its log, and a
    list without double rows: however such follows and unfollows, pushes about
    other things, the snapshot, the stream and the user's own keys interleave
    after [Subscribe] has registered, as long as the daemon has not dropped the
    subscriber for a full queue, the pushes still queued, replayed over the
    rows of the follows list, give the follow set of the node's log; so with
    nothing queued the list shows exactly the follow set. *)
Theorem subscription_coherent (w : daemon) (id : nat) (m : model) (u : ui)
    (Hok : own_ok w.1) (Hc : cache_ok w.1) (Hp : pins_ok w.1)
    (Hd : distinct zn_identity (follows m))
    (Hsteps : rtc (ui_step ageOf show) (subscribed w id m) u) :
  ∃ sb, subs (ui_daemon u).2 !! ui_index u = Some sb ∧
    (sub_done sb = false → ui_started u = true →
     pushed (sub_events sb) (model_rows u) = followed (ui_daemon u).1 ∧
     (sub_events sb = [] → ∀ t, isFollowing (IdentityFromPubkey t) (ui_model u) = true ↔
                                t ∈ own_follows (ui_daemon u).1)).
Proof.
  destruct (mirrors_reachable ageOf show _ _ Hsteps (mirrors_subscribed w id m Hok Hc Hp Hd))
    as [_ _ _ _ (sb & Hsb & Hq)].
  exists sb. split; [done|]. intros Hdone Hst. specialize (Hq Hdone). rewrite Hst in Hq.
  split; [done|]. intros Hnil t. rewrite Hnil in Hq. cbn in Hq.
  rewrite isFollowing_spec, <-(elem_of_list_to_set (C := gset bytes)).
  change (list_to_set _) with (model_rows u). rewrite Hq. unfold followed. split.
  - intros (x & Heq%(inj _) & Hx)%elem_of_map. by subst.
  - intros Ht. apply elem_of_map. by exists t.
Qed.
End mirror.

(** ** Witnesses *)

From S2P Require Import TuiScenario.

(** Three rows in a window of two, the last one selected. *)
Definition three_rows : selectList bytes :=
  press (# "end") (setItems [[Byte.x41]; [Byte.x42]; [Byte.x43]] (newSelectList 80 2)).

Lemma three_rows_range : in_range three_rows.
Proof. apply press_range, setItems_range. Qed.
Lemma three_rows_distinct : distinct (λ b : bytes, b) three_rows.
Proof. unfold distinct. apply (bool_decide_unpack _). vm_compute. exact I. Qed.

Lemma list_is_map_witness :
  as_map (λ b : bytes, b) (items (remove (λ b, b) [Byte.x41] three_rows)) =
    delete [Byte.x41] (as_map (λ b, b) (items three_rows)).
Proof.
  exact (proj1 (proj2 (list_is_map (λ b : bytes, b) [Byte.x44] [Byte.x41] three_rows
    three_rows_distinct three_rows_range))).
Defined.

Definition post_at (ts : Z) (id : bytes) : feedPost := mkFeedPost id [] [] [] [] ts.
Definition two_posts : feedPanel :=
  setPosts [post_at 9 [Byte.x41]; post_at 5 [Byte.x42]] (newSelectList 80 2).

(** A newer post arrives above the selected one. *)
Lemma selection_stable_witness :
  ∃ q, selectedItem (feed_upsert (post_at 12 [Byte.x43]) two_posts) = Some q ∧ fp_id q = [Byte.x41].
Proof.
  refine (proj1 (proj2 (selection_stable (λ b : bytes, b) [Byte.x41] [Byte.x43] three_rows
    (post_at 12 [Byte.x43]) (post_at 9 [Byte.x41]) [] two_posts three_rows_range _ _ _))).
  - reflexivity.
  - apply setItems_range.
  - reflexivity.
Defined.

Lemma list_remove_moves_witness :
  selectedItem (remove (λ b : bytes, b) [Byte.x41] (press (# "up") three_rows)) = Some [Byte.x43].
Proof.
  refine (list_remove_moves (λ b : bytes, b) [Byte.x41] (press (# "up") three_rows) 0 [Byte.x41] _ _ _ _).
  - apply press_range, three_rows_range.
  - reflexivity.
  - reflexivity.
  - reflexivity.
Defined.

Lemma navigation_witness : ¬ visible (press (# "home") three_rows).
Proof.
  destruct (navigation three_rows 1 (# "home") three_rows_range) as (_ & _ & _ & Hhome).
  - reflexivity.
  - discriminate.
  - destruct (Hhome (or_introl eq_refl)) as [_ Hv]. intros Hvis. apply Hv in Hvis. discriminate Hvis.
Defined.

Lemma feed_order_independent_witness :
  items (foldl (λ f p, feed_upsert p f) two_posts [post_at 7 [Byte.x43]; post_at 12 [Byte.x44]]) =
  items (foldl (λ f p, feed_upsert p f) two_posts [post_at 12 [Byte.x44]; post_at 7 [Byte.x43]]).
Proof.
  refine (proj1 (feed_order_independent [post_at 7 [Byte.x43]; post_at 12 [Byte.x44]] _ two_posts _ _ _ _)).
  - repeat constructor.
  - apply (bool_decide_unpack _). vm_compute. exact I.
  - repeat constructor; discriminate.
  - apply perm_swap.
Defined.

(** Alice follows bob between the registration and the snapshot. *)
Definition no_age (ts : Z) : bytes := [].
Definition no_show (e : error) : bytes := [].
Definition ui_0 : ui := subscribed (empty_store, daemon_New) 1 (newModel []).
Definition ui_1 : ui := set_daemon (writeFollow (kp_Public bob) alice 5 (ui_daemon ui_0)).2 ui_0.

(** One step of the stream: the snapshot, then the oldest push. *)
Definition take_snapshot (u : ui) : ui :=
  match snapshot (ui_daemon u).1 (ui_daemon u).2 with
  | (Ok sn, d) => mkUi ((ui_daemon u).1, d) (ui_index u) true
      (Update no_show (SnapshotMsg (Ok (snapshotFromProto no_age sn (ui_index u)))) (ui_model u)).1
  | (Err _, _) => u
  end.
Definition take_push (u : ui) : ui :=
  match subs (ui_daemon u).2 !! ui_index u with
  | Some (mkSubscriber _ (ev :: _) _) =>
      mkUi ((ui_daemon u).1, pump_at (ui_index u) (ui_daemon u).2) (ui_index u) true
        (receive no_age no_show (ui_index u) ev (ui_model u))
  | _ => u
  end.

Lemma take_snapshot_step u :
  ui_started u = false → is_ok (snapshot (ui_daemon u).1 (ui_daemon u).2).1 = true →
  ui_step no_age no_show u (take_snapshot u).
Proof.
  intros Hst Hok. unfold take_snapshot.
  destruct (snapshot (ui_daemon u).1 (ui_daemon u).2) as [[sn|e] d] eqn:Hsn; [|discriminate Hok].
  by apply ui_snapshot.
Qed.

Lemma take_push_step u sb :
  ui_started u = true → subs (ui_daemon u).2 !! ui_index u = Some sb → sub_events sb ≠ [] →
  ui_step no_age no_show u (take_push u).
Proof.
  intros Hst Hsb Hne. unfold take_push. rewrite Hsb.
  destruct sb as [id [|ev evs] dn]; [done|]. by eapply ui_pump.
Qed.

Definition ui_2 : ui := take_snapshot ui_1.
Definition ui_3 : ui := take_push ui_2.

Lemma ui_3_reached : rtc (ui_step no_age no_show) ui_0 ui_3.
Proof.
  eapply rtc_l; [exact (ui_follow no_age no_show ui_0 alice (kp_Public bob) 5 _ bob_length
                          (signs_bob KindFollow (or_introl eq_refl)))|].
  eapply rtc_l; [apply (take_snapshot_step ui_1); [reflexivity|vm_compute; reflexivity]|].
  apply rtc_once, (take_push_step ui_2 (mkSubscriber 1 [FollowsAdd (mkEntry (Identity bob) [] false false)] false));
    [vm_compute; reflexivity..|discriminate].
Qed.

Lemma subscription_coherent_witness : isFollowing (Identity bob) (ui_model ui_3) = true.
Proof.
  destruct (subscription_coherent no_age no_show (empty_store, daemon_New) 1 (newModel []) ui_3
    empty_own_ok empty_cache_ok empty_pins_ok (NoDup_nil_2) ui_3_reached) as (sb & Hsb & Hq).
  assert (sb = mkSubscriber 1 [] false) as -> by (vm_compute in Hsb; by injection Hsb as <-).
  destruct (Hq eq_refl) as [_ Hf]; [vm_compute; reflexivity|].
  change (Identity bob) with (IdentityFromPubkey (kp_Public bob)).
  apply (Hf eq_refl). vm_compute. reflexivity.
Defined.
