(* ===== verification/ViewProps.v ===== *)
(** * Properties of the drawn interface

    The window's budget of rows, the tabs under the mouse, and the feed panel
    as a list. *)

From Stdlib Require Import Strings.Byte.
From S2P Require Import Prelude Text Tui TuiFacts Feed TuiModel TuiModelFacts TuiView.
#[local] Open Scope go_scope.
#[local] Open Scope Z_scope.

Section view.
Context `{Lipgloss, !LipglossLaws, TextInput} (input_View : input → bytes).
#[local] Existing Instance measures.

(** C33: The window keeps its budget and its tabs are where they are drawn.
    Drawing never panics, whatever messages have arrived, and what is drawn is
    at most as tall as the window, once that has eight rows; below, the panel
    still takes four rows. And where the row of tabs shows the label of a tab,
    counted from the padding of the bar, a left click selects that tab, and a
    click on no label leaves the tabs alone. *)
Theorem view_and_tabs (id : bytes) (show : error → bytes) (msgs : list Msg)
    (Hsep : one_line tab_sep)
    (Hlabels : ∀ st t, st = st_tab theme ∨ st = st_tabActive theme → t ∈ tabs → one_line (Render st t)) :
  let m := run show msgs (newModel id) in
  (∃ out, View input_View m = Ok out ∧
     (m_width m ≠ 0 → lip_Height out ≤ Z.max 8 (m_height m))) ∧
  (∀ i label, tab_labels m !! i = Some label →
     let pre := before_label (take i (tab_labels m)) in
     (∃ post, join tab_sep (tab_labels m) = pre ++ label ++ post) ∧
     ∀ x, lip_Width pre ≤ x < lip_Width pre + lip_Width label →
       activeTab (routeClick MouseLeft (tabBarFrame ÷ 2 + x) 1 m) = Z.of_nat i) ∧
  (∀ x, (∀ i label, tab_labels m !! i = Some label →
           let pre := before_label (take i (tab_labels m)) in
           ¬ lip_Width pre ≤ x < lip_Width pre + lip_Width label) →
        routeClick MouseLeft (tabBarFrame ÷ 2 + x) 1 m = m).
Proof.
  intros m. assert (panels_ok m) as Hok by apply run_ok, newModel_ok.
  split; [by apply View_fits|].
  assert (Forall one_line (tab_labels m)) as Hl by by apply tab_labels_lines.
  assert (∀ i label, tab_labels m !! i = Some label →
    ∀ x, tabAt (tabBarFrame ÷ 2 + x) m = Z.of_nat i ↔
      lip_Width (before_label (take i (tab_labels m))) ≤ x <
      lip_Width (before_label (take i (tab_labels m))) + lip_Width label) as Hat.
  { intros i label Hi x. by apply tabAt_label. }
  split.
  - intros i label Hi. split; [by apply join_split|]. intros x Hx. unfold routeClick. cbn [Z.eqb]. apply Hat in Hx; [|done].
    rewrite Hx. by rewrite (proj2 (Z.leb_le 0 (Z.of_nat i))) by lia.
  - intros x Hno. unfold routeClick. cbn [Z.eqb]. destruct (Z.leb_spec 0 (tabAt (tabBarFrame ÷ 2 + x) m)) as [Hle|]; [|done].
    exfalso. destruct (tab_at_range tabs 0 (activeTab m) (tabBarFrame ÷ 2 + x - tabBarFrame ÷ 2) ltac:(done)) as [Hn|Hr].
    { unfold tabAt in Hle. lia. }
    change (tab_at tabs 0 (activeTab m) (tabBarFrame ÷ 2 + x - tabBarFrame ÷ 2))
      with (tabAt (tabBarFrame ÷ 2 + x) m) in Hr.
    destruct (tab_labels m !! Z.to_nat (tabAt (tabBarFrame ÷ 2 + x) m)) as [label|] eqn:Hn.
    + apply (Hno _ _ Hn). apply (Hat _ _ Hn). lia.
    + apply lookup_ge_None in Hn. unfold tab_labels in Hn. rewrite length_imap in Hn. lia.
Qed.
End view.

(** ** The feed panel *)

(** The feed panel is a list that keeps its posts in order. Whatever
    happens to a new panel (sizes, snapshots, pushes, removals, keys, wheel and
    clicks), it holds what the list of the other panels, with the feed's
    insertion, would hold; its selection and scroll stay in range; and drawing
    it never panics and gives the rows of its window, the selected one
    highlighted, at most as many as it is high. *)
Theorem feed_panel (w h : Z) (ops : list Feed.feed_op) (hint author age : bool → bytes → bytes) :
  let f := Feed.run_ops ops (Feed.newFeedPanel w h) in
  let s := foldl (λ s o, Feed.apply_list_op o s) (newSelectList w h) ops in
  Feed.as_list f = s ∧ in_range s ∧ Feed.selectedItem f = selectedItem s ∧
  Feed.render hint author age f =
    Ok (if Feed.f_height f <=? 0 then [] else
        if Feed.n_posts f =? 0 then hint false (# "(no posts yet)") else
        join_lines (imap (row (Feed.renderRow author age) s) (window s))) ∧
  (0 ≤ Feed.f_height f → Z.of_nat (length (window s)) ≤ Feed.f_height f).
Proof.
  intros f s. destruct (Feed.run_ops_list ops (Feed.newFeedPanel w h)) as [Heq Hr].
  specialize (Hr (newSelectList_range w h)). change (Feed.as_list f = s) in Heq.
  change (in_range (Feed.as_list f)) in Hr.
  rewrite Feed.render_list, (Feed.selectedItem_list f Hr).
  change (Feed.f_height f) with (height (Feed.as_list f)).
  change (Feed.n_posts f) with (len (Feed.as_list f)). rewrite Heq in *.
  split_and!; [done|done|done| |].
  - pose proof (view_window (Feed.renderRow author age) s Hr) as Hw.
    unfold feed_render, view in *. destruct (height s <=? 0); [done|]. by destruct (len s =? 0).
  - intros Hh. rewrite window_length by done. lia.
Qed.

(** ** Witnesses *)

From S2P Require Import TuiScenario.
Import ToyLipgloss.
#[local] Existing Instance measures.

(** A window of 80 columns: column 7 of the tab row is on the second label. *)
Definition resized : list Msg := [WindowSizeMsg 80 24].
Lemma view_and_tabs_witness :
  activeTab (routeClick MouseLeft (tabBarFrame ÷ 2 + 7) 1 (run (λ _, []) resized (newModel []))) = 1.
Proof.
  destruct (view_and_tabs input_Value [] (λ _, []) resized) as (_ & Hclick & _).
  - apply (bool_decide_unpack _). vm_compute. exact I.
  - intros st t Hst Ht.
    assert (st = 0) as -> by (destruct Hst as [->| ->]; reflexivity).
    change (one_line t). revert t Ht. apply Forall_forall. apply (bool_decide_unpack _). vm_compute. exact I.
  - destruct (Hclick 1%nat (# "Zens") eq_refl) as [_ Hx].
    apply (Hx 7). split; [discriminate|reflexivity].
Defined.
