(* ===== verification/RunProps.v ===== *)
(** * Properties of the interface at work

    A post from the key that sends it to the row that shows it. *)

From Stdlib Require Import Strings.Byte.
From S2P Require Import Prelude Base32 Text External Identity Event Log Bolt Store StoreFacts StoreFollow StoreQuery Wire Session Crawler Daemon DaemonOps DaemonFacts DaemonNet Lifecycle Net Server ServerFacts Cli Tui TuiFacts TuiModel TuiModelFacts TuiMirror TuiRun.
#[local] Open Scope go_scope.

Section run.
Context `{BoltLaws, Blake3, !Blake3Laws, Ed25519, Aead, CborText, order : GoRange}.
Context `{!CborType Event, !CborType SignedEvent, !CborType EncryptedKey, !CborType Message}.
Context `{TextInput, !TextInputLaws, Theme} (ageOf : Z → bytes) (show : error → bytes).
Context (transport : option (bytes → result conn)) (nonce : result bytes) (now now' : Z).

(** C19: A post typed is a post shown. Enter on a line with text sends the text
    to the daemon and clears the line at once. Either the daemon signs it: its
    post log then holds the event, the notice names the event's ID, and once the
    interface has read the pushes waiting on its stream, in any number below the
    queue's bound, the feed panel has a row with that ID, the text, the time and
    the user as the author, and nothing is left to read. Or it refuses, as when
    the key is locked: the notice says why, the store is as it was, and the text
    is gone from the line all the same. *)
Theorem post_appears (a : app) (k : KeyPress) (kp : KeyPair) (sub i : nat) (sb : subscriber)
    (Hon : on_stream sub i sb a) (Hdone : sub_done sb = false)
    (Hroom : length (sub_events sb) < subscribeQueue)
    (Hkey : k_String k = # "enter") (Htext : compose_value (ap_model a) ≠ [])
    (Hid : Store_Identity (ap_daemon a).1 = Some (Identity kp))
    (Hkp : unlocked (ap_daemon a).2 = None ∨ unlocked (ap_daemon a).2 = Some kp) :
  let text := compose_value (ap_model a) in
  let a1 := hit ageOf show transport nonce now now' k a in
  let a2 := catch_up ageOf show transport nonce now now' (S (S (length (sub_events sb)))) sub a1 in
  compose_value (ap_model a1) = [] ∧
  ((∃ se id p,
      SignAndAppend kp PostLog (post_event text zero_hash) now' (ap_daemon a).1 =
        (Ok (Some se, id), (ap_daemon a1).1) ∧
      notice (ap_model a1) = # "posted " ++ EventID_String id ∧
      p ∈ items (feed (ap_model a2)) ∧ fp_id p = EventID_String id ∧ fp_text p = text ∧
      fp_author p = Identity kp ∧ fp_ts p = e_Timestamp (se_Event se) ∧
      (ap_daemon a2).1 = (ap_daemon a1).1 ∧
      on_stream sub i (mkSubscriber (sub_id sb) [] false) a2) ∨
   (∃ er, notice (ap_model a1) = show er ∧ (ap_daemon a1).1 = (ap_daemon a).1)).
Proof.
  intros text a1 a2. subst a1.
  set (a0 := mkApp (compose_reset (ap_model a)) (ap_up a) (ap_daemon a) (ap_next a)).
  pose proof (hit_enter ageOf show transport nonce now now' k a Hkey Htext) as Hhit. cbn zeta in Hhit.
  fold text a0 in Hhit.
  destruct (postText transport nonce now now' text a0) as [r a'] eqn:Hpost.
  pose proof (call_model (rpc_sign transport nonce (SPost text []) [] now now') a0) as Hmodel.
  change (call _ a0) with (postText transport nonce now now' text a0) in Hmodel.
  rewrite Hpost in Hmodel. cbn [snd] in Hmodel.
  destruct Hon as [Hup Hon].
  pose proof (postText_run transport nonce now now' text kp a0 r a' Htext Hup Hid Hkp Hpost) as Hrun.
  subst a2. rewrite Hhit. cbn [ap_model ap_daemon]. split.
  { unfold compose_value. destruct r; cbn; rewrite Hmodel; cbn; by rewrite Value_Reset. }
  destruct r as [eid|er]; [|right; by exists er]. left.
  destruct Hrun as (Hup' & se & id & name & Hsa & HID & -> & Hsubs).
  exists se, id, (feedItemFromProto ageOf (post_item se id kp name text)).
  set (b := mkApp _ _ _ _).
  set (sb' := mkSubscriber (sub_id sb) (sub_events sb ++ [FeedAdd [post_item se id kp name text]]) false).
  assert (on_stream sub i sb' b) as Hb.
  { split; [done|]. cbn [b ap_daemon]. rewrite Hsubs. by apply list_find_offer. }
  destruct (catch_up_all ageOf show transport nonce now now' sub i sb' (S (S (length (sub_events sb)))) b Hb eq_refl)
    as (Hm & Hd & Hs).
  { cbn [sb' sub_events]. rewrite length_app. cbn. lia. }
  split_and!; [done|done| |done..].
  rewrite Hm. cbn [sb' sub_events]. rewrite foldl_app. cbn [foldl].
  apply feed_upsert_has. cbn. by eapply EventID_String_ne.
Qed.
End run.

(** ** Witness *)

From S2P Require Import TuiScenario Scenario.

(** Alice has typed a letter; her interface reads stream 3. *)
Definition seated : app :=
  mkApp (set_compose (H := toy_input) [Byte.x68] (newModel (Identity alice))) true
    (alice_store, addSubscriber (newSubscriber 3) alice_fresh.2) 4.
Definition enter : KeyPress := mkKey (# "enter") [].
Definition sent : app := hit (λ _, []) (λ _, []) None (Ok []) 5 5 enter seated.

Lemma post_appears_witness :
  ∃ p, p ∈ items (feed (ap_model (catch_up (λ _, []) (λ _, []) None (Ok []) 5 5 2 3 sent))) ∧
    fp_text p = [Byte.x68] ∧ fp_author p = Identity alice.
Proof.
  destruct (post_appears (λ _, []) (λ _, []) None (Ok []) 5 5 seated enter alice 3 0 (newSubscriber 3))
    as [_ [(se & id & p & _ & _ & Hp & _ & Ht & Ha & _)|(er & Hn & _)]].
  - split; reflexivity.
  - reflexivity.
  - cbn. unfold subscribeQueue. lia.
  - reflexivity.
  - vm_compute. discriminate.
  - vm_compute. reflexivity.
  - right. reflexivity.
  - exists p. split; [exact Hp|]. split; [rewrite Ht; vm_compute; reflexivity|exact Ha].
  - exfalso. apply (f_equal length) in Hn. revert Hn. vm_compute. discriminate.
Defined.
