(* ===== verification/GenDbProps.v ===== *)
(** * Properties of the generator of test stores

    What a generated store holds, and when the generator ends. *)

From Stdlib Require Import QArith.QArith_base Strings.Byte.
From S2P Require Import Prelude Base32 Text External Identity Event Log Bolt Store StoreFacts StoreFollow StoreFollowFacts GenDb GenDbFacts GenDbRuns.
#[local] Open Scope go_scope.

Section props.
Context `{BoltLaws, Blake3, !Blake3Laws, Ed25519, !Ed25519Laws, Aead, GoRange, !GoRangeLaws, Rand}.
Context `{CborText, !CborTextLaws, !CborType EncryptedKey}.
Context `{!CborType Event, !CborType SignedEvent, !CborLaws Event, !CborLaws SignedEvent}.
Context (clock : nat → Z) (seeds : nat → bytes).

(** ** What the invariant says of the store *)

Lemma inv_cache_ok own zens s : own_inv own zens s →
  size (subview (bucketOwn s) ProfileLog) = S (length zens) → cache_ok s.
Proof.
  intros Hinv Hsize id. rewrite (oi_flags _ _ _ Hinv). split.
  - intros (kp & Hkp & ->). exists (kp_Public kp). split; [|done]. by apply (oi_all _ _ _ Hinv).
  - intros (t & Ht & ->). apply (own_follows_only own zens) in Ht as (k & se & Hk & Hact); [|done].
    apply (oi_follows _ _ _ Hinv) in Hk as [_ Hin].
    apply Hin, list_elem_of_fmap in Hact as (kp & -> & Hkp). by exists kp.
Qed.

Lemma row_of_inj se se' r : row_of se r → row_of se' r → se = se'.
Proof. intros (_ & _ & Hv & Hwf) (_ & _ & Hv' & Hwf'). exact (CanonicalEncode_inj _ _ _ Hwf Hwf' Hv Hv'). Qed.

Lemma NoDup_omap_lookup {A B} (f : A → option B) l i j x y b :
  NoDup (omap f l) → l !! i = Some x → l !! j = Some y → f x = Some b → f y = Some b → i = j.
Proof.
  revert i j. induction l as [|z l IH]; intros i j Hnd Hi Hj Hx Hy; [done|]. cbn in Hnd.
  assert (∀ n w, l !! n = Some w → f w = Some b → b ∈ omap f l) as Hin.
  { intros n w Hn Hw. apply list_elem_of_omap. exists w. split; [|done]. by eapply list_elem_of_lookup_2. }
  destruct i as [|i], j as [|j]; cbn in Hi, Hj; [done|injection Hi as ->|injection Hj as ->|].
  - rewrite Hx in Hnd. apply NoDup_cons in Hnd as [[] _]. by eapply Hin.
  - rewrite Hy in Hnd. apply NoDup_cons in Hnd as [[] _]. by eapply Hin.
  - f_equal. eapply IH; try done. destruct (f z); [by apply NoDup_cons in Hnd as [_ ?]|done].
Qed.

Lemma inv_one_like likes batch s a : crawl_inv likes batch s → NoDup likes →
  one_like (subview (bucketCrawl s) a).
Proof.
  intros [(evs & Hevs & Hl) _ Hfrom] Hnd k1 k2 e1 e2 p Hk1 Hk2 Hl1 Hl2. subst likes.
  apply Hfrom in Hk1 as (r1 & Hr1 & [Hrow1 _] & _ & ->), Hk2 as (r2 & Hr2 & [Hrow2 _] & _ & ->).
  apply list_elem_of_lookup in Hr1 as [i Hi], Hr2 as [j Hj].
  destruct (Forall2_lookup_r _ _ _ _ _ Hevs Hi) as (x & Hx & [Hrx _]).
  destruct (Forall2_lookup_r _ _ _ _ _ Hevs Hj) as (y & Hy & [Hry _]).
  assert (i = j) as <-; [|congruence].
  eapply (NoDup_omap_lookup like_target); [done..| |].
  - rewrite (row_of_inj _ _ _ Hrx Hrow1). unfold like_target. by rewrite Hl1.
  - rewrite (row_of_inj _ _ _ Hry Hrow2). unfold like_target. by rewrite Hl2.
Qed.

(** C37: A generated store is a real one. When the generator ends without an
    error, it has made the zens and posts asked for, and the store keeps the
    invariants of a store that the daemon filled, though the crawl cache was
    written past its operations: the logs decode; every event lies under its ID
    in the log of its author and verifies; exactly the zens are followed, and
    pins lie on follows; the user likes no post twice, and neither does a zen
    when no two posts share an ID; every post is there to be shown. The cache of
    follows agrees with the signed log unless two of the events signed for it
    share an ID. *)
Theorem generated_store (fuel : nat) (f : flags) (present : bool) (removed : result unit) (seed : Z)
    (salt nonce : bytes) (start : Z) (rep : report) (g : gen)
    (Hclock : ∀ n, in_i64 (clock n)) (Hseeds : ∀ n, length (seeds n) = 32)
    (Hname : is_ascii (ownName f))
    (Hrun : gen_main clock seeds fuel f present removed seed salt nonce start = (Ok rep, g)) :
  let s := g_store g in
  made_as_asked f rep ∧ own_ok s ∧ subs_ok (bucketCrawl s) ∧
  (∀ n k se, subview (bucketOwn s) n !! k = Some se →
     ID se = Ok k ∧ Verify se = Ok tt ∧ se_Author se = Identity (r_own rep)) ∧
  (∀ a k se, subview (bucketCrawl s) a !! k = Some se → ID se = Ok k ∧ Verify se = Ok tt ∧ se_Author se = a) ∧
  (∀ id, IsFollowed id s = true ↔ ∃ kp, kp ∈ r_remotes rep ∧ id = Identity kp) ∧ pins_ok s ∧
  (size (subview (bucketOwn s) ProfileLog) = S (length (r_remotes rep)) → cache_ok s) ∧
  one_like (subview (bucketOwn s) PostLog) ∧
  (NoDup (pr_id <$> r_posts rep) → ∀ a, one_like (subview (bucketCrawl s) a)) ∧
  (∀ p, p ∈ r_posts rep →
     is_Some (subview (bucketOwn s) PostLog !! pr_id p) ∧ pr_author p = r_own rep ∨
     is_Some (subview (bucketCrawl s) (Identity (pr_author p)) !! pr_id p)).
Proof.
  unfold gen_main in Hrun.
  apply stM_bind_Ok in Hrun as ([] & g1 & Hcheck & Hrun). injection Hcheck as _ <-.
  apply stM_bind_Ok in Hrun as ([] & g2 & Hclaim & Hrun). injection Hclaim as _ <-.
  destruct (generate_run clock seeds Hclock Hseeds _ _ _ _ _ _ _ _ Hname Hrun)
    as ((ls & [Ho Hc Hposts _ _] & Hsub) & Hfl & Hmade).
  cbn in *. split_and!; try by destruct Ho.
  - by destruct Hc.
  - intros n k se Hk. split; [by eapply subview_ID; [apply Ho|]|by eapply oi_signed].
  - intros a k se Hk. destruct (ci_from _ _ _ Hc _ _ _ Hk) as (r & _ & [(Ha & HID & _) Hver] & -> & ->). done.
  - by apply (inv_cache_ok (r_own rep)).
  - intros Hnd a. eapply inv_one_like; [exact Hc|]. by eapply sublist_NoDup.
  - intros p Hp. rewrite Forall_forall in Hposts. destruct (Hposts p Hp) as [[Ha Hs]|(r & Hr & Ha & Hid)].
    + by left.
    + right. cbn in *. rewrite <-Ha, <-Hid. by apply Hfl.
Qed.

(** A draw of a liker ends as long as someone other than the author can be
    drawn, and comes up; when the author is the only one there is, the loop
    never ends. *)
Definition later_draw (n m : nat) (x : rng) : rng := Nat.iter m (λ x, (rnd_Intn n x).2) x.

Theorem draw_ends (likers : list KeyPair) (author : bytes)
    (Hn : ∀ n x, 0 < n → (rnd_Intn n x).1 < n) (Hne : likers ≠ []) :
  ((∀ c, c ∈ likers → Identity c = author) →
   ∀ fuel g, (draw_liker fuel likers author g).1 = Err (E "out of fuel")) ∧
  (∀ m k c g, likers !! k = Some c → Identity c ≠ author →
   (rnd_Intn (length likers) (later_draw (length likers) m (g_rnd g))).1 = k →
   ∃ c' g', draw_liker (S m) likers author g = (Ok c', g') ∧ c' ∈ likers ∧ Identity c' ≠ author).
Proof.
  assert (0 < length likers) as Hlen by (destruct likers; [done|cbn; lia]).
  split.
  - intros Hall fuel. induction fuel as [|fuel IH]; intros g; [done|]. cbn [draw_liker].
    unfold mbind, stM_bind, Intn, on_rnd. pose proof (Hn _ (g_rnd g) Hlen) as Hi.
    destruct (rnd_Intn _ (g_rnd g)) as [i x]. cbn in Hi.
    destruct (lookup_lt_is_Some_2 likers i Hi) as [c Hc]. rewrite Hc.
    rewrite decide_True; [apply IH|]. apply Hall. by eapply list_elem_of_lookup_2.
  - intros m. induction m as [|m IH]; intros k c g Hk Hc Hdraw; cbn [draw_liker];
      unfold mbind, stM_bind, Intn, on_rnd.
    + cbn in Hdraw. destruct (rnd_Intn _ (g_rnd g)) as [i x]. cbn in Hdraw. subst i. rewrite Hk.
      rewrite decide_False by done. exists c. eexists. split_and!; [done| |done]. by eapply list_elem_of_lookup_2.
    + pose proof (Hn _ (g_rnd g) Hlen) as Hi. unfold later_draw in Hdraw. rewrite Nat.iter_succ_r in Hdraw.
      destruct (rnd_Intn _ (g_rnd g)) as [i x]. cbn in Hi.
      destruct (lookup_lt_is_Some_2 likers i Hi) as [c1 Hc1]. rewrite Hc1.
      case_decide as Ha.
      * by eapply (IH k c (mkGen (g_store g) (g_batch g) x (g_ticks g) (g_keys g))).
      * exists c1. eexists. split_and!; [done| |done]. by eapply list_elem_of_lookup_2.
Qed.
End props.

(** ** Witnesses *)

From S2P Require Import Scenario.

(** A source that counts. *)
#[local] Instance counting : Rand := {|
  rng := nat;
  rnd_New := Z.to_nat;
  rnd_Float64 x := (Finite 0, x);
  rnd_Intn n x := (x mod n, S x);
|}.

Definition small : flags := mkFlags 2 1 1 (Finite 1) (Finite 1) (Finite 1) (# "me") (# "pass") false.
Definition run_small : result report * gen :=
  gen_main (λ n, Z.of_nat (S n) `mod` 1000)%Z (λ n, replicate 32 (byte_of (N.of_nat n)))
    9 small false (Ok tt) 1 (replicate 16 Byte.x00) (replicate 12 Byte.x00) 100.

(** It ends, and no two of its events share an ID. *)
Lemma run_small_ok :
  match run_small with
  | (Ok rep, g) =>
      bool_decide (size (subview (bucketOwn (g_store g)) ProfileLog) = S (length (r_remotes rep))) &&
      bool_decide (NoDup (pr_id <$> r_posts rep)) && (0 <? r_likes rep) && (0 <? r_pins rep)
  | _ => false
  end = true.
Proof. vm_compute. reflexivity. Qed.

Lemma generated_store_witness :
  ∃ rep g, run_small = (Ok rep, g) ∧ length (r_posts rep) = 3 ∧ cache_ok (g_store g) ∧ pins_ok (g_store g) ∧
    one_like (subview (bucketCrawl (g_store g)) (Identity alice)).
Proof.
  pose proof run_small_ok as Hok. destruct run_small as [[rep|e] g] eqn:Hrun; [|discriminate Hok].
  destruct (generated_store (λ n, Z.of_nat (S n) `mod` 1000)%Z (λ n, replicate 32 (byte_of (N.of_nat n)))
    9 small false (Ok tt) 1 (replicate 16 Byte.x00) (replicate 12 Byte.x00) 100 rep g)
    as ([_ Hposts] & _ & _ & _ & _ & _ & Hpins & Hcache & _ & Hone & _).
  - intros n. unfold in_i64. pose proof (Z.mod_pos_bound (Z.of_nat (S n)) 1000 eq_refl). lia.
  - intros n. reflexivity.
  - apply is_ascii_lit. vm_compute. reflexivity.
  - exact Hrun.
  - apply andb_prop in Hok as [Hok _]. apply andb_prop in Hok as [Hok _]. apply andb_prop in Hok as [Hsize Hnd].
    apply bool_decide_eq_true in Hsize, Hnd.
    exists rep, g. split; [reflexivity|]. split; [rewrite Hposts; reflexivity|].
    split; [exact (Hcache Hsize)|]. split; [exact Hpins|]. exact (Hone Hnd (Identity alice)).
Defined.

Lemma draw_ends_witness :
  (∀ fuel g, (draw_liker fuel [alice] (Identity alice) g).1 = Err (E "out of fuel")) ∧
  ∃ c' g', draw_liker 2 [alice; bob] (Identity alice) (mkGen empty_store [] (0 : rng) 0 0) = (Ok c', g') ∧
    c' ∈ [alice; bob] ∧ Identity c' ≠ Identity alice.
Proof.
  split.
  - refine (proj1 (draw_ends [alice] (Identity alice) _ _) _).
    + intros n x Hn. cbn. apply Nat.mod_upper_bound. lia.
    + discriminate.
    + intros c ->%list_elem_of_singleton. reflexivity.
  - refine (proj2 (draw_ends [alice; bob] (Identity alice) _ _) 1 1 bob (mkGen empty_store [] (0 : rng) 0 0) eq_refl _ eq_refl).
    + intros n x Hn. cbn. apply Nat.mod_upper_bound. lia.
    + discriminate.
    + vm_compute. discriminate.
Defined.
